(* ===== verification/_CoqProject ===== *)
-Q . S2P
Prelude.v
Utf8.v
StdMap.v
ByteIO.v
Message.v
Codec.v
HashBlocks.v
Fips180.v
Sha256.v
Sha1.v
Base64.v
Random.v
Socket.v
WsFrame.v
WsReceive.v
HttpText.v
Handshake.v
Clock.v
Server.v
Log.v
Endpoint.v
ServerThreads.v
ServerRuns.v
ServerMain.v
Hearing.v
Dialogue.v
ServerTalk.v
Net.v
Sessions.v
Client.v
ClientThreads.v
ClientRuns.v
ClientTalk.v
System.v
