(* ===== verification/Prelude.v ===== *)
(** * Verification of the C++ implementation of hello-websocket

    ** The program

    hello-websocket-cpp is a WebSocket client and server that speak a small
    binary protocol (PROTOCOL.md) over TCP sockets, with no library beyond the
    C++ standard library.  All of it is in four files:

    - common/codec.hpp: the protocol messages and their bytes, UTF-8 validation,
      SHA-256, the clock;
    - common/ws.hpp: SHA-1, Base64, HTTP header lookup, the TCP helpers, WebSocket
      frames, the opening handshake of both sides (WSServer, WSClient);
    - server/ws_server.cpp: [main] accepts connections; [handleClient] serves one
      connection with a receive loop and four background threads;
    - client/ws_client.cpp: [main] makes up to three attempts; [tryConnect] runs
      one connection with a receive loop and one background thread.

    A message travels from [Message::encode] through [sendFrame] (a mutex and a
    flag), [wsSendBinary] and [sendAll] to the socket, and on the other side from
    [recvAll] through [wsRecvFrame] and [decodeMessage] to a handler, which may
    answer the same way.

    ** The files

    Each file has the definitions that translate the code first ("The code"),
    then the reference or contract it is compared with, then lemmas, then the
    theorems.  In the order of the layers:

    - Prelude: bit operations, machine widths, [result] (a value, a thrown
      exception, or [Stuck]: an out-of-range access or a loop out of fuel),
      buffers, number texts, shared lemmas and tactics, record update;
    - Utf8 ([isValidUtf8]), StdMap ([std::map]), ByteIO ([ByteWriter],
      [ByteReader] and the interface [codec] of a write and a read with their
      laws), Message (frames, messages, [encode], [decodeMessage]), Codec (the
      proofs: each payload is a composition of codecs);
    - HashBlocks (padding and blocks of FIPS 180-4), Fips180 (SHA-256 and SHA-1
      of FIPS 180-4, the reference), Sha256 ([sha256], [hashNumber]), Sha1
      ([SHA1]), Base64 ([base64Encode]), Random (the Mersenne twister, library
      code that the C++ standard specifies and the program only calls);
    - Socket: the operating system as the class [Sys] with the laws [SysLaws],
      the effect type [io], [recvAll], [sendAll], [recvHttpHeaders], and [tape],
      a concrete world that satisfies the laws and runs the witnesses;
    - WsFrame (the senders and [wsRecvFrame], RFC 6455 frames as the reference),
      WsReceive (its theorems), HttpText ([extractHeader]), Handshake
      ([WSServer], [WSClient], [wsAcceptKey], [generateWSKey]), Clock ([nowISO],
      [gmtimeSafe]);
    - Server (the port, the message handler, the receive loop and its contract),
      Endpoint ([sendFrame] and [wsRecvFrame] cut into steps for threads),
      ServerThreads (the five threads of [handleClient]), ServerRuns (what holds
      in all their interleavings), ServerMain (the accept loop and any number of
      sessions), Log ([log] and the texts of its callers);
    - Hearing (which messages a receive loop has been handed, as a function of
      the bytes that arrived), Dialogue (the invariant of a loop that hears and
      answers while other threads send on the same connection), ServerTalk (the
      session keeps it), Net (the laws between connections, and a world with
      many of them), Sessions (a session among the others of its server);
    - Client (messages and handler), ClientThreads (the two threads of
      [tryConnect] and the attempts of [main]), ClientRuns (their
      interleavings), ClientTalk (the client keeps the dialogue);
    - System: client and server together.

    ** State and operations

    Structs are records with the fields of the source ([Message], [EchoResult],
    [WSFrame], [SHA1], [ByteReader], [WSServer], [WSClient]).  Integers are [Z];
    every conversion that can lose bits is written out ([u8] .. [i64]), and a
    [size_t] sum is taken modulo 2^64 where the source can overflow it.  Reads
    and writes of buffers go through [rd], [wr] and [rd_range], which are
    [Stuck] outside the buffer, so that the theorems include memory safety.

    Code with effects is [io W A]: a function from a world to an outcome and a
    world.  The world is abstract; [Sys] has one operation per system call or
    library source of nondeterminism ([::recv], [::send], [::accept], ...,
    [std::random_device], the clock, the draw of [std::uniform_int_distribution],
    the order in which the operands of a subtraction are evaluated)
    and ghost observers for what the laws speak of.  The laws state documented
    behaviour only: a blocking [recv] of a positive count returns a nonempty
    part of what the peer sends or a value <= 0 at the end; a [send] takes a
    nonempty part or fails; new descriptors are not yet open; and so on.

    The shared state of a session is a record [sess]: the atomic flag, the last
    PONG time and the language, the mutex, and a program counter for each
    thread.  [exec] is the next step of one thread and [step] any thread taking
    one; a run is the reflexive transitive closure.  Every access to the flag and
    to the last PONG time, every lock and unlock, every [::send], the close and the shutdown is a step
    of its own; reading one WebSocket frame is one step, because only the
    receive thread reads from its socket.  [client] and [cstep] are the same for
    the client, [prog] and [pstep] add the accept loop, [cprog] and [cpstep] the
    attempts of the client.

    ** What the theorems show

    - The codec (Codec, Utf8): round trip of all message types, memory safety and
      termination on every input, canonical form of what is accepted, the
      classification of errors, UTF-8 validation against RFC 3629.
    - The hashes and encodings (Sha256, Sha1, Base64, Handshake, Clock): equality
      with SHA-256 and SHA-1 of FIPS 180-4 on every byte string, constants
      included; the accept key of RFC 6455; independence of uninitialised
      memory; round trips of Base64 and of the calendar.
    - WebSocket (WsReceive, Socket, HttpText, Handshake): every legal sequence of
      fragments and control frames is reassembled and answered, nothing else is
      accepted and every byte of what is returned was read, invalid streams are rejected silently, termination, bounds of
      the header reader, header lookup, interoperability of the two handshakes,
      no leaked descriptor.
    - The handlers (Server, Client): refinement of an abstract contract that is
      written independently of the code's message builders; termination of the
      receive loop; keep-alive end to end.
    - The threads (ServerRuns, ServerMain, ClientRuns): for every interleaving:
      mutual exclusion, the life of the socket, a stream of whole frames with messages
      of the right direction (the client's begins with HELLO and numbers its
      random numbers 1, 2, 3, ...), no deadlock,
      every schedule of an inactive session ends, no output after the close, the
      timeout with its two separate reads, the descriptors of the whole server,
      and what the client program has done at its return, attempts, exit code
      and descriptors.  [receive_thread_refines] and [client_thread_refines]
      check the threads in steps against the sequential handlers.
      [pong_splits_frame], [shutdown_after_close] and [late_pong] are races that
      the code allows, as concrete schedules; [goodbye_is_close] shows that the client
      never sends its DISCONNECT message.
    - The conversations (ServerTalk, ClientTalk): for every interleaving, what
      either end sends is, apart from what its timers send, the contract's
      answers to the messages at the front of its input, in their order, none
      left out; no input is lost.  These runs exclude the steps in which
      [wsRecvFrame] answers a control frame, since it does so without the mutex,
      and the shutdown after a timeout, which cuts the input off.
    - The sessions of one server (Sessions): whatever the accept loop and the
      other sessions do, a session holds its conversation, if no thread of an
      ended session is left over with its descriptor number;
      [stale_send_hits_other] is a schedule in which one is.
    - The system (System): a request of the client, the server's answer and its
      arrival, as one theorem; and for whole runs of both ends of a connection,
      that each end has served a prefix of what the other has sent and has
      answered according to its contract.
    - The log (Log): [log] takes no lock, so what threads write at the same time
      is mixed character by character ([log_mixes]); calls that do not overlap
      and have no line break in their text can be read back ([log_roundtrip]);
      [hello_forges_line] shows that a peer can bring line breaks in.

    ** Fuel and bounds

    Loops that are not structural take fuel and are [Stuck] without it; the
    theorems show that the fuel the definitions pass, or the one in the
    statement, is enough.  [recvAll] and [sendAll] use the number of bytes asked
    for, since every call moves at least one; [recvHttpHeaders] 8193, the
    source's limit; the padding loops of the hashes 64; the calendar more than
    there are years; the other loops over a buffer its length; [wsRecvFrame] and [receive_loop] one round per two bytes of
    input ([wsRecvFrame_terminates], [receive_loop_terminates]) or the number of
    frames in hand.  The threads have no fuel: they are step relations.

    ** Assumptions

    - [::send] on a broken connection returns an error; the source neither passes
      MSG_NOSIGNAL nor ignores SIGPIPE, so on POSIX the process may be killed
      instead.
    - Memory allocation does not fail, and creating a thread does not throw.
    - A blocking call is one step; its waiting is not visible.  The lengths of the
      sleeps are not modelled: a thread may wake up at any time, so what is
      proved holds for all intervals.
    - The clock reads a time between 1970 and 2^62 ms.
    - [randomId++] of the client at the maximum of [int64_t] is undefined
      behaviour; the model has no step there, which is where the upper bound of
      the identifier in [client_socket_safe] comes from ([client_winds_down]
      names the state).
    - [tolower] and [iscntrl] are those of the C locale and leave characters above
      127 alone.
    - Closing a descriptor discards nothing that was sent.  The laws of [SysLaws]
      leave open what a call does to other connections; [SysLocal] (Net) says
      that it does nothing to them.

    ** Not modelled

    - The calls of [log] in the threads: console output only, with no effect on
      the rest of the program (Log has the lines).
    - The Winsock branch ([_WIN32], [WSAInitializer]) and [hws_errno],
      [hws_would_block], which nothing calls; [setsockopt], whose result the
      source ignores.
    - test/test_codec.cpp, a test program; some of its known answers are examples here.
    - The other language implementations of the protocol, scripts and containers. *)

From stdpp Require Export base numbers list strings.
From Stdlib Require Export ZArith Lia.

Open Scope Z_scope.

(** ** Notations: C++ bit operations on [Z] *)

Declare Scope cxx_scope.
Delimit Scope cxx_scope with cxx.
Notation "a .& b" := (Z.land a b) (at level 44, left associativity) : cxx_scope.
Notation "a .| b" := (Z.lor a b) (at level 48, left associativity) : cxx_scope.
Notation "a .^ b" := (Z.lxor a b) (at level 46, left associativity) : cxx_scope.
Notation "a .<< n" := (Z.shiftl a n) (at level 42, left associativity) : cxx_scope.
Notation "a .>> n" := (Z.shiftr a n) (at level 42, left associativity) : cxx_scope.
Open Scope cxx_scope.

(** The length of a container as a [size_t] value. *)
Abbreviation zlen l := (Z.of_nat (length l)).

(** ** Machine widths *)

(** [static_cast] to an unsigned type keeps the value modulo its width; to a
    signed type it is the two's complement reading of the same bits. *)
Definition u8 (z : Z) : Z := z mod 2 ^ 8.
Definition u16 (z : Z) : Z := z mod 2 ^ 16.
Definition u32 (z : Z) : Z := z mod 2 ^ 32.
Definition u64 (z : Z) : Z := z mod 2 ^ 64.
Definition i32 (z : Z) : Z := (z + 2 ^ 31) mod 2 ^ 32 - 2 ^ 31.
Definition i64 (z : Z) : Z := (z + 2 ^ 63) mod 2 ^ 64 - 2 ^ 63.

Definition is_u8 (z : Z) : Prop := 0 <= z < 2 ^ 8.
Definition is_u16 (z : Z) : Prop := 0 <= z < 2 ^ 16.
Definition is_u32 (z : Z) : Prop := 0 <= z < 2 ^ 32.
Definition is_u64 (z : Z) : Prop := 0 <= z < 2 ^ 64.
Definition is_i32 (z : Z) : Prop := - 2 ^ 31 <= z < 2 ^ 31.
Definition is_i64 (z : Z) : Prop := - 2 ^ 63 <= z < 2 ^ 63.

(** A byte buffer ([std::vector<uint8_t>], [std::string], [uint8_t*]). *)
Abbreviation bytes := (list Z).
Abbreviation is_bytes := (Forall is_u8).

(** ** Outcomes of C++ code *)

(** A value, a thrown [std::runtime_error] with its [what()], or a run that
    leaves the language: an out-of-range read, or a loop out of fuel. *)
Inductive result (A : Type) : Type :=
  | Ok (a : A)
  | Throw (what : bytes)
  | Stuck.
Arguments Ok {A} a.
Arguments Throw {A} what.
Arguments Stuck {A}.

Definition rbind {A B : Type} (m : result A) (f : A -> result B) : result B :=
  match m with
  | Ok a => f a
  | Throw w => Throw w
  | Stuck => Stuck
  end.

Notation "'let*' x := m 'in' k" := (rbind m (fun x => k))
  (at level 10, x pattern, m at level 100, k at level 200,
   format "'[v' 'let*'  x  :=  m  'in' '/' k ']'") : cxx_scope.

(** [data[i]] on a buffer. *)
Definition rd (data : bytes) (i : Z) : result Z :=
  if 0 <=? i then
    match data !! Z.to_nat i with
    | Some b => Ok b
    | None => Stuck
    end
  else Stuck.

(** [data[i] = b] on a buffer. *)
Definition wr (data : bytes) (i b : Z) : result bytes :=
  if (0 <=? i) && (i <? zlen data) then Ok (<[Z.to_nat i := b]> data) else Stuck.

(** The bytes [data + pos .. data + pos + n), all of them inside the buffer. *)
Definition rd_range (data : bytes) (pos n : Z) : result bytes :=
  if (0 <=? pos) && (0 <=? n) && (pos + n <=? zlen data)
  then Ok (take (Z.to_nat n) (drop (Z.to_nat pos) data))
  else Stuck.

(** ** Assignment to a field of a record *)

(** [r <| f := v |>] is [r] with its field [f] replaced: a record type declares
    its eta expansion, and each assignable field an instance of [Settable]. *)
Class Eta (T : Type) := eta : T -> T.
Class Settable {R T : Type} (f : R -> T) := set_field : T -> R -> R.
Arguments set_field {R T} f {_} v r.

Ltac derive_setter :=
  lazymatch goal with
  | |- @Settable ?R ?T ?f =>
      let v := fresh "v" in let r := fresh "r" in
      intros v r;
      let i := constr:(_ : Eta R) in
      let h := eval red in i in
      let e := eval cbv beta in (h r) in
      let t := eval pattern (f r) in e in
      lazymatch t with ?F _ => let u := eval cbv beta in (F v) in exact u end
  end.

Notation "r <| f := v |>" := (set_field f v r)
  (at level 1, f at next level, format "r  <|  f  :=  v  |>") : cxx_scope.

(** ** Text *)

(** The bytes of a C++ string literal. *)
Fixpoint str (s : string) : bytes :=
  match s with
  | EmptyString => []
  | String c s' => Z.of_nat (Ascii.nat_of_ascii c) :: str s'
  end.

(** [w.find(p) == 0], [w.rfind(p, 0) == 0]: [w] begins with [p]. *)
Fixpoint starts_with (p w : bytes) : bool :=
  match p, w with
  | [], _ => true
  | x :: p', y :: w' => (x =? y) && starts_with p' w'
  | _ :: _, [] => false
  end.

(** The decimal digits of a number below [10 ^ fuel], before [acc]. *)
Fixpoint digits (fuel : nat) (n : Z) (acc : bytes) : bytes :=
  match fuel with
  | O => acc
  | S f => if n <? 10 then (48 + n) :: acc
           else digits f (n / 10) ((48 + n mod 10) :: acc)
  end.

(** [std::to_string]: at most twenty characters for a 64-bit integer. *)
Definition to_string (n : Z) : bytes :=
  if n <? 0 then 45 :: digits 20 (- n) [] else digits 20 n [].

(** ** Big-endian numbers *)

(** The [k] low bytes of [v], most significant first, as every writer of the
    program produces them. *)
Fixpoint be_bytes (k : nat) (v : Z) : bytes :=
  match k with
  | O => []
  | S j => ((v .>> (8 * Z.of_nat j)) .& 255) :: be_bytes j v
  end.

Definition be_value (bs : bytes) : Z := foldl (fun a b => (a .<< 8) .| b) 0 bs.

(** The expression [(uint32_t(b0) << 24) | (uint32_t(b1) << 16) |
    (uint32_t(b2) << 8) | b3] that every reader of a 32-bit word repeats. *)
Definition be32 (b0 b1 b2 b3 : Z) : Z :=
  u32 (b0 .<< 24) .| u32 (b1 .<< 16) .| u32 (b2 .<< 8) .| b3.

(** ** Automation *)

Create HintDb hws discriminated.
Create Rewrite HintDb bits.
#[export] Hint Constructors Forall : hws.
#[export] Hint Unfold is_u8 is_u16 is_u32 is_u64 is_i32 is_i64 : hws.

(** Succeed on a closed integer literal. *)
Ltac is_literal n :=
  match n with
  | Z0 => idtac
  | Zpos ?p => is_literal p
  | Zneg ?p => is_literal p
  | xH => idtac
  | xO ?p => is_literal p
  | xI ?p => is_literal p
  end.

(** Replace the closed terms of shape [f n] by their values, everywhere. *)
Ltac eval_at f n :=
  is_literal n; let v := eval vm_compute in (f n) in
  let t := eval cbv beta in (f n) in change t with v in *.

(** Evaluate the casts of constants to [nat]. *)
Ltac eval_nats :=
  repeat match goal with
    | |- context [Z.to_nat ?n] => eval_at Z.to_nat n
    | _ : context [Z.to_nat ?n] |- _ => eval_at Z.to_nat n
    end.

(** Unfold the widths and evaluate the constant powers of two, then [lia]. *)
Ltac widths :=
  unfold u8, u16, u32, u64, i32, i64, is_u8, is_u16, is_u32, is_u64, is_i32, is_i64 in *;
  repeat match goal with
    | |- context [2 ^ ?n] => eval_at (Z.pow 2) n
    | _ : context [2 ^ ?n] |- _ => eval_at (Z.pow 2) n
    end.
Ltac solve_width := widths; Z.to_euclidean_division_equations; lia.

(** Bitwise equality of integers: compare every bit, normalise the bit of each
    operation, split on the positions the shifts and masks cut at. *)
#[export] Hint Rewrite Z.lor_spec Z.land_spec Z.lxor_spec Z.testbit_0_l
  orb_false_r orb_false_l andb_false_r andb_false_l andb_true_r andb_true_l
  xorb_false_r xorb_false_l : bits.
#[export] Hint Rewrite Z.shiftl_spec Z.shiftr_spec Z.testbit_neg_r
  Z.ones_spec_low Z.ones_spec_high Z.lnot_spec using lia : bits.

(** Open the existentials and conjunctions of the context. *)
Ltac split_hyps :=
  repeat match goal with
    | H : exists _, _ |- _ => destruct H
    | H : _ /\ _ |- _ => destruct H
    end; subst.

(** Single-step inversion of a [result] computation. *)
Ltac inv_ok :=
  repeat match goal with
    | H : Ok _ = Ok _ |- _ => injection H as H; subst
    | H : Ok _ = Throw _ |- _ => discriminate H
    | H : Ok _ = Stuck |- _ => discriminate H
    | H : Throw _ = Ok _ |- _ => discriminate H
    | H : Stuck = Ok _ |- _ => discriminate H
    | H : rbind ?m _ = Ok _ |- _ =>
        let E := fresh "E" in destruct m eqn:E; cbn [rbind] in H
    end.

(** ** Lemmas on bits and widths *)

Lemma u8_range z : is_u8 (u8 z).
Proof. solve_width. Qed.
Lemma u32_range z : is_u32 (u32 z).
Proof. solve_width. Qed.
Lemma u64_range z : is_u64 (u64 z).
Proof. solve_width. Qed.
Lemma i32_range z : is_i32 (i32 z).
Proof. solve_width. Qed.
Lemma i64_range z : is_i64 (i64 z).
Proof. solve_width. Qed.
Lemma u8_small z : is_u8 z -> u8 z = z.
Proof. intros; solve_width. Qed.
Lemma u32_small z : is_u32 z -> u32 z = z.
Proof. intros; solve_width. Qed.
Lemma u64_small z : is_u64 z -> u64 z = z.
Proof. intros; solve_width. Qed.
Lemma i32_u32 z : is_i32 z -> i32 (u32 z) = z.
Proof. intros; solve_width. Qed.
Lemma i64_u64 z : is_i64 z -> i64 (u64 z) = z.
Proof. intros; solve_width. Qed.
Lemma u32_i32 z : is_u32 z -> u32 (i32 z) = z.
Proof. intros; solve_width. Qed.

Lemma land_255 z : z .& 255 = u8 z.
Proof. change 255 with (Z.ones 8). rewrite Z.land_ones by lia. reflexivity. Qed.

Lemma testbit_high n z i : 0 <= z < 2 ^ n -> n <= i -> Z.testbit z i = false.
Proof.
  intros [Hz Hn] Hi. destruct (decide (z = 0)) as [->|]; [apply Z.testbit_0_l|].
  apply Z.bits_above_log2; [lia|]. apply Z.lt_le_trans with n; [|lia].
  apply Z.log2_lt_pow2; lia.
Qed.

Lemma range_of_bits n z :
  0 <= n -> 0 <= z -> (forall i, n <= i -> Z.testbit z i = false) -> 0 <= z < 2 ^ n.
Proof.
  intros Hn Hz Hi. assert (z = z mod 2 ^ n) as ->; [|apply Z.mod_pos_bound; lia].
  apply Z.bits_inj'. intros i Hi0. destruct (Z.lt_ge_cases i n).
  - by rewrite Z.mod_pow2_bits_low by lia.
  - rewrite Z.mod_pow2_bits_high by lia. auto.
Qed.

(** The bitwise operations stay in the width of their operands. *)
Lemma lor_range n a b : 0 <= n -> 0 <= a < 2 ^ n -> 0 <= b < 2 ^ n -> 0 <= a .| b < 2 ^ n.
Proof.
  intros Hn Ha Hb. apply range_of_bits; [done|apply Z.lor_nonneg; lia|].
  intros i Hi. by rewrite Z.lor_spec, (testbit_high n a), (testbit_high n b).
Qed.
Lemma lxor_range n a b : 0 <= n -> 0 <= a < 2 ^ n -> 0 <= b < 2 ^ n -> 0 <= a .^ b < 2 ^ n.
Proof.
  intros Hn Ha Hb. apply range_of_bits; [done|apply Z.lxor_nonneg; lia|].
  intros i Hi. by rewrite Z.lxor_spec, (testbit_high n a), (testbit_high n b).
Qed.

(** A left shift by [n] leaves room for [n] bits: the union is a sum. *)
Lemma shiftl_lor n a b : 0 <= n -> 0 <= b < 2 ^ n -> (a .<< n) .| b = a * 2 ^ n + b.
Proof.
  intros Hn Hb. rewrite Z.add_comm, <- Z.shiftl_mul_pow2 by lia.
  rewrite <- Z.lxor_lor, <- Z.add_nocarry_lxor, Z.add_comm; [reflexivity| |].
  all: apply Z.bits_inj'; intros i Hi; autorewrite with bits;
    destruct (Z.lt_ge_cases i n);
    [rewrite Z.testbit_neg_r by lia|rewrite (testbit_high n b) by lia];
    autorewrite with bits; reflexivity.
Qed.

(** ** Lemmas on big-endian numbers *)

Lemma length_be_bytes k v : length (be_bytes k v) = k.
Proof. induction k; cbn; congruence. Qed.

Lemma be_bytes_bytes k v : is_bytes (be_bytes k v).
Proof.
  induction k; constructor; [|done]. rewrite land_255. apply u8_range.
Qed.
#[export] Hint Resolve be_bytes_bytes : hws.

Lemma be_value_snoc bs b : is_u8 b -> be_value (bs ++ [b]) = be_value bs * 256 + b.
Proof.
  intros Hb. unfold be_value. rewrite foldl_app. cbn [foldl].
  apply shiftl_lor; [lia|exact Hb].
Qed.

Lemma be_value_cons b bs : is_u8 b -> is_bytes bs ->
  be_value (b :: bs) = b * 2 ^ (8 * zlen bs) + be_value bs.
Proof.
  intros Hb Hbs. induction bs as [|x bs IH] using rev_ind.
  - unfold be_value; cbn -[Z.shiftl Z.lor]. rewrite (shiftl_lor 8 0 b) by (solve_width). cbn. lia.
  - apply Forall_app in Hbs as [Hbs [Hx _]%Forall_cons].
    rewrite app_comm_cons, !be_value_snoc, IH by done.
    rewrite length_app, Nat2Z.inj_add, Z.mul_add_distr_l, Z.pow_add_r by lia. cbn. lia.
Qed.

Lemma be_value_range bs : is_bytes bs -> 0 <= be_value bs < 2 ^ (8 * zlen bs).
Proof.
  induction 1 as [|b bs Hb Hbs IH]; [cbn; lia|].
  rewrite be_value_cons by done. cbn [length].
  rewrite Nat2Z.inj_succ, Z.mul_succ_r, Z.pow_add_r by lia.
  unfold is_u8 in Hb. set (P := 2 ^ (8 * zlen bs)) in *. nia.
Qed.

Lemma be_value_be_bytes k v : be_value (be_bytes k v) = v mod 2 ^ (8 * Z.of_nat k).
Proof.
  induction k as [|k IH]; [cbn; symmetry; apply Z.mod_1_r|].
  cbn [be_bytes]. rewrite be_value_cons by (rewrite ?land_255; auto using u8_range, be_bytes_bytes).
  rewrite length_be_bytes, IH, land_255. unfold u8.
  rewrite Z.shiftr_div_pow2 by lia.
  replace (8 * Z.of_nat (S k)) with (8 * Z.of_nat k + 8) by lia.
  rewrite Z.pow_add_r, (Z.rem_mul_r v) by lia. lia.
Qed.

Lemma be_bytes_be_value bs : is_bytes bs -> be_bytes (length bs) (be_value bs) = bs.
Proof.
  intros Hbs. assert (forall v, be_bytes (length bs) (v * 2 ^ (8 * zlen bs) + be_value bs) = bs) as H.
  { induction Hbs as [|b bs Hb Hbs IH]; intros v; [done|].
    pose proof (be_value_range _ Hbs). cbn [length be_bytes].
    rewrite be_value_cons by done. f_equal.
    - rewrite land_255, Z.shiftr_div_pow2 by lia. unfold u8.
      rewrite Nat2Z.inj_succ, Z.mul_succ_r, Z.pow_add_r by lia.
      replace (v * (2 ^ (8 * zlen bs) * 2 ^ 8) + (b * 2 ^ (8 * zlen bs) + be_value bs))
        with ((v * 2 ^ 8 + b) * 2 ^ (8 * zlen bs) + be_value bs) by ring.
      rewrite Z.div_add_l, Z.div_small by lia. solve_width.
    - rewrite Nat2Z.inj_succ, Z.mul_succ_r, Z.pow_add_r by lia.
      etransitivity; [|apply (IH (v * 2 ^ 8 + b))]. f_equal. ring. }
  etransitivity; [|apply (H 0)]. reflexivity.
Qed.

Lemma be32_value b0 b1 b2 b3 :
  is_bytes [b0; b1; b2; b3] -> be32 b0 b1 b2 b3 = be_value [b0; b1; b2; b3].
Proof.
  intros Hb. repeat (apply Forall_cons in Hb as [? Hb]). unfold be32, be_value. cbn [foldl].
  rewrite !u32_small by (rewrite Z.shiftl_mul_pow2 by lia; solve_width).
  rewrite Z.shiftl_0_l, Z.lor_0_l, !Z.shiftl_lor, !Z.shiftl_shiftl by lia. done.
Qed.

(** Only the low [8 k] bits of the number matter. *)
Lemma be_bytes_mod k n v : 8 * Z.of_nat k <= n -> be_bytes k (v mod 2 ^ n) = be_bytes k v.
Proof.
  induction k as [|k IH]; [done|]. intros Hn. cbn [be_bytes]. f_equal; [|apply IH; lia].
  change 255 with (Z.ones 8). apply Z.bits_inj'. intros i Hi. autorewrite with bits.
  destruct (Z.lt_ge_cases i 8).
  - by rewrite Z.mod_pow2_bits_low by lia.
  - by rewrite Z.ones_spec_high, !andb_false_r by lia.
Qed.

Lemma be_bytes_app j k v :
  be_bytes (j + k) v = be_bytes j (v .>> (8 * Z.of_nat k)) ++ be_bytes k v.
Proof.
  induction j as [|j IH]; [done|]. cbn [Nat.add be_bytes app]. rewrite IH. f_equal.
  rewrite Z.shiftr_shiftr by lia. do 2 f_equal. lia.
Qed.

(** A decidable fact about one byte is checked on all 256 values. *)
Lemma byte_check (P : Z -> Prop) `{!forall b, Decision (P b)} :
  forallb (fun b => bool_decide (P b)) (seqZ 0 256) = true -> forall b, is_u8 b -> P b.
Proof.
  intros Hc b Hb. apply (bool_decide_eq_true (P b)).
  apply (proj1 (forallb_forall _ (seqZ 0 256)) Hc), list_elem_of_In, elem_of_seqZ.
  solve_width.
Qed.

Ltac by_bytes b :=
  pattern b; match goal with |- ?P b =>
    refine (byte_check P _ b _); [vm_compute; reflexivity|assumption] end.

(** ** Lemmas on text *)

Lemma starts_with_spec p w : starts_with p w = true <-> exists rest, w = p ++ rest.
Proof.
  revert w. induction p as [|x p IH]; intros w; [by split; [exists w|]|].
  destruct w as [|y w]; cbn; [split; [done|by intros [? ?]]|].
  rewrite andb_true_iff, Z.eqb_eq, IH. split.
  - intros [-> [rest ->]]. by exists rest.
  - intros [rest [= -> ->]]. split; [done|by exists rest].
Qed.

Lemma str_bytes s : is_bytes (str s).
Proof.
  induction s as [|c s IH]; constructor; [|done].
  pose proof (Ascii.nat_ascii_bounded c). solve_width.
Qed.
#[export] Hint Resolve str_bytes : hws.

(** The number a decimal text denotes. *)
Definition dec_value (s : bytes) : Z := foldl (fun a c => a * 10 + (c - 48)) 0 s.

Lemma digits_app fuel n acc : digits fuel n acc = digits fuel n [] ++ acc.
Proof.
  revert n acc. induction fuel as [|f IH]; intros n acc; [done|]. cbn [digits].
  case_match; [done|]. rewrite IH, (IH _ [_]), <- app_assoc. done.
Qed.

Lemma digits_value fuel n : (0 < fuel)%nat -> 0 <= n < 10 ^ Z.of_nat fuel -> dec_value (digits fuel n []) = n.
Proof.
  revert n. induction fuel as [|f IH]; intros n Hf Hn; [lia|]. cbn [digits].
  case_match; [unfold dec_value; cbn [foldl]; lia|].
  rewrite Nat2Z.inj_succ, Z.pow_succ_r in Hn by lia.
  destruct f as [|f]; [cbn in Hn; lia|].
  rewrite digits_app. unfold dec_value in *. rewrite foldl_app, IH; [|lia|].
  - cbn [foldl]. Z.to_euclidean_division_equations. lia.
  - split; [apply Z.div_pos; lia|]. apply Z.div_lt_upper_bound; lia.
Qed.

Lemma digits_digit fuel n acc : 0 <= n ->
  Forall (fun c => 48 <= c <= 57) acc -> Forall (fun c => 48 <= c <= 57) (digits fuel n acc).
Proof.
  revert n acc. induction fuel as [|f IH]; intros n acc Hn Ha; [done|]. cbn [digits].
  case_match; [constructor; [lia|done]|]. apply IH; [apply Z.div_pos; lia|].
  constructor; [|done]. Z.to_euclidean_division_equations. lia.
Qed.

Lemma digits_length fuel n acc : (length (digits fuel n acc) <= fuel + length acc)%nat.
Proof.
  revert n acc. induction fuel as [|f IH]; intros n acc; [done|]. cbn [digits].
  case_match; [cbn [length]; lia|]. etrans; [apply IH|]. cbn [length]. lia.
Qed.

(** [std::to_string] of a 64-bit integer denotes it: an optional sign, then
    decimal digits. *)
Lemma to_string_value n : is_i64 n ->
  Forall (fun c => 48 <= c <= 57) (to_string (Z.abs n))
  /\ dec_value (to_string (Z.abs n)) = Z.abs n
  /\ to_string n = (if n <? 0 then [45] else []) ++ to_string (Z.abs n).
Proof.
  intros Hn. unfold to_string. rewrite (proj2 (Z.ltb_ge (Z.abs n) 0)) by lia. split_and!.
  - apply digits_digit; [lia|constructor].
  - apply digits_value; [lia|]. change (10 ^ Z.of_nat 20) with 100000000000000000000. solve_width.
  - destruct (Z.ltb_spec n 0); [by rewrite Z.abs_neq by lia|by rewrite Z.abs_eq by lia].
Qed.

(** ** Lemmas on buffer reads *)

Lemma rd_app_l (l1 l2 : bytes) i x :
  l1 !! i = Some x -> rd (l1 ++ l2) (Z.of_nat i) = Ok x.
Proof.
  intros H. unfold rd. rewrite (proj2 (Z.leb_le 0 _)), Nat2Z.id by lia.
  by rewrite lookup_app_l, H by eauto using lookup_lt_Some.
Qed.

Lemma rd_middle (pre : bytes) x post : rd (pre ++ x :: post) (zlen pre) = Ok x.
Proof.
  replace (pre ++ x :: post) with ((pre ++ [x]) ++ post) by (by rewrite <- app_assoc).
  apply rd_app_l. by rewrite lookup_app_r, Nat.sub_diag by lia.
Qed.

Lemma rd_lookup (data : bytes) i x :
  0 <= i -> data !! Z.to_nat i = Some x -> rd data i = Ok x.
Proof. intros Hi H. unfold rd. by rewrite (proj2 (Z.leb_le 0 i) Hi), H. Qed.

Lemma rd_0 (x : Z) l : rd (x :: l) 0 = Ok x.
Proof. done. Qed.
Lemma rd_1 (x y : Z) l : rd (x :: y :: l) 1 = Ok y.
Proof. done. Qed.

(** Writing at the end of a known prefix extends it. *)
Lemma wr_prefix (p : bytes) x rest b : wr (p ++ x :: rest) (zlen p) b = Ok (p ++ b :: rest).
Proof.
  unfold wr. rewrite length_app, Nat2Z.id. cbn [length].
  rewrite (proj2 (Z.leb_le _ _)), (proj2 (Z.ltb_lt _ _)) by lia. cbn [andb]. f_equal.
  by rewrite insert_app_r_alt, Nat.sub_diag by lia.
Qed.

Lemma rd_range_all (data : bytes) : rd_range data 0 (zlen data) = Ok data.
Proof.
  unfold rd_range. rewrite !(proj2 (Z.leb_le _ _)) by lia. cbn [andb]. eval_nats.
  by rewrite drop_0, Nat2Z.id, firstn_all.
Qed.

(** The largest container of the platform: [PTRDIFF_MAX] bytes. *)
Definition size_ok (l : bytes) : Prop := zlen l < 2 ^ 63.
