(* ===== verification/Utf8.v ===== *)
(** * UTF-8 validation ([isValidUtf8] of common/codec.hpp)

    [isValidUtf8] is the validator [ByteReader::readString] calls on every
    string of the protocol.  It is modelled index by index, with the 32-bit
    code point accumulator of the source; the specification it is compared
    with is the encoding table of RFC 3629 over Unicode scalar values. *)

From S2P Require Import Prelude.

(** ** The code *)

(** The classification of a leading byte: [extra], [codepoint],
    [minCodepoint]; [None] is the [return false] of the last branch. *)
Definition utf8_lead (b0 : Z) : option (Z * Z * Z) :=
  if b0 .& 0xE0 =? 0xC0 then Some (1, b0 .& 0x1F, 0x80)
  else if b0 .& 0xF0 =? 0xE0 then Some (2, b0 .& 0x0F, 0x800)
  else if b0 .& 0xF8 =? 0xF0 then Some (3, b0 .& 0x07, 0x10000)
  else None.

(** The inner [for] loop over the continuation bytes [k .. k + n - 1]; [None]
    is its [return false]. *)
Fixpoint utf8_cont (data : bytes) (i k : Z) (n : nat) (codepoint : Z) : result (option Z) :=
  match n with
  | O => Ok (Some codepoint)
  | S n' =>
      let* bk := rd data (u64 (i + k)) in
      if negb (bk .& 0xC0 =? 0x80) then Ok None
      else utf8_cont data i (k + 1) n' (u32 (codepoint .<< 6) .| (bk .& 0x3F))
  end.

(** The [while (i < len)] loop; [i] grows by at least one in each round. *)
Fixpoint utf8_loop (fuel : nat) (data : bytes) (len i : Z) : result bool :=
  match fuel with
  | O => Stuck
  | S f =>
      if negb (i <? len) then Ok true
      else
        let* b0 := rd data i in
        if b0 <=? 0x7F then utf8_loop f data len (u64 (i + 1))
        else
          match utf8_lead b0 with
          | None => Ok false
          | Some (extra, codepoint, minCodepoint) =>
              if len <=? u64 (i + extra) then Ok false
              else
                let* c := utf8_cont data i 1 (Z.to_nat extra) codepoint in
                match c with
                | None => Ok false
                | Some cp =>
                    if (cp <? minCodepoint) || (0x10FFFF <? cp)
                       || ((0xD800 <=? cp) && (cp <=? 0xDFFF))
                    then Ok false
                    else utf8_loop f data len (u64 (i + (extra + 1)))
                end
          end
  end.

Definition isValidUtf8 (data : bytes) (len : Z) : result bool :=
  utf8_loop (S (Z.to_nat len)) data len 0.

(** ** The specification: RFC 3629 *)

Definition is_scalar (c : Z) : Prop :=
  0 <= c <= 0x10FFFF /\ ~ (0xD800 <= c <= 0xDFFF).

Definition utf8_encode (c : Z) : bytes :=
  if c <? 0x80 then [c]
  else if c <? 0x800 then [0xC0 + c / 64; 0x80 + c mod 64]
  else if c <? 0x10000 then [0xE0 + c / 4096; 0x80 + (c / 64) mod 64; 0x80 + c mod 64]
  else [0xF0 + c / 262144; 0x80 + (c / 4096) mod 64; 0x80 + (c / 64) mod 64; 0x80 + c mod 64].

(** A byte string is UTF-8 when it is the encoding of a sequence of scalar
    values. *)
Definition is_utf8 (bs : bytes) : Prop :=
  exists cps, Forall is_scalar cps /\ bs = concat (map utf8_encode cps).

(** ** Leading and continuation bytes *)

Lemma utf8_lead_spec b : is_u8 b -> 0x7F < b ->
  utf8_lead b =
    if b <? 0xC0 then None
    else if b <? 0xE0 then Some (1, b - 0xC0, 0x80)
    else if b <? 0xF0 then Some (2, b - 0xE0, 0x800)
    else if b <? 0xF8 then Some (3, b - 0xF0, 0x10000)
    else None.
Proof. intros Hb. by_bytes b. Qed.

Lemma utf8_cont_byte b : is_u8 b ->
  (b .& 0xC0 =? 0x80) = (0x80 <=? b) && (b <? 0xC0)
  /\ (0x80 <= b < 0xC0 -> b .& 0x3F = b - 0x80).
Proof. intros Hb. by_bytes b. Qed.

(** The continuation loop read off the list of the bytes after the leading
    one, with the accumulator as a sum. *)
Fixpoint cont_value (n : nat) (l : bytes) (cp : Z) : option Z :=
  match n, l with
  | O, _ => Some cp
  | S n', b :: l' =>
      if (0x80 <=? b) && (b <? 0xC0) then cont_value n' l' (cp * 64 + (b - 0x80)) else None
  | S _, [] => None
  end.

Lemma utf8_cont_value n (p l post : bytes) i k cp :
  zlen p = i + k -> (n <= length l)%nat -> is_bytes l -> size_ok (p ++ l ++ post) ->
  0 <= cp -> (cp + 1) * 64 ^ Z.of_nat n <= 2 ^ 32 ->
  utf8_cont (p ++ l ++ post) i k n cp = Ok (cont_value n l cp).
Proof.
  revert p l k cp. induction n as [|n IH]; intros p l k cp Hk Hn Hl Hs Hcp Hb; [done|].
  destruct l as [|b l]; [cbn in Hn; lia|]. apply Forall_cons in Hl as [Hb8 Hl].
  destruct (utf8_cont_byte b Hb8) as [Hm Hv].
  rewrite Nat2Z.inj_succ, Z.pow_succ_r in Hb by lia.
  assert (1 <= 64 ^ Z.of_nat n) by (pose proof (Z.pow_pos_nonneg 64 (Z.of_nat n)); lia).
  cbn [utf8_cont cont_value app]. unfold size_ok in Hs. rewrite length_app in Hs.
  rewrite u64_small by solve_width. rewrite <- Hk, rd_middle. cbn [rbind].
  rewrite Hm. destruct ((0x80 <=? b) && (b <? 0xC0)) eqn:Hc; [|done]. cbn [negb].
  assert (is_u32 (cp .<< 6)) by (rewrite Z.shiftl_mul_pow2 by lia; unfold is_u32; nia).
  rewrite Hv, u32_small, shiftl_lor by (assumption || lia).
  replace (p ++ b :: l ++ post) with ((p ++ [b]) ++ l ++ post) by (by rewrite <- app_assoc).
  apply IH; [rewrite length_app; cbn; lia|cbn in Hn; lia|done| |lia|].
  - unfold size_ok. by rewrite <- app_assoc, length_app.
  - change (2 ^ 6) with 64. nia.
Qed.

(** The values the leading byte can announce. *)
Lemma utf8_lead_inv b extra c0 m : is_u8 b -> 0x7F < b -> utf8_lead b = Some (extra, c0, m) ->
  (extra = 1 /\ c0 = b - 0xC0 /\ m = 0x80 /\ 0xC0 <= b < 0xE0)
  \/ (extra = 2 /\ c0 = b - 0xE0 /\ m = 0x800 /\ 0xE0 <= b < 0xF0)
  \/ (extra = 3 /\ c0 = b - 0xF0 /\ m = 0x10000 /\ 0xF0 <= b < 0xF8).
Proof.
  intros Hb Hlt. rewrite utf8_lead_spec by done.
  repeat case_match; intros [= <- <- <-]; lia.
Qed.

(** Evaluate a successful [cont_value]: name the bytes it went through. *)
Ltac cont_steps H :=
  repeat match type of H with
    | cont_value _ _ _ = _ => cbn [cont_value] in H
    | match ?l with [] => _ | _ :: _ => _ end = _ => destruct l; [discriminate H|]
    | (if ?c then _ else _) = _ => destruct c eqn:?; [|discriminate H]
    | Some _ = Some _ => injection H as H
    end.

(** What the validator accepts after a leading byte is the encoding of the
    code point it accumulated. *)
Lemma utf8_sequence_sound b0 extra c0 m tl cp :
  is_u8 b0 -> 0x7F < b0 -> utf8_lead b0 = Some (extra, c0, m) ->
  cont_value (Z.to_nat extra) tl c0 = Some cp ->
  m <= cp <= 0x10FFFF -> ~ (0xD800 <= cp <= 0xDFFF) ->
  is_scalar cp /\ b0 :: take (Z.to_nat extra) tl = utf8_encode cp.
Proof.
  intros Hb Hlt Hl Hc Hm Hs.
  destruct (utf8_lead_inv _ _ _ _ Hb Hlt Hl) as [(->&->&->&?)|[(->&->&->&?)|(->&->&->&?)]];
    (split; [unfold is_scalar; lia|]); eval_nats;
    cont_steps Hc; cbn [take]; subst cp; unfold utf8_encode;
    repeat case_match; try lia; repeat f_equal; solve_width.
Qed.

(** Conversely the encoding of a scalar value outside ASCII passes every
    test of the validator, which accumulates that value. *)
Lemma utf8_sequence_complete c b0 tl rest :
  is_scalar c -> 0x80 <= c -> b0 :: tl = utf8_encode c ++ rest ->
  0x7F < b0 /\ exists extra c0 m,
    utf8_lead b0 = Some (extra, c0, m) /\ (Z.to_nat extra <= length tl)%nat
    /\ cont_value (Z.to_nat extra) tl c0 = Some c /\ m <= c
    /\ drop (Z.to_nat extra) tl = rest.
Proof.
  intros [Hc Hs] Hge. unfold utf8_encode.
  repeat case_match; try lia; intros [= -> ->]; (split; [solve_width|]);
    rewrite utf8_lead_spec by solve_width;
    repeat (case_match; try solve_width);
    do 3 eexists; split_and!; try reflexivity; try lia; eval_nats; cbn [app length cont_value]; try lia;
    repeat (case_match; try solve_width); f_equal; solve_width.
Qed.

(** ** Closure of the specification *)

Lemma is_utf8_nil : is_utf8 [].
Proof. by exists []. Qed.

Lemma is_utf8_scalar c bs : is_scalar c -> is_utf8 bs -> is_utf8 (utf8_encode c ++ bs).
Proof. intros Hc (cps & H & ->). exists (c :: cps). split; [by constructor|done]. Qed.

Lemma is_utf8_app a b : is_utf8 a -> is_utf8 b -> is_utf8 (a ++ b).
Proof.
  intros (ca & Ha & ->) (cb & Hb & ->). exists (ca ++ cb).
  split; [by apply Forall_app|]. by rewrite map_app, concat_app.
Qed.

Lemma utf8_encode_nonempty c : utf8_encode c <> [].
Proof. unfold utf8_encode. repeat case_match; done. Qed.

Lemma is_utf8_inv b tl : is_utf8 (b :: tl) ->
  exists c rest, is_scalar c /\ b :: tl = utf8_encode c ++ rest /\ is_utf8 rest.
Proof.
  intros ([|c cps] & Hs & Heq); [done|]. apply Forall_cons in Hs as [Hc Hs].
  exists c, (concat (map utf8_encode cps)). split_and!; [done..|by exists cps].
Qed.

Lemma is_utf8_ascii b tl : 0 <= b <= 0x7F -> is_utf8 (b :: tl) <-> is_utf8 tl.
Proof.
  assert (forall c, is_scalar c -> c < 0x80 -> utf8_encode c = [c]) as He.
  { intros c [] ?. unfold utf8_encode. case_match; [done|lia]. }
  intros Hb. split.
  - intros (c & rest & Hc & Heq & Hr)%is_utf8_inv.
    destruct (Z.lt_ge_cases c 0x80) as [Hlt|Hge].
    + rewrite He in Heq by done. by injection Heq as -> ->.
    + destruct (utf8_sequence_complete _ _ _ _ Hc Hge Heq). lia.
  - intros H. assert (is_scalar b) by (unfold is_scalar; lia).
    pose proof (is_utf8_scalar b tl) as Hu. rewrite He in Hu by (done || lia). by apply Hu.
Qed.
#[export] Hint Resolve is_utf8_nil is_utf8_app : hws.

(** ** The loop against the specification *)

(** One round of the loop on a non-ASCII leading byte, read off the list: the
    number of continuation bytes when the sequence is accepted. *)
Definition utf8_step (b0 : Z) (tl : bytes) : option nat :=
  match utf8_lead b0 with
  | None => None
  | Some (extra, c0, m) =>
      if zlen tl <? extra then None
      else match cont_value (Z.to_nat extra) tl c0 with
           | None => None
           | Some cp => if (cp <? m) || (0x10FFFF <? cp) || ((0xD800 <=? cp) && (cp <=? 0xDFFF))
                        then None else Some (Z.to_nat extra)
           end
  end.

Lemma utf8_step_le b0 tl n : is_u8 b0 -> 0x7F < b0 ->
  utf8_step b0 tl = Some n -> (n <= length tl)%nat.
Proof.
  unfold utf8_step. intros Hb Hlt H. destruct (utf8_lead b0) as [[[extra c0] m]|] eqn:Hl; [|done].
  apply utf8_lead_inv in Hl; [|done..]. repeat case_match; simplify_eq. lia.
Qed.

Lemma utf8_step_utf8 b0 tl : is_u8 b0 -> 0x7F < b0 ->
  is_utf8 (b0 :: tl) <-> exists n, utf8_step b0 tl = Some n /\ is_utf8 (drop n tl).
Proof.
  intros Hb Hlt. unfold utf8_step. split.
  - intros (c & rest & Hc & Heq & Hr)%is_utf8_inv.
    assert (0x80 <= c) as Hge.
    { apply Z.nlt_ge. intros ?. unfold utf8_encode in Heq.
      rewrite (proj2 (Z.ltb_lt c 0x80)) in Heq by lia. injection Heq. lia. }
    destruct (utf8_sequence_complete _ _ _ _ Hc Hge Heq) as (_ & extra & c0 & m & -> & Hn & -> & Hm & <-).
    destruct Hc. exists (Z.to_nat extra). rewrite (proj2 (Z.ltb_ge _ _)) by lia.
    case_match; [lia|]. done.
  - intros (n & Hn & Hu). destruct (utf8_lead b0) as [[[extra c0] m]|] eqn:Hl; [|done].
    case_match; [done|]. destruct (cont_value _ _ _) as [cp|] eqn:Hc; [|done].
    case_match; [done|]. injection Hn as <-.
    destruct (utf8_sequence_sound _ _ _ _ _ _ Hb Hlt Hl Hc) as [Hsc He]; [lia..|].
    rewrite <- (take_drop (Z.to_nat extra) tl), app_comm_cons, He. by apply is_utf8_scalar.
Qed.

Lemma utf8_loop_multi fuel (pre : bytes) b0 tl post :
  is_u8 b0 -> 0x7F < b0 -> is_bytes tl -> size_ok (pre ++ b0 :: tl ++ post) ->
  utf8_loop (S fuel) (pre ++ b0 :: tl ++ post) (zlen pre + zlen (b0 :: tl)) (zlen pre) =
    match utf8_step b0 tl with
    | None => Ok false
    | Some n => utf8_loop fuel (pre ++ b0 :: tl ++ post) (zlen pre + zlen (b0 :: tl))
                  (zlen pre + Z.of_nat (n + 1))
    end.
Proof.
  intros Hb Hlt Htl Hs. pose proof Hs as Hs'. unfold size_ok in Hs'.
  rewrite !length_app in Hs'. cbn [length] in *. rewrite length_app in Hs'.
  cbn [utf8_loop]. rewrite (proj2 (Z.ltb_lt _ _)) by lia. cbn [negb].
  rewrite rd_middle. cbn [rbind]. rewrite (proj2 (Z.leb_gt _ _)) by lia.
  unfold utf8_step. destruct (utf8_lead b0) as [[[extra c0] m]|] eqn:Hl; [|done].
  apply utf8_lead_inv in Hl; [|done..].
  rewrite u64_small by solve_width.
  destruct (zlen tl <? extra) eqn:Hx;
    [by rewrite (proj2 (Z.leb_le _ _)) by lia|rewrite (proj2 (Z.leb_gt _ _)) by lia].
  replace (pre ++ b0 :: tl ++ post) with ((pre ++ [b0]) ++ tl ++ post) at 1 by (by rewrite <- app_assoc).
  rewrite utf8_cont_value; [|rewrite length_app; cbn; lia|lia|done|by unfold size_ok; rewrite <- app_assoc|lia|].
  2: { destruct Hl as [(->&->&_)|[(->&->&_)|(->&->&_)]]; eval_nats; solve_width. }
  cbn [rbind]. destruct (cont_value _ _ _) as [cp|]; [|done].
  case_match; [done|]. rewrite u64_small by solve_width. f_equal. lia.
Qed.

Lemma utf8_loop_spec fuel (pre seg post : bytes) :
  is_bytes seg -> size_ok (pre ++ seg ++ post) -> (length seg < fuel)%nat ->
  exists b, utf8_loop fuel (pre ++ seg ++ post) (zlen pre + zlen seg) (zlen pre) = Ok b
            /\ (b = true <-> is_utf8 seg).
Proof.
  revert pre seg. induction fuel as [|fuel IH]; intros pre seg Hseg Hs Hf; [lia|].
  destruct seg as [|b0 tl].
  { exists true. cbn [utf8_loop]. rewrite (proj2 (Z.ltb_ge _ _)) by (cbn; lia).
    split; [done|]. split; auto using is_utf8_nil. }
  apply Forall_cons in Hseg as [Hb Htl].
  (* the loop resumes after the first [n + 1] bytes *)
  assert (forall n, (n <= length tl)%nat -> exists b,
    utf8_loop fuel (pre ++ b0 :: tl ++ post) (zlen pre + zlen (b0 :: tl))
      (zlen pre + Z.of_nat (n + 1)) = Ok b /\ (b = true <-> is_utf8 (drop n tl))) as Hnext.
  { intros n Hn. destruct (IH (pre ++ b0 :: take n tl) (drop n tl)) as (b & Hb1 & Hb2).
    - by apply Forall_drop.
    - unfold size_ok. rewrite <- app_assoc. cbn [app]. by rewrite (app_assoc (take _ _)), take_drop.
    - rewrite length_drop. cbn in Hf. lia.
    - exists b. split; [|done]. rewrite <- Hb1, <- app_assoc. cbn [app].
      rewrite (app_assoc (take _ _)), take_drop, !length_app, length_drop. cbn [length].
      rewrite length_take. f_equal; lia. }
  destruct (Z.le_gt_cases b0 0x7F) as [Ha|Ha].
  - destruct (Hnext 0%nat ltac:(lia)) as (b & Hb1 & Hb2). exists b. rewrite drop_0 in Hb2.
    split; [|by rewrite is_utf8_ascii by solve_width].
    rewrite <- Hb1. cbn [utf8_loop app]. unfold size_ok in Hs. rewrite length_app in Hs. cbn in Hs.
    rewrite (proj2 (Z.ltb_lt _ _)) by (cbn; lia). cbn [negb].
    rewrite rd_middle. cbn [rbind]. rewrite (proj2 (Z.leb_le _ _)) by lia.
    rewrite u64_small by solve_width. done.
  - pose proof (utf8_step_utf8 b0 tl Hb Ha) as Hu. cbn [app]. rewrite utf8_loop_multi by done.
    destruct (utf8_step b0 tl) as [n|] eqn:Hn.
    + destruct (Hnext n (utf8_step_le _ _ _ Hb Ha Hn)) as (b & -> & Hb2).
      exists b. split; [done|]. rewrite Hb2, Hu. split; [by exists n|].
      by intros (n' & [= <-] & ?).
    + exists false. split; [done|]. rewrite Hu. split; [done|].
      by intros (? & ? & _).
Qed.

(** The validator on the first [len] bytes of a buffer. *)
Lemma isValidUtf8_total data len :
  is_bytes data -> size_ok data -> 0 <= len <= zlen data ->
  exists b, isValidUtf8 data len = Ok b
            /\ (b = true <-> is_utf8 (take (Z.to_nat len) data)).
Proof.
  intros Hb Hs Hlen.
  destruct (utf8_loop_spec (S (Z.to_nat len)) [] (take (Z.to_nat len) data) (drop (Z.to_nat len) data))
    as (b & Hb1 & Hb2); [by apply Forall_take|by cbn [app]; rewrite take_drop| |].
  - rewrite length_take. lia.
  - exists b. split; [|done]. rewrite <- Hb1. unfold isValidUtf8. cbn [app length].
    rewrite take_drop, length_take. f_equal. lia.
Qed.

(** The form the reader uses: on well-formed text the validator says yes. *)
Lemma isValidUtf8_prefix s post :
  is_utf8 s -> is_bytes (s ++ post) -> size_ok (s ++ post) ->
  isValidUtf8 (s ++ post) (zlen s) = Ok true.
Proof.
  intros Hu Hb Hs. destruct (isValidUtf8_total (s ++ post) (zlen s)) as (b & -> & Hb2);
    [done..|rewrite length_app; lia|].
  rewrite Nat2Z.id, take_app_length in Hb2. f_equal. tauto.
Qed.

(** C23: [isValidUtf8] decides UTF-8.  On every buffer and every length inside
    it the loop returns without reading a byte out of range; it answers [true]
    exactly when the first [len] bytes are the RFC 3629 encoding of a sequence
    of Unicode scalar values, and [false] in all other cases (overlong forms,
    surrogates, truncated sequences, values above U+10FFFF). *)
Theorem isValidUtf8_correct data len :
  is_bytes data -> size_ok data -> 0 <= len <= zlen data ->
  (isValidUtf8 data len = Ok true <-> is_utf8 (take (Z.to_nat len) data))
  /\ (isValidUtf8 data len = Ok false <-> ~ is_utf8 (take (Z.to_nat len) data)).
Proof.
  intros Hb Hs Hlen. destruct (isValidUtf8_total data len Hb Hs Hlen) as (b & -> & Hb2).
  rewrite <- Hb2. destruct b; intuition congruence.
Qed.

Lemma isValidUtf8_correct_witness :
  (isValidUtf8 [0xE4; 0xBD; 0xA0; 0xC0] 3 = Ok true
     <-> is_utf8 (take (Z.to_nat 3) [0xE4; 0xBD; 0xA0; 0xC0]))
  /\ (isValidUtf8 [0xE4; 0xBD; 0xA0; 0xC0] 3 = Ok false
     <-> ~ is_utf8 (take (Z.to_nat 3) [0xE4; 0xBD; 0xA0; 0xC0])).
Proof.
  apply isValidUtf8_correct; [repeat constructor; lia|unfold size_ok; cbn; lia|cbn; lia].
Defined.
