(* ===== verification/StdMap.v ===== *)
(** * [std::map<std::string, std::string>] as the codec uses it

    The key-value payloads of [EchoResult] are [std::map]s: ordered by
    [operator<] on [std::string] (lexicographic on unsigned characters), filled
    with [m[key] = value] and written by an in-order traversal.  The model is
    the in-order list of entries; it refines a finite map. *)

From stdpp Require Import gmap.
From Stdlib Require Import Sorted.
From S2P Require Import Prelude.

Abbreviation kvmap := (list (bytes * bytes)).

(** [operator<] of [std::string]. *)
Fixpoint str_lt (a b : bytes) : bool :=
  match a, b with
  | _, [] => false
  | [], _ :: _ => true
  | x :: a', y :: b' => if x <? y then true else if y <? x then false else str_lt a' b'
  end.

(** [m[k] = v]: a new node at its place in the order, or a new value in the
    node that has the key. *)
Fixpoint kv_set (k v : bytes) (m : kvmap) : kvmap :=
  match m with
  | [] => [(k, v)]
  | (k', v') :: m' =>
      if str_lt k k' then (k, v) :: m
      else if str_lt k' k then (k', v') :: kv_set k v m'
      else (k', v) :: m'
  end.

Definition kv_lt (p q : bytes * bytes) : Prop := str_lt p.1 q.1 = true.

(** The invariant of the tree: keys strictly increasing in the traversal. *)
Abbreviation kv_sorted := (StronglySorted kv_lt).

(** ** The order on strings *)

Lemma str_lt_irrefl a : str_lt a a = false.
Proof. induction a; cbn; [done|]. by rewrite Z.ltb_irrefl. Qed.

Lemma str_lt_trans a b c : str_lt a b = true -> str_lt b c = true -> str_lt a c = true.
Proof.
  revert b c. induction a as [|x a IH]; intros [|y b] [|z c]; cbn; try done.
  repeat case_match; try done; try lia. apply IH.
Qed.

Lemma str_lt_total a b : str_lt a b = false -> str_lt b a = false -> a = b.
Proof.
  revert b. induction a as [|x a IH]; intros [|y b]; cbn; try done.
  repeat case_match; try done. intros. f_equal; [lia|auto].
Qed.

Lemma str_lt_asym a b : str_lt a b = true -> str_lt b a = false.
Proof.
  intros H. destruct (str_lt b a) eqn:H'; [|done].
  by rewrite <- (str_lt_irrefl a), (str_lt_trans a b a).
Qed.

(** ** The invariant *)

Lemma kv_set_Forall P k v m :
  P (k, v) -> (forall k' v', P (k', v') -> k' = k -> P (k', v)) ->
  Forall P m -> Forall P (kv_set k v m).
Proof.
  intros HP Heq. induction 1 as [|[k' v'] m Hm Hall IH]; cbn; [by constructor|].
  destruct (str_lt k k') eqn:H1; [by repeat constructor|].
  destruct (str_lt k' k) eqn:H2; constructor; [done..| |done].
  eapply Heq; [done|]. by apply str_lt_total.
Qed.

Lemma kv_set_sorted k v m : kv_sorted m -> kv_sorted (kv_set k v m).
Proof.
  induction 1 as [|[k' v'] m Hs IH Hlt]; cbn; [by repeat constructor|].
  destruct (str_lt k k') eqn:H1; [|destruct (str_lt k' k) eqn:H2].
  - constructor; [by constructor|]. constructor; [done|].
    eapply Forall_impl; [exact Hlt|]. intros [k'' v'']. apply str_lt_trans. done.
  - constructor; [done|]. apply kv_set_Forall; [done| |done]. by intros k'' v'' ? ->.
  - constructor; [done|]. eapply Forall_impl; [exact Hlt|]. by intros [k'' v''].
Qed.
#[export] Hint Resolve kv_set_sorted : hws.

(** Appending an entry whose key is above all others is what [m[k] = v] does. *)
Lemma kv_set_last k v m : kv_sorted (m ++ [(k, v)]) -> kv_set k v m = m ++ [(k, v)].
Proof.
  induction m as [|[k' v'] m IH]; cbn; [done|].
  intros [Hs Hlt]%StronglySorted_inv. apply Forall_app in Hlt as [_ [Hl _]%Forall_cons].
  unfold kv_lt in Hl. cbn in Hl. rewrite (str_lt_asym _ _ Hl), Hl. by rewrite IH.
Qed.

Lemma kv_sorted_app_l m1 m2 : kv_sorted (m1 ++ m2) -> kv_sorted m1.
Proof.
  induction m1 as [|p m1 IH]; cbn; [constructor|].
  intros [Hs [Hlt _]%Forall_app]%StronglySorted_inv. constructor; auto.
Qed.

(** ** Refinement of a finite map *)

Definition kv_abs (m : kvmap) : gmap bytes bytes := list_to_map m.

(** The ordered-list model of [std::map] refines a finite map: assigning
    through [operator[]] is the insertion of the abstract map, and it keeps the
    keys strictly increasing, so iteration stays in key order without
    duplicates. *)
Theorem kv_set_refines k v m :
  kv_abs (kv_set k v m) = <[k := v]> (kv_abs m) /\ (kv_sorted m -> kv_sorted (kv_set k v m)).
Proof.
  split; [|apply kv_set_sorted]. unfold kv_abs.
  induction m as [|[k' v'] m IH]; cbn; [done|].
  destruct (str_lt k k') eqn:H1; [done|]. destruct (str_lt k' k) eqn:H2; cbn.
  - rewrite IH. apply insert_insert_ne. intros ->. by rewrite str_lt_irrefl in H2.
  - rewrite (str_lt_total k k') by done. by rewrite insert_insert_eq.
Qed.
