(* ===== verification/ByteIO.v ===== *)
(** * [ByteWriter] and [ByteReader] (common/codec.hpp)

    The primitive encodings of the protocol: big-endian integers,
    length-prefixed UTF-8 strings and key-value maps.  The writer is its
    buffer; the reader is the pointer, length and position of the source, every
    read goes through [rd], so a read outside the buffer would be [Stuck].

    The record [codec] is the interface the message layer is proved against:
    a pair of a write and a read operation with their wire format and laws. *)

From S2P Require Import Prelude Utf8 StdMap.

(** ** ByteWriter *)

Record ByteWriter := { buf_ : bytes }.

Definition empty_writer : ByteWriter := {| buf_ := [] |}.

Definition push_back (b : Z) (w : ByteWriter) : ByteWriter := {| buf_ := buf_ w ++ [b] |}.

Definition writeU8 (v : Z) (w : ByteWriter) : ByteWriter := push_back v w.

Definition writeU16 (v : Z) (w : ByteWriter) : ByteWriter :=
  let w := push_back ((v .>> 8) .& 0xFF) w in
  push_back (v .& 0xFF) w.

Definition writeU32 (v : Z) (w : ByteWriter) : ByteWriter :=
  let w := push_back ((v .>> 24) .& 0xFF) w in
  let w := push_back ((v .>> 16) .& 0xFF) w in
  let w := push_back ((v .>> 8) .& 0xFF) w in
  push_back (v .& 0xFF) w.

Definition writeI32 (v : Z) (w : ByteWriter) : ByteWriter := writeU32 (u32 v) w.

Definition writeI64 (v : Z) (w : ByteWriter) : ByteWriter :=
  let w := writeU32 (u32 (v .>> 32)) w in
  writeU32 (u32 (v .& 0xFFFFFFFF)) w.

Definition writeString (s : bytes) (w : ByteWriter) : ByteWriter :=
  let w := writeU32 (u32 (zlen s)) w in
  {| buf_ := buf_ w ++ s |}.

Definition writeKV (m : kvmap) (w : ByteWriter) : ByteWriter :=
  let w := writeU32 (u32 (zlen m)) w in
  foldl (fun w '(k, v) => writeString v (writeString k w)) w m.

(** ** ByteReader *)

Record ByteReader := { data_ : bytes; len_ : Z; pos_ : Z }.

Definition new_reader (data : bytes) (len : Z) : ByteReader :=
  {| data_ := data; len_ := len; pos_ := 0 |}.

Definition advance (n : Z) (r : ByteReader) : ByteReader :=
  {| data_ := data_ r; len_ := len_ r; pos_ := u64 (pos_ r + n) |}.

Definition remaining (r : ByteReader) : Z := u64 (len_ r - pos_ r).

Definition check (n : Z) (r : ByteReader) : result unit :=
  if len_ r <? u64 (pos_ r + n) then Throw (str "unexpected end of data") else Ok tt.

Definition readU8 (r : ByteReader) : result (Z * ByteReader) :=
  let* _ := check 1 r in
  let* b := rd (data_ r) (pos_ r) in
  Ok (b, advance 1 r).

Definition readU16 (r : ByteReader) : result (Z * ByteReader) :=
  let* _ := check 2 r in
  let* b0 := rd (data_ r) (pos_ r) in
  let* b1 := rd (data_ r) (pos_ r + 1) in
  Ok (u16 ((b0 .<< 8) .| b1), advance 2 r).

Definition readU32 (r : ByteReader) : result (Z * ByteReader) :=
  let* _ := check 4 r in
  let* b0 := rd (data_ r) (pos_ r) in
  let* b1 := rd (data_ r) (pos_ r + 1) in
  let* b2 := rd (data_ r) (pos_ r + 2) in
  let* b3 := rd (data_ r) (pos_ r + 3) in
  Ok (be32 b0 b1 b2 b3, advance 4 r).

Definition readI32 (r : ByteReader) : result (Z * ByteReader) :=
  let* (v, r) := readU32 r in
  Ok (i32 v, r).

(** The 64-bit left shift keeps the low 64 bits of [hi * 2^32]. *)
Definition readI64 (r : ByteReader) : result (Z * ByteReader) :=
  let* (hi, r) := readU32 r in
  let* (lo, r) := readU32 r in
  Ok (i64 (hi .<< 32) .| lo, r).

Definition readString (r : ByteReader) : result (bytes * ByteReader) :=
  let* (ln, r) := readU32 r in
  if len_ r <? u64 (pos_ r + ln) then Throw (str "string length exceeds data")
  else
    let* valid := isValidUtf8 (drop (Z.to_nat (pos_ r)) (data_ r)) ln in
    if negb valid then Throw (str "string payload is not valid UTF-8")
    else
      let* s := rd_range (data_ r) (pos_ r) ln in
      Ok (s, advance ln r).

Fixpoint readKV_loop (count : nat) (m : kvmap) (r : ByteReader) : result (kvmap * ByteReader) :=
  match count with
  | O => Ok (m, r)
  | S n =>
      let* (key, r) := readString r in
      let* (val, r) := readString r in
      readKV_loop n (kv_set key val m) r
  end.

Definition readKV (r : ByteReader) : result (kvmap * ByteReader) :=
  let* (count, r) := readU32 r in
  if remaining r / 8 <? count then Throw (str "kv count exceeds remaining payload")
  else readKV_loop (Z.to_nat count) [] r.

(** ** The reader's invariant *)

(** The reader covers its buffer and its position stays inside it. *)
Record reader_ok (r : ByteReader) : Prop := {
  rok_len : len_ r = zlen (data_ r);
  rok_pos : 0 <= pos_ r <= len_ r;
  rok_size : size_ok (data_ r);
  rok_bytes : is_bytes (data_ r);
}.

(** What is left to read. *)
Definition unread (r : ByteReader) : bytes := drop (Z.to_nat (pos_ r)) (data_ r).

(** [r'] is [r] after reading some more of the same buffer. *)
Definition reads_to (r r' : ByteReader) : Prop :=
  reader_ok r' /\ data_ r' = data_ r /\ pos_ r <= pos_ r'.

(** ** The codec interface *)

(** The [what()] of everything the reader and its loops throw. *)
Definition read_errors : list bytes := map str
  ["unexpected end of data"; "string length exceeds data"; "string payload is not valid UTF-8";
   "kv count exceeds remaining payload"; "result count exceeds remaining payload"]%string.

(** A read from [r] stays in the buffer; when it returns [a], it has consumed
    a prefix [used] of what was left, and [P a used]; when it throws, the text
    is one of [read_errors]. *)
Definition safe_read {A} (P : A -> bytes -> Prop) (r : ByteReader)
    (res : result (A * ByteReader)) : Prop :=
  match res with
  | Ok (a, r') => reads_to r r' /\ exists used, unread r = used ++ unread r' /\ P a used
  | Throw w => w ∈ read_errors
  | Stuck => False
  end.

Record codec (A : Type) := {
  put : A -> ByteWriter -> ByteWriter;
  get : ByteReader -> result (A * ByteReader);
  wire : A -> bytes;
  wire_ok : A -> Prop;
  parses : A -> bytes -> Prop;
  (** writing appends the wire format *)
  put_wire : forall a w, buf_ (put a w) = buf_ w ++ wire a;
  (** reading the wire format of a value gives the value and skips it *)
  get_wire : forall a r rest, wire_ok a -> reader_ok r -> unread r = wire a ++ rest ->
    get r = Ok (a, advance (zlen (wire a)) r);
  (** any read is safe, returns a well-formed value, and consumes bytes that
      stand for it *)
  get_safe : forall r, reader_ok r ->
    safe_read (fun a used => wire_ok a /\ parses a used) r (get r);
}.
Arguments put {A} _ a w.
Arguments get {A} _ r.
Arguments wire {A} _ a.
Arguments wire_ok {A} _ a.
Arguments parses {A} _ a used.
Arguments put_wire {A} _ a w.
Arguments get_wire {A} _ a r rest.
Arguments get_safe {A} _ r.

(** ** Facts about the reader *)

Section reader_facts.
Context (r : ByteReader) (Hr : reader_ok r).

Lemma length_unread : zlen (unread r) = len_ r - pos_ r.
Proof using Hr. destruct Hr. unfold unread. rewrite length_drop. lia. Qed.

Lemma remaining_unread : remaining r = zlen (unread r).
Proof using Hr.
  rewrite length_unread. destruct Hr. unfold remaining, size_ok in *. apply u64_small. solve_width.
Qed.

Lemma unread_bytes : is_bytes (unread r).
Proof using Hr. destruct Hr. by apply Forall_drop. Qed.

Lemma advance_pos n : 0 <= n <= zlen (unread r) -> pos_ (advance n r) = pos_ r + n.
Proof using Hr.
  rewrite length_unread. destruct Hr. unfold size_ok in *. intros. apply u64_small. solve_width.
Qed.

Lemma advance_ok n : 0 <= n <= zlen (unread r) -> reads_to r (advance n r).
Proof using Hr.
  intros Hn. pose proof (advance_pos n Hn) as Hp. rewrite length_unread in Hn.
  split; [|split; [done|lia]]. destruct Hr. constructor; try done. rewrite Hp. cbn. lia.
Qed.

Lemma unread_advance n : 0 <= n <= zlen (unread r) ->
  unread (advance n r) = drop (Z.to_nat n) (unread r).
Proof using Hr.
  intros Hn. unfold unread at 1. rewrite advance_pos by done. cbn. unfold unread.
  rewrite drop_drop. f_equal. destruct Hr. lia.
Qed.

Lemma rd_unread k x : 0 <= k -> unread r !! Z.to_nat k = Some x -> rd (data_ r) (pos_ r + k) = Ok x.
Proof using Hr.
  intros Hk H. destruct Hr. apply rd_lookup; [lia|]. unfold unread in H.
  rewrite lookup_drop in H. rewrite <- H. f_equal. lia.
Qed.

Lemma check_unread n : 0 <= n < 2 ^ 33 ->
  (len_ r <? u64 (pos_ r + n)) = (zlen (unread r) <? n).
Proof using Hr.
  intros Hn. rewrite length_unread. destruct Hr. unfold size_ok in *.
  rewrite u64_small by solve_width. apply eq_true_iff_eq. rewrite !Z.ltb_lt. lia.
Qed.

Lemma readU8_eq : readU8 r =
  match unread r with
  | b :: _ => Ok (b, advance 1 r)
  | _ => Throw (str "unexpected end of data")
  end.
Proof using Hr.
  unfold readU8, check. rewrite check_unread by lia.
  destruct (unread r) as [|b l] eqn:E; [done|].
  rewrite (proj2 (Z.ltb_ge _ _)) by (cbn [length]; lia). cbn [rbind].
  pose proof (rd_unread 0 b) as Hb. rewrite Z.add_0_r in Hb.
  by rewrite Hb by (done || by rewrite E).
Qed.

Lemma readU32_eq : readU32 r =
  match unread r with
  | b0 :: b1 :: b2 :: b3 :: _ => Ok (be_value [b0; b1; b2; b3], advance 4 r)
  | _ => Throw (str "unexpected end of data")
  end.
Proof using Hr.
  unfold readU32, check. rewrite check_unread by lia.
  pose proof unread_bytes as Hbs.
  destruct (unread r) as [|b0 [|b1 [|b2 [|b3 l]]]] eqn:E; try done.
  rewrite (proj2 (Z.ltb_ge _ _)) by (cbn [length]; lia). cbn [rbind].
  pose proof (rd_unread 0 b0) as H0. rewrite Z.add_0_r in H0.
  rewrite H0, (rd_unread 1 b1), (rd_unread 2 b2), (rd_unread 3 b3) by (done || by rewrite E).
  cbn [rbind]. rewrite be32_value; [done|].
  rewrite <- (firstn_all [b0; b1; b2; b3]). by apply (Forall_take _ 4) in Hbs.
Qed.
End reader_facts.

Lemma safe_read_throw {A} (P : A -> bytes -> Prop) r w : w ∈ read_errors -> safe_read P r (Throw w).
Proof. done. Qed.

Ltac read_error := apply safe_read_throw, (bool_decide_unpack _); vm_compute; exact I.

Lemma reads_to_refl r : reader_ok r -> reads_to r r.
Proof. intros. split_and!; [done|done|lia]. Qed.

Lemma reads_to_trans r1 r2 r3 : reads_to r1 r2 -> reads_to r2 r3 -> reads_to r1 r3.
Proof. intros (_ & ? & ?) (? & ? & ?). split_and!; [done|congruence|lia]. Qed.
#[export] Hint Resolve reads_to_refl reads_to_trans : hws.

Lemma safe_read_ret {A} (P : A -> bytes -> Prop) r a :
  reader_ok r -> P a [] -> safe_read P r (Ok (a, r)).
Proof. intros. split; [by apply reads_to_refl|]. by exists []. Qed.

(** Reads compose: the consumed bytes concatenate. *)
Lemma safe_read_bind {A B} (P : A -> bytes -> Prop) (Q : B -> bytes -> Prop) r m f :
  safe_read P r m ->
  (forall a used r', reads_to r r' -> P a used ->
     safe_read (fun b used' => Q b (used ++ used')) r' (f (a, r'))) ->
  safe_read Q r (rbind m f).
Proof.
  intros Hm Hf. destruct m as [[a r']| |]; cbn in *; [|done..].
  destruct Hm as (Hr & used & Hu & HP). specialize (Hf a used r' Hr HP).
  destruct (f (a, r')) as [[b r'']| |]; cbn in *; [|done..].
  destruct Hf as (Hr' & used' & Hu' & HQ). split; [by eapply reads_to_trans|].
  exists (used ++ used'). split; [|done]. by rewrite Hu, Hu', app_assoc.
Qed.

Lemma safe_read_mono {A} (P Q : A -> bytes -> Prop) r m :
  safe_read P r m -> (forall a used, P a used -> Q a used) -> safe_read Q r m.
Proof.
  destruct m as [[a r']| |]; cbn; [|done..]. intros (? & used & ? & ?) HPQ.
  split; [done|]. exists used. auto.
Qed.

(** A read that takes the next [n] bytes. *)
Lemma safe_read_advance {A} (P : A -> bytes -> Prop) r n a :
  reader_ok r -> 0 <= n <= zlen (unread r) -> P a (take (Z.to_nat n) (unread r)) ->
  safe_read P r (Ok (a, advance n r)).
Proof.
  intros Hr Hn HP. split; [by apply advance_ok|]. exists (take (Z.to_nat n) (unread r)).
  split; [|done]. by rewrite unread_advance, take_drop by done.
Qed.

(** ** Integers *)

Lemma buf_writeU32 v w : buf_ (writeU32 v w) = buf_ w ++ be_bytes 4 v.
Proof. cbn -[Z.land Z.shiftr]. rewrite Z.shiftr_0_r. by rewrite <- !app_assoc. Qed.

Lemma readU32_wire v r rest : is_u32 v -> reader_ok r -> unread r = be_bytes 4 v ++ rest ->
  readU32 r = Ok (v, advance 4 r).
Proof.
  intros Hv Hr Hu. rewrite readU32_eq, Hu by done.
  change (be_bytes 4 v ++ rest) with
    ((v .>> 24 .& 255) :: (v .>> 16 .& 255) :: (v .>> 8 .& 255) :: (v .>> 0 .& 255) :: rest).
  pose proof (be_value_be_bytes 4 v) as Hb. cbn [be_bytes] in Hb.
  change (8 * Z.of_nat 3) with 24 in Hb. change (8 * Z.of_nat 2) with 16 in Hb.
  change (8 * Z.of_nat 1) with 8 in Hb. change (8 * Z.of_nat 0) with 0 in Hb.
  cbv beta iota. rewrite Hb. do 2 f_equal. solve_width.
Qed.

Lemma readU32_safe r : reader_ok r ->
  safe_read (fun v used => is_u32 v /\ used = be_bytes 4 v) r (readU32 r).
Proof.
  intros Hr. rewrite readU32_eq by done. pose proof (unread_bytes r Hr) as Hb.
  destruct (unread r) as [|b0 [|b1 [|b2 [|b3 l]]]] eqn:E; try read_error.
  apply (Forall_take _ 4) in Hb. cbn [take] in Hb.
  apply safe_read_advance; [done|rewrite E; cbn [length]; lia|]. rewrite E. eval_nats. cbn [take].
  split; [apply (be_value_range _ Hb)|]. symmetry. apply (be_bytes_be_value _ Hb).
Qed.

Lemma readU8_safe r : reader_ok r ->
  safe_read (fun v used => is_u8 v /\ used = [v]) r (readU8 r).
Proof.
  intros Hr. rewrite readU8_eq by done. pose proof (unread_bytes r Hr) as Hb.
  destruct (unread r) as [|b l] eqn:E; [read_error|]. apply Forall_cons in Hb as [Hb _].
  apply safe_read_advance; [done|rewrite E; cbn [length]; lia|]. by rewrite E.
Qed.

(** The 64-bit value the two halves of [readI64] assemble. *)
Lemma i64_halves v : is_i64 v -> i64 (u32 (v .>> 32) .<< 32) .| u32 v = v.
Proof.
  intros Hv. replace (i64 (u32 (v .>> 32) .<< 32)) with ((v / 2 ^ 32) .<< 32).
  - rewrite shiftl_lor by solve_width. solve_width.
  - rewrite !Z.shiftl_mul_pow2, Z.shiftr_div_pow2 by lia. solve_width.
Qed.

Lemma i64_halves_range hi lo : is_u32 hi -> is_u32 lo -> is_i64 (i64 (hi .<< 32) .| lo).
Proof.
  intros Hh Hl. replace (i64 (hi .<< 32)) with ((i64 (hi .<< 32) / 2 ^ 32) .<< 32).
  - rewrite shiftl_lor by solve_width. rewrite Z.shiftl_mul_pow2 by lia. solve_width.
  - rewrite !Z.shiftl_mul_pow2 by lia. solve_width.
Qed.

Lemma i64_halves_bytes hi lo : is_u32 hi -> is_u32 lo ->
  be_bytes 8 (i64 (hi .<< 32) .| lo) = be_bytes 4 hi ++ be_bytes 4 lo.
Proof.
  intros Hh Hl.
  assert (i64 (hi .<< 32) = (i64 (hi .<< 32) / 2 ^ 32) .<< 32) as ->
    by (rewrite !Z.shiftl_mul_pow2 by lia; solve_width).
  rewrite shiftl_lor by solve_width.
  rewrite (be_bytes_app 4 4). change (8 * Z.of_nat 4) with 32. f_equal.
  - rewrite Z.shiftr_div_pow2 by lia. rewrite <- (be_bytes_mod 4 32) by lia.
    rewrite <- (be_bytes_mod 4 32 hi) by lia. f_equal.
    rewrite !Z.shiftl_mul_pow2 by lia. solve_width.
  - rewrite <- (be_bytes_mod 4 32) by lia. rewrite <- (be_bytes_mod 4 32 lo) by lia.
    f_equal. solve_width.
Qed.

Lemma buf_writeI64 v w : buf_ (writeI64 v w) = buf_ w ++ be_bytes 8 v.
Proof.
  unfold writeI64. rewrite !buf_writeU32, <- app_assoc. f_equal.
  rewrite (be_bytes_app 4 4). unfold u32. rewrite !be_bytes_mod by lia. f_equal.
  change 0xFFFFFFFF with (Z.ones 32). rewrite Z.land_ones by lia. by apply be_bytes_mod.
Qed.

Lemma advance_advance a b r : advance a (advance b r) = advance (b + a) r.
Proof.
  unfold advance. cbn. f_equal. unfold u64. rewrite Zplus_mod_idemp_l. f_equal. lia.
Qed.

(** After reading a prefix [w] the reader stands at the rest. *)
Lemma skip_wire r w rest : reader_ok r -> unread r = w ++ rest ->
  reader_ok (advance (zlen w) r) /\ unread (advance (zlen w) r) = rest.
Proof.
  intros Hr Hu. assert (0 <= zlen w <= zlen (unread r)) as Hn by (rewrite Hu, length_app; lia).
  split; [apply (advance_ok r Hr _ Hn)|].
  by rewrite unread_advance, Hu, Nat2Z.id, drop_app_length by done.
Qed.

Program Definition u8_codec : codec Z := {|
  put := writeU8; get := readU8; wire v := [v];
  wire_ok := is_u8; parses v used := used = [v] |}.
Next Obligation. done. Qed.
Next Obligation. intros v r rest Hv Hr Hu. cbn in *. by rewrite readU8_eq, Hu. Qed.
Next Obligation. apply readU8_safe. Qed.

Lemma be16_value b0 b1 : is_bytes [b0; b1] -> u16 ((b0 .<< 8) .| b1) = be_value [b0; b1].
Proof.
  intros Hb. repeat (apply Forall_cons in Hb as [? Hb]). unfold be_value. cbn [foldl].
  rewrite Z.shiftl_0_l, Z.lor_0_l, shiftl_lor by solve_width. solve_width.
Qed.

Lemma readU16_eq r : reader_ok r -> readU16 r =
  match unread r with
  | b0 :: b1 :: _ => Ok (be_value [b0; b1], advance 2 r)
  | _ => Throw (str "unexpected end of data")
  end.
Proof.
  intros Hr. unfold readU16, check. rewrite check_unread by (done || lia).
  pose proof (unread_bytes r Hr) as Hbs.
  destruct (unread r) as [|b0 [|b1 l]] eqn:E; try done.
  rewrite (proj2 (Z.ltb_ge _ _)) by (cbn [length]; lia). cbn [rbind].
  pose proof (rd_unread r Hr 0 b0) as H0. rewrite Z.add_0_r in H0.
  rewrite H0, (rd_unread r Hr 1 b1) by (done || by rewrite E).
  cbn [rbind]. rewrite be16_value; [done|]. by apply (Forall_take _ 2) in Hbs.
Qed.

Program Definition u16_codec : codec Z := {|
  put := writeU16; get := readU16; wire := be_bytes 2;
  wire_ok := is_u16; parses v used := used = be_bytes 2 v |}.
Next Obligation.
  intros. cbn -[Z.land Z.shiftr]. rewrite Z.shiftr_0_r. by rewrite <- app_assoc.
Qed.
Next Obligation.
  intros v r rest Hv Hr Hu. rewrite readU16_eq, Hu, length_be_bytes by done.
  pose proof (be_value_be_bytes 2 v) as Hb. cbn [be_bytes app] in *. rewrite Hb.
  do 2 f_equal. solve_width.
Qed.
Next Obligation.
  intros r Hr. rewrite readU16_eq by done. pose proof (unread_bytes r Hr) as Hb.
  destruct (unread r) as [|b0 [|b1 l]] eqn:E; try read_error.
  apply (Forall_take _ 2) in Hb. cbn [take] in Hb.
  apply safe_read_advance; [done|rewrite E; cbn [length]; lia|]. rewrite E. eval_nats. cbn [take].
  split; [apply (be_value_range _ Hb)|]. symmetry. apply (be_bytes_be_value _ Hb).
Qed.

Program Definition u32_codec : codec Z := {|
  put := writeU32; get := readU32; wire := be_bytes 4;
  wire_ok := is_u32; parses v used := used = be_bytes 4 v |}.
Next Obligation. intros. apply buf_writeU32. Qed.
Next Obligation. intros v r rest Hv Hr Hu. rewrite length_be_bytes. by eapply readU32_wire. Qed.
Next Obligation. apply readU32_safe. Qed.

Program Definition i32_codec : codec Z := {|
  put := writeI32; get := readI32; wire := be_bytes 4;
  wire_ok := is_i32; parses v used := used = be_bytes 4 v |}.
Next Obligation.
  intros. unfold writeI32. rewrite buf_writeU32. unfold u32. by rewrite be_bytes_mod.
Qed.
Next Obligation.
  intros v r rest Hv Hr Hu. unfold readI32. rewrite length_be_bytes.
  rewrite <- (be_bytes_mod 4 32) in Hu by lia.
  erewrite readU32_wire; [|apply u32_range|done|exact Hu]. cbn [rbind]. by rewrite i32_u32.
Qed.
Next Obligation.
  intros r Hr. eapply safe_read_bind; [by apply readU32_safe|].
  intros v used r' Hr' [Hv ->]. apply safe_read_ret; [apply Hr'|]. rewrite app_nil_r.
  split; [apply i32_range|]. rewrite <- (be_bytes_mod 4 32 (i32 v)) by lia. f_equal.
  symmetry. by apply u32_i32.
Qed.

Program Definition i64_codec : codec Z := {|
  put := writeI64; get := readI64; wire := be_bytes 8;
  wire_ok := is_i64; parses v used := used = be_bytes 8 v |}.
Next Obligation. intros. apply buf_writeI64. Qed.
Next Obligation.
  intros v r rest Hv Hr Hu. unfold readI64.
  rewrite (be_bytes_app 4 4), <- app_assoc in Hu. change (8 * Z.of_nat 4) with 32 in Hu.
  rewrite <- (be_bytes_mod 4 32 (v .>> 32)), <- (be_bytes_mod 4 32 v) in Hu by lia.
  erewrite readU32_wire; [|apply u32_range|done|exact Hu]. cbn [rbind].
  destruct (skip_wire r _ _ Hr Hu) as [Hr' Hu']. rewrite length_be_bytes in Hr', Hu'.
  erewrite readU32_wire; [|apply u32_range|done|exact Hu']. cbn [rbind].
  rewrite i64_halves by done. by rewrite advance_advance, length_be_bytes.
Qed.
Next Obligation.
  intros r Hr. eapply safe_read_bind; [by apply readU32_safe|].
  intros hi used r' Hr' [Hhi ->]. eapply safe_read_bind; [apply readU32_safe, Hr'|].
  intros lo used r'' Hr'' [Hlo ->]. apply safe_read_ret; [apply Hr''|]. rewrite app_nil_r.
  by rewrite i64_halves_bytes; auto using i64_halves_range.
Qed.

(** ** Strings *)

Definition wire_string (s : bytes) : bytes := be_bytes 4 (zlen s) ++ s.

Definition string_ok (s : bytes) : Prop := is_utf8 s /\ is_bytes s /\ zlen s < 2 ^ 32.

(** An executable test for [string_ok]. *)
Definition string_check (s : bytes) : bool :=
  forallb (fun b => (0 <=? b) && (b <? 256)) s && (zlen s <? 2 ^ 32)
  && match isValidUtf8 s (zlen s) with Ok b => b | _ => false end.

Lemma string_check_ok s : string_check s = true -> string_ok s.
Proof.
  unfold string_check. rewrite !andb_true_iff, Z.ltb_lt. intros [[Hb Hl] Hv].
  assert (is_bytes s) as Hs.
  { apply Forall_forall. intros b Hin%list_elem_of_In.
    pose proof (proj1 (forallb_forall _ _) Hb b Hin). solve_width. }
  destruct (isValidUtf8_total s (zlen s)) as (v & E & Hu);
    [done|unfold size_ok; solve_width|lia|].
  rewrite E in Hv. rewrite Nat2Z.id, firstn_all in Hu. split_and!; [by apply Hu|done|done].
Qed.

Lemma length_wire_string s : length (wire_string s) = (4 + length s)%nat.
Proof. unfold wire_string. by rewrite length_app, length_be_bytes. Qed.

Lemma rd_range_unread r n : reader_ok r -> 0 <= n <= zlen (unread r) ->
  rd_range (data_ r) (pos_ r) n = Ok (take (Z.to_nat n) (unread r)).
Proof.
  intros Hr Hn. rewrite (length_unread r Hr) in Hn. destruct Hr. unfold rd_range.
  rewrite !(proj2 (Z.leb_le _ _)) by lia. done.
Qed.

Lemma buf_writeString s w : buf_ (writeString s w) = buf_ w ++ wire_string s.
Proof.
  unfold writeString, wire_string. cbn [buf_]. rewrite buf_writeU32. unfold u32.
  by rewrite be_bytes_mod, <- app_assoc.
Qed.

Lemma size_unread r : reader_ok r -> size_ok (unread r).
Proof.
  intros Hr. unfold size_ok. rewrite length_unread by done. destruct Hr. unfold size_ok in *. lia.
Qed.

Lemma readString_wire s r rest : string_ok s -> reader_ok r -> unread r = wire_string s ++ rest ->
  readString r = Ok (s, advance (zlen (wire_string s)) r).
Proof.
  intros (Hu & Hb & Hl) Hr Hun. unfold wire_string in Hun. rewrite <- app_assoc in Hun.
  unfold readString. rewrite (readU32_wire (zlen s) r (s ++ rest)) by (done || solve_width).
  cbn [rbind].
  destruct (skip_wire r _ _ Hr Hun) as [Hr' Hu']. rewrite length_be_bytes in Hr', Hu'.
  change (Z.of_nat 4) with 4 in *.
  rewrite check_unread, Hu' by (done || solve_width). rewrite length_app.
  rewrite (proj2 (Z.ltb_ge _ _)) by lia. change (drop _ _) with (unread (advance 4 r)).
  rewrite Hu', isValidUtf8_prefix; [|done|rewrite <- Hu'; by apply unread_bytes
    |rewrite <- Hu'; by apply size_unread].
  cbn [rbind negb].
  rewrite rd_range_unread, Hu', Nat2Z.id, take_app_length by (done || rewrite Hu', length_app; lia).
  cbn [rbind]. rewrite advance_advance. do 3 f_equal. rewrite length_wire_string. lia.
Qed.

Lemma readString_safe r : reader_ok r ->
  safe_read (fun s used => string_ok s /\ used = wire_string s) r (readString r).
Proof.
  intros Hr. eapply safe_read_bind; [by apply readU32_safe|].
  intros ln used r' [Hr' _] [Hln ->]. rewrite check_unread by (done || solve_width).
  destruct (zlen (unread r') <? ln) eqn:Hc; [read_error|].
  assert (0 <= ln <= zlen (unread r')) as Hle by solve_width.
  change (drop _ _) with (unread r').
  destruct (isValidUtf8_total (unread r') ln) as (b & -> & Hu);
    [by apply unread_bytes|by apply size_unread|done|]. cbn [rbind].
  destruct b; cbn [negb]; [|read_error]. rewrite rd_range_unread by done. cbn [rbind].
  apply safe_read_advance; [done..|].
  assert (zlen (take (Z.to_nat ln) (unread r')) = ln) as Hl by (rewrite length_take; lia).
  split; [|unfold wire_string; by rewrite Hl].
  split_and!; [tauto|by apply Forall_take, unread_bytes|rewrite Hl; solve_width].
Qed.

Definition string_codec : codec bytes := {|
  put := writeString; get := readString; wire := wire_string;
  wire_ok := string_ok; parses s used := used = wire_string s;
  put_wire := buf_writeString; get_wire := readString_wire; get_safe := readString_safe |}.

(** ** Key-value maps *)

Definition wire_entry (e : bytes * bytes) : bytes := wire_string e.1 ++ wire_string e.2.
Definition wire_entries (es : kvmap) : bytes := concat (map wire_entry es).
Definition wire_kv (m : kvmap) : bytes := be_bytes 4 (zlen m) ++ wire_entries m.

Definition entry_ok (e : bytes * bytes) : Prop := string_ok e.1 /\ string_ok e.2.
Definition kv_ok (m : kvmap) : Prop := kv_sorted m /\ Forall entry_ok m /\ zlen m < 2 ^ 32.

(** The map a list of entries in wire order builds: a later entry wins. *)
Definition kv_of_entries (m es : kvmap) : kvmap := foldl (fun m '(k, v) => kv_set k v m) m es.

(** What [readKV] accepts for a map: some list of entries, in any order and
    with repetitions, that builds it. *)
Definition kv_parses (m : kvmap) (used : bytes) : Prop :=
  exists es, zlen es < 2 ^ 32 /\ used = wire_kv es /\ m = kv_of_entries [] es.

Lemma length_wire_entries es : (8 * length es <= length (wire_entries es))%nat.
Proof.
  unfold wire_entries. induction es as [|e es IH]; [cbn; lia|].
  cbn [map concat length]. unfold wire_entry at 1. rewrite !length_app, !length_wire_string. lia.
Qed.

Lemma buf_writeKV m w : buf_ (writeKV m w) = buf_ w ++ wire_kv m.
Proof.
  unfold writeKV, wire_kv.
  assert (forall w, buf_ (foldl (fun w '(k, v) => writeString v (writeString k w)) w m)
                    = buf_ w ++ wire_entries m) as ->.
  { unfold wire_entries. induction m as [|[k v] m IH]; intros w'; [by rewrite app_nil_r|].
    cbn [foldl map concat]. rewrite IH, !buf_writeString. unfold wire_entry at 2.
    cbn [fst snd]. by rewrite <- !app_assoc. }
  rewrite buf_writeU32, <- app_assoc. unfold u32. by rewrite be_bytes_mod.
Qed.

Lemma readKV_loop_wire es m r rest :
  kv_sorted (m ++ es) -> Forall entry_ok es -> reader_ok r -> unread r = wire_entries es ++ rest ->
  readKV_loop (length es) m r = Ok (m ++ es, advance (zlen (wire_entries es)) r).
Proof.
  revert m r. induction es as [|[k v] es IH]; intros m r Hs He Hr Hu.
  { cbn in *. rewrite app_nil_r. unfold advance. destruct r, Hr; cbn in *.
    unfold size_ok in *. rewrite Z.add_0_r, u64_small by solve_width. done. }
  apply Forall_cons in He as [[Hk Hv] He]. cbn [fst snd] in *.
  unfold wire_entries in Hu. cbn [map concat] in Hu. unfold wire_entry in Hu at 1.
  cbn [fst snd] in Hu. rewrite <- !app_assoc in Hu. cbn [length readKV_loop].
  rewrite (readString_wire k r _ Hk Hr Hu). cbn [rbind].
  destruct (skip_wire r _ _ Hr Hu) as [Hr1 Hu1].
  rewrite (readString_wire v _ _ Hv Hr1 Hu1). cbn [rbind].
  destruct (skip_wire _ _ _ Hr1 Hu1) as [Hr2 Hu2].
  assert (kv_set k v m = m ++ [(k, v)]) as ->.
  { apply kv_set_last, (kv_sorted_app_l _ es). by rewrite <- app_assoc. }
  rewrite IH; [|by rewrite <- app_assoc|done..].
  rewrite <- app_assoc, !advance_advance. unfold wire_entries. cbn [map concat].
  unfold wire_entry at 2. cbn [fst snd]. rewrite !length_app. do 3 f_equal. lia.
Qed.

Lemma readKV_wire m r rest : kv_ok m -> reader_ok r -> unread r = wire_kv m ++ rest ->
  readKV r = Ok (m, advance (zlen (wire_kv m)) r).
Proof.
  intros (Hs & He & Hl) Hr Hu. unfold wire_kv in Hu. rewrite <- app_assoc in Hu.
  unfold readKV. rewrite (readU32_wire (zlen m) r (wire_entries m ++ rest)) by (done || solve_width).
  cbn [rbind]. destruct (skip_wire r _ _ Hr Hu) as [Hr' Hu'].
  rewrite length_be_bytes in Hr', Hu'. change (Z.of_nat 4) with 4 in *.
  pose proof (length_wire_entries m) as Hlen.
  rewrite remaining_unread, Hu', length_app by done.
  rewrite (proj2 (Z.ltb_ge _ _)) by (apply Z.div_le_lower_bound; lia).
  rewrite Nat2Z.id, (readKV_loop_wire m [] _ rest) by done. cbn [app].
  rewrite advance_advance. unfold wire_kv. rewrite length_app, length_be_bytes. do 3 f_equal. lia.
Qed.

Lemma readKV_loop_safe n m r : reader_ok r -> kv_sorted m -> Forall entry_ok m ->
  safe_read (fun m' used => exists es, length es = n /\ used = wire_entries es
    /\ m' = kv_of_entries m es /\ kv_sorted m' /\ Forall entry_ok m' /\ (length m' <= length m + n)%nat)
    r (readKV_loop n m r).
Proof.
  revert m r. induction n as [|n IH]; intros m r Hr Hs He.
  { apply safe_read_ret; [done|]. exists []. split_and!; [done..|lia]. }
  cbn [readKV_loop]. eapply safe_read_bind; [by apply readString_safe|].
  intros k used r1 [Hr1 _] [Hk ->]. eapply safe_read_bind; [by apply readString_safe|].
  intros v used r2 [Hr2 _] [Hv ->]. eapply safe_read_mono; [apply IH; [done|by apply kv_set_sorted|]|].
  - apply kv_set_Forall; [done| |done]. by intros k' v' [? ?] ->.
  - intros m' used (es & <- & -> & -> & ? & ? & ?). exists ((k, v) :: es).
    split_and!; [done| |done..|].
    + unfold wire_entries. cbn [map concat]. unfold wire_entry at 2. cbn [fst snd].
      by rewrite <- app_assoc.
    + assert (length (kv_set k v m) <= S (length m))%nat; [|lia].
      clear. induction m as [|[k' v'] m IHm]; cbn; repeat case_match; cbn in *; lia.
Qed.

Lemma readKV_safe r : reader_ok r -> safe_read (fun m used => kv_ok m /\ kv_parses m used) r (readKV r).
Proof.
  intros Hr. eapply safe_read_bind; [by apply readU32_safe|].
  intros n used r' [Hr' _] [Hn ->]. case_match; [read_error|].
  eapply safe_read_mono; [apply readKV_loop_safe; [done|constructor..]|].
  intros m used (es & He & -> & -> & Hs & Hok & Hl). cbn [length] in Hl.
  split; [split_and!; [done..|solve_width]|]. exists es.
  split_and!; [solve_width| |done]. unfold wire_kv. do 2 f_equal. rewrite He. solve_width.
Qed.

Definition kv_codec : codec kvmap := {|
  put := writeKV; get := readKV; wire := wire_kv; wire_ok := kv_ok; parses := kv_parses;
  put_wire := buf_writeKV; get_wire := readKV_wire; get_safe := readKV_safe |}.
