(* ===== verification/Message.v ===== *)
(** * Frame codec and messages (common/codec.hpp)

    The eight-byte frame envelope, the thirteen message types, [encode] and
    [decodeMessage].  [Message] is the struct of the source with all its
    fields; a message uses the fields of its own type. *)

From S2P Require Import Prelude StdMap Utf8 ByteIO.

(** ** Constants *)

Definition MAGIC : Z := 0x48.
Definition VERSION : Z := 0x01.
Definition HEADER_LEN : Z := 8.

Definition MSG_HELLO : Z := 0x01.
Definition MSG_BONJOUR : Z := 0x02.
Definition MSG_ECHO_REQUEST : Z := 0x03.
Definition MSG_ECHO_RESPONSE : Z := 0x04.
Definition MSG_KISS_REQUEST : Z := 0x05.
Definition MSG_KISS_RESPONSE : Z := 0x06.
Definition MSG_PING : Z := 0x07.
Definition MSG_PONG : Z := 0x08.
Definition MSG_TIME_NOTIFICATION : Z := 0x09.
Definition MSG_RANDOM_NUMBER : Z := 0x0A.
Definition MSG_HASH_RESPONSE : Z := 0x0B.
Definition MSG_DISCONNECT : Z := 0x0C.
Definition MSG_ERROR : Z := 0x7F.

Definition ERR_DECODE : Z := 0x01.
Definition ERR_UNKNOWN_MSG_TYPE : Z := 0x02.

(** ** Frames *)

Definition encodeFrame (msgType : Z) (payload : bytes) : bytes :=
  let len := u32 (zlen payload) in
  [MAGIC; VERSION; msgType; 0x00;
   (len .>> 24) .& 0xFF; (len .>> 16) .& 0xFF; (len .>> 8) .& 0xFF; len .& 0xFF] ++ payload.

Record Frame := { msgType : Z; payload : bytes }.

Definition decodeFrame (data : bytes) (len : Z) : result Frame :=
  if len <? HEADER_LEN then Throw (str "frame too short: " ++ to_string len)
  else
    let* d0 := rd data 0 in
    if negb (d0 =? MAGIC) then Throw (str "bad magic") else
    let* d1 := rd data 1 in
    if negb (d1 =? VERSION) then Throw (str "bad version") else
    let* msgType := rd data 2 in
    let* d4 := rd data 4 in
    let* d5 := rd data 5 in
    let* d6 := rd data 6 in
    let* d7 := rd data 7 in
    let payloadLen := be32 d4 d5 d6 d7 in
    if negb (payloadLen =? u64 (len - HEADER_LEN)) then Throw (str "payload length mismatch")
    else
      let* payload := rd_range data HEADER_LEN payloadLen in
      Ok {| msgType := msgType; payload := payload |}.

(** ** Messages *)

Record EchoResult := { idx : Z; er_type : Z; kv : kvmap }.

Record Message := {
  type : Z;
  clientLanguage : bytes; serverLanguage : bytes;
  echoId : Z; echoMeta : bytes; echoData : bytes;
  echoStatus : Z; echoResults : list EchoResult;
  osName : bytes; osVersion : bytes; osRelease : bytes; osArch : bytes;
  kissLanguage : bytes; kissEncoding : bytes; kissTimeZone : bytes;
  timestampMs : Z; iso8601 : bytes;
  randomId : Z; randomNumber : Z;
  hashHex : bytes;
  disconnectReason : bytes;
  errorCode : Z; errorMessage : bytes;
}.

#[export] Instance Message_eta : Eta Message := fun m => {|
  type := type m; clientLanguage := clientLanguage m; serverLanguage := serverLanguage m;
  echoId := echoId m; echoMeta := echoMeta m; echoData := echoData m;
  echoStatus := echoStatus m; echoResults := echoResults m;
  osName := osName m; osVersion := osVersion m; osRelease := osRelease m; osArch := osArch m;
  kissLanguage := kissLanguage m; kissEncoding := kissEncoding m; kissTimeZone := kissTimeZone m;
  timestampMs := timestampMs m; iso8601 := iso8601 m;
  randomId := randomId m; randomNumber := randomNumber m; hashHex := hashHex m;
  disconnectReason := disconnectReason m; errorCode := errorCode m; errorMessage := errorMessage m |}.

#[export] Instance set_clientLanguage : Settable clientLanguage := ltac:(derive_setter).
#[export] Instance set_serverLanguage : Settable serverLanguage := ltac:(derive_setter).
#[export] Instance set_echoId : Settable echoId := ltac:(derive_setter).
#[export] Instance set_echoMeta : Settable echoMeta := ltac:(derive_setter).
#[export] Instance set_echoData : Settable echoData := ltac:(derive_setter).
#[export] Instance set_echoStatus : Settable echoStatus := ltac:(derive_setter).
#[export] Instance set_echoResults : Settable echoResults := ltac:(derive_setter).
#[export] Instance set_osName : Settable osName := ltac:(derive_setter).
#[export] Instance set_osVersion : Settable osVersion := ltac:(derive_setter).
#[export] Instance set_osRelease : Settable osRelease := ltac:(derive_setter).
#[export] Instance set_osArch : Settable osArch := ltac:(derive_setter).
#[export] Instance set_kissLanguage : Settable kissLanguage := ltac:(derive_setter).
#[export] Instance set_kissEncoding : Settable kissEncoding := ltac:(derive_setter).
#[export] Instance set_kissTimeZone : Settable kissTimeZone := ltac:(derive_setter).
#[export] Instance set_timestampMs : Settable timestampMs := ltac:(derive_setter).
#[export] Instance set_iso8601 : Settable iso8601 := ltac:(derive_setter).
#[export] Instance set_randomId : Settable randomId := ltac:(derive_setter).
#[export] Instance set_randomNumber : Settable randomNumber := ltac:(derive_setter).
#[export] Instance set_hashHex : Settable hashHex := ltac:(derive_setter).
#[export] Instance set_disconnectReason : Settable disconnectReason := ltac:(derive_setter).
#[export] Instance set_errorCode : Settable errorCode := ltac:(derive_setter).
#[export] Instance set_errorMessage : Settable errorMessage := ltac:(derive_setter).

(** [Message m{}] with its type set. *)
Definition new_message (t : Z) : Message := {|
  type := t; clientLanguage := []; serverLanguage := []; echoId := 0; echoMeta := []; echoData := [];
  echoStatus := 0; echoResults := []; osName := []; osVersion := []; osRelease := []; osArch := [];
  kissLanguage := []; kissEncoding := []; kissTimeZone := []; timestampMs := 0; iso8601 := [];
  randomId := 0; randomNumber := 0; hashHex := []; disconnectReason := [];
  errorCode := 0; errorMessage := [] |}.

Definition writeEchoResult (r : EchoResult) (w : ByteWriter) : ByteWriter :=
  writeKV (kv r) (writeU8 (er_type r) (writeI64 (idx r) w)).

(** The [switch] of [Message::encode]. *)
Definition encode (m : Message) : result bytes :=
  let w := empty_writer in
  if type m =? MSG_HELLO then
    let w := writeString (clientLanguage m) w in Ok (encodeFrame MSG_HELLO (buf_ w))
  else if type m =? MSG_BONJOUR then
    let w := writeString (serverLanguage m) w in Ok (encodeFrame MSG_BONJOUR (buf_ w))
  else if type m =? MSG_ECHO_REQUEST then
    let w := writeI64 (echoId m) w in
    let w := writeString (echoMeta m) w in
    let w := writeString (echoData m) w in Ok (encodeFrame MSG_ECHO_REQUEST (buf_ w))
  else if type m =? MSG_ECHO_RESPONSE then
    let w := writeI32 (echoStatus m) w in
    let w := writeU32 (u32 (zlen (echoResults m))) w in
    let w := foldl (fun w r => writeEchoResult r w) w (echoResults m) in
    Ok (encodeFrame MSG_ECHO_RESPONSE (buf_ w))
  else if type m =? MSG_KISS_REQUEST then
    let w := writeString (osName m) w in
    let w := writeString (osVersion m) w in
    let w := writeString (osRelease m) w in
    let w := writeString (osArch m) w in Ok (encodeFrame MSG_KISS_REQUEST (buf_ w))
  else if type m =? MSG_KISS_RESPONSE then
    let w := writeString (kissLanguage m) w in
    let w := writeString (kissEncoding m) w in
    let w := writeString (kissTimeZone m) w in Ok (encodeFrame MSG_KISS_RESPONSE (buf_ w))
  else if type m =? MSG_PING then
    let w := writeI64 (timestampMs m) w in Ok (encodeFrame MSG_PING (buf_ w))
  else if type m =? MSG_PONG then
    let w := writeI64 (timestampMs m) w in Ok (encodeFrame MSG_PONG (buf_ w))
  else if type m =? MSG_TIME_NOTIFICATION then
    let w := writeI64 (timestampMs m) w in
    let w := writeString (iso8601 m) w in Ok (encodeFrame MSG_TIME_NOTIFICATION (buf_ w))
  else if type m =? MSG_RANDOM_NUMBER then
    let w := writeI64 (randomId m) w in
    let w := writeI64 (randomNumber m) w in Ok (encodeFrame MSG_RANDOM_NUMBER (buf_ w))
  else if type m =? MSG_HASH_RESPONSE then
    let w := writeI64 (randomId m) w in
    let w := writeString (hashHex m) w in Ok (encodeFrame MSG_HASH_RESPONSE (buf_ w))
  else if type m =? MSG_DISCONNECT then
    let w := writeString (disconnectReason m) w in Ok (encodeFrame MSG_DISCONNECT (buf_ w))
  else if type m =? MSG_ERROR then
    let w := writeI32 (errorCode m) w in
    let w := writeString (errorMessage m) w in Ok (encodeFrame MSG_ERROR (buf_ w))
  else Throw (str "unknown message type").

(** The loop of the [MSG_ECHO_RESPONSE] case of [decodeMessage]. *)
Fixpoint readEchoResults (count : nat) (acc : list EchoResult) (r : ByteReader)
    : result (list EchoResult * ByteReader) :=
  match count with
  | O => Ok (acc, r)
  | S n =>
      let* (i, r) := readI64 r in
      let* (t, r) := readU8 r in
      let* (m, r) := readKV r in
      readEchoResults n (acc ++ [{| idx := i; er_type := t; kv := m |}]) r
  end.

(** The [switch] of [decodeMessage] on a frame's payload. *)
Definition decodePayload (t : Z) (r : ByteReader) : result (Message * ByteReader) :=
  let m := new_message t in
  if t =? MSG_HELLO then
    let* (s, r) := readString r in Ok (m <| clientLanguage := s |>, r)
  else if t =? MSG_BONJOUR then
    let* (s, r) := readString r in Ok (m <| serverLanguage := s |>, r)
  else if t =? MSG_ECHO_REQUEST then
    let* (i, r) := readI64 r in
    let* (a, r) := readString r in
    let* (b, r) := readString r in
    Ok (m <| echoId := i |> <| echoMeta := a |> <| echoData := b |>, r)
  else if t =? MSG_ECHO_RESPONSE then
    let* (status, r) := readI32 r in
    let* (count, r) := readU32 r in
    if remaining r / 13 <? count then Throw (str "result count exceeds remaining payload")
    else
      let* (rs, r) := readEchoResults (Z.to_nat count) [] r in
      Ok (m <| echoStatus := status |> <| echoResults := rs |>, r)
  else if t =? MSG_KISS_REQUEST then
    let* (a, r) := readString r in
    let* (b, r) := readString r in
    let* (c, r) := readString r in
    let* (d, r) := readString r in
    Ok (m <| osName := a |> <| osVersion := b |> <| osRelease := c |> <| osArch := d |>, r)
  else if t =? MSG_KISS_RESPONSE then
    let* (a, r) := readString r in
    let* (b, r) := readString r in
    let* (c, r) := readString r in
    Ok (m <| kissLanguage := a |> <| kissEncoding := b |> <| kissTimeZone := c |>, r)
  else if t =? MSG_PING then
    let* (ts, r) := readI64 r in Ok (m <| timestampMs := ts |>, r)
  else if t =? MSG_PONG then
    let* (ts, r) := readI64 r in Ok (m <| timestampMs := ts |>, r)
  else if t =? MSG_TIME_NOTIFICATION then
    let* (ts, r) := readI64 r in
    let* (s, r) := readString r in
    Ok (m <| timestampMs := ts |> <| iso8601 := s |>, r)
  else if t =? MSG_RANDOM_NUMBER then
    let* (i, r) := readI64 r in
    let* (n, r) := readI64 r in
    Ok (m <| randomId := i |> <| randomNumber := n |>, r)
  else if t =? MSG_HASH_RESPONSE then
    let* (i, r) := readI64 r in
    let* (s, r) := readString r in
    Ok (m <| randomId := i |> <| hashHex := s |>, r)
  else if t =? MSG_DISCONNECT then
    let* (s, r) := readString r in Ok (m <| disconnectReason := s |>, r)
  else if t =? MSG_ERROR then
    let* (c, r) := readI32 r in
    let* (s, r) := readString r in
    Ok (m <| errorCode := c |> <| errorMessage := s |>, r)
  else Throw (str "unknown message type").

Definition decodeMessage (data : bytes) (len : Z) : result Message :=
  let* frame := decodeFrame data len in
  let r := new_reader (payload frame) (zlen (payload frame)) in
  let* (m, _) := decodePayload (msgType frame) r in
  Ok m.
