(* ===== verification/Codec.v ===== *)
(** * Correctness of the message codec

    The payload of every message type is described once, as a composition of
    the primitive codecs of [ByteIO]; [encode] and [decodeMessage] of the
    source are shown to be the write and read sides of these compositions, and
    the round trip, safety and error theorems of the whole codec follow from
    the laws of the interface. *)

From S2P Require Import Prelude StdMap Utf8 ByteIO Message.

#[local] Unset Program Cases.

(** ** Composition of codecs *)

Program Definition seq_codec {A B} (c1 : codec A) (c2 : codec B) : codec (A * B) := {|
  put p w := put c2 p.2 (put c1 p.1 w);
  get r := let* (a, r) := get c1 r in let* (b, r) := get c2 r in Ok ((a, b), r);
  wire p := wire c1 p.1 ++ wire c2 p.2;
  wire_ok p := wire_ok c1 p.1 /\ wire_ok c2 p.2;
  parses p used := exists u1 u2, used = u1 ++ u2 /\ parses c1 p.1 u1 /\ parses c2 p.2 u2 |}.
Next Obligation. intros. cbn. by rewrite !put_wire, app_assoc. Qed.
Next Obligation.
  intros A B c1 c2 [a b] r rest [Ha Hb] Hr Hu. cbn in *. rewrite <- app_assoc in Hu.
  rewrite (get_wire c1 a r _ Ha Hr Hu). cbn [rbind].
  destruct (skip_wire r _ _ Hr Hu) as [Hr' Hu'].
  rewrite (get_wire c2 b _ _ Hb Hr' Hu'). cbn [rbind].
  rewrite advance_advance, length_app. do 3 f_equal. lia.
Qed.
Next Obligation.
  intros A B c1 c2 r Hr. eapply safe_read_bind; [by apply (get_safe c1)|].
  intros a u1 r1 [Hr1 _] [Ha Hu1]. eapply safe_read_bind; [by apply (get_safe c2)|].
  intros b u2 r2 [Hr2 _] [Hb Hu2]. apply safe_read_ret; [done|]. rewrite app_nil_r.
  split; [done|]. by exists u1, u2.
Qed.

(** A codec seen through a pair of maps, [f] from the wire side. *)
Program Definition map_codec {A B} (f : A -> B) (g : B -> A) (Hgf : forall a, g (f a) = a)
    (c : codec A) : codec B := {|
  put b w := put c (g b) w;
  get r := let* (a, r) := get c r in Ok (f a, r);
  wire b := wire c (g b);
  wire_ok b := f (g b) = b /\ wire_ok c (g b);
  parses b used := parses c (g b) used |}.
Next Obligation. intros. cbn. apply put_wire. Qed.
Next Obligation.
  intros A B f g Hgf c b r rest [Hb Hok] Hr Hu. cbn in *.
  rewrite (get_wire c _ r _ Hok Hr Hu). cbn [rbind]. by rewrite Hb.
Qed.
Next Obligation.
  intros A B f g Hgf c r Hr. eapply safe_read_bind; [by apply (get_safe c)|].
  intros a u r1 [Hr1 _] [Ha Hu]. apply safe_read_ret; [done|].
  by rewrite app_nil_r, Hgf.
Qed.

(** Consecutive elements of one codec: the loops over [echoResults]. *)
Section elements.
Context {A : Type} (c : codec A).

Fixpoint get_elements (n : nat) (acc : list A) (r : ByteReader) : result (list A * ByteReader) :=
  match n with
  | O => Ok (acc, r)
  | S n => let* (a, r) := get c r in get_elements n (acc ++ [a]) r
  end.

Definition wire_elements (l : list A) : bytes := concat (map (wire c) l).

Lemma put_elements l w : buf_ (foldl (fun w a => put c a w) w l) = buf_ w ++ wire_elements l.
Proof.
  unfold wire_elements. revert w. induction l as [|a l IH]; intros w; [by rewrite app_nil_r|].
  cbn [foldl map concat]. by rewrite IH, put_wire, app_assoc.
Qed.

Lemma get_elements_wire l acc r rest :
  Forall (wire_ok c) l -> reader_ok r -> unread r = wire_elements l ++ rest ->
  get_elements (length l) acc r = Ok (acc ++ l, advance (zlen (wire_elements l)) r).
Proof.
  revert acc r. induction l as [|a l IH]; intros acc r Hl Hr Hu.
  { cbn. rewrite app_nil_r. unfold advance. destruct r, Hr; cbn in *.
    unfold size_ok in *. rewrite Z.add_0_r, u64_small by solve_width. done. }
  apply Forall_cons in Hl as [Ha Hl]. unfold wire_elements in Hu. cbn [map concat] in Hu.
  rewrite <- app_assoc in Hu. cbn [length get_elements].
  rewrite (get_wire c a r _ Ha Hr Hu). cbn [rbind].
  destruct (skip_wire r _ _ Hr Hu) as [Hr' Hu']. rewrite IH by done.
  rewrite <- app_assoc, advance_advance. unfold wire_elements. cbn [map concat app].
  rewrite length_app. do 3 f_equal. lia.
Qed.

Lemma get_elements_safe n acc r : reader_ok r ->
  safe_read (fun l used => exists l' us, l = acc ++ l' /\ length l' = n /\ Forall (wire_ok c) l'
    /\ used = concat us /\ Forall2 (parses c) l' us) r (get_elements n acc r).
Proof.
  revert acc r. induction n as [|n IH]; intros acc r Hr.
  { apply safe_read_ret; [done|]. exists [], []. by rewrite app_nil_r. }
  cbn [get_elements]. eapply safe_read_bind; [by apply (get_safe c)|].
  intros a u r1 [Hr1 _] [Ha Hu]. eapply safe_read_mono; [by apply IH|].
  intros l used (l' & us & -> & <- & Hl & -> & Hus). exists (a :: l'), (u :: us).
  rewrite <- app_assoc. split_and!; [done|done|by constructor|done|by constructor].
Qed.
End elements.

(** A count-prefixed array whose count is checked against the bytes left,
    at [min] bytes per element, before any element is read. *)
Section array.
Context {A : Type} (c : codec A) (min : Z) (Hmin : 0 < min).
Context (Hwire : forall a, min <= zlen (wire c a)).

Lemma length_wire_elements l : min * zlen l <= zlen (wire_elements c l).
Proof using Hwire.
  unfold wire_elements. induction l as [|a l IH]; cbn [map concat length]; [lia|].
  specialize (Hwire a). rewrite length_app. lia.
Qed.

Program Definition array_codec : codec (list A) := {|
  put l w := foldl (fun w a => put c a w) (writeU32 (u32 (zlen l)) w) l;
  get r := let* (count, r) := readU32 r in
           if remaining r / min <? count
           then Throw (str "result count exceeds remaining payload")
           else get_elements c (Z.to_nat count) [] r;
  wire l := be_bytes 4 (zlen l) ++ wire_elements c l;
  wire_ok l := Forall (wire_ok c) l /\ zlen l < 2 ^ 32;
  parses l used := exists us, used = be_bytes 4 (zlen l) ++ concat us /\ Forall2 (parses c) l us |}.
Next Obligation.
  intros l w. cbv beta. rewrite put_elements, buf_writeU32, <- app_assoc. unfold u32. by rewrite be_bytes_mod.
Qed.
Next Obligation.
  intros l r rest [Hl Hn] Hr Hu. cbv beta in Hu. rewrite <- app_assoc in Hu.
  rewrite (readU32_wire (zlen l) r (wire_elements c l ++ rest)) by (done || solve_width).
  cbn [rbind]. destruct (skip_wire r _ _ Hr Hu) as [Hr' Hu'].
  rewrite length_be_bytes in Hr', Hu'. change (Z.of_nat 4) with 4 in *.
  pose proof (length_wire_elements l) as Hlen.
  rewrite remaining_unread, Hu', length_app by done.
  rewrite (proj2 (Z.ltb_ge _ _)) by (apply Z.div_le_lower_bound; lia).
  rewrite Nat2Z.id, (get_elements_wire c l [] _ rest) by done. cbn [app].
  rewrite advance_advance, length_app, length_be_bytes. do 3 f_equal. lia.
Qed.
Next Obligation.
  intros r Hr. eapply safe_read_bind; [by apply readU32_safe|].
  intros n used r' [Hr' _] [Hn ->]. cbv beta iota. case_match; [read_error|].
  eapply safe_read_mono; [by apply get_elements_safe|].
  intros l used (l' & us & -> & Hl & Hok & -> & Hus). cbn [app]. unfold is_u32 in Hn.
  assert (zlen l' = n) as Hz by lia. split; [split; [done|lia]|].
  exists us. by rewrite Hz.
Qed.
End array.

(** ** The payload of each message type *)

Definition echo_result (p : Z * (Z * kvmap)) : EchoResult :=
  {| idx := p.1; er_type := p.2.1; kv := p.2.2 |}.
Definition echo_fields (e : EchoResult) : Z * (Z * kvmap) := (idx e, (er_type e, kv e)).

Lemma echo_fields_result p : echo_fields (echo_result p) = p.
Proof. by destruct p as [? [? ?]]. Qed.

Definition echo_codec : codec EchoResult :=
  map_codec echo_result echo_fields echo_fields_result
    (seq_codec i64_codec (seq_codec u8_codec kv_codec)).

Lemma echo_codec_min e : 13 <= zlen (wire echo_codec e).
Proof.
  cbn -[be_bytes]. unfold wire_kv. rewrite !length_app, !length_be_bytes. cbn [length].
  rewrite !length_app, !length_be_bytes. lia.
Qed.

Definition results_codec : codec (list EchoResult) :=
  array_codec echo_codec 13 ltac:(lia) echo_codec_min.

(** A payload shape: the tuple of fields on the wire, how a message is made
    from it and which fields of a message it takes. *)
Record shape := {
  sh_fields : Type;
  sh_codec : codec sh_fields;
  sh_make : sh_fields -> Message;
  sh_take : Message -> sh_fields;
}.

Notation "c1 ⊗ c2" := (seq_codec c1 c2) (at level 40, left associativity) : cxx_scope.

Definition shape_of (t : Z) : option shape :=
  let m := new_message t in
  if t =? MSG_HELLO then Some {| sh_codec := string_codec;
    sh_make s := m <| clientLanguage := s |>; sh_take m := clientLanguage m |}
  else if t =? MSG_BONJOUR then Some {| sh_codec := string_codec;
    sh_make s := m <| serverLanguage := s |>; sh_take m := serverLanguage m |}
  else if t =? MSG_ECHO_REQUEST then Some {| sh_codec := i64_codec ⊗ string_codec ⊗ string_codec;
    sh_make p := m <| echoId := p.1.1 |> <| echoMeta := p.1.2 |> <| echoData := p.2 |>;
    sh_take m := (echoId m, echoMeta m, echoData m) |}
  else if t =? MSG_ECHO_RESPONSE then Some {| sh_codec := i32_codec ⊗ results_codec;
    sh_make p := m <| echoStatus := p.1 |> <| echoResults := p.2 |>;
    sh_take m := (echoStatus m, echoResults m) |}
  else if t =? MSG_KISS_REQUEST then Some {|
    sh_codec := string_codec ⊗ string_codec ⊗ string_codec ⊗ string_codec;
    sh_make p := m <| osName := p.1.1.1 |> <| osVersion := p.1.1.2 |> <| osRelease := p.1.2 |>
                   <| osArch := p.2 |>;
    sh_take m := (osName m, osVersion m, osRelease m, osArch m) |}
  else if t =? MSG_KISS_RESPONSE then Some {|
    sh_codec := string_codec ⊗ string_codec ⊗ string_codec;
    sh_make p := m <| kissLanguage := p.1.1 |> <| kissEncoding := p.1.2 |> <| kissTimeZone := p.2 |>;
    sh_take m := (kissLanguage m, kissEncoding m, kissTimeZone m) |}
  else if (t =? MSG_PING) || (t =? MSG_PONG) then Some {| sh_codec := i64_codec;
    sh_make ts := m <| timestampMs := ts |>; sh_take m := timestampMs m |}
  else if t =? MSG_TIME_NOTIFICATION then Some {| sh_codec := i64_codec ⊗ string_codec;
    sh_make p := m <| timestampMs := p.1 |> <| iso8601 := p.2 |>;
    sh_take m := (timestampMs m, iso8601 m) |}
  else if t =? MSG_RANDOM_NUMBER then Some {| sh_codec := i64_codec ⊗ i64_codec;
    sh_make p := m <| randomId := p.1 |> <| randomNumber := p.2 |>;
    sh_take m := (randomId m, randomNumber m) |}
  else if t =? MSG_HASH_RESPONSE then Some {| sh_codec := i64_codec ⊗ string_codec;
    sh_make p := m <| randomId := p.1 |> <| hashHex := p.2 |>;
    sh_take m := (randomId m, hashHex m) |}
  else if t =? MSG_DISCONNECT then Some {| sh_codec := string_codec;
    sh_make s := m <| disconnectReason := s |>; sh_take m := disconnectReason m |}
  else if t =? MSG_ERROR then Some {| sh_codec := i32_codec ⊗ string_codec;
    sh_make p := m <| errorCode := p.1 |> <| errorMessage := p.2 |>;
    sh_take m := (errorCode m, errorMessage m) |}
  else None.

(** The registry of PROTOCOL.md section 4. *)
Definition registered (t : Z) : Prop := 0x01 <= t <= 0x0C \/ t = 0x7F.

(** The message with the fields its type does not carry reset. *)
Definition relevant (m : Message) : Message :=
  match shape_of (type m) with
  | Some s => sh_make s (sh_take s m)
  | None => m
  end.

(** The payload bytes of PROTOCOL.md section 5. *)
Definition payload_wire (m : Message) : bytes :=
  match shape_of (type m) with
  | Some s => wire (sh_codec s) (sh_take s m)
  | None => []
  end.

(** The fields the type carries are in range: integers at their width, strings
    valid UTF-8, map keys in order. *)
Definition message_ok (m : Message) : Prop :=
  match shape_of (type m) with
  | Some s => wire_ok (sh_codec s) (sh_take s m)
  | None => False
  end.

(** Payload bytes that stand for the message. *)
Definition message_parses (m : Message) (used : bytes) : Prop :=
  match shape_of (type m) with
  | Some s => parses (sh_codec s) (sh_take s m) used
  | None => False
  end.

(** ** The code is the composition *)

Ltac unfold_types := unfold MSG_HELLO, MSG_BONJOUR, MSG_ECHO_REQUEST, MSG_ECHO_RESPONSE,
  MSG_KISS_REQUEST, MSG_KISS_RESPONSE, MSG_PING, MSG_PONG, MSG_TIME_NOTIFICATION,
  MSG_RANDOM_NUMBER, MSG_HASH_RESPONSE, MSG_DISCONNECT, MSG_ERROR in *.

(** Split on the message type the way the [switch]es do, and run [tac] on the
    branch of each type. *)
Ltac switch_type tac :=
  repeat match goal with
    | |- context [?t =? ?c] =>
        let E := fresh "E" in
        destruct (t =? c) eqn:E; cbn [orb]; [apply Z.eqb_eq in E; tac E|]
    end.

Lemma shape_of_registered t : is_Some (shape_of t) <-> registered t.
Proof.
  unfold shape_of, registered.
  switch_type ltac:(fun E => unfold_types; split; [lia|by eexists]).
  split; [by intros [? ?]|]. unfold_types. lia.
Qed.

Lemma shape_of_laws t s : shape_of t = Some s ->
  forall x, type (sh_make s x) = t /\ sh_take s (sh_make s x) = x.
Proof.
  unfold shape_of.
  switch_type ltac:(fun E => intros [= <-] x; split; [done|]; cbn in x |- *;
    repeat match goal with p : (_ * _)%type |- _ => destruct p end; done).
  done.
Qed.

Lemma encode_shape m s : shape_of (type m) = Some s ->
  encode m = Ok (encodeFrame (type m) (buf_ (put (sh_codec s) (sh_take s m) empty_writer))).
Proof.
  unfold shape_of, encode.
  switch_type ltac:(fun E => intros [= <-]; rewrite E; reflexivity).
  done.
Qed.

Lemma encode_unregistered m : shape_of (type m) = None -> encode m = Throw (str "unknown message type").
Proof. unfold shape_of, encode. switch_type ltac:(fun E => done). done. Qed.

Lemma readEchoResults_elements n acc r : readEchoResults n acc r = get_elements echo_codec n acc r.
Proof.
  revert acc r. induction n as [|n IH]; intros acc r; [done|]. cbn.
  destruct (readI64 r) as [[i r1]| |]; cbn; [|done..].
  destruct (readU8 r1) as [[t r2]| |]; cbn; [|done..].
  destruct (readKV r2) as [[m r3]| |]; cbn; [|done..]. apply IH.
Qed.

Lemma decodePayload_shape t s r : shape_of t = Some s ->
  decodePayload t r = (let* (x, r) := get (sh_codec s) r in Ok (sh_make s x, r)).
Proof.
  unfold shape_of, decodePayload.
  switch_type ltac:(fun E => intros [= <-]; cbn [sh_codec sh_make get string_codec seq_codec
      i64_codec i32_codec results_codec array_codec];
    repeat match goal with
      | |- context [readEchoResults ?n ?a ?r] => rewrite (readEchoResults_elements n a r)
      | |- context [rbind (rbind ?m _) _] =>
          lazymatch m with rbind _ _ => fail | _ => destruct m as [[? ?]| |]; cbn [rbind fst snd]; [|done..] end
      | |- context [rbind ?m _] =>
          lazymatch m with
          | rbind _ _ => fail
          | context [if ?b then _ else _] => destruct b; cbn [rbind]; [done|]
          | _ => destruct m as [[? ?]| |]; cbn [rbind fst snd]; [|done..]
          end
      end; try done).
  done.
Qed.

Lemma decodePayload_unregistered t r :
  shape_of t = None -> decodePayload t r = Throw (str "unknown message type").
Proof. unfold shape_of, decodePayload. switch_type ltac:(fun E => done). done. Qed.

(** Outside the arrays and maps of [ECHO_RESPONSE] the accepted bytes are
    exactly the canonical ones. *)
Lemma shape_canonical t s x used : shape_of t = Some s -> t <> MSG_ECHO_RESPONSE ->
  parses (sh_codec s) x used -> used = wire (sh_codec s) x.
Proof.
  unfold shape_of.
  switch_type ltac:(fun E => intros [= <-] Hne; try done; cbn [sh_codec sh_fields] in x |- *;
    cbn [parses wire seq_codec string_codec i64_codec i32_codec];
    intros; split_hyps; done).
  done.
Qed.

(** ** Frames *)

(** [decodeFrame] on a complete header. *)
Lemma decodeFrame_eq d0 d1 d2 d3 d4 d5 d6 d7 p :
  is_bytes [d4; d5; d6; d7] -> size_ok ([d0; d1; d2; d3; d4; d5; d6; d7] ++ p) ->
  decodeFrame ([d0; d1; d2; d3; d4; d5; d6; d7] ++ p) (zlen ([d0; d1; d2; d3; d4; d5; d6; d7] ++ p)) =
    if negb (d0 =? MAGIC) then Throw (str "bad magic")
    else if negb (d1 =? VERSION) then Throw (str "bad version")
    else if negb (be_value [d4; d5; d6; d7] =? zlen p) then Throw (str "payload length mismatch")
    else Ok {| msgType := d2; payload := p |}.
Proof.
  intros Hb Hs. unfold decodeFrame, size_ok, HEADER_LEN in *. rewrite length_app in *. cbn [length] in *.
  rewrite (proj2 (Z.ltb_ge _ _)) by lia. unfold rd. cbn [Z.leb Z.compare app]. eval_nats.
  cbn [lookup list_lookup rbind]. do 2 (case_match; [done|]).
  rewrite be32_value, u64_small by (done || solve_width).
  replace (Z.of_nat (8 + length p) - 8) with (zlen p) by lia. case_match eqn:Hn; [done|].
  apply negb_false_iff, Z.eqb_eq in Hn. rewrite Hn. unfold rd_range. cbn [length].
  rewrite !(proj2 (Z.leb_le _ _)) by lia. cbn [andb rbind].
  change (Z.to_nat 8) with 8%nat. cbn [drop]. by rewrite Nat2Z.id, firstn_all.
Qed.

Lemma decodeFrame_short data : zlen data < HEADER_LEN ->
  decodeFrame data (zlen data) = Throw (str "frame too short: " ++ to_string (zlen data)).
Proof. intros H. unfold decodeFrame. by rewrite (proj2 (Z.ltb_lt _ _)) by lia. Qed.

(** The header PROTOCOL.md section 2 prescribes, with any flags. *)
Definition frame_bytes (t flags : Z) (p : bytes) : bytes :=
  [MAGIC; VERSION; t; flags] ++ be_bytes 4 (zlen p) ++ p.

Lemma length_frame_bytes t flags p : zlen (frame_bytes t flags p) = 8 + zlen p.
Proof. unfold frame_bytes. rewrite !length_app, length_be_bytes. cbn [length]. lia. Qed.

Lemma encodeFrame_bytes t p : encodeFrame t p = frame_bytes t 0 p.
Proof.
  unfold encodeFrame, frame_bytes. rewrite <- (be_bytes_mod 4 32 (zlen p)) by lia.
  cbn [be_bytes app]. by rewrite Z.shiftr_0_r.
Qed.

Lemma decodeFrame_frame_bytes t flags p :
  is_bytes p -> zlen p < 2 ^ 32 ->
  decodeFrame (frame_bytes t flags p) (zlen (frame_bytes t flags p)) =
    Ok {| msgType := t; payload := p |}.
Proof.
  intros Hp Hl. unfold frame_bytes. pose proof (be_bytes_bytes 4 (zlen p)) as Hb.
  pose proof (be_value_be_bytes 4 (zlen p)) as Hv. pose proof (length_be_bytes 4 (zlen p)) as Hn.
  destruct (be_bytes 4 (zlen p)) as [|d4 [|d5 [|d6 [|d7 [|]]]]]; try discriminate Hn.
  change (([MAGIC; VERSION; t; flags] ++ [d4; d5; d6; d7] ++ p))
    with ([MAGIC; VERSION; t; flags; d4; d5; d6; d7] ++ p).
  rewrite decodeFrame_eq, Hv by (done || (unfold size_ok; rewrite length_app; cbn [length]; solve_width)).
  rewrite Z.mod_small by solve_width. by rewrite !Z.eqb_refl.
Qed.

(** What [decodeFrame] does on any buffer: it reads inside the buffer, accepts
    exactly the frames of the specification, and throws one of its texts. *)
Definition frame_errors (data : bytes) : list bytes :=
  [str "frame too short: " ++ to_string (zlen data); str "bad magic"; str "bad version";
   str "payload length mismatch"].

Lemma decodeFrame_inv data : is_bytes data -> size_ok data ->
  match decodeFrame data (zlen data) with
  | Ok f => exists flags, data = frame_bytes (msgType f) flags (payload f) /\ zlen (payload f) < 2 ^ 32
  | Throw w => w ∈ frame_errors data
  | Stuck => False
  end.
Proof.
  intros Hb Hs.
  destruct data as [|d0 [|d1 [|d2 [|d3 [|d4 [|d5 [|d6 [|d7 p]]]]]]]];
    try (rewrite decodeFrame_short by (unfold HEADER_LEN; cbn; lia); by left).
  assert (is_bytes [d4; d5; d6; d7]) as Hd.
  { apply (Forall_drop _ 4), (Forall_take _ 4) in Hb. exact Hb. }
  pose proof (be_value_range _ Hd) as Hr. pose proof (be_bytes_be_value _ Hd) as He.
  change (d0 :: _) with ([d0; d1; d2; d3; d4; d5; d6; d7] ++ p) in Hs |- *.
  rewrite decodeFrame_eq by done.
  destruct (Z.eqb_spec d0 MAGIC) as [->|]; cbn [negb]; [|by repeat constructor].
  destruct (Z.eqb_spec d1 VERSION) as [->|]; cbn [negb]; [|by repeat constructor].
  destruct (Z.eqb_spec (be_value [d4; d5; d6; d7]) (zlen p)) as [Heq|]; cbn [negb];
    [|by repeat constructor].
  exists d3. cbn [msgType payload]. rewrite Heq in He, Hr. split; [|apply Hr].
  unfold frame_bytes. cbn [length] in He. by rewrite He.
Qed.

(** ** The message codec *)

(** The bytes on the wire are bytes: every codec writes only octets. *)
Definition codec_bytes {A} (c : codec A) : Prop := forall a, wire_ok c a -> is_bytes (wire c a).

Lemma string_codec_bytes : codec_bytes string_codec.
Proof. intros s (_ & Hb & _). apply Forall_app; split; [apply be_bytes_bytes|done]. Qed.

Lemma seq_codec_bytes {A B} (c1 : codec A) (c2 : codec B) :
  codec_bytes c1 -> codec_bytes c2 -> codec_bytes (seq_codec c1 c2).
Proof. intros H1 H2 [a b] [Ha Hb]. apply Forall_app; split; [by apply H1|by apply H2]. Qed.

Lemma concat_bytes (ls : list bytes) : Forall is_bytes ls -> is_bytes (concat ls).
Proof. induction 1; cbn; [constructor|by apply Forall_app]. Qed.

Lemma kv_codec_bytes : codec_bytes kv_codec.
Proof.
  intros m (_ & Hm & _). apply Forall_app; split; [apply be_bytes_bytes|].
  apply concat_bytes, Forall_map. eapply Forall_impl; [exact Hm|]. intros [k v] [Hk Hv].
  apply Forall_app; split; by apply string_codec_bytes.
Qed.

Lemma results_codec_bytes : codec_bytes results_codec.
Proof.
  intros l [Hl _]. apply Forall_app; split; [apply be_bytes_bytes|].
  apply concat_bytes, Forall_map. eapply Forall_impl; [exact Hl|].
  intros e [_ [_ [H8 Hkv]]]. apply Forall_app; split; [apply be_bytes_bytes|].
  apply Forall_app; split; [constructor; [exact H8|constructor]|by apply kv_codec_bytes].
Qed.

Lemma shape_bytes t s : shape_of t = Some s -> codec_bytes (sh_codec s).
Proof.
  assert (codec_bytes i64_codec) by (intros ? _; apply be_bytes_bytes).
  assert (codec_bytes i32_codec) by (intros ? _; apply be_bytes_bytes).
  unfold shape_of.
  switch_type ltac:(fun E => intros [= <-]; cbn [sh_codec];
    repeat apply seq_codec_bytes; auto using string_codec_bytes, results_codec_bytes).
  done.
Qed.

(** Decoding a frame whose payload starts with the encoding of a message. *)
Lemma decodeMessage_frame m flags junk :
  message_ok m -> is_bytes junk -> zlen (payload_wire m ++ junk) < 2 ^ 32 ->
  decodeMessage (frame_bytes (type m) flags (payload_wire m ++ junk))
    (zlen (frame_bytes (type m) flags (payload_wire m ++ junk))) = Ok (relevant m).
Proof.
  unfold message_ok, payload_wire, relevant. intros Hok Hj Hl.
  destruct (shape_of (type m)) as [s|] eqn:Hs; [|done].
  assert (is_bytes (wire (sh_codec s) (sh_take s m) ++ junk)) as Hb
    by (apply Forall_app; split; [by eapply shape_bytes|done]).
  unfold decodeMessage. rewrite decodeFrame_frame_bytes by done. cbn [rbind payload msgType].
  rewrite (decodePayload_shape _ s) by done.
  erewrite get_wire; [done|done| |].
  - constructor; cbn; [done|lia| |done]. unfold size_ok. solve_width.
  - unfold unread. cbn [data_ pos_ new_reader]. eval_nats. by rewrite drop_0.
Qed.

Lemma encode_frame m : message_ok m -> encode m = Ok (frame_bytes (type m) 0 (payload_wire m)).
Proof.
  unfold message_ok, payload_wire. destruct (shape_of (type m)) as [s|] eqn:Hs; [|done].
  intros _. by rewrite (encode_shape m s), encodeFrame_bytes, put_wire.
Qed.

(** Everything [decodeMessage] can do on a buffer. *)
Lemma decodeMessage_outcome data : is_bytes data -> size_ok data ->
  match decodeMessage data (zlen data) with
  | Ok m => message_ok m /\ relevant m = m /\ exists flags used junk,
      data = frame_bytes (type m) flags (used ++ junk) /\ message_parses m used
  | Throw w => (w ∈ frame_errors data /\ decodeFrame data (zlen data) = Throw w)
      \/ exists t flags p, data = frame_bytes t flags p /\ is_bytes p /\ zlen p < 2 ^ 32
         /\ (if decide (is_Some (shape_of t)) then w ∈ read_errors
             else w = str "unknown message type")
  | Stuck => False
  end.
Proof.
  intros Hb Hs. unfold decodeMessage. pose proof (decodeFrame_inv data Hb Hs) as Hf.
  destruct (decodeFrame data (zlen data)) as [[t p]| |]; cbn [rbind] in *; [|by left|done].
  cbn [msgType payload] in *. destruct Hf as (flags & -> & Hl).
  assert (is_bytes p) as Hp by (by apply Forall_app in Hb as [_ [_ ?]%Forall_app]).
  destruct (shape_of t) as [s|] eqn:Hsh; cycle 1.
  { rewrite decodePayload_unregistered by done. cbn [rbind]. right. exists t, flags, p.
    split_and!; [done..|]. rewrite Hsh. case_decide as Hd; [by destruct Hd|done]. }
  rewrite (decodePayload_shape t s) by done.
  assert (reader_ok (new_reader p (zlen p))) as Hr.
  { constructor; cbn; [done|lia| |done]. unfold size_ok. solve_width. }
  pose proof (get_safe (sh_codec s) _ Hr) as Hg.
  destruct (get (sh_codec s) _) as [[x r']|w|]; cbn [rbind safe_read] in *; [| |done].
  - destruct Hg as (_ & used & Hu & Hok & Hpar). destruct (shape_of_laws t s Hsh x) as [Ht Hx].
    unfold message_ok, relevant, message_parses. rewrite Ht, Hsh, Hx. split_and!; [done..|].
    exists flags, used, (unread r'). rewrite <- Hu. unfold unread. cbn [data_ pos_ new_reader].
    eval_nats. by rewrite drop_0.
  - right. exists t, flags, p. split_and!; [done..|]. rewrite Hsh.
    case_decide as Hd; [done|]. destruct Hd. by eexists.
Qed.

Lemma message_ok_type m : message_ok m -> registered (type m) /\ is_u8 (type m).
Proof.
  intros Hm. assert (registered (type m)) as Hr.
  { apply shape_of_registered. unfold message_ok in Hm. by destruct (shape_of (type m)). }
  split; [done|]. unfold registered in Hr. solve_width.
Qed.

(** The content of a frame is bytes. *)
Lemma frame_bytes_bytes m : message_ok m -> is_bytes (frame_bytes (type m) 0 (payload_wire m)).
Proof.
  intros Hok. assert (is_bytes (payload_wire m)) as Hpb.
  { unfold payload_wire, message_ok in *. destruct (shape_of (type m)) eqn:Hsh; [|done]. by eapply shape_bytes. }
  destruct (message_ok_type m Hok) as [_ Ht]. unfold frame_bytes. repeat (apply Forall_app; split); [|apply be_bytes_bytes|done].
  repeat (apply Forall_cons; split; [unfold MAGIC, VERSION; solve_width|]). constructor.
Qed.

(** ** Properties *)

(** C2: every message survives the wire.  When the fields its type carries are
    well formed and the payload fits the 32-bit length, [encode] produces a
    frame and [decodeMessage] of that frame gives the message back (with the
    fields its type does not carry at their defaults), for all thirteen types,
    maps and arrays included. *)
Theorem decode_encode m :
  message_ok m -> zlen (payload_wire m) < 2 ^ 32 ->
  exists bs, encode m = Ok bs /\ decodeMessage bs (zlen bs) = Ok (relevant m).
Proof.
  intros Hok Hl. exists (frame_bytes (type m) 0 (payload_wire m)).
  split; [by apply encode_frame|].
  rewrite <- (app_nil_r (payload_wire m)) in Hl |- *. by apply decodeMessage_frame.
Qed.

Definition sample_echo : Message :=
  (new_message MSG_ECHO_RESPONSE) <| echoStatus := 200 |>
    <| echoResults := [{| idx := -7; er_type := 1;
         kv := [(str "data", [0xE4; 0xBD; 0xA0]); (str "id", str "1")] |}] |>.

Lemma decode_encode_witness :
  exists bs, encode sample_echo = Ok bs /\ decodeMessage bs (zlen bs) = Ok (relevant sample_echo).
Proof.
  apply decode_encode; [|vm_compute; reflexivity].
  split; [split; vm_compute; congruence|]. split; [|vm_compute; reflexivity].
  constructor; [|constructor]. split; [reflexivity|]. split; [split; vm_compute; congruence|].
  split; [split; vm_compute; congruence|]. split; [repeat constructor|].
  split; [|vm_compute; reflexivity].
  do 2 (constructor; [split; apply string_check_ok; vm_compute; reflexivity|]). constructor.
Defined.

(** C10: decoding is safe on arbitrary input.  For every buffer,
    [decodeMessage] terminates with a message or a thrown [runtime_error]; it
    never reads outside the buffer, and a message it returns is well formed
    (integers in range, strings valid UTF-8, map keys strictly ordered) with
    the fields of other types untouched. *)
Theorem decodeMessage_safe data :
  is_bytes data -> size_ok data ->
  match decodeMessage data (zlen data) with
  | Ok m => message_ok m /\ relevant m = m
  | Throw _ => True
  | Stuck => False
  end.
Proof.
  intros Hb Hs. pose proof (decodeMessage_outcome data Hb Hs) as H.
  destruct (decodeMessage _ _); [|done..]. split_and!; apply H.
Qed.

Lemma decodeMessage_safe_witness :
  match decodeMessage [0x48; 0x01; 0x01; 0; 0; 0; 0; 4; 0; 0; 0; 8] 12 with
  | Ok m => message_ok m /\ relevant m = m
  | Throw _ => True
  | Stuck => False
  end.
Proof.
  apply (decodeMessage_safe [0x48; 0x01; 0x01; 0; 0; 0; 0; 4; 0; 0; 0; 8]);
    [repeat constructor; lia|unfold size_ok; cbn; lia].
Defined.

(** C21: what the decoder accepts is what the protocol says.  A buffer that
    decodes to [m] is a frame with the right magic, version, type and length
    whose payload starts with the canonical encoding of [m]; only the flags
    byte and bytes after the last field are free ([ECHO_RESPONSE], whose map
    entries may come in any order, apart). *)
Theorem decodeMessage_canonical data m :
  is_bytes data -> size_ok data -> decodeMessage data (zlen data) = Ok m ->
  type m <> MSG_ECHO_RESPONSE ->
  exists flags junk, data = frame_bytes (type m) flags (payload_wire m ++ junk).
Proof.
  intros Hb Hs Hd Hne. pose proof (decodeMessage_outcome data Hb Hs) as H. rewrite Hd in H.
  destruct H as (Hok & _ & flags & used & junk & -> & Hp). exists flags, junk.
  unfold message_parses, payload_wire, message_ok in *.
  destruct (shape_of (type m)) as [s|] eqn:Hsh; [|done].
  by rewrite (shape_canonical _ s _ _ Hsh Hne Hp).
Qed.

Definition sample_hello : bytes := [0x48; 0x01; 0x01; 0; 0; 0; 0; 6; 0; 0; 0; 2; 0x47; 0x6F].

Definition hello_go : Message := (new_message MSG_HELLO) <| clientLanguage := str "Go" |>.

Lemma decodeMessage_canonical_witness :
  exists flags junk, sample_hello = frame_bytes (type hello_go) flags (payload_wire hello_go ++ junk).
Proof.
  apply (decodeMessage_canonical sample_hello hello_go);
    [repeat constructor; lia|unfold size_ok; cbn; lia|vm_compute; reflexivity|vm_compute; congruence].
Defined.

(** C22: [decodeMessage] throws a text that begins with [unknown message type]
    exactly when the frame is intact and its type is not one of the thirteen
    of the registry; the server's test on [what()] separates precisely these
    frames from malformed ones. *)
Theorem unknown_type_classified data w :
  is_bytes data -> size_ok data -> decodeMessage data (zlen data) = Throw w ->
  starts_with (str "unknown message type") w = true
  <-> exists t flags p, data = frame_bytes t flags p /\ zlen p < 2 ^ 32 /\ ~ registered t.
Proof.
  intros Hb Hs Hd. pose proof (decodeMessage_outcome data Hb Hs) as H. rewrite Hd in H.
  assert (forall e, e ∈ read_errors -> starts_with (str "unknown message type") e = false) as Hre.
  { apply Forall_forall. vm_compute. repeat constructor. }
  assert (forall e, e ∈ frame_errors data -> starts_with (str "unknown message type") e = false) as Hfe.
  { apply Forall_forall. repeat constructor. }
  destruct H as [[Hw Hf]|(t & flags & p & -> & Hp & Hl & Hw)].
  - rewrite Hfe by done. split; [done|]. intros (t & flags & p & -> & Hl & _).
    rewrite decodeFrame_frame_bytes in Hf; [done| |done].
    by apply Forall_app in Hb as [_ [_ ?]%Forall_app].
  - case_decide as Hd'; rewrite shape_of_registered in Hd'; cycle 1.
    { subst w. split; [intros _; by exists t, flags, p|done]. }
    rewrite Hre by done. split; [done|]. intros (t' & flags' & p' & Heq & _ & Hr).
    injection Heq as -> _ _. done.
Qed.

Lemma unknown_type_classified_witness :
  starts_with (str "unknown message type") (str "unknown message type") = true
  <-> exists t flags p, [0x48; 0x01; 0x55; 0; 0; 0; 0; 0] = frame_bytes t flags p
      /\ zlen p < 2 ^ 32 /\ ~ registered t.
Proof.
  apply unknown_type_classified; [repeat constructor; lia|unfold size_ok; cbn; lia|vm_compute; reflexivity].
Defined.
