(* ===== verification/HashBlocks.v ===== *)
(** * Block hashing: the shared reference of SHA-1 and SHA-256

    Both hash functions of the program follow the same construction: pad the
    message to whole 64-byte blocks, then fold a compression function over the
    blocks.  This file states the construction once (FIPS 180-4, sections 5.1.1
    and 5.2.1); the one-shot [sha256] of common/codec.hpp and the streaming
    [SHA1] of common/ws.hpp are both compared with it. *)

From S2P Require Import Prelude.

(** [h[i]] of a word array; the indices of the source are all in range. *)
Definition word (w : list Z) (i : nat) : Z := nth i w 0.

(** The big-endian words of a block, as the first loop of both transforms
    loads them. *)
Definition load_words (block : bytes) : list Z :=
  map (fun i => be32 (word block (i * 4)) (word block (i * 4 + 1))
                     (word block (i * 4 + 2)) (word block (i * 4 + 3))) (seq 0 16).

(** [w[i] = f(w, i)] for [i] from [length w] on, [n] times. *)
Definition extend (f : list Z -> nat -> Z) (w : list Z) (n : nat) : list Z :=
  foldl (fun w i => w ++ [f w i]) w (seq (length w) n).

(** The output loop: each word as four bytes. *)
Definition store_words (h : list Z) : bytes :=
  concat (map (fun x => [(x .>> 24) .& 0xFF; (x .>> 16) .& 0xFF; (x .>> 8) .& 0xFF; x .& 0xFF]) h).

(** ** The reference *)

(** The number of zero bytes between [0x80] and the length. *)
Definition pad_zeros (n : Z) : nat := Z.to_nat ((55 - n) mod 64).

Definition md_pad (m : bytes) : bytes :=
  m ++ [0x80] ++ replicate (pad_zeros (zlen m)) 0 ++ be_bytes 8 (8 * zlen m).

Fixpoint blocks (n : nat) (m : bytes) : list bytes :=
  match n with
  | O => []
  | S n => take 64 m :: blocks n (drop 64 m)
  end.

Definition md_hash (compress : list Z -> bytes -> list Z) (iv : list Z) (m : bytes) : list Z :=
  foldl compress iv (blocks (length (md_pad m) / 64) (md_pad m)).

(** ** Padding *)

Lemma length_md_pad m : zlen (md_pad m) = 64 * ((zlen m + 72) / 64).
Proof.
  unfold md_pad, pad_zeros. rewrite !length_app, length_replicate, length_be_bytes. cbn [length].
  Z.to_euclidean_division_equations. lia.
Qed.

Lemma md_pad_bytes m : is_bytes m -> is_bytes (md_pad m).
Proof.
  intros Hm. unfold md_pad. repeat (apply Forall_app; split); auto with hws.
  - repeat constructor; lia.
  - apply Forall_replicate. solve_width.
Qed.

(** ** Blocks *)

Lemma blocks_app (a b : bytes) i j : length a = (64 * i)%nat ->
  blocks (i + j) (a ++ b) = blocks i a ++ blocks j b.
Proof.
  revert a. induction i as [|i IH]; intros a Ha; [by destruct a|].
  cbn [blocks Nat.add app]. rewrite take_app_le, drop_app_le by lia. f_equal.
  apply IH. rewrite length_drop. lia.
Qed.

Lemma blocks_one a : length a = 64%nat -> blocks 1 a = [a].
Proof. intros H. cbn. by rewrite take_ge by lia. Qed.

(** ** Words *)

Lemma length_store_words h : length (store_words h) = (4 * length h)%nat.
Proof. unfold store_words. induction h; cbn [map concat length app] in *; lia. Qed.

Lemma store_words_bytes h : is_bytes (store_words h).
Proof.
  unfold store_words. induction h as [|x h IH]; [constructor|]. cbn [map concat app].
  repeat constructor; try (rewrite land_255; apply u8_range). exact IH.
Qed.
#[export] Hint Resolve md_pad_bytes store_words_bytes : hws.
