(* ===== verification/Fips180.v ===== *)
(** * SHA-256 and SHA-1 as FIPS 180-4 defines them

    The references that [detail::sha256] of common/codec.hpp (file [Sha256]) and
    [detail::SHA1] of common/ws.hpp (file [Sha1]) are compared with.  Nothing
    here is taken from the source: the constants are computed from roots of
    small numbers, rotations and choices are stated on numbers and on single
    bits, and the schedules grow at the front of a list. *)

From S2P Require Import Prelude HashBlocks.

(** ** Constants (sections 4.2.2 and 5.3.3) *)

(** The primes below 312, found by trial division: there are 64 of them. *)
Definition primes : list Z :=
  foldl (fun ps n => if forallb (fun p => negb (n mod p =? 0)) ps then ps ++ [n] else ps) [] (seqZ 2 310).

(** The integer [k]-th root, bit by bit from bit [b - 1] down. *)
Fixpoint root_from (k n : Z) (b : nat) (r : Z) : Z :=
  match b with
  | O => r
  | S b => root_from k n b (if (r + 2 ^ Z.of_nat b) ^ k <=? n then r + 2 ^ Z.of_nat b else r)
  end.

(** The first 32 bits of the fractional part of the [k]-th root of [p]. *)
Definition root_fraction (k p : Z) : Z := root_from k (p * 2 ^ (32 * k)) 40 0 mod 2 ^ 32.

Definition fips_K : list Z := map (root_fraction 3) primes.
Definition fips_H0 : list Z := map (root_fraction 2) (take 8 primes).

Lemma root_from_spec k n b r : 0 < k -> 0 <= r -> r ^ k <= n < (r + 2 ^ Z.of_nat b) ^ k ->
  root_from k n b r ^ k <= n < (root_from k n b r + 1) ^ k.
Proof.
  intros Hk. revert r. induction b as [|b IH]; intros r Hr Hn; [done|]. cbn [root_from].
  assert (r + 2 ^ Z.of_nat (S b) = r + 2 ^ Z.of_nat b + 2 ^ Z.of_nat b) as E
    by (rewrite Nat2Z.inj_succ, Z.pow_succ_r by lia; lia).
  rewrite E in Hn. pose proof (Z.pow_pos_nonneg 2 (Z.of_nat b)).
  case_match eqn:El; [apply Z.leb_le in El|apply Z.leb_gt in El]; apply IH; lia.
Qed.

(** The root is the integer root: the first 32 bits of the fraction come from
    the largest [r] with [(r / 2 ^ 32) ^ k <= p]. *)
Lemma root_fraction_spec k p : 0 < k -> 0 <= p < 2 ^ (8 * k) ->
  exists r, r ^ k <= p * 2 ^ (32 * k) < (r + 1) ^ k /\ root_fraction k p = r mod 2 ^ 32.
Proof.
  intros Hk Hp. eexists. split; [|reflexivity]. apply root_from_spec; [lia|lia|].
  rewrite Z.pow_0_l, Z.add_0_l by done. change (Z.of_nat 40) with (8 + 32).
  assert (0 < 2 ^ (32 * k)) by (apply Z.pow_pos_nonneg; lia).
  rewrite Z.pow_add_r, Z.pow_mul_l, <- !Z.pow_mul_r by lia. nia.
Qed.

(** ** Functions on words (sections 2.2.2 and 4.1.2) *)

(** The number with the given bits. *)
Fixpoint of_bits (n : nat) (f : Z -> bool) : Z :=
  match n with
  | O => 0
  | S n => Z.b2z (f 0) + 2 * of_bits n (fun i => f (i + 1))
  end.

(** Rotation and shift of a number below [2 ^ 32]. *)
Definition ROTR (n x : Z) : Z := x / 2 ^ n + (x mod 2 ^ n) * 2 ^ (32 - n).
Definition SHR (n x : Z) : Z := x / 2 ^ n.

(** [x] chooses between [y] and [z]; the majority of [x], [y] and [z]. *)
Definition Ch (x y z : Z) : Z :=
  of_bits 32 (fun i => if Z.testbit x i then Z.testbit y i else Z.testbit z i).
Definition Maj (x y z : Z) : Z :=
  of_bits 32 (fun i => if bool_decide (Z.testbit x i = Z.testbit y i) then Z.testbit x i else Z.testbit z i).

Definition Sigma0 (x : Z) : Z := ROTR 2 x .^ ROTR 13 x .^ ROTR 22 x.
Definition Sigma1 (x : Z) : Z := ROTR 6 x .^ ROTR 11 x .^ ROTR 25 x.
Definition sigma0 (x : Z) : Z := ROTR 7 x .^ ROTR 18 x .^ SHR 3 x.
Definition sigma1 (x : Z) : Z := ROTR 17 x .^ ROTR 19 x .^ SHR 10 x.

(** ** SHA-256 (section 6.2) *)

(** The words of a block, four bytes each. *)
Fixpoint block_words (n : nat) (b : bytes) : list Z :=
  match n with
  | O => []
  | S n => be_value (take 4 b) :: block_words n (drop 4 b)
  end.

(** [n] further words on a schedule whose last word comes first. *)
Fixpoint grow (next : list Z -> Z) (n : nat) (W : list Z) : list Z :=
  match n with
  | O => W
  | S n => let W := grow next n W in next W :: W
  end.

Definition fips_next (W : list Z) : Z :=
  (sigma1 (word W 1) + word W 6 + sigma0 (word W 14) + word W 15) mod 2 ^ 32.

Definition fips_W (block : bytes) : list Z := reverse (grow fips_next 48 (reverse (block_words 16 block))).

(** One round with the constant and the word of the round. *)
Definition fips_round (s : list Z) (kw : Z * Z) : list Z :=
  match s with
  | [a; b; c; d; e; f; g; h] =>
      let T1 := h + Sigma1 e + Ch e f g + fst kw + snd kw in
      let T2 := Sigma0 a + Maj a b c in
      [(T1 + T2) mod 2 ^ 32; a; b; c; (d + T1) mod 2 ^ 32; e; f; g]
  | _ => []
  end.

Definition fips_compress (H : list Z) (block : bytes) : list Z :=
  zip_with (fun x y => (x + y) mod 2 ^ 32) H (foldl fips_round H (zip fips_K (fips_W block))).

(** The padding and the blocks are those of [HashBlocks]; the digest is the
    final hash value, each word in big-endian order. *)
Definition SHA256 (m : bytes) : bytes :=
  concat (map (be_bytes 4) (md_hash fips_compress fips_H0 m)).

(** ** SHA-1 (sections 4.1.1, 4.2.1, 5.3.1 and 6.1) *)

(** The initial value counts nibbles up and down and then both ways, read in
    little-endian order. *)
Definition fips1_H0 : list Z := map (fun bs => be_value (reverse bs))
  [[0x01; 0x23; 0x45; 0x67]; [0x89; 0xab; 0xcd; 0xef]; [0xfe; 0xdc; 0xba; 0x98]; [0x76; 0x54; 0x32; 0x10]; [0xf0; 0xe1; 0xd2; 0xc3]].

Definition ROTL (n x : Z) : Z := ROTR (32 - n) x.
Definition Parity (x y z : Z) : Z := x .^ y .^ z.

(** The function and the constant of the four stages of twenty rounds: the
    roots of 2, 3, 5 and 10 with 30 bits behind the point. *)
Definition fips1_stages : list ((Z -> Z -> Z -> Z) * Z) :=
  zip [Ch; Parity; Maj; Parity] (map (fun n => root_from 2 (n * 2 ^ 60) 40 0) [2; 3; 5; 10]).

Definition fips1_next (W : list Z) : Z := ROTL 1 (word W 2 .^ word W 7 .^ word W 13 .^ word W 15).
Definition fips1_W (block : bytes) : list Z := reverse (grow fips1_next 64 (reverse (block_words 16 block))).

Definition fips1_round (s : list Z) (fkw : (Z -> Z -> Z -> Z) * Z * Z) : list Z :=
  match s with
  | [a; b; c; d; e] =>
      let '(f, k, w) := fkw in
      [(ROTL 5 a + f b c d + e + k + w) mod 2 ^ 32; a; ROTL 30 b; c; d]
  | _ => []
  end.

Definition fips1_compress (H : list Z) (block : bytes) : list Z :=
  zip_with (fun x y => (x + y) mod 2 ^ 32) H
    (foldl fips1_round H (zip (concat (map (replicate 20) fips1_stages)) (fips1_W block))).

Definition SHA1_digest (m : bytes) : bytes :=
  concat (map (be_bytes 4) (md_hash fips1_compress fips1_H0 m)).

(** ** Lemmas *)

Lemma of_bits_testbit n f i : 0 <= i -> Z.testbit (of_bits n f) i = (i <? Z.of_nat n) && f i.
Proof.
  revert f i. induction n as [|n IH]; intros f i Hi; cbn [of_bits].
  { rewrite Z.testbit_0_l, (proj2 (Z.ltb_ge _ _)) by lia. done. }
  destruct (decide (i = 0)) as [->|Hne].
  - rewrite Z.add_b2z_double_bit0. by rewrite (proj2 (Z.ltb_lt _ _)) by lia.
  - replace i with (Z.succ (i - 1)) at 1 by lia. rewrite Z.add_comm, Z.testbit_succ_r, IH by lia.
    f_equal; [|f_equal; lia]. destruct (Z.ltb_spec (i - 1) (Z.of_nat n)), (Z.ltb_spec i (Z.of_nat (S n))); done || lia.
Qed.

Lemma ROTR_range n x : is_u32 x -> 0 < n < 32 -> is_u32 (ROTR n x).
Proof.
  intros Hx Hn. unfold is_u32, ROTR in *.
  assert (2 ^ 32 = 2 ^ n * 2 ^ (32 - n)) as Hp by (rewrite <- Z.pow_add_r by lia; f_equal; lia).
  assert (0 < 2 ^ n) by (apply Z.pow_pos_nonneg; lia).
  assert (0 < 2 ^ (32 - n)) by (apply Z.pow_pos_nonneg; lia).
  assert (0 <= x / 2 ^ n < 2 ^ (32 - n)).
  { split; [apply Z.div_pos; lia|]. apply Z.div_lt_upper_bound; lia. }
  pose proof (Z.mod_pos_bound x (2 ^ n)). nia.
Qed.

Lemma length_fips_compress H b : length H = 8%nat -> length (fips_compress H b) = 8%nat.
Proof.
  intros HH. unfold fips_compress. rewrite length_zip_with.
  assert (forall l s, length s = 8%nat -> length (foldl fips_round s l) = 8%nat) as Hl; [|rewrite Hl; lia].
  induction l as [|kw l IH]; intros s Hs; [done|]. cbn [foldl]. apply IH.
  do 8 (destruct s as [|? s]; [done|]). by destruct s.
Qed.

Lemma fips_constants : length primes = 64%nat /\ length fips_H0 = 8%nat.
Proof. vm_compute. done. Qed.

Lemma length_SHA256 m : length (SHA256 m) = 32%nat.
Proof.
  unfold SHA256, md_hash. generalize (blocks (length (md_pad m) / 64) (md_pad m)) as bs. intros bs.
  assert (forall h, length h = 8%nat -> length (foldl fips_compress h bs) = 8%nat) as Hl.
  { induction bs as [|b bs IH]; intros h Hh; [done|]. cbn [foldl]. by apply IH, length_fips_compress. }
  pose proof (Hl fips_H0 (proj2 fips_constants)) as H8. clear Hl. revert H8.
  generalize (foldl fips_compress fips_H0 bs) as h. intros h Hh.
  do 8 (destruct h as [|? h]; [done|]). by destruct h.
Qed.

Lemma SHA256_bytes m : is_bytes (SHA256 m).
Proof.
  unfold SHA256. generalize (md_hash fips_compress fips_H0 m) as h. intros h.
  induction h as [|x h IH]; [constructor|]. cbn [map concat]. apply Forall_app; split; auto with hws.
Qed.

(** ** The loops of the code *)

Definition words_ok (w : list Z) : Prop := Forall is_u32 w.

Lemma word_ok w i : words_ok w -> is_u32 (word w i).
Proof.
  intros Hw. unfold word. destruct (nth_in_or_default i w 0) as [Hi| ->]; [|solve_width].
  apply list_elem_of_In in Hi. by apply (proj1 (Forall_forall _ _) Hw).
Qed.

Lemma word_byte b i : is_bytes b -> is_u8 (word b i).
Proof.
  intros Hw. unfold word. destruct (nth_in_or_default i b 0) as [Hi| ->]; [|solve_width].
  apply list_elem_of_In in Hi. by apply (proj1 (Forall_forall _ _) Hw).
Qed.

Lemma load_words_ok b : is_bytes b -> words_ok (load_words b).
Proof.
  intros Hb. apply Forall_map, Forall_forall. intros i _. cbn beta.
  rewrite be32_value by (repeat (constructor; [by apply word_byte|]); constructor).
  apply (be_value_range [_; _; _; _]). repeat (constructor; [by apply word_byte|]); constructor.
Qed.

Lemma word_reverse w i : (i < length w)%nat -> word (reverse w) i = word w (length w - 1 - i).
Proof.
  intros Hi. unfold word, reverse. rewrite <- rev_alt, rev_nth by done. f_equal. lia.
Qed.

(** Growing a schedule at its end is growing the reversed one at its front, when
    the two steps agree. *)
Lemma grow_extend step next n w :
  (forall w, words_ok w -> (16 <= length w)%nat -> step w (length w) = next (reverse w) /\ is_u32 (step w (length w))) ->
  words_ok w -> length w = 16%nat ->
  extend step w n = reverse (grow next n (reverse w))
  /\ words_ok (extend step w n) /\ length (extend step w n) = (16 + n)%nat.
Proof.
  intros Hstep Hw Hl. induction n as [|n (IH & Hok & Hlen)].
  { by rewrite Nat.add_0_r; cbn [grow]; rewrite reverse_involutive. }
  assert (extend step w (S n) = extend step w n ++ [step (extend step w n) (length (extend step w n))]) as E.
  { rewrite Hlen. unfold extend. rewrite seq_S, foldl_app, Hl. done. }
  destruct (Hstep (extend step w n) Hok ltac:(lia)) as [Hs Hu]. rewrite E. split_and!.
  - cbn [grow]. rewrite reverse_cons, <- IH. do 2 f_equal. by rewrite Hs, IH, reverse_involutive.
  - apply Forall_app; split; [done|]. by apply Forall_singleton.
  - rewrite length_app, Hlen. cbn [length]. lia.
Qed.

Lemma load_words_block b : is_bytes b -> length b = 64%nat -> load_words b = block_words 16 b.
Proof.
  unfold load_words. change 64%nat with (4 * 16)%nat. generalize 16%nat as n. intros n. revert b.
  induction n as [|n IH]; intros b Hb Hl; [done|].
  destruct b as [|b0 [|b1 [|b2 [|b3 b]]]]; try (cbn [length] in Hl; lia).
  cbn [seq map block_words take drop]. change (b0 :: b1 :: b2 :: b3 :: b) with ([b0; b1; b2; b3] ++ b) in Hb.
  apply Forall_app in Hb as [Hb4 Hb]. f_equal; [by apply be32_value|].
  rewrite drop_0, <- IH, <- seq_shift, map_map by (done || (cbn [length] in Hl; lia)). done.
Qed.

(** A loop over the indices of two arrays is a loop over their pairs. *)
Lemma foldl_zip {A B} (d : B) (f : A -> B * Z -> A) ks ws x n : length ks = n -> length ws = n ->
  foldl (fun x i => f x (nth i ks d, word ws i)) x (seq 0 n) = foldl f x (zip ks ws).
Proof.
  revert ks ws x. induction n as [|n IH]; intros ks ws x Hk Hw; [by destruct ks, ws|].
  destruct ks as [|k ks], ws as [|v ws]; try done. cbn [seq foldl zip zip_with]. cbn [word nth].
  rewrite <- seq_shift, foldl_fmap. cbn [word nth].
  rewrite <- (IH ks ws) by (cbn in *; lia). done.
Qed.

Lemma blocks_ok (m : bytes) : is_bytes m ->
  Forall (fun b => is_bytes b /\ length b = 64%nat) (blocks (length (md_pad m) / 64) (md_pad m)).
Proof.
  assert (forall n (m : bytes), is_bytes m -> length m = (64 * n)%nat ->
    Forall (fun b => is_bytes b /\ length b = 64%nat) (blocks n m)) as Hall.
  { intros n. induction n as [|n IH]; intros m0 Hm Hl; [constructor|]. cbn [blocks]. constructor.
    - split; [by apply Forall_take|]. rewrite length_take. lia.
    - apply IH; [by apply Forall_drop|]. rewrite length_drop. lia. }
  intros Hm. apply Hall; [auto with hws|]. pose proof (length_md_pad m). apply Nat2Z.inj.
  rewrite Nat2Z.inj_mul, Nat2Z.inj_div. Z.to_euclidean_division_equations. lia.
Qed.

(** Two compressions that agree on well-formed states agree on messages. *)
Lemma md_hash_agree (ok : list Z -> Prop) f g iv m : is_bytes m -> ok iv ->
  (forall h b, ok h -> is_bytes b -> length b = 64%nat -> f h b = g h b /\ ok (f h b)) ->
  md_hash f iv m = md_hash g iv m.
Proof.
  intros Hm Hiv Hfg. unfold md_hash. pose proof (blocks_ok m Hm) as Hbs. revert iv Hiv.
  induction Hbs as [|b bs [Hb Hl] _ IH]; intros h Hh; [done|]. cbn [foldl].
  destruct (Hfg h b Hh Hb Hl) as [<- Hs]. by apply IH.
Qed.

Lemma store_words_be h : store_words h = concat (map (be_bytes 4) h).
Proof. reflexivity. Qed.

(** Complement, choice and majority with the operators of C++. *)
Lemma testbit_choice op e f g i : is_u32 e -> is_u32 g -> 0 <= i -> (forall a b, op a b = a .^ b) \/ (forall a b, op a b = a .| b) ->
  Z.testbit (op (e .& f) (u32 (Z.lnot e) .& g)) i = Z.testbit (Ch e f g) i.
Proof.
  intros He Hg Hi Hop. unfold Ch, u32. rewrite of_bits_testbit by done. change (Z.of_nat 32) with 32.
  destruct Hop as [-> | ->]; rewrite ?Z.lxor_spec, ?Z.lor_spec, !Z.land_spec; (destruct (Z.ltb_spec i 32); cbn [andb];
    [rewrite Z.mod_pow2_bits_low, Z.lnot_spec by lia; by destruct (Z.testbit e i), (Z.testbit f i), (Z.testbit g i)
    |by rewrite (testbit_high 32 e i), (testbit_high 32 g i), andb_false_r by (done || lia)]).
Qed.

Lemma testbit_majority op a b c i : is_u32 a -> is_u32 b -> is_u32 c -> 0 <= i -> (forall a b, op a b = a .^ b) \/ (forall a b, op a b = a .| b) ->
  Z.testbit (op (op (a .& b) (a .& c)) (b .& c)) i = Z.testbit (Maj a b c) i.
Proof.
  intros Ha Hb Hc Hi Hop. unfold Maj. rewrite of_bits_testbit by done. change (Z.of_nat 32) with 32.
  destruct Hop as [E | E]; rewrite !E, ?Z.lxor_spec, ?Z.lor_spec, !Z.land_spec; (destruct (Z.ltb_spec i 32); cbn [andb];
    [by destruct (Z.testbit a i), (Z.testbit b i), (Z.testbit c i)
    |by rewrite (testbit_high 32 a i), (testbit_high 32 b i), (testbit_high 32 c i) by (done || lia)]).
Qed.
