(* ===== verification/Sha256.v ===== *)
(** * SHA-256 and [hashNumber] (common/codec.hpp)

    [detail::sha256] pads the message in a vector, then walks it block by
    block; [hashNumber] is the hash of the decimal text of a number, cut to ten
    hexadecimal characters.  The code is proved equal to the [SHA256] of
    [Fips180] on every byte string. *)

From S2P Require Import Prelude HashBlocks Fips180.

(** ** The code *)

Definition rotr (x n : Z) : Z := (x .>> n) .| u32 (x .<< (32 - n)).

(** The constant table, a row of the source per line. *)
Definition sha256_K : list Z := concat [
  [0x428a2f98; 0x71374491; 0xb5c0fbcf; 0xe9b5dba5; 0x3956c25b; 0x59f111f1; 0x923f82a4; 0xab1c5ed5];
  [0xd807aa98; 0x12835b01; 0x243185be; 0x550c7dc3; 0x72be5d74; 0x80deb1fe; 0x9bdc06a7; 0xc19bf174];
  [0xe49b69c1; 0xefbe4786; 0x0fc19dc6; 0x240ca1cc; 0x2de92c6f; 0x4a7484aa; 0x5cb0a9dc; 0x76f988da];
  [0x983e5152; 0xa831c66d; 0xb00327c8; 0xbf597fc7; 0xc6e00bf3; 0xd5a79147; 0x06ca6351; 0x14292967];
  [0x27b70a85; 0x2e1b2138; 0x4d2c6dfc; 0x53380d13; 0x650a7354; 0x766a0abb; 0x81c2c92e; 0x92722c85];
  [0xa2bfe8a1; 0xa81a664b; 0xc24b8b70; 0xc76c51a3; 0xd192e819; 0xd6990624; 0xf40e3585; 0x106aa070];
  [0x19a4c116; 0x1e376c08; 0x2748774c; 0x34b0bcb5; 0x391c0cb3; 0x4ed8aa4a; 0x5b9cca4f; 0x682e6ff3];
  [0x748f82ee; 0x78a5636f; 0x84c87814; 0x8cc70208; 0x90befffa; 0xa4506ceb; 0xbef9a3f7; 0xc67178f2]].

Definition sha256_H0 : list Z := [
  0x6a09e667; 0xbb67ae85; 0x3c6ef372; 0xa54ff53a; 0x510e527f; 0x9b05688c; 0x1f83d9ab; 0x5be0cd19].

(** [while (msg.size() % 64 != 56) msg.push_back(0)]: at most 63 rounds. *)
Fixpoint sha256_zero_fill (fuel : nat) (msg : bytes) : result bytes :=
  if zlen msg mod 64 =? 56 then Ok msg
  else match fuel with
       | O => Stuck
       | S f => sha256_zero_fill f (msg ++ [0])
       end.

Definition sha256_pad (data : bytes) (len : Z) : result bytes :=
  let* msg := rd_range data 0 len in
  let* msg := sha256_zero_fill 64 (msg ++ [0x80]) in
  let bitLen := u64 (u64 len * 8) in
  Ok (msg ++ map (fun i => u8 (bitLen .>> (i * 8))) [7; 6; 5; 4; 3; 2; 1; 0]).

(** The second schedule loop, one word. *)
Definition sha256_w (w : list Z) (i : nat) : Z :=
  let s0 := rotr (word w (i - 15)) 7 .^ rotr (word w (i - 15)) 18 .^ (word w (i - 15) .>> 3) in
  let s1 := rotr (word w (i - 2)) 17 .^ rotr (word w (i - 2)) 19 .^ (word w (i - 2) .>> 10) in
  u32 (word w (i - 16) + s0 + word w (i - 7) + s1).

Definition sha256_schedule (block : bytes) : list Z := extend sha256_w (load_words block) 48.

(** One iteration of the round loop on [a .. h_]. *)
Definition sha256_round (w : list Z) (s : list Z) (i : nat) : list Z :=
  let a := word s 0 in let b := word s 1 in let c := word s 2 in let d := word s 3 in
  let e := word s 4 in let f := word s 5 in let g := word s 6 in let h_ := word s 7 in
  let S1 := rotr e 6 .^ rotr e 11 .^ rotr e 25 in
  let ch := (e .& f) .^ (u32 (Z.lnot e) .& g) in
  let temp1 := u32 (h_ + S1 + ch + word sha256_K i + word w i) in
  let S0 := rotr a 2 .^ rotr a 13 .^ rotr a 22 in
  let maj := (a .& b) .^ (a .& c) .^ (b .& c) in
  let temp2 := u32 (S0 + maj) in
  [u32 (temp1 + temp2); a; b; c; u32 (d + temp1); e; f; g].

(** The body of the block loop on the 64 bytes at [off]. *)
Definition sha256_block (h : list Z) (block : bytes) : list Z :=
  let w := sha256_schedule block in
  let s := foldl (sha256_round w) h (seq 0 64) in
  map (fun i => u32 (word h i + word s i)) (seq 0 8).

(** [for (size_t off = 0; off < msg.size(); off += 64)]. *)
Fixpoint sha256_blocks (fuel : nat) (msg : bytes) (off : Z) (h : list Z) : result (list Z) :=
  if negb (off <? zlen msg) then Ok h
  else match fuel with
       | O => Stuck
       | S f =>
           let* block := rd_range msg off 64 in
           sha256_blocks f msg (off + 64) (sha256_block h block)
       end.

Definition sha256 (data : bytes) (len : Z) : result bytes :=
  let* msg := sha256_pad data len in
  let* h := sha256_blocks (length msg) msg 0 sha256_H0 in
  Ok (store_words h).

(** [std::hex << std::setw(2) << std::setfill('0')] on one byte. *)
Definition hex_digit (d : Z) : Z := if d <? 10 then 48 + d else 87 + d.
Definition hex_byte (b : Z) : bytes := [hex_digit (b / 16); hex_digit (b mod 16)].

Definition hashNumber (num : Z) : result bytes :=
  let s := to_string num in
  let* hash := sha256 s (zlen s) in
  Ok (concat (map (fun i => hex_byte (word hash i)) (seq 0 5))).

(** ** Padding *)

Lemma zero_fill_spec k fuel msg : zlen msg mod 64 = (56 - Z.of_nat k) mod 64 -> (k < 64)%nat ->
  (k <= fuel)%nat -> sha256_zero_fill fuel msg = Ok (msg ++ replicate k 0).
Proof.
  revert fuel msg. induction k as [|k IH]; intros fuel msg Hm Hk Hf.
  - destruct fuel; cbn [sha256_zero_fill]; rewrite Hm; cbn; by rewrite app_nil_r.
  - destruct fuel as [|f]; [lia|]. cbn [sha256_zero_fill replicate].
    rewrite (proj2 (Z.eqb_neq _ _)) by (rewrite Hm; Z.to_euclidean_division_equations; lia).
    rewrite (IH f (msg ++ [0])); [by rewrite <- app_assoc| |lia|lia].
    rewrite length_app. cbn [length]. rewrite Nat2Z.inj_add, Z.add_mod, Hm, <- Z.add_mod by lia.
    f_equal. lia.
Qed.

Lemma sha256_pad_md data : sha256_pad data (zlen data) = Ok (md_pad data).
Proof.
  unfold sha256_pad, md_pad. rewrite rd_range_all. cbn [rbind].
  rewrite (zero_fill_spec (pad_zeros (zlen data)) 64).
  - cbn [rbind]. rewrite <- !app_assoc. do 4 f_equal.
    rewrite <- (be_bytes_mod 8 64 (8 * zlen data)) by lia.
    assert (u64 (u64 (zlen data) * 8) = (8 * zlen data) mod 2 ^ 64) as ->.
    { unfold u64. rewrite Zmult_mod_idemp_l. f_equal. lia. }
    cbn [be_bytes map]. rewrite !land_255. done.
  - unfold pad_zeros. rewrite length_app. cbn [length]. Z.to_euclidean_division_equations. lia.
  - unfold pad_zeros. Z.to_euclidean_division_equations. lia.
  - unfold pad_zeros. Z.to_euclidean_division_equations. lia.
Qed.

(** ** Blocks *)

Lemma sha256_blocks_spec n i fuel (msg : bytes) h :
  zlen msg = 64 * Z.of_nat (i + n) -> (n <= fuel)%nat ->
  sha256_blocks fuel msg (64 * Z.of_nat i) h =
    Ok (foldl sha256_block h (blocks n (drop (64 * i) msg))).
Proof.
  revert i fuel h. induction n as [|n IH]; intros i fuel h Hm Hf.
  - destruct fuel; cbn [sha256_blocks]; by rewrite (proj2 (Z.ltb_ge _ _)) by lia.
  - destruct fuel as [|f]; [lia|]. cbn [sha256_blocks].
    rewrite (proj2 (Z.ltb_lt _ _)) by lia. cbn [negb]. unfold rd_range.
    rewrite !(proj2 (Z.leb_le _ _)) by lia. cbn [andb rbind]. eval_nats.
    replace (64 * Z.of_nat i + 64) with (64 * Z.of_nat (S i)) by lia.
    rewrite IH by lia. cbn [blocks foldl]. rewrite drop_drop. do 2 f_equal; do 2 f_equal; try lia.
    do 2 f_equal. lia.
Qed.

Lemma sha256_spec data :
  sha256 data (zlen data) = Ok (store_words (md_hash sha256_block sha256_H0 data)).
Proof.
  unfold sha256, md_hash. rewrite sha256_pad_md. cbn [rbind].
  pose proof (length_md_pad data) as Hl.
  pose proof (sha256_blocks_spec (length (md_pad data) / 64) 0 (length (md_pad data))
                (md_pad data) sha256_H0) as Hb.
  change (64 * Z.of_nat 0) with 0 in Hb. rewrite Hb; cbn [rbind Nat.mul]; [by rewrite drop_0| |].
  - rewrite Nat2Z.inj_add, Nat2Z.inj_div. Z.to_euclidean_division_equations. lia.
  - apply Nat.Div0.div_le_upper_bound. lia.
Qed.

(** ** Word functions *)

Lemma rotr_ROTR n x : is_u32 x -> 0 < n < 32 -> rotr x n = ROTR n x.
Proof.
  intros Hx Hn. unfold rotr, ROTR. rewrite Z.shiftr_div_pow2, Z.lor_comm by lia.
  assert (2 ^ 32 = 2 ^ n * 2 ^ (32 - n)) as Hp by (rewrite <- Z.pow_add_r by lia; f_equal; lia).
  assert (u32 (x .<< (32 - n)) = (x mod 2 ^ n) .<< (32 - n)) as ->.
  { unfold u32. rewrite !Z.shiftl_mul_pow2, Hp by lia. by rewrite Z.mul_mod_distr_r by lia. }
  rewrite shiftl_lor; [lia|lia|]. unfold is_u32 in Hx. split; [apply Z.div_pos; lia|].
  apply Z.div_lt_upper_bound; lia.
Qed.

Lemma ch_Ch e f g : is_u32 e -> is_u32 g -> (e .& f) .^ (u32 (Z.lnot e) .& g) = Ch e f g.
Proof. intros He Hg. apply Z.bits_inj'. intros i Hi. by apply (testbit_choice Z.lxor); auto. Qed.

Lemma maj_Maj a b c : is_u32 a -> is_u32 b -> is_u32 c -> (a .& b) .^ (a .& c) .^ (b .& c) = Maj a b c.
Proof. intros Ha Hb Hc. apply Z.bits_inj'. intros i Hi. by apply (testbit_majority Z.lxor); auto. Qed.

(** ** The schedule *)

Lemma sha256_next w : words_ok w -> (16 <= length w)%nat ->
  sha256_w w (length w) = fips_next (reverse w) /\ is_u32 (sha256_w w (length w)).
Proof.
  intros Hok Hlen. split; [|apply u32_range]. unfold fips_next, sha256_w, sigma0, sigma1, SHR, u32.
  rewrite !word_reverse by lia. rewrite !rotr_ROTR, !Z.shiftr_div_pow2 by (apply word_ok, Hok || lia).
  replace (length w - 1 - 1)%nat with (length w - 2)%nat by lia.
  replace (length w - 1 - 6)%nat with (length w - 7)%nat by lia.
  replace (length w - 1 - 14)%nat with (length w - 15)%nat by lia.
  replace (length w - 1 - 15)%nat with (length w - 16)%nat by lia. f_equal. lia.
Qed.

Lemma sha256_schedule_fips b : is_bytes b -> length b = 64%nat ->
  sha256_schedule b = fips_W b /\ words_ok (sha256_schedule b) /\ length (sha256_schedule b) = 64%nat.
Proof.
  intros Hb Hl. unfold sha256_schedule, fips_W. rewrite <- load_words_block by done.
  apply (grow_extend _ _ 48); [apply sha256_next|by apply load_words_ok|done].
Qed.

(** ** The rounds *)

Lemma fips_K_code : fips_K = sha256_K.
Proof. vm_compute. reflexivity. Qed.

Lemma fips_H0_code : fips_H0 = sha256_H0.
Proof. vm_compute. reflexivity. Qed.

(** A state of the rounds: eight words. *)
Definition state8 (s : list Z) : Prop := words_ok s /\ length s = 8%nat.

Lemma state8_cases s : state8 s -> exists a b c d e f g h, s = [a; b; c; d; e; f; g; h]
  /\ is_u32 a /\ is_u32 b /\ is_u32 c /\ is_u32 d /\ is_u32 e /\ is_u32 f /\ is_u32 g /\ is_u32 h.
Proof.
  intros [Hs Hl]. do 8 (destruct s as [|? s]; [done|]). destruct s; [|done].
  repeat (apply Forall_cons in Hs as [? Hs]). by eexists _, _, _, _, _, _, _, _.
Qed.

Lemma sha256_round_fips w s i : state8 s ->
  sha256_round w s i = fips_round s (word sha256_K i, word w i) /\ state8 (sha256_round w s i).
Proof.
  intros Hs. destruct (state8_cases s Hs) as (a & b & c & d & e & f & g & h & -> & ? & ? & ? & ? & ? & ? & ? & ?).
  unfold sha256_round, fips_round, Sigma0, Sigma1. cbn [word nth fst snd].
  rewrite !rotr_ROTR, ch_Ch, maj_Maj by (done || lia). unfold u32. split.
  - rewrite <- Zplus_mod, Zplus_mod_idemp_r. done.
  - split; [|done]. repeat (apply Forall_cons; split; [solve [done|apply Z.mod_pos_bound; lia]|]). constructor.
Qed.

Lemma sha256_rounds_fips w s l : state8 s ->
  foldl (sha256_round w) s l = foldl (fun s i => fips_round s (word sha256_K i, word w i)) s l
  /\ state8 (foldl (sha256_round w) s l).
Proof.
  revert s. induction l as [|i l IH]; intros s Hs; [done|]. cbn [foldl].
  destruct (sha256_round_fips w s i Hs) as [<- Hs']. by apply IH.
Qed.

Lemma sha256_block_fips h b : state8 h -> is_bytes b -> length b = 64%nat ->
  sha256_block h b = fips_compress h b /\ state8 (sha256_block h b).
Proof.
  intros Hh Hb Hl. destruct (sha256_schedule_fips b Hb Hl) as (E & Hw & Hlw).
  unfold sha256_block, fips_compress.
  destruct (sha256_rounds_fips (sha256_schedule b) h (seq 0 64) Hh) as [E2 Hs].
  rewrite (foldl_zip 0 fips_round sha256_K) in E2 by (done || reflexivity).
  rewrite <- E, fips_K_code, <- E2.
  destruct (state8_cases _ Hh) as (h0 & h1 & h2 & h3 & h4 & h5 & h6 & h7 & -> & _).
  destruct (state8_cases _ Hs) as (s0 & s1 & s2 & s3 & s4 & s5 & s6 & s7 & -> & _). split; [done|].
  split; [|done]. apply Forall_map, Forall_forall. intros i _. apply u32_range.
Qed.

(** ** The whole hash *)

Lemma sha256_fips data : is_bytes data -> sha256 data (zlen data) = Ok (SHA256 data).
Proof.
  intros Hd. rewrite sha256_spec, store_words_be. unfold SHA256. rewrite fips_H0_code. do 3 f_equal.
  apply (md_hash_agree state8); [done| |intros; by apply sha256_block_fips].
  split; [|done]. unfold words_ok, is_u32. repeat (constructor; [lia|]). constructor.
Qed.

(** ** Properties *)

(** C24: [sha256] computes SHA-256: on every byte string it terminates without
    reading outside its buffers and its result is the 32-byte digest that
    FIPS 180-4 defines, with the constants computed from the fractional parts of
    the cube and square roots of the primes, the rotations as arithmetic
    rotations, [Ch] and [Maj] bit by bit, additions modulo [2 ^ 32] and the
    words of the digest in big-endian order. *)
Theorem sha256_correct data :
  is_bytes data ->
  sha256 data (zlen data) = Ok (SHA256 data)
  /\ length (SHA256 data) = 32%nat /\ is_bytes (SHA256 data).
Proof. intros Hd. split_and!; [by apply sha256_fips|apply length_SHA256|apply SHA256_bytes]. Qed.

Lemma sha256_correct_witness : is_bytes (str "abc")
  /\ sha256 (str "abc") 3 = Ok (SHA256 (str "abc")) /\ length (SHA256 (str "abc")) = 32%nat.
Proof.
  split; [apply str_bytes|]. destruct (sha256_correct (str "abc")) as (H & Hl & _); [apply str_bytes|].
  split; [exact H|exact Hl].
Defined.

(** The hexadecimal text of a digest. *)
Definition hex_text (l : bytes) : bytes := concat (map hex_byte l).
Definition is_hex (c : Z) : Prop := 48 <= c <= 57 \/ 97 <= c <= 102.

Lemma to_string_bytes n : is_bytes (to_string n).
Proof.
  assert (forall k, 0 <= k -> is_bytes (digits 20 k [])) as Hd.
  { intros k Hk. eapply Forall_impl; [by apply digits_digit|]. cbn beta. intros. solve_width. }
  unfold to_string. case_match; [apply Forall_cons; split; [solve_width|]|]; apply Hd; lia.
Qed.

Lemma hashNumber_spec num : hashNumber num = Ok (take 10 (hex_text (SHA256 (to_string num)))).
Proof.
  unfold hashNumber. rewrite sha256_fips by apply to_string_bytes. cbn [rbind]. f_equal.
  pose proof (length_SHA256 (to_string num)) as Hl. set (d := SHA256 _) in *.
  destruct d as [|d0 [|d1 [|d2 [|d3 [|d4 d]]]]]; try (cbn in Hl; lia). done.
Qed.

Lemma hex_text_hex l : is_bytes l -> Forall is_hex (hex_text l) /\ length (hex_text l) = (2 * length l)%nat.
Proof.
  assert (forall c, 0 <= c < 16 -> is_hex (hex_digit c)) as Hh.
  { intros c Hc. unfold is_hex, hex_digit. case_match; lia. }
  unfold hex_text. induction 1 as [|b l Hb Hl [IH1 IH2]]; [done|]. cbn [map concat]. split.
  - apply Forall_app; split; [|done]. repeat (apply Forall_cons; split; [apply Hh; solve_width|]). constructor.
  - rewrite length_app. cbn [length hex_byte]. lia.
Qed.

(** C39: [hashNumber] always returns ten lowercase hexadecimal characters: the
    first ten of the FIPS 180-4 SHA-256 digest of the decimal text of the
    number, for every number. *)
Theorem hashNumber_correct num :
  hashNumber num = Ok (take 10 (hex_text (SHA256 (to_string num))))
  /\ length (take 10 (hex_text (SHA256 (to_string num)))) = 10%nat
  /\ Forall is_hex (take 10 (hex_text (SHA256 (to_string num)))).
Proof.
  destruct (hex_text_hex _ (SHA256_bytes (to_string num))) as [Hh Hl].
  split_and!; [apply hashNumber_spec| |by apply Forall_take].
  rewrite length_take, Hl, length_SHA256. done.
Qed.

(** Known answers: the test strings of FIPS 180-4 and a short number. *)
Example sha256_abc : (let* d := sha256 (str "abc") 3 in Ok (hex_text d)) =
  Ok (str "ba7816bf8f01cfea414140de5dae2223b00361a396177a9cb410ff61f20015ad").
Proof. vm_compute. reflexivity. Qed.
Example sha256_two_blocks :
  (let* d := sha256 (str "abcdbcdecdefdefgefghfghighijhijkijkljklmklmnlmnomnopnopq") 56 in Ok (hex_text d)) =
  Ok (str "248d6a61d20638b8e5c026930c3e6039a33ce45964ff2167f6ecedd419db06c1").
Proof. vm_compute. reflexivity. Qed.
Example hashNumber_42 : hashNumber 42 = Ok (str "73475cb40a").
Proof. vm_compute. reflexivity. Qed.
