(* ===== verification/Sha1.v ===== *)
(** * Streaming SHA-1 ([detail::SHA1] of common/ws.hpp)

    The handshake hash.  The struct keeps five chaining words, a 64-byte
    buffer, its fill level and a bit counter; [update] takes bytes one at a
    time and [final] pads in place.  The buffer of a fresh object is not
    initialised: its contents are a parameter of [new_SHA1], and the result is
    shown not to depend on them and to be the SHA-1 of [Fips180]. *)

From S2P Require Import Prelude HashBlocks Fips180.

(** ** The code *)

Record SHA1 := { sha1_h : list Z; sha1_bitlen : Z; sha1_data : bytes; sha1_datalen : Z }.

#[export] Instance SHA1_eta : Eta SHA1 := fun s =>
  {| sha1_h := sha1_h s; sha1_bitlen := sha1_bitlen s;
     sha1_data := sha1_data s; sha1_datalen := sha1_datalen s |}.
#[export] Instance set_sha1_h : Settable sha1_h := ltac:(derive_setter).
#[export] Instance set_sha1_bitlen : Settable sha1_bitlen := ltac:(derive_setter).
#[export] Instance set_sha1_data : Settable sha1_data := ltac:(derive_setter).
#[export] Instance set_sha1_datalen : Settable sha1_datalen := ltac:(derive_setter).

Definition sha1_iv : list Z := [0x67452301; 0xEFCDAB89; 0x98BADCFE; 0x10325476; 0xC3D2E1F0].

(** [detail::SHA1 sha;]: [garbage] is what the buffer happens to hold. *)
Definition new_SHA1 (garbage : bytes) : SHA1 :=
  {| sha1_h := sha1_iv; sha1_bitlen := 0; sha1_data := garbage; sha1_datalen := 0 |}.

Definition rotl (x n : Z) : Z := u32 (x .<< n) .| (x .>> (32 - n)).

Definition sha1_w (w : list Z) (i : nat) : Z :=
  rotl (word w (i - 3) .^ word w (i - 8) .^ word w (i - 14) .^ word w (i - 16)) 1.

Definition sha1_schedule (data : bytes) : list Z := extend sha1_w (load_words data) 64.

(** One iteration of the round loop on [a .. e]. *)
Definition sha1_round (w : list Z) (s : list Z) (i : nat) : list Z :=
  let a := word s 0 in let b := word s 1 in let c := word s 2 in
  let d := word s 3 in let e := word s 4 in
  let '(f, k) :=
    if (i <? 20)%nat then ((b .& c) .| (u32 (Z.lnot b) .& d), 0x5A827999)
    else if (i <? 40)%nat then (b .^ c .^ d, 0x6ED9EBA1)
    else if (i <? 60)%nat then ((b .& c) .| (b .& d) .| (c .& d), 0x8F1BBCDC)
    else (b .^ c .^ d, 0xCA62C1D6) in
  let temp := u32 (rotl a 5 + f + e + k + word w i) in
  [temp; a; rotl b 30; c; d].

(** The body of [transform] on the chaining words and the buffer. *)
Definition sha1_block (h : list Z) (data : bytes) : list Z :=
  let w := sha1_schedule data in
  let s := foldl (sha1_round w) h (seq 0 80) in
  map (fun i => u32 (word h i + word s i)) (seq 0 5).

Definition sha1_transform (st : SHA1) : SHA1 :=
  st <| sha1_h := sha1_block (sha1_h st) (sha1_data st) |>.

(** [data[datalen++] = b]. *)
Definition sha1_push (b : Z) (st : SHA1) : result SHA1 :=
  let* d := wr (sha1_data st) (sha1_datalen st) b in
  Ok (st <| sha1_data := d |> <| sha1_datalen := sha1_datalen st + 1 |>).

(** The body of the [update] loop. *)
Definition sha1_update1 (b : Z) (st : SHA1) : result SHA1 :=
  let* st := sha1_push b st in
  if sha1_datalen st =? 64 then
    let st := sha1_transform st in
    Ok (st <| sha1_bitlen := u64 (sha1_bitlen st + 512) |> <| sha1_datalen := 0 |>)
  else Ok st.

Fixpoint sha1_update (msg : bytes) (st : SHA1) : result SHA1 :=
  match msg with
  | [] => Ok st
  | b :: msg => let* st := sha1_update1 b st in sha1_update msg st
  end.

(** [while (datalen < limit) data[datalen++] = 0]. *)
Fixpoint sha1_zero_fill (fuel : nat) (limit : Z) (st : SHA1) : result SHA1 :=
  if negb (sha1_datalen st <? limit) then Ok st
  else match fuel with
       | O => Stuck
       | S f => let* st := sha1_push 0 st in sha1_zero_fill f limit st
       end.

(** [for (i = 0; i < 8; i++) data[56+i] = (totalBits >> ((7-i)*8)) & 0xFF]. *)
Fixpoint sha1_put_length (idxs : list Z) (totalBits : Z) (data : bytes) : result bytes :=
  match idxs with
  | [] => Ok data
  | i :: idxs =>
      let* data := wr data (56 + i) (u8 ((totalBits .>> ((7 - i) * 8)) .& 0xFF)) in
      sha1_put_length idxs totalBits data
  end.

Definition sha1_final (st : SHA1) : result (bytes * SHA1) :=
  let totalBits := u64 (sha1_bitlen st + u64 (sha1_datalen st) * 8) in
  let* st := sha1_push 0x80 st in
  let* st := if 56 <? sha1_datalen st then
               let* st := sha1_zero_fill 64 64 st in
               Ok ((sha1_transform st) <| sha1_datalen := 0 |>)
             else Ok st in
  let* st := sha1_zero_fill 64 56 st in
  let* d := sha1_put_length [0; 1; 2; 3; 4; 5; 6; 7] totalBits (sha1_data st) in
  let st := sha1_transform (st <| sha1_data := d |>) in
  Ok (store_words (sha1_h st), st).

Lemma length_sha1_block h b : length (sha1_block h b) = 5%nat.
Proof. unfold sha1_block. by rewrite length_map, length_seq. Qed.

(** ** The digest of FIPS 180-4 *)

Lemma rotl_ROTL n x : is_u32 x -> 0 < n < 32 -> rotl x n = ROTL n x.
Proof.
  intros Hx Hn. unfold rotl, ROTL, ROTR. replace (32 - (32 - n)) with n by lia. rewrite Z.shiftr_div_pow2 by lia.
  assert (2 ^ 32 = 2 ^ (32 - n) * 2 ^ n) as Hp by (rewrite <- Z.pow_add_r by lia; f_equal; lia).
  assert (u32 (x .<< n) = (x mod 2 ^ (32 - n)) .<< n) as ->.
  { unfold u32. rewrite !Z.shiftl_mul_pow2, Hp by lia. by rewrite Z.mul_mod_distr_r by lia. }
  rewrite shiftl_lor; [lia|lia|]. unfold is_u32 in Hx. split; [apply Z.div_pos; lia|].
  apply Z.div_lt_upper_bound; lia.
Qed.

Lemma ROTL_range n x : is_u32 x -> 0 < n < 32 -> is_u32 (ROTL n x).
Proof. intros Hx Hn. apply ROTR_range; [done|lia]. Qed.

Lemma lxor_u32 a b : is_u32 a -> is_u32 b -> is_u32 (a .^ b).
Proof. apply lxor_range. lia. Qed.

Lemma sha1_next w : words_ok w -> (16 <= length w)%nat ->
  sha1_w w (length w) = fips1_next (reverse w) /\ is_u32 (sha1_w w (length w)).
Proof.
  intros Hok Hlen. unfold fips1_next, sha1_w. rewrite !word_reverse by lia.
  assert (is_u32 (word w (length w - 3) .^ word w (length w - 8) .^ word w (length w - 14) .^ word w (length w - 16))) as Hu
    by (repeat apply lxor_u32; by apply word_ok).
  rewrite rotl_ROTL by (done || lia). split; [|apply ROTL_range; (done || lia)].
  replace (length w - 1 - 2)%nat with (length w - 3)%nat by lia.
  replace (length w - 1 - 7)%nat with (length w - 8)%nat by lia.
  replace (length w - 1 - 13)%nat with (length w - 14)%nat by lia.
  replace (length w - 1 - 15)%nat with (length w - 16)%nat by lia. done.
Qed.

Lemma sha1_schedule_fips b : is_bytes b -> length b = 64%nat ->
  sha1_schedule b = fips1_W b /\ words_ok (sha1_schedule b) /\ length (sha1_schedule b) = 80%nat.
Proof.
  intros Hb Hl. unfold sha1_schedule, fips1_W. rewrite <- load_words_block by done.
  apply (grow_extend _ _ 64); [apply sha1_next|by apply load_words_ok|done].
Qed.

(** A state of the rounds: five words. *)
Definition state5 (s : list Z) : Prop := words_ok s /\ length s = 5%nat.

Lemma state5_cases s : state5 s -> exists a b c d e, s = [a; b; c; d; e]
  /\ is_u32 a /\ is_u32 b /\ is_u32 c /\ is_u32 d /\ is_u32 e.
Proof.
  intros [Hs Hl]. do 5 (destruct s as [|? s]; [done|]). destruct s; [|done].
  repeat (apply Forall_cons in Hs as [? Hs]). by eexists _, _, _, _, _.
Qed.

(** The function and the constant of a round. *)
Definition stage (i : nat) : (Z -> Z -> Z -> Z) * Z :=
  if (i <? 20)%nat then (Ch, 0x5A827999) else if (i <? 40)%nat then (Parity, 0x6ED9EBA1)
  else if (i <? 60)%nat then (Maj, 0x8F1BBCDC) else (Parity, 0xCA62C1D6).

Lemma fips1_stages_code : concat (map (replicate 20) fips1_stages) = map stage (seq 0 80).
Proof.
  assert (map (fun n => root_from 2 (n * 2 ^ 60) 40 0) [2; 3; 5; 10] = [0x5A827999; 0x6ED9EBA1; 0x8F1BBCDC; 0xCA62C1D6]) as E
    by (vm_compute; reflexivity).
  unfold fips1_stages. rewrite E. reflexivity.
Qed.

Lemma fips1_H0_code : fips1_H0 = sha1_iv.
Proof. vm_compute. reflexivity. Qed.

Lemma choice_Ch b c d : is_u32 b -> is_u32 d -> (b .& c) .| (u32 (Z.lnot b) .& d) = Ch b c d.
Proof. intros Hb Hd. apply Z.bits_inj'. intros i Hi. by apply (testbit_choice Z.lor); auto. Qed.

Lemma majority_Maj b c d : is_u32 b -> is_u32 c -> is_u32 d -> (b .& c) .| (b .& d) .| (c .& d) = Maj b c d.
Proof. intros Hb Hc Hd. apply Z.bits_inj'. intros i Hi. by apply (testbit_majority Z.lor); auto. Qed.

Lemma sha1_round_fips w s i : state5 s ->
  sha1_round w s i = fips1_round s (stage i, word w i) /\ state5 (sha1_round w s i).
Proof.
  intros Hs. destruct (state5_cases s Hs) as (a & b & c & d & e & -> & ? & ? & ? & ? & ?).
  assert (forall f k, is_u32 (u32 (rotl a 5 + f + e + k + word w i)) /\ state5 [u32 (rotl a 5 + f + e + k + word w i); a; rotl b 30; c; d]) as Hok.
  { intros f k. assert (is_u32 (u32 (rotl a 5 + f + e + k + word w i))) by apply u32_range. split; [done|]. split; [|done].
    repeat (apply Forall_cons; split; [first [done|rewrite rotl_ROTL; [apply ROTL_range; (done || lia)|done|lia]]|]). constructor. }
  unfold sha1_round, fips1_round, stage. cbn [word nth].
  repeat case_match; simplify_eq; (split; [|apply Hok]); rewrite !rotl_ROTL by (done || lia); unfold u32, Parity;
    rewrite ?choice_Ch, ?majority_Maj by done; done.
Qed.

Lemma sha1_rounds_fips w s l : state5 s ->
  foldl (sha1_round w) s l = foldl (fun s i => fips1_round s (stage i, word w i)) s l
  /\ state5 (foldl (sha1_round w) s l).
Proof.
  revert s. induction l as [|i l IH]; intros s Hs; [done|]. cbn [foldl].
  destruct (sha1_round_fips w s i Hs) as [<- Hs']. by apply IH.
Qed.

Lemma sha1_block_fips h b : state5 h -> is_bytes b -> length b = 64%nat ->
  sha1_block h b = fips1_compress h b /\ state5 (sha1_block h b).
Proof.
  intros Hh Hb Hl. destruct (sha1_schedule_fips b Hb Hl) as (E & Hw & Hlw).
  unfold sha1_block, fips1_compress.
  destruct (sha1_rounds_fips (sha1_schedule b) h (seq 0 80) Hh) as [E2 Hs].
  assert (foldl (fun s i => fips1_round s (stage i, word (sha1_schedule b) i)) h (seq 0 80)
    = foldl fips1_round h (zip (map stage (seq 0 80)) (sha1_schedule b))) as E3.
  { rewrite <- (foldl_zip (stage 0) fips1_round _ _ h 80) by done.
    assert (forall l s, Forall (fun i => (i < 80)%nat) l ->
      foldl (fun s i => fips1_round s (stage i, word (sha1_schedule b) i)) s l
      = foldl (fun s i => fips1_round s (nth i (map stage (seq 0 80)) (stage 0), word (sha1_schedule b) i)) s l) as Hall.
    { induction l as [|i l IH]; intros s Hfl; [done|]. apply Forall_cons in Hfl as [Hi Hfl]. cbn [foldl].
      rewrite (map_nth stage (seq 0 80) 0%nat i), seq_nth by done. by apply IH. }
    apply Hall, Forall_seq. lia. }
  rewrite <- E, fips1_stages_code, <- E3, <- E2.
  destruct (state5_cases _ Hh) as (h0 & h1 & h2 & h3 & h4 & -> & _).
  destruct (state5_cases _ Hs) as (s0 & s1 & s2 & s3 & s4 & -> & _). split; [done|].
  split; [|done]. apply Forall_map, Forall_forall. intros i _. apply u32_range.
Qed.

(** The block hash of the code is SHA-1. *)
Lemma sha1_digest_fips m : is_bytes m -> store_words (md_hash sha1_block sha1_iv m) = SHA1_digest m.
Proof.
  intros Hm. rewrite store_words_be. unfold SHA1_digest. rewrite fips1_H0_code. do 2 f_equal.
  apply (md_hash_agree state5); [done| |intros; by apply sha1_block_fips].
  split; [|done]. unfold words_ok, is_u32. repeat (constructor; [lia|]). constructor.
Qed.

#[local] Opaque sha1_block.

(** Compute the field assignments. *)
Ltac sha1_fields :=
  unfold sha1_transform, set_field, set_sha1_h, set_sha1_bitlen, set_sha1_data, set_sha1_datalen;
  cbn [sha1_h sha1_bitlen sha1_data sha1_datalen].

(** ** The buffer *)

Lemma sha1_push_spec h bl (tail : bytes) x rest n b : n = zlen tail ->
  sha1_push b (Build_SHA1 h bl (tail ++ x :: rest) n) =
    Ok (Build_SHA1 h bl (tail ++ b :: rest) (n + 1)).
Proof. intros ->. unfold sha1_push. cbn [sha1_data sha1_datalen]. by rewrite wr_prefix. Qed.

Lemma sha1_zero_fill_spec k fuel h bl (tail rest : bytes) n limit :
  n = zlen tail -> limit = n + Z.of_nat k -> (k <= length rest)%nat -> (k <= fuel)%nat ->
  sha1_zero_fill fuel limit (Build_SHA1 h bl (tail ++ rest) n) =
    Ok (Build_SHA1 h bl (tail ++ replicate k 0 ++ drop k rest) limit).
Proof.
  revert fuel tail rest n. induction k as [|k IH]; intros fuel tail rest n -> -> Hk Hf.
  - destruct fuel; cbn [sha1_zero_fill sha1_datalen]; rewrite (proj2 (Z.ltb_ge _ _)) by lia;
      cbn [negb replicate app]; by rewrite drop_0, Z.add_0_r.
  - destruct fuel as [|f]; [lia|]. destruct rest as [|x rest]; [cbn in Hk; lia|].
    cbn [sha1_zero_fill sha1_datalen]. rewrite (proj2 (Z.ltb_lt _ _)) by lia. cbn [negb].
    rewrite sha1_push_spec by done. cbn [rbind].
    replace (tail ++ 0 :: rest) with ((tail ++ [0]) ++ rest) by (by rewrite <- app_assoc).
    rewrite (IH f) by (rewrite ?length_app; cbn in *; lia). by rewrite <- app_assoc.
Qed.

Lemma sha1_put_length_spec (q p : bytes) j tb : zlen p = 56 + j ->
  sha1_put_length (seqZ j (zlen q)) tb (p ++ q) =
    Ok (p ++ map (fun i => u8 ((tb .>> ((7 - i) * 8)) .& 0xFF)) (seqZ j (zlen q))).
Proof.
  revert p j. induction q as [|x q IH]; intros p j Hp; [done|].
  cbn [length]. rewrite seqZ_cons by lia. cbn [sha1_put_length map].
  rewrite <- Hp, wr_prefix. cbn [rbind].
  replace (Z.pred (Z.of_nat (S (length q)))) with (zlen q) by lia.
  match goal with |- context [p ++ ?b :: q] =>
    replace (p ++ b :: q) with ((p ++ [b]) ++ q) by (by rewrite <- app_assoc) end.
  rewrite IH by (rewrite length_app; cbn; lia). by rewrite <- app_assoc.
Qed.

Lemma sha1_put_length_be (q p : bytes) tb : length p = 56%nat -> length q = 8%nat ->
  sha1_put_length [0; 1; 2; 3; 4; 5; 6; 7] tb (p ++ q) = Ok (p ++ be_bytes 8 tb).
Proof.
  intros Hp Hq. pose proof (sha1_put_length_spec q p 0 tb) as H. rewrite Hp, Hq in H.
  change (seqZ 0 (Z.of_nat 8)) with [0; 1; 2; 3; 4; 5; 6; 7] in H.
  rewrite H by done. do 2 f_equal. cbn [map be_bytes]. rewrite !land_255.
  rewrite !(u8_small (u8 _)) by apply u8_range. done.
Qed.

(** ** The streaming invariant *)

(** After the bytes [m]: the whole blocks of [m] are in the chaining words, the
    rest of [m] is at the front of the buffer. *)
Definition sha1_inv (m : bytes) (st : SHA1) : Prop :=
  exists n pre tail rest,
    m = pre ++ tail /\ length pre = (64 * n)%nat /\ (length tail + length rest = 64)%nat
    /\ (length tail < 64)%nat
    /\ st = Build_SHA1 (foldl sha1_block sha1_iv (blocks n pre)) (u64 (512 * Z.of_nat n))
              (tail ++ rest) (zlen tail).

Lemma sha1_inv_init garbage : length garbage = 64%nat -> sha1_inv [] (new_SHA1 garbage).
Proof. intros Hg. exists 0%nat, [], [], garbage. split_and!; try done; cbn; lia. Qed.

Lemma sha1_update1_inv m st b : sha1_inv m st ->
  exists st', sha1_update1 b st = Ok st' /\ sha1_inv (m ++ [b]) st'.
Proof.
  intros (n & pre & tail & rest & -> & Hpre & Hlen & Ht & ->).
  destruct rest as [|x rest]; [cbn in Hlen; lia|]. cbn [length] in Hlen.
  unfold sha1_update1. rewrite sha1_push_spec by done. cbn [rbind sha1_datalen].
  destruct (Z.eqb_spec (zlen tail + 1) 64) as [He|Hne]; cycle 1.
  - eexists. split; [done|]. exists n, pre, (tail ++ [b]), rest.
    rewrite <- !app_assoc, !length_app. cbn [length app]. split_and!; [done|done|lia|lia|].
    f_equal. lia.
  - destruct rest; [|cbn in Hlen; lia]. eexists. split; [done|].
    exists (n + 1)%nat, (pre ++ tail ++ [b]), [], (tail ++ [b]).
    rewrite app_nil_r, !length_app. cbn [length]. split_and!; [by rewrite app_assoc|lia|lia|lia|].
    sha1_fields. rewrite blocks_app by done.
    rewrite foldl_app, blocks_one by (rewrite length_app; cbn [length]; lia).
    cbn [foldl]. f_equal. unfold u64. rewrite Zplus_mod_idemp_l. f_equal. lia.
Qed.

Lemma sha1_update_inv msg m st : sha1_inv m st ->
  exists st', sha1_update msg st = Ok st' /\ sha1_inv (m ++ msg) st'.
Proof.
  revert m st. induction msg as [|b msg IH]; intros m st H.
  { exists st. by rewrite app_nil_r. }
  destruct (sha1_update1_inv m st b H) as (st1 & E1 & H1). cbn [sha1_update]. rewrite E1.
  destruct (IH _ _ H1) as (st2 & E2 & H2). exists st2. rewrite <- app_assoc in H2. done.
Qed.

(** ** Padding *)

Lemma md_pad_blocks n (pre tail : bytes) p :
  length pre = (64 * n)%nat -> md_pad (pre ++ tail) = pre ++ p -> length p = (64 * (length p / 64))%nat ->
  md_hash sha1_block sha1_iv (pre ++ tail) =
    foldl sha1_block (foldl sha1_block sha1_iv (blocks n pre)) (blocks (length p / 64) p).
Proof.
  intros Hpre Hp Hl. unfold md_hash. rewrite Hp, length_app.
  replace ((length pre + length p) / 64)%nat with (n + length p / 64)%nat.
  - by rewrite blocks_app, foldl_app.
  - apply (Nat.div_unique _ 64 _ 0); lia.
Qed.

(** The bit count of [final] is the length of the message modulo 2^64. *)
Lemma sha1_total_bits n (pre tail : bytes) : length pre = (64 * n)%nat -> (length tail < 64)%nat ->
  u64 (u64 (512 * Z.of_nat n) + u64 (zlen tail) * 8) = u64 (8 * zlen (pre ++ tail)).
Proof.
  intros Hpre Ht. rewrite length_app. rewrite (u64_small (zlen tail)) by solve_width.
  unfold u64. rewrite Zplus_mod_idemp_l. f_equal. lia.
Qed.

Lemma sha1_final_spec m st : sha1_inv m st ->
  exists st', sha1_final st = Ok (store_words (md_hash sha1_block sha1_iv m), st').
Proof.
  intros (n & pre & tail & rest & -> & Hpre & Hlen & Ht & ->).
  destruct rest as [|x rest]; [cbn in Hlen; lia|]. cbn [length] in Hlen.
  unfold sha1_final. cbn [sha1_bitlen sha1_datalen]. rewrite (sha1_total_bits n pre tail) by done.
  rewrite sha1_push_spec by done. cbn [rbind sha1_datalen].
  replace (tail ++ 0x80 :: rest) with ((tail ++ [0x80]) ++ rest) by (by rewrite <- app_assoc).
  assert (zlen tail + 1 = zlen (tail ++ [0x80])) as Hn by (rewrite length_app; cbn; lia).
  assert (be_bytes 8 (u64 (8 * zlen (pre ++ tail))) = be_bytes 8 (8 * zlen (pre ++ tail))) as Hbe
    by (by apply be_bytes_mod).
  destruct (Z.ltb_spec 56 (zlen tail + 1)) as [Hbig|Hsmall].
  - (* the length goes to a block of its own *)
    rewrite (sha1_zero_fill_spec (63 - length tail)) by lia. cbn [rbind].
    rewrite (drop_ge rest) by lia. rewrite app_nil_r. set (b1 := (tail ++ [0x80]) ++ _).
    assert (length b1 = 64%nat) as Hb1
      by (unfold b1; rewrite !length_app, length_replicate; cbn [length]; lia).
    sha1_fields. cbn [rbind].
    pose proof (sha1_zero_fill_spec 56 64 (sha1_block (foldl sha1_block sha1_iv (blocks n pre)) b1)
      (u64 (512 * Z.of_nat n)) [] b1 0 56) as Hz. cbn [app] in Hz. rewrite Hz by (rewrite ?Hb1; lia || done).
    cbn [rbind sha1_data]. rewrite sha1_put_length_be by (by rewrite ?length_drop, ?Hb1).
    cbn [rbind]. sha1_fields. eexists. do 3 f_equal.
    rewrite Hbe. symmetry.
    rewrite (md_pad_blocks n pre tail (b1 ++ replicate 56 0 ++ be_bytes 8 (8 * zlen (pre ++ tail)))); [|done|..].
    + rewrite length_app, Hb1, length_app, length_replicate, length_be_bytes.
      change ((64 + (56 + 8)) / 64)%nat with (1 + 1)%nat.
      rewrite blocks_app, !blocks_one by (done || by rewrite length_app, length_replicate, length_be_bytes). done.
    + unfold md_pad, b1. rewrite <- !app_assoc. do 3 f_equal. rewrite app_assoc, <- replicate_add.
      do 2 f_equal. unfold pad_zeros. rewrite length_app. Z.to_euclidean_division_equations. lia.
    + by rewrite length_app, Hb1, length_app, length_replicate, length_be_bytes.
  - (* the length fits behind the tail *)
    cbn [rbind]. rewrite (sha1_zero_fill_spec (55 - length tail)) by lia. cbn [rbind sha1_data].
    set (b1 := (tail ++ [0x80]) ++ replicate (55 - length tail) 0).
    rewrite app_assoc. fold b1.
    assert (length b1 = 56%nat) as Hb1
      by (unfold b1; rewrite !length_app, length_replicate; cbn [length]; lia).
    rewrite sha1_put_length_be by (rewrite ?length_drop; lia).
    cbn [rbind]. sha1_fields. eexists. do 3 f_equal. rewrite Hbe. symmetry.
    rewrite (md_pad_blocks n pre tail (b1 ++ be_bytes 8 (8 * zlen (pre ++ tail)))); [|done|..].
    + rewrite length_app, Hb1, length_be_bytes. change ((56 + 8) / 64)%nat with 1%nat.
      by rewrite blocks_one by (by rewrite length_app, Hb1, length_be_bytes).
    + unfold md_pad, b1. rewrite <- !app_assoc. do 4 f_equal.
      f_equal. unfold pad_zeros. rewrite length_app. Z.to_euclidean_division_equations. lia.
    + by rewrite length_app, Hb1, length_be_bytes.
Qed.


(** ** Properties *)

(** [sha.update(c)] for each chunk in turn. *)
Definition sha1_updates (chunks : list bytes) (st : SHA1) : result SHA1 :=
  foldl (fun acc c => let* st := acc in sha1_update c st) (Ok st) chunks.

Lemma sha1_updates_inv chunks m st : sha1_inv m st ->
  exists st', sha1_updates chunks st = Ok st' /\ sha1_inv (m ++ concat chunks) st'.
Proof.
  unfold sha1_updates. revert m st. induction chunks as [|c chunks IH]; intros m st H.
  { exists st. by rewrite app_nil_r. }
  destruct (sha1_update_inv c m st H) as (st1 & E1 & H1). cbn [foldl rbind concat]. rewrite E1.
  rewrite app_assoc. by apply IH.
Qed.

(** One [update] with the whole text, then [final], on a fresh object. *)
Lemma sha1_one_shot garbage m : length garbage = 64%nat ->
  exists st st', sha1_update m (new_SHA1 garbage) = Ok st
    /\ sha1_final st = Ok (store_words (md_hash sha1_block sha1_iv m), st').
Proof.
  intros Hg. destruct (sha1_update_inv m [] _ (sha1_inv_init garbage Hg)) as (st & E & H).
  destruct (sha1_final_spec _ _ H) as [st' E']. by exists st, st'.
Qed.

Lemma length_sha1_digest m : length (store_words (md_hash sha1_block sha1_iv m)) = 20%nat.
Proof.
  rewrite length_store_words. unfold md_hash.
  generalize (blocks (length (md_pad m) / 64) (md_pad m)) as bs. intros bs.
  destruct bs as [|b bs _] using rev_ind; [done|]. by rewrite foldl_app, <- (length_sha1_block (foldl sha1_block sha1_iv bs) b).
Qed.

(** C25: the streaming [SHA1] computes the SHA-1 block hash: whatever the
    uninitialised 64-byte buffer held and however the message is cut into
    [update] calls, [update] and [final] return, stay inside the buffer, and
    give the 20-byte digest of the padded message, which for a byte string is the
    digest that FIPS 180-4 defines. *)
Theorem sha1_streaming garbage chunks :
  length garbage = 64%nat ->
  exists digest st', (let* st := sha1_updates chunks (new_SHA1 garbage) in sha1_final st) = Ok (digest, st')
    /\ digest = store_words (md_hash sha1_block sha1_iv (concat chunks))
    /\ length digest = 20%nat /\ is_bytes digest
    /\ (is_bytes (concat chunks) -> digest = SHA1_digest (concat chunks)).
Proof.
  intros Hg. destruct (sha1_updates_inv chunks [] _ (sha1_inv_init garbage Hg)) as (st & -> & H).
  cbn [rbind]. destruct (sha1_final_spec _ _ H) as [st' ->].
  eexists _, st'. split_and!; [done|done|apply length_sha1_digest|apply store_words_bytes|apply sha1_digest_fips].
Qed.

Lemma sha1_streaming_witness :
  exists digest st', (let* st := sha1_updates [str "ab"; []; str "c"] (new_SHA1 (replicate 64 0xAA)) in
                      sha1_final st) = Ok (digest, st')
    /\ digest = store_words (md_hash sha1_block sha1_iv (concat [str "ab"; []; str "c"]))
    /\ length digest = 20%nat /\ is_bytes digest
    /\ (is_bytes (concat [str "ab"; []; str "c"]) -> digest = SHA1_digest (concat [str "ab"; []; str "c"])).
Proof. apply (sha1_streaming (replicate 64 0xAA) [str "ab"; []; str "c"]). reflexivity. Defined.

(** The test string of FIPS 180-4. *)
Example sha1_abc : (let* st := sha1_update (str "abc") (new_SHA1 (replicate 64 0xAA)) in
                    let* (d, _) := sha1_final st in Ok (be_value d)) =
  Ok 0xa9993e364706816aba3e25717850c26c9cd0d89d.
Proof. vm_compute. reflexivity. Qed.
