(* ===== verification/Base64.v ===== *)
(** * Base64 ([base64Encode] of common/ws.hpp)

    The encoder of the handshake keys, index by index as the source has it, and
    the reference it is compared with: the quantum-wise encoding of RFC 4648
    and a decoder that inverts it. *)

From S2P Require Import Prelude.

(** ** The code *)

Definition b64_table : bytes :=
  str "ABCDEFGHIJKLMNOPQRSTUVWXYZabcdefghijklmnopqrstuvwxyz0123456789+/".

(** The word [n] of one round: up to three bytes at [i]. *)
Definition b64_load (data : bytes) (len i : Z) : result Z :=
  let* d0 := rd data i in
  let n := u32 (d0 .<< 16) in
  let* n := if i + 1 <? len then let* d1 := rd data (i + 1) in Ok (n .| u32 (d1 .<< 8)) else Ok n in
  if i + 2 <? len then let* d2 := rd data (i + 2) in Ok (n .| d2) else Ok n.

(** [for (size_t i = 0; i < len; i += 3)]. *)
Fixpoint base64_loop (fuel : nat) (data : bytes) (len i : Z) (out : bytes) : result bytes :=
  if negb (i <? len) then Ok out
  else match fuel with
       | O => Stuck
       | S f =>
           let* n := b64_load data len i in
           let* c0 := rd b64_table ((n .>> 18) .& 0x3F) in
           let* c1 := rd b64_table ((n .>> 12) .& 0x3F) in
           let* c2 := if i + 1 <? len then rd b64_table ((n .>> 6) .& 0x3F) else Ok 61 in
           let* c3 := if i + 2 <? len then rd b64_table (n .& 0x3F) else Ok 61 in
           base64_loop f data len (i + 3) (out ++ [c0; c1; c2; c3])
       end.

Definition base64Encode (data : bytes) (len : Z) : result bytes :=
  base64_loop (length data) data len 0 [].

(** ** The reference: RFC 4648, section 4 *)

Definition b64_char (v : Z) : Z := nth (Z.to_nat v) b64_table 0.

Fixpoint b64_text (l : bytes) : bytes :=
  match l with
  | a :: b :: c :: l =>
      b64_char (a / 4) :: b64_char (a mod 4 * 16 + b / 16) ::
      b64_char (b mod 16 * 4 + c / 64) :: b64_char (c mod 64) :: b64_text l
  | [a; b] => [b64_char (a / 4); b64_char (a mod 4 * 16 + b / 16); b64_char (b mod 16 * 4); 61]
  | [a] => [b64_char (a / 4); b64_char (a mod 4 * 16); 61; 61]
  | [] => []
  end.

(** The sextet of a character of the alphabet. *)
Definition b64_value (c : Z) : option Z :=
  if (65 <=? c) && (c <=? 90) then Some (c - 65)
  else if (97 <=? c) && (c <=? 122) then Some (c - 71)
  else if (48 <=? c) && (c <=? 57) then Some (c + 4)
  else if c =? 43 then Some 62 else if c =? 47 then Some 63 else None.

Fixpoint b64_decode (s : bytes) : option bytes :=
  match s with
  | [] => Some []
  | c0 :: c1 :: c2 :: c3 :: s =>
      v0 ← b64_value c0; v1 ← b64_value c1;
      let a := v0 * 4 + v1 / 16 in
      if c2 =? 61 then (if (c3 =? 61) && bool_decide (s = []) then Some [a] else None)
      else v2 ← b64_value c2;
           let b := v1 mod 16 * 16 + v2 / 4 in
           if c3 =? 61 then (if bool_decide (s = []) then Some [a; b] else None)
           else v3 ← b64_value c3; rest ← b64_decode s;
                Some (a :: b :: v2 mod 4 * 64 + v3 :: rest)
  | _ => None
  end.

(** Letters, digits, [+], [/] and the padding [=]. *)
Definition b64_alphabet (c : Z) : Prop := is_Some (b64_value c) \/ c = 61.

(** ** The table *)

Lemma b64_table_checked v : 0 <= v < 64 ->
  b64_table !! Z.to_nat v = Some (b64_char v) /\ b64_value (b64_char v) = Some v /\ b64_char v <> 61
  /\ 33 <= b64_char v < 127.
Proof.
  intros Hv. assert (is_u8 v) as Hb by solve_width. revert Hv. by_bytes v.
Qed.

Lemma land_63 n : n .& 0x3F = n mod 64.
Proof. change 0x3F with (Z.ones 6). by rewrite Z.land_ones by lia. Qed.

Lemma rd_table v : 0 <= v < 64 -> rd b64_table v = Ok (b64_char v).
Proof. intros Hv. apply rd_lookup; [lia|]. by apply b64_table_checked. Qed.

(** A table read of the loop, once its word is known. *)
Lemma rd_sextet n k v : 0 <= k -> (n / 2 ^ k) mod 64 = v ->
  rd b64_table ((n .>> k) .& 0x3F) = Ok (b64_char v).
Proof.
  intros Hk <-. rewrite Z.shiftr_div_pow2, land_63 by done. apply rd_table, Z.mod_pos_bound. lia.
Qed.

(** ** The loop *)

Lemma rd_at k (pre l : bytes) i x : i = zlen pre + Z.of_nat k -> l !! k = Some x -> rd (pre ++ l) i = Ok x.
Proof.
  intros -> H. apply rd_lookup; [lia|]. rewrite lookup_app_r by lia.
  by replace (Z.to_nat (zlen pre + Z.of_nat k) - length pre)%nat with k by lia.
Qed.

Lemma b64_word a b c : is_u8 a -> is_u8 b -> is_u8 c ->
  u32 (a .<< 16) .| u32 (b .<< 8) .| c = a * 65536 + b * 256 + c.
Proof.
  intros Ha Hb Hc. rewrite !u32_small by (rewrite Z.shiftl_mul_pow2 by lia; solve_width).
  rewrite <- Z.lor_assoc, (shiftl_lor 8 b c), shiftl_lor by solve_width. solve_width.
Qed.

(** The word of a full or partial quantum: missing bytes count as zero. *)
Lemma b64_load_spec pre l a : is_bytes l -> l !! 0%nat = Some a ->
  b64_load (pre ++ l) (zlen (pre ++ l)) (zlen pre) =
    Ok (a * 65536 + default 0 (l !! 1%nat) * 256 + default 0 (l !! 2%nat)).
Proof.
  intros Hl H0. unfold b64_load. rewrite length_app, Nat2Z.inj_add.
  rewrite (rd_at 0 pre l _ a) by (done || lia). cbn [rbind].
  destruct l as [|a' [|b [|c l]]]; [done|..]; injection H0 as ->; cbn [length lookup list_lookup from_option id];
    rewrite ?Forall_cons in Hl; split_hyps.
  - rewrite !(proj2 (Z.ltb_ge _ _)) by lia. cbn [rbind]. f_equal.
    rewrite u32_small by (rewrite Z.shiftl_mul_pow2 by lia; solve_width).
    rewrite Z.shiftl_mul_pow2 by lia. lia.
  - rewrite (proj2 (Z.ltb_lt _ _)), (proj2 (Z.ltb_ge _ _)) by lia.
    rewrite (rd_at 1 pre [a; b] _ b) by (done || lia). cbn [rbind].
    rewrite <- (b64_word a b 0), Z.lor_0_r by (done || solve_width). done.
  - rewrite !(proj2 (Z.ltb_lt _ _)) by lia.
    rewrite (rd_at 1 pre (a :: b :: c :: l) _ b), (rd_at 2 pre (a :: b :: c :: l) _ c) by (done || lia). cbn [rbind].
    by rewrite b64_word by done.
Qed.

Lemma b64_loop_done fuel data len i out : len <= i -> base64_loop fuel data len i out = Ok out.
Proof. intros H. destruct fuel; cbn [base64_loop]; by rewrite (proj2 (Z.ltb_ge _ _)) by lia. Qed.

Lemma base64_loop_spec fuel pre l out : is_bytes l -> (length l <= fuel)%nat ->
  base64_loop fuel (pre ++ l) (zlen (pre ++ l)) (zlen pre) out = Ok (out ++ b64_text l).
Proof.
  revert pre l out. induction fuel as [|f IH]; intros pre l out Hl Hf.
  { destruct l; [|cbn in Hf; lia]. rewrite b64_loop_done by (rewrite length_app; cbn; lia).
    by rewrite app_nil_r. }
  destruct l as [|a l0].
  { rewrite b64_loop_done by (rewrite length_app; cbn; lia). by rewrite app_nil_r. }
  cbn [base64_loop]. rewrite (proj2 (Z.ltb_lt _ _)) by (rewrite length_app; cbn; lia). cbn [negb].
  rewrite (b64_load_spec pre (a :: l0) a) by done. cbn [rbind].
  destruct l0 as [|b [|c l]]; cbn [lookup list_lookup from_option id]; rewrite ?Forall_cons in Hl; split_hyps;
    rewrite !length_app; cbn [length b64_text].
  - rewrite !(proj2 (Z.ltb_ge _ _)) by lia.
    rewrite (rd_sextet _ 18 (a / 4)), (rd_sextet _ 12 (a mod 4 * 16)) by solve_width. cbn [rbind].
    rewrite b64_loop_done by lia. done.
  - rewrite (proj2 (Z.ltb_lt _ _)), (proj2 (Z.ltb_ge _ _)) by lia.
    rewrite (rd_sextet _ 18 (a / 4)), (rd_sextet _ 12 (a mod 4 * 16 + b / 16)),
      (rd_sextet _ 6 (b mod 16 * 4)) by solve_width. cbn [rbind].
    rewrite b64_loop_done by lia. done.
  - rewrite !(proj2 (Z.ltb_lt _ _)) by lia.
    rewrite (rd_sextet _ 18 (a / 4)), (rd_sextet _ 12 (a mod 4 * 16 + b / 16)),
      (rd_sextet _ 6 (b mod 16 * 4 + c / 64)) by solve_width. cbn [rbind].
    rewrite land_63, rd_table by solve_width. cbn [rbind].
    replace (pre ++ a :: b :: c :: l) with ((pre ++ [a; b; c]) ++ l) by (by rewrite <- app_assoc).
    replace (Z.of_nat (length pre + S (S (S (length l))))) with (zlen ((pre ++ [a; b; c]) ++ l))
      by (rewrite !length_app; cbn [length]; lia).
    replace (zlen pre + 3) with (zlen (pre ++ [a; b; c])) by (rewrite length_app; cbn [length]; lia).
    rewrite IH by (done || cbn [length] in Hf; lia). rewrite <- app_assoc. cbn [app].
    do 5 f_equal. f_equal. f_equal. solve_width.
Qed.

Lemma base64Encode_spec data : is_bytes data -> base64Encode data (zlen data) = Ok (b64_text data).
Proof. intros Hd. by apply (base64_loop_spec (length data) [] data []). Qed.

(** ** The text *)

Lemma list_ind3 {A} (P : list A -> Prop) :
  P [] -> (forall a, P [a]) -> (forall a b, P [a; b]) ->
  (forall a b c l, P l -> P (a :: b :: c :: l)) -> forall l, P l.
Proof.
  intros H0 H1 H2 H3. fix IH 1. intros [|a [|b [|c l]]]; [done..|]. apply H3, IH.
Qed.

(** Rewrite the reads of the decoder with the table. *)
Ltac decode_chars :=
  repeat match goal with
    | |- context [b64_value (b64_char ?v)] =>
        destruct (b64_table_checked v) as (_ & -> & ? & _); [solve_width|]
    end.

Lemma b64_decode_text l : is_bytes l -> b64_decode (b64_text l) = Some l.
Proof.
  induction l as [|a|a b|a b c l IH] using list_ind3; intros Hl; [done|..];
    rewrite ?Forall_cons in Hl; split_hyps; cbn [b64_text b64_decode].
  - decode_chars. cbn. do 2 f_equal. solve_width.
  - decode_chars. rewrite (proj2 (Z.eqb_neq _ _)) by done. cbn. repeat f_equal; solve_width.
  - decode_chars. rewrite !(proj2 (Z.eqb_neq _ _)) by done.
    rewrite IH by done. cbn [mbind option_bind]. do 2 f_equal; [|f_equal; [|f_equal]]; solve_width.
Qed.

Lemma length_b64_text l : zlen (b64_text l) = 4 * ((zlen l + 2) / 3).
Proof.
  induction l as [|a|a b|a b c l IH] using list_ind3; [done..|]. cbn [b64_text length] in *.
  Z.to_euclidean_division_equations. lia.
Qed.

Lemma b64_text_alphabet l : is_bytes l -> Forall (fun c => b64_alphabet c /\ 33 <= c < 127) (b64_text l).
Proof.
  assert (forall v, 0 <= v < 64 -> b64_alphabet (b64_char v) /\ 33 <= b64_char v < 127) as Hc.
  { intros v Hv. destruct (b64_table_checked v Hv) as (_ & E & _ & ?). split; [left; by exists v|done]. }
  assert (b64_alphabet 61 /\ 33 <= 61 < 127) as Hp by (split; [by right|lia]).
  induction l as [|a|a b|a b c l IH] using list_ind3; intros Hl; [constructor|..];
    rewrite ?Forall_cons in Hl; split_hyps; cbn [b64_text];
    repeat (apply Forall_cons; split; [exact Hp || (apply Hc; solve_width)|]); auto.
Qed.

(** ** Properties *)

(** C26: Base64 is lossless and terminates: for every byte string the encoder
    returns, without reading outside the data or the table, the RFC 4648 text
    of the data, of length [4 * ceil(n / 3)] over the Base64 alphabet, and
    decoding that text gives the data back. *)
Theorem base64_roundtrip data :
  is_bytes data ->
  exists text, base64Encode data (zlen data) = Ok text
    /\ text = b64_text data /\ b64_decode text = Some data
    /\ zlen text = 4 * ((zlen data + 2) / 3) /\ Forall b64_alphabet text.
Proof.
  intros Hd. exists (b64_text data). rewrite base64Encode_spec by done.
  split_and!; [done|done|by apply b64_decode_text|apply length_b64_text|].
  eapply Forall_impl; [by apply b64_text_alphabet|]. by intros c [? _].
Qed.

Lemma base64_roundtrip_witness :
  exists text, base64Encode (str "light w") 7 = Ok text
    /\ text = b64_text (str "light w") /\ b64_decode text = Some (str "light w")
    /\ zlen text = 12 /\ Forall b64_alphabet text.
Proof.
  apply (base64_roundtrip (str "light w")). apply str_bytes.
Defined.

(** The test vectors of RFC 4648, section 10. *)
Example base64_vectors :
  map (fun s => base64Encode (str s) (zlen (str s)))
    ["f"; "fo"; "foo"; "foob"; "fooba"; "foobar"]%string =
  map (fun s => Ok (str s))
    ["Zg=="; "Zm8="; "Zm9v"; "Zm9vYg=="; "Zm9vYmE="; "Zm9vYmFy"]%string.
Proof. vm_compute. reflexivity. Qed.
