(* ===== verification/Random.v ===== *)
(** * The Mersenne twister of the C++ library

    [std::mt19937] makes the masking keys and the handshake key,
    [std::mt19937_64] the client's random numbers.  The engine is the one the
    C++ standard prescribes ([mersenne_twister_engine]): the state is the last
    [n] terms of a recurrence, a call appends a term and tempers it.  It is
    library code that the program calls; no theorem depends on its values. *)

From S2P Require Import Prelude.

Record mt_params := {
  mt_w : Z; mt_n : nat; mt_m : nat; mt_r : Z; mt_a : Z;
  mt_u : Z; mt_d : Z; mt_s : Z; mt_b : Z; mt_t : Z; mt_c : Z; mt_l : Z; mt_f : Z;
}.

Definition mt19937 : mt_params := {|
  mt_w := 32; mt_n := 624; mt_m := 397; mt_r := 31; mt_a := 0x9908b0df;
  mt_u := 11; mt_d := 0xffffffff; mt_s := 7; mt_b := 0x9d2c5680; mt_t := 15; mt_c := 0xefc60000;
  mt_l := 18; mt_f := 1812433253 |}.

Definition mt19937_64 : mt_params := {|
  mt_w := 64; mt_n := 312; mt_m := 156; mt_r := 31; mt_a := 0xb5026f5aa96619e9;
  mt_u := 29; mt_d := 0x5555555555555555; mt_s := 17; mt_b := 0x71d67fffeda60000; mt_t := 37;
  mt_c := 0xfff7eee000000000; mt_l := 43; mt_f := 6364136223846793005 |}.

(** The state: the oldest term first. *)
Abbreviation engine := (list Z) (only parsing).

Section engine.
Context (p : mt_params).

Definition mt_word (z : Z) : Z := z mod 2 ^ mt_w p.

Definition mt_temper (x : Z) : Z :=
  let z := x .^ ((x .>> mt_u p) .& mt_d p) in
  let z := z .^ (mt_word (z .<< mt_s p) .& mt_b p) in
  let z := z .^ (mt_word (z .<< mt_t p) .& mt_c p) in
  z .^ (z .>> mt_l p).

(** [gen()] *)
Definition mt_next (g : engine) : Z * engine :=
  let y := ((nth 0 g 0 .>> mt_r p) .<< mt_r p) .| (nth 1 g 0 mod 2 ^ mt_r p) in
  let x := (nth (mt_m p) g 0 .^ (y .>> 1)) .^ (if Z.odd y then mt_a p else 0) in
  (mt_temper x, tail g ++ [x]).

Fixpoint mt_fill (k : nat) (i x : Z) : engine :=
  match k with
  | O => []
  | S k => x :: mt_fill k (i + 1) (mt_word (mt_f p * (x .^ (x .>> (mt_w p - 2))) + (i + 1)))
  end.

(** [gen(seed)] *)
Definition mt_seed (seed : Z) : engine := mt_fill (mt_n p) 0 (mt_word seed).

End engine.

(** The first values of the default-seeded engines. *)
Example mt19937_first : fst (mt_next mt19937 (mt_seed mt19937 5489)) = 3499211612.
Proof. vm_compute. reflexivity. Qed.
Example mt19937_64_first : fst (mt_next mt19937_64 (mt_seed mt19937_64 5489)) = 14514284786278117030.
Proof. vm_compute. reflexivity. Qed.
