(* ===== verification/Socket.v ===== *)
(** * The operating system interface and the TCP helpers of common/ws.hpp

    The sockets, the clock and the random source are outside the program: they
    are the operations of the class [Sys] over an abstract world, and what the
    program relies on is the class [SysLaws].  The laws speak of ghost
    observers: the bytes a connection still delivers, the bytes it has accepted,
    how many more it accepts before a send fails, and the set of open
    descriptors.  The helpers [recvAll], [sendAll] and [recvHttpHeaders] are
    proved against the laws; [Tape] at the end of the file is a concrete world
    that satisfies them. *)

From stdpp Require Import gmap.
From S2P Require Import Prelude Random.

(** ** Effects *)

(** Code that changes a world of type [W]; a thrown exception keeps the world
    it was thrown in. *)
Definition io (W A : Type) : Type := W -> result A * W.

Definition iret {W A} (a : A) : io W A := fun w => (Ok a, w).
Definition ibind {W A B} (m : io W A) (f : A -> io W B) : io W B := fun w =>
  match m w with
  | (Ok a, w) => f a w
  | (Throw e, w) => (Throw e, w)
  | (Stuck, w) => (Stuck, w)
  end.
Definition ilift {W A} (r : result A) : io W A := fun w => (r, w).

Notation "'let!' x := m 'in' k" := (ibind m (fun x => k))
  (at level 10, x pattern, m at level 100, k at level 200,
   format "'[v' 'let!'  x  :=  m  'in' '/' k ']'") : cxx_scope.

(** ** The interface *)

(** [HWS_INVALID_SOCKET]; [HWS_SOCKET_ERROR] is the same value. *)
Definition HWS_INVALID_SOCKET : Z := -1.

(** The calls the program makes.  [sys_recv s n] returns the result of [::recv]
    and the bytes it stored; [sys_send s bs] is [::send] of the bytes [bs];
    [sys_resolve] stands for [inet_pton] with [getaddrinfo] behind it; [std_dis]
    is the draw [dis(gen)] of [std::uniform_int_distribution<>(0, 255)] from a
    [std::mt19937], whose algorithm the C++ standard leaves to the library;
    [sys_order] is the order, left open by the standard, in which the two operands
    of [nowMs() - lastPongTs.load()] are evaluated ([true]: the left one first). *)
Class Sys (W : Type) := {
  sys_recv : Z -> Z -> W -> Z * bytes * W;
  sys_send : Z -> bytes -> W -> Z * W;
  sys_close : Z -> W -> W;
  sys_shutdown : Z -> W -> W;
  sys_socket : W -> Z * W;
  sys_bind : Z -> Z -> W -> Z * W;
  sys_listen : Z -> Z -> W -> Z * W;
  sys_accept : Z -> W -> Z * W;
  sys_resolve : bytes -> W -> bool * W;
  sys_connect : Z -> bytes -> Z -> W -> Z * W;
  sys_random : W -> Z * W;
  sys_now : W -> Z * W;
  sys_order : W -> bool;
  std_dis : engine -> Z * engine;
  (* ghost observers *)
  incoming : Z -> W -> bytes;
  outgoing : Z -> W -> bytes;
  room : Z -> W -> Z;
  opened : W -> gset Z;
}.

(** A call that leaves the connection [s] and the descriptors alone. *)
Definition untouched `{Sys W} (s : Z) (w w' : W) : Prop :=
  outgoing s w' = outgoing s w /\ room s w' = room s w /\ opened w' = opened w.

(** [bs] went out on [s]; the peer may have answered. *)
Definition sent `{Sys W} (s : Z) (bs : bytes) (w w' : W) : Prop :=
  outgoing s w' = outgoing s w ++ bs /\ room s w' = room s w - zlen bs
  /\ opened w' = opened w /\ incoming s w `prefix_of` incoming s w'.

Class SysLaws (W : Type) `{Sys W} : Prop := {
  (* what arrives are bytes *)
  incoming_bytes s (w : W) : is_bytes (incoming s w);
  room_nonneg s (w : W) : 0 <= room s w;
  (* a blocking recv of a positive count returns a nonempty prefix of what the
     peer sends, or a value <= 0 once there is nothing left *)
  recv_law s n (w : W) : 0 < n ->
    let '(r, bs, w') := sys_recv s n w in
    untouched s w w' /\
    (if bool_decide (incoming s w = []) then r <= 0 /\ incoming s w' = []
     else 0 < r <= n /\ zlen bs = r /\ incoming s w = bs ++ incoming s w');
  (* send accepts a nonempty prefix as long as the connection accepts bytes *)
  send_law s bs (w : W) : bs <> [] ->
    let '(r, w') := sys_send s bs w in
    if 0 <? room s w then 0 < r <= Z.min (zlen bs) (room s w) /\ sent s (take (Z.to_nat r) bs) w w'
    else r <= 0 /\ sent s [] w w';
  (* randomness and the clock do not touch connections *)
  random_law s (w : W) : let '(v, w') := sys_random w in
    untouched s w w' /\ incoming s w' = incoming s w /\ is_u32 v;
  now_law s (w : W) : let '(v, w') := sys_now w in
    untouched s w w' /\ incoming s w' = incoming s w /\ 0 <= v < 2 ^ 62;
  (* descriptors *)
  socket_law (w : W) : let '(s, w') := sys_socket w in
    if s =? HWS_INVALID_SOCKET then opened w' = opened w
    else (s ∉ opened w) /\ opened w' = {[ s ]} ∪ opened w;
  accept_law l (w : W) : let '(s, w') := sys_accept l w in
    if s =? HWS_INVALID_SOCKET then opened w' = opened w
    else (s ∉ opened w) /\ opened w' = {[ s ]} ∪ opened w;
  close_law s (w : W) : opened (sys_close s w) = opened w ∖ {[ s ]};
  close_silent s t (w : W) : outgoing t (sys_close s w) = outgoing t w;
  (* nothing is sent through a closed descriptor *)
  room_closed s (w : W) : s ∉ opened w -> room s w = 0;
  (* shutdown sends nothing, lets no more be sent and brings no new input *)
  shutdown_law s t (w : W) : opened (sys_shutdown s w) = opened w /\ outgoing t (sys_shutdown s w) = outgoing t w
    /\ room t (sys_shutdown s w) <= room t w /\ zlen (incoming t (sys_shutdown s w)) <= zlen (incoming t w);
  bind_law s p (w : W) : opened (snd (sys_bind s p w)) = opened w;
  listen_law s n (w : W) : opened (snd (sys_listen s n w)) = opened w;
  resolve_law h (w : W) : opened (snd (sys_resolve h w)) = opened w;
  connect_law s h p (w : W) : opened (snd (sys_connect s h p w)) = opened w;
}.

(** ** The code *)

Section helpers.
Context {W : Type} `{Sys W}.

(** The calls as effects. *)
Definition recv (s n : Z) : io W (Z * bytes) := fun w => let '(r, bs, w) := sys_recv s n w in (Ok (r, bs), w).
Definition send (s : Z) (bs : bytes) : io W Z := fun w => let '(r, w) := sys_send s bs w in (Ok r, w).
Definition hws_close (s : Z) : io W unit := fun w => (Ok tt, sys_close s w).
Definition hws_shutdown (s : Z) : io W unit := fun w => (Ok tt, sys_shutdown s w).
Definition random : io W Z := fun w => let '(v, w) := sys_random w in (Ok v, w).
Definition nowMs : io W Z := fun w => let '(v, w) := sys_now w in (Ok v, w).

(** [while (total < len)] of [recvAll]; [acc] is the filled part of the buffer. *)
Fixpoint recv_loop (fuel : nat) (s len : Z) (acc : bytes) : io W (option bytes) :=
  if negb (zlen acc <? len) then iret (Some acc)
  else match fuel with
       | O => ilift Stuck
       | S f =>
           let! (n, bs) := recv s (i32 (len - zlen acc)) in
           if n <=? 0 then iret None else recv_loop f s len (acc ++ bs)
       end.

(** [recvAll(sock, buf, len)]: the buffer on success; on failure its contents
    are not looked at by any caller. *)
Definition recvAll (s len : Z) : io W (option bytes) := recv_loop (Z.to_nat len) s len [].

(** [while (total < len)] of [sendAll]: [p + total] and the [int] count. *)
Fixpoint send_loop (fuel : nat) (s : Z) (buf : bytes) (len total : Z) : io W bool :=
  if negb (total <? len) then iret true
  else match fuel with
       | O => ilift Stuck
       | S f =>
           let! bs := ilift (rd_range buf total (i32 (len - total))) in
           let! n := send s bs in
           if n <=? 0 then iret false else send_loop f s buf len (total + n)
       end.

Definition sendAll (s : Z) (buf : bytes) (len : Z) : io W bool := send_loop (length buf) s buf len 0.

Definition CRLF : bytes := [13; 10].
Definition HTTP_END : bytes := CRLF ++ CRLF.

(** [buf.size() >= 4 && buf.substr(buf.size()-4) == "\r\n\r\n"]. *)
Definition ends_headers (buf : bytes) : bool :=
  (4 <=? zlen buf) && bool_decide (drop (length buf - 4) buf = HTTP_END).

(** [while (true)] of [recvHttpHeaders]. *)
Fixpoint http_loop (fuel : nat) (s : Z) (buf : bytes) : io W bytes :=
  match fuel with
  | O => ilift Stuck
  | S f =>
      let! (n, ch) := recv s 1 in
      if n <=? 0 then iret []
      else let buf := buf ++ ch in
           if ends_headers buf then iret buf
           else if 8192 <? zlen buf then iret [] else http_loop f s buf
  end.

Definition recvHttpHeaders (s : Z) : io W bytes := http_loop (Z.to_nat 8193) s [].
End helpers.

(** ** Reasoning about effects *)

Lemma ibind_run {W A B} (m : io W A) (f : A -> io W B) w a w1 :
  m w = (Ok a, w1) -> ibind m f w = f a w1.
Proof. intros E. unfold ibind. by rewrite E. Qed.

Lemma ibind_lift {W A B} (a : A) (f : A -> io W B) w : ibind (ilift (Ok a)) f w = f a w.
Proof. done. Qed.
Lemma ibind_ret {W A B} (a : A) (f : A -> io W B) w : ibind (iret a) f w = f a w.
Proof. done. Qed.

Section laws.
Context {W : Type} `{SysLaws W}.

#[export] Instance untouched_preorder s : PreOrder (untouched s).
Proof.
  split; [by intros w; split_and!|]. intros w1 w2 w3 (? & ? & ?) (? & ? & ?).
  split_and!; congruence.
Qed.

Lemma sent_nil s w : sent s [] w w.
Proof. split_and!; [by rewrite app_nil_r|cbn; lia|done|done]. Qed.

Lemma sent_app s a b w1 w2 w3 : sent s a w1 w2 -> sent s b w2 w3 -> sent s (a ++ b) w1 w3.
Proof.
  intros (E1 & R1 & O1 & P1) (E2 & R2 & O2 & P2).
  split_and!; [by rewrite E2, E1, app_assoc|rewrite length_app; lia|congruence|by etrans].
Qed.

Lemma recv_run s n w : 0 < n ->
  exists r bs w', recv s n w = (Ok (r, bs), w') /\ untouched s w w' /\
    ((incoming s w = [] /\ r <= 0 /\ incoming s w' = []) \/
     (0 < r <= n /\ zlen bs = r /\ incoming s w = bs ++ incoming s w')).
Proof.
  intros Hn. pose proof (recv_law s n w Hn) as L. unfold recv.
  destruct (sys_recv s n w) as [[r bs] w']. destruct L as [Hu L]. exists r, bs, w'.
  split_and!; [done|done|]. case_bool_decide; [left|right]; split_and!; tauto.
Qed.

(** ** Receiving an exact count *)

Lemma recv_loop_spec fuel s len acc w :
  zlen acc <= len < 2 ^ 31 -> len - zlen acc <= Z.of_nat fuel ->
  exists r w', recv_loop fuel s len acc w = (Ok r, w') /\ untouched s w w' /\
    if len - zlen acc <=? zlen (incoming s w)
    then r = Some (acc ++ take (Z.to_nat (len - zlen acc)) (incoming s w))
         /\ incoming s w' = drop (Z.to_nat (len - zlen acc)) (incoming s w)
    else r = None /\ incoming s w' = [].
Proof.
  revert acc w. induction fuel as [|f IH]; intros acc w Hl Hf; cbn [recv_loop].
  { rewrite (proj2 (Z.ltb_ge _ _)), (proj2 (Z.leb_le _ _)) by lia. cbn [negb].
    replace (len - zlen acc) with 0 by lia. exists (Some acc), w. eval_nats.
    by rewrite take_0, app_nil_r, drop_0. }
  destruct (Z.ltb_spec (zlen acc) len) as [Hlt|Hge]; cbn [negb]; cycle 1.
  { rewrite (proj2 (Z.leb_le _ _)) by lia. replace (len - zlen acc) with 0 by lia.
    exists (Some acc), w. eval_nats. by rewrite take_0, app_nil_r, drop_0. }
  assert (i32 (len - zlen acc) = len - zlen acc) as -> by solve_width.
  destruct (recv_run s (len - zlen acc) w) as (n & bs & w1 & E & Hu & Hcase); [lia|].
  rewrite (ibind_run _ _ _ _ _ E). destruct Hcase as [(Hin & Hr & Hin')|(Hr & Hbs & Hin)].
  - rewrite (proj2 (Z.leb_le n 0)) by lia. exists None, w1. rewrite Hin. cbn [length].
    rewrite (proj2 (Z.leb_gt _ _)) by lia. done.
  - rewrite (proj2 (Z.leb_gt n 0)) by lia.
    destruct (IH (acc ++ bs) w1) as (r & w' & E' & Hu' & HR); [rewrite length_app; lia..|].
    exists r, w'. split; [done|]. split; [by etrans|]. rewrite Hin, length_app in *.
    rewrite Nat2Z.inj_add in HR |- *. replace (len - (zlen acc + zlen bs)) with (len - zlen acc - zlen bs) in HR by lia.
    replace (Z.to_nat (len - zlen acc)) with (length bs + Z.to_nat (len - zlen acc - zlen bs))%nat by lia.
    rewrite take_app_add, drop_app_add, app_assoc.
    destruct (Z.leb_spec (len - zlen acc - zlen bs) (zlen (incoming s w1)));
      [rewrite (proj2 (Z.leb_le _ _)) by lia|rewrite (proj2 (Z.leb_gt _ _)) by lia]; done.
Qed.

(** [recvAll] returns the next [len] bytes of the stream, or fails when the
    stream ends before. *)
Lemma recvAll_spec s len w : 0 <= len < 2 ^ 31 ->
  exists r w', recvAll s len w = (Ok r, w') /\ untouched s w w' /\
    if len <=? zlen (incoming s w)
    then r = Some (take (Z.to_nat len) (incoming s w)) /\ incoming s w' = drop (Z.to_nat len) (incoming s w)
    else r = None /\ incoming s w' = [].
Proof.
  intros Hl. destruct (recv_loop_spec (Z.to_nat len) s len [] w) as (r & w' & E & Hu & HR); cbn; [lia..|].
  exists r, w'. cbn [length app] in HR. rewrite Z.sub_0_r in HR. done.
Qed.

(** The two ways it is used. *)
Lemma recvAll_ok s a b w : incoming s w = a ++ b -> zlen a < 2 ^ 31 ->
  exists w', recvAll s (zlen a) w = (Ok (Some a), w') /\ untouched s w w' /\ incoming s w' = b.
Proof.
  intros Hin Ha. destruct (recvAll_spec s (zlen a) w) as (r & w' & E & Hu & HR); [lia|].
  rewrite Hin, length_app, (proj2 (Z.leb_le _ _)), Nat2Z.id, take_app_length, drop_app_length in HR by lia.
  destruct HR as [-> HR]. by exists w'.
Qed.

Lemma recvAll_case s len w : 0 <= len < 2 ^ 31 ->
  (exists bs w', recvAll s len w = (Ok (Some bs), w') /\ untouched s w w'
     /\ incoming s w = bs ++ incoming s w' /\ zlen bs = len)
  \/ (exists w', recvAll s len w = (Ok None, w') /\ untouched s w w' /\ zlen (incoming s w) < len).
Proof.
  intros Hl. destruct (recvAll_spec s len w Hl) as (r & w' & E & Hu & HR).
  destruct (Z.leb_spec len (zlen (incoming s w))); destruct HR as [-> HR]; [left|right; by exists w'].
  exists (take (Z.to_nat len) (incoming s w)), w'.
  split_and!; [done|done|by rewrite HR, take_drop|rewrite length_take; lia].
Qed.

Lemma incoming_app_bytes s w bs rest : incoming s w = bs ++ rest -> is_bytes bs /\ is_bytes rest.
Proof. intros E. pose proof (incoming_bytes s w) as Hb. rewrite E in Hb. by apply Forall_app. Qed.

(** ** Sending *)

Lemma send_loop_spec fuel s buf total w :
  zlen buf < 2 ^ 31 -> 0 <= total <= zlen buf -> zlen buf - total <= Z.of_nat fuel ->
  exists w', send_loop fuel s buf (zlen buf) total w = (Ok (zlen buf - total <=? room s w), w')
    /\ sent s (take (Z.to_nat (room s w)) (drop (Z.to_nat total) buf)) w w'.
Proof.
  intros Hb. revert total w. induction fuel as [|f IH]; intros total w Ht Hf; cbn [send_loop];
    pose proof (room_nonneg s w) as Hroom.
  { rewrite (proj2 (Z.ltb_ge _ _)), (proj2 (Z.leb_le _ _)) by lia. exists w. split; [done|].
    rewrite drop_ge, take_nil by lia. apply sent_nil. }
  destruct (Z.ltb_spec total (zlen buf)) as [Hlt|Hge]; cbn [negb]; cycle 1.
  { rewrite (proj2 (Z.leb_le _ _)) by lia. exists w. split; [done|].
    rewrite drop_ge, take_nil by lia. apply sent_nil. }
  assert (i32 (zlen buf - total) = zlen buf - total) as -> by solve_width.
  unfold rd_range. rewrite !(proj2 (Z.leb_le _ _)) by lia. cbn [andb].
  unfold ilift at 1. unfold ibind at 1. rewrite take_ge by (rewrite length_drop; lia).
  pose proof (send_law s (drop (Z.to_nat total) buf) w) as L. unfold ibind at 1. unfold send.
  destruct (sys_send s (drop (Z.to_nat total) buf) w) as [n w1].
  assert (zlen (drop (Z.to_nat total) buf) = zlen buf - total) as Hd by (rewrite length_drop; lia).
  lapply L; [clear L; intros L|by intros E; rewrite E in Hd; cbn in Hd; lia].
  destruct (Z.ltb_spec 0 (room s w)) as [Hr|Hr].
  - destruct L as [Hn Hs]. rewrite (proj2 (Z.leb_gt n 0)) by lia.
    destruct (IH (total + n) w1) as (w' & E & Hs'); [lia..|]. exists w'.
    assert (room s w1 = room s w - n) as Hroom1.
    { destruct Hs as (_ & -> & _). rewrite length_take. lia. }
    split; [rewrite E, Hroom1; do 2 f_equal; apply eq_bool_prop_intro; rewrite !Is_true_true, !Z.leb_le; lia|].
    replace (take (Z.to_nat (room s w)) (drop (Z.to_nat total) buf))
      with (take (Z.to_nat n) (drop (Z.to_nat total) buf)
            ++ take (Z.to_nat (room s w1)) (drop (Z.to_nat (total + n)) buf)); [by eapply sent_app|].
    replace (Z.to_nat (room s w)) with (Z.to_nat n + Z.to_nat (room s w1))%nat by lia.
    replace (Z.to_nat (total + n)) with (Z.to_nat total + Z.to_nat n)%nat by lia.
    rewrite <- drop_drop. apply take_take_drop.
  - destruct L as [Hn Hs]. rewrite (proj2 (Z.leb_le n 0)), (proj2 (Z.leb_gt _ _)) by lia.
    exists w1. split; [done|]. by replace (Z.to_nat (room s w)) with 0%nat by lia.
Qed.

(** [sendAll] succeeds exactly when the connection accepts the whole buffer,
    which it then has put on the wire in order; otherwise a prefix went out. *)
Lemma sendAll_spec s buf w : zlen buf < 2 ^ 31 ->
  exists w', sendAll s buf (zlen buf) w = (Ok (zlen buf <=? room s w), w')
    /\ sent s (take (Z.to_nat (room s w)) buf) w w'.
Proof.
  intros Hb. destruct (send_loop_spec (length buf) s buf 0 w) as (w' & E & Hs); [lia..|].
  exists w'. rewrite Z.sub_0_r in E. done.
Qed.

Lemma sendAll_ok s buf w : zlen buf < 2 ^ 31 -> zlen buf <= room s w ->
  exists w', sendAll s buf (zlen buf) w = (Ok true, w') /\ sent s buf w w'.
Proof.
  intros Hb Hr. destruct (sendAll_spec s buf w Hb) as (w' & E & Hs). exists w'.
  rewrite (proj2 (Z.leb_le _ _)) in E by lia. rewrite take_ge in Hs by lia. done.
Qed.

(** ** Reading a header block *)

Lemma ends_headers_spec buf : ends_headers buf = true <-> exists x, buf = x ++ HTTP_END.
Proof.
  unfold ends_headers. rewrite andb_true_iff, Z.leb_le, bool_decide_eq_true. split.
  - intros [_ E]. exists (take (length buf - 4) buf). by rewrite <- E, take_drop.
  - intros [x ->]. rewrite length_app. split; [cbn; lia|].
    replace (length x + length HTTP_END - 4)%nat with (length x) by (cbn; lia). apply drop_app_length.
Qed.

(** A block that ends at its first empty line. *)
Definition header_block (h : bytes) : Prop :=
  ends_headers h = true /\ forall p, p `prefix_of` h -> p <> h -> ends_headers p = false.

(** No prefix is a complete block. *)
Definition unfinished (h : bytes) : Prop := forall p, p `prefix_of` h -> ends_headers p = false.

Lemma prefix_of_snoc p h (c : Z) : p `prefix_of` h ++ [c] -> p = h ++ [c] \/ p `prefix_of` h.
Proof.
  intros [q E]. destruct q as [|x q _] using rev_ind; [left; by rewrite app_nil_r in E|right].
  rewrite app_assoc in E. apply app_inj_2 in E as [-> _]; [|done]. by exists q.
Qed.

Lemma http_loop_spec fuel s buf w : unfinished buf -> zlen buf <= 8192 ->
  (Z.of_nat fuel + zlen buf = 8193) ->
  exists r used w', http_loop fuel s buf w = (Ok r, w') /\ untouched s w w'
    /\ incoming s w = used ++ incoming s w' /\ zlen (buf ++ used) <= 8193
    /\ ((r = buf ++ used /\ header_block (buf ++ used))
        \/ (r = [] /\ unfinished (buf ++ used) /\ (zlen (buf ++ used) = 8193 \/ incoming s w' = []))).
Proof.
  revert buf w. induction fuel as [|f IH]; intros buf w Hun Hb Hf; [lia|]. cbn [http_loop].
  destruct (recv_run s 1 w) as (n & ch & w1 & E & Hu & Hcase); [lia|].
  rewrite (ibind_run _ _ _ _ _ E). destruct Hcase as [(Hin & Hr & Hin')|(Hr & Hch & Hin)].
  { rewrite (proj2 (Z.leb_le n 0)) by lia. exists [], [], w1. rewrite app_nil_r.
    split_and!; [done|done|by rewrite Hin, Hin'|lia|]. right. auto. }
  rewrite (proj2 (Z.leb_gt n 0)) by lia.
  destruct ch as [|c [|]]; [cbn in Hch; lia| |cbn in Hch; lia].
  assert (zlen (buf ++ [c]) = zlen buf + 1) as Hlen by (rewrite length_app; cbn; lia).
  destruct (ends_headers (buf ++ [c])) eqn:He.
  { exists (buf ++ [c]), [c], w1. split_and!; [done|done|done|lia|]. left. split; [done|]. split; [done|].
    intros p Hp Hne. apply Hun. by apply prefix_of_snoc in Hp as [?|?]. }
  assert (unfinished (buf ++ [c])) as Hun'.
  { intros p [->|Hp]%prefix_of_snoc; [done|by apply Hun]. }
  destruct (Z.ltb_spec 8192 (zlen (buf ++ [c]))).
  { exists [], [c], w1. split_and!; [done|done|done|lia|]. right. split_and!; [done|done|left; lia]. }
  destruct (IH (buf ++ [c]) w1) as (r & used & w' & E' & Hu' & Hin' & Hl & Hc); [done|lia|lia|].
  exists r, ([c] ++ used), w'. rewrite app_assoc.
  split_and!; [done|by etrans|by rewrite Hin, Hin', app_assoc|done|done].
Qed.

Lemma recvHttpHeaders_spec s w :
  exists r used w', recvHttpHeaders s w = (Ok r, w') /\ untouched s w w'
    /\ incoming s w = used ++ incoming s w' /\ zlen used <= 8193
    /\ ((r = used /\ header_block used)
        \/ (r = [] /\ unfinished used /\ (zlen used = 8193 \/ incoming s w' = []))).
Proof.
  apply (http_loop_spec (Z.to_nat 8193) s [] w); [|cbn; lia|cbn; lia].
  intros p ->%prefix_nil_inv. done.
Qed.

(** A block of at most 8193 bytes at the front of the stream is returned whole. *)
Lemma recvHttpHeaders_ok s h rest w :
  incoming s w = h ++ rest -> header_block h -> zlen h <= 8193 ->
  exists w', recvHttpHeaders s w = (Ok h, w') /\ untouched s w w' /\ incoming s w' = rest.
Proof.
  intros Hin [He Hfirst] Hl.
  destruct (recvHttpHeaders_spec s w) as (r & used & w' & E & Hu & Hin' & Hl' & Hc).
  rewrite Hin in Hin'. exists w'.
  destruct Hc as [[-> [He' Hfirst']]|(-> & Hun & Hend)].
  - assert (used = h) as ->; [|by apply app_inv_head in Hin'].
    destruct (prefix_weak_total used h (h ++ rest)) as [Hp|Hp];
      [rewrite Hin'; by apply prefix_app_r|by apply prefix_app_r|..].
    + destruct (decide (used = h)); [done|]. by rewrite Hfirst in He'.
    + destruct (decide (used = h)); [done|]. rewrite Hfirst' in He; [done|done|congruence].
  - exfalso. assert (h `prefix_of` used) as Hp; [|by rewrite Hun in He].
    destruct (prefix_weak_total used h (h ++ rest)) as [Hp|Hp];
      [rewrite Hin'; by apply prefix_app_r|by apply prefix_app_r| |done].
    destruct Hend as [Hend|Hend].
    + apply prefix_length_eq in Hp; [by subst|lia].
    + rewrite Hend, app_nil_r in Hin'. subst used. by apply prefix_app_r.
Qed.
End laws.

(** ** A concrete world *)

(** One connection: at most [S t_mtu] bytes move per call, the peer answers
    each piece of output with [peer] of all output so far, calls that can be
    refused succeed when [t_up]. *)
Record tape (peer : bytes -> bytes) := Tape {
  t_in : bytes; t_out : bytes; t_room : nat; t_mtu : nat;
  t_up : bool; t_fds : list Z; t_seed : Z; t_clock : Z;
}.
Arguments t_in {peer} t : rename.
Arguments t_out {peer} t : rename.
Arguments t_room {peer} t : rename.
Arguments t_mtu {peer} t : rename.
Arguments t_up {peer} t : rename.
Arguments t_fds {peer} t : rename.
Arguments t_seed {peer} t : rename.
Arguments t_clock {peer} t : rename.

Section tape.
Context {peer : bytes -> bytes}.
Implicit Types t : tape peer.

#[export] Instance tape_eta : Eta (tape peer) := fun t =>
  Tape peer (t_in t) (t_out t) (t_room t) (t_mtu t) (t_up t) (t_fds t) (t_seed t) (t_clock t).
#[export] Instance set_t_in : Settable (t_in (peer:=peer)) := ltac:(derive_setter).
#[export] Instance set_t_out : Settable (t_out (peer:=peer)) := ltac:(derive_setter).
#[export] Instance set_t_room : Settable (t_room (peer:=peer)) := ltac:(derive_setter).
#[export] Instance set_t_fds : Settable (t_fds (peer:=peer)) := ltac:(derive_setter).
#[export] Instance set_t_seed : Settable (t_seed (peer:=peer)) := ltac:(derive_setter).
#[export] Instance set_t_clock : Settable (t_clock (peer:=peer)) := ltac:(derive_setter).

Definition tape_recv (n : Z) (t : tape peer) : Z * bytes * tape peer :=
  let k := Nat.min (Z.to_nat n) (S (t_mtu t)) in
  let bs := map u8 (take k (t_in t)) in
  (zlen bs, bs, t <| t_in := drop k (t_in t) |>).

Definition tape_send (bs : bytes) (t : tape peer) : Z * tape peer :=
  let k := Nat.min (length bs) (Nat.min (t_room t) (S (t_mtu t))) in
  let out := t_out t ++ take k bs in
  match k with
  | O => (-1, t)
  | _ => (Z.of_nat k, t <| t_in := t_in t ++ peer out |> <| t_out := out |>
                        <| t_room := (t_room t - k)%nat |>)
  end.

Definition tape_open (t : tape peer) : Z * tape peer :=
  let s := 1 + foldr Z.max 0 (t_fds t) in
  if t_up t then (s, t <| t_fds := s :: t_fds t |>) else (-1, t).

Definition tape_status (t : tape peer) : Z * tape peer := (if t_up t then 0 else -1, t).

#[export] Instance tape_sys : Sys (tape peer) := {|
  sys_recv _ n t := tape_recv n t;
  sys_send s bs t := if bool_decide (s ∈ t_fds t) then tape_send bs t else (-1, t);
  sys_close s t := t <| t_fds := filter (.≠ s) (t_fds t) |>;
  sys_shutdown _ t := t;
  sys_socket := tape_open;
  sys_bind _ _ := tape_status;
  sys_listen _ _ := tape_status;
  sys_accept _ := tape_open;
  sys_resolve _ t := (t_up t, t);
  sys_connect _ _ _ := tape_status;
  sys_random t := let v := u32 (t_seed t * 1664525 + 1013904223) in (v, t <| t_seed := v |>);
  sys_now t := (t_clock t mod 2 ^ 62, t <| t_clock := t_clock t + 1 |>);
  sys_order t := Z.even (t_clock t);
  std_dis g := let '(v, g) := mt_next mt19937 g in (v / 2 ^ 24 mod 2 ^ 8, g);
  incoming _ t := map u8 (t_in t);
  outgoing _ t := t_out t;
  room s t := if bool_decide (s ∈ t_fds t) then Z.of_nat (t_room t) else 0;
  opened t := list_to_set (t_fds t);
|}.

Ltac tape_fields :=
  unfold set_field, set_t_in, set_t_out, set_t_room, set_t_fds, set_t_seed, set_t_clock;
  cbn [t_in t_out t_room t_mtu t_up t_fds t_seed t_clock
       sys_recv sys_send sys_close sys_shutdown sys_socket sys_bind sys_listen sys_accept sys_resolve
       sys_connect sys_random sys_now sys_order std_dis incoming outgoing room opened tape_sys].

Lemma tape_open_law t :
  let '(s, t') := tape_open t in
  if s =? HWS_INVALID_SOCKET then opened t' = opened t
  else (s ∉ opened t) /\ opened t' = {[ s ]} ∪ opened t.
Proof.
  unfold tape_open. destruct (t_up t); [|done].
  assert (forall x, x ∈ t_fds t -> x <= foldr Z.max 0 (t_fds t)) as Hmax.
  { induction (t_fds t) as [|y l IH]; intros x Hx; [by apply not_elem_of_nil in Hx|].
    cbn [foldr]. apply elem_of_cons in Hx as [->|Hx%IH]; lia. }
  assert (0 <= foldr Z.max 0 (t_fds t)) as H0 by (clear; induction (t_fds t); cbn [foldr]; lia).
  rewrite (proj2 (Z.eqb_neq _ _)) by (unfold HWS_INVALID_SOCKET; lia).
  tape_fields. split; [|done]. rewrite elem_of_list_to_set. intros Hin%Hmax. lia.
Qed.

#[export] Instance tape_laws : SysLaws (tape peer).
Proof.
  split; intros; try (tape_fields; done); try apply tape_open_law.
  - tape_fields. apply Forall_map, Forall_true. intros x. apply u8_range.
  - tape_fields. case_bool_decide; lia.
  - tape_fields. unfold tape_recv. tape_fields. split; [done|].
    destruct (t_in w) as [|b l] eqn:E; [by rewrite take_nil, drop_nil; cbn|].
    rewrite bool_decide_eq_false_2 by done. rewrite length_map, length_take. cbn [length].
    split_and!; try lia. by rewrite <- map_app, take_drop.
  - assert (length bs <> 0)%nat as Hbs by (by destruct bs). tape_fields.
    destruct (bool_decide (s ∈ t_fds w)) eqn:Hopen; [|split; [lia|apply sent_nil]]. unfold tape_send.
    destruct (Nat.min (length bs) (Nat.min (t_room w) (S (t_mtu w)))) as [|k] eqn:Ek.
    + rewrite (proj2 (Z.ltb_ge _ _)) by lia. split; [lia|apply sent_nil].
    + rewrite (proj2 (Z.ltb_lt _ _)) by lia. tape_fields. split; [lia|]. rewrite Nat2Z.id.
      split_and!; tape_fields; [done|rewrite Hopen, length_take; lia|done|].
      rewrite map_app. by apply prefix_app_r.
  - tape_fields. split; [by split_and!|]. split; [done|]. apply u32_range.
  - tape_fields. split; [by split_and!|]. split; [done|]. apply Z.mod_pos_bound. lia.
  - do 2 tape_fields. apply leibniz_equiv. intros x.
    rewrite elem_of_difference, elem_of_singleton, !elem_of_list_to_set, list_elem_of_filter. tauto.
  - revert H. tape_fields. rewrite elem_of_list_to_set. intros Hs. by rewrite bool_decide_eq_false_2.
Qed.
End tape.

(** ** Properties *)

(** A connection that delivers [bs] in pieces of at most three bytes and
    accepts [n] bytes. *)
Definition silent : bytes -> bytes := fun _ => [].
Definition tape_of (bs : bytes) (n : nat) : tape silent :=
  Tape silent bs [] n 2 true [7] 1 1700000000000.

(** C37: [recvHttpHeaders] always returns and consumes at most 8193 bytes.  It
    returns a nonempty text only when what it consumed is a header block that
    ends at its first empty line, and then returns exactly that; it returns the
    empty text only when no prefix of what it consumed is a block, and either
    8193 bytes were read or the stream ended. *)
Theorem recvHttpHeaders_correct {W} `{SysLaws W} s (w : W) :
  exists r used w', recvHttpHeaders s w = (Ok r, w') /\ untouched s w w'
    /\ incoming s w = used ++ incoming s w' /\ zlen used <= 8193
    /\ ((r = used /\ header_block used)
        \/ (r = [] /\ unfinished used /\ (zlen used = 8193 \/ incoming s w' = []))).
Proof. apply recvHttpHeaders_spec. Qed.

Lemma recvHttpHeaders_correct_witness :
  let w := tape_of (str "GET / HTTP/1.1" ++ HTTP_END ++ str "more") 0 in
  exists r used w', recvHttpHeaders 7 w = (Ok r, w') /\ untouched 7 w w'
    /\ incoming 7 w = used ++ incoming 7 w' /\ zlen used <= 8193
    /\ ((r = used /\ header_block used)
        \/ (r = [] /\ unfinished used /\ (zlen used = 8193 \/ incoming 7 w' = []))).
Proof. intros w. exact (recvHttpHeaders_correct 7 w). Defined.
