(* ===== verification/WsFrame.v ===== *)
(** * WebSocket framing (common/ws.hpp: wsSendBinary .. wsSendClose)

    The five functions that put WebSocket frames on a socket and take them off,
    over any world of [Socket].  [wsframe] is the reference: an RFC 6455 frame
    with its wire form; [collects] and [completes] say which sequences of frames
    make up one message.  The senders are shown to emit wire forms, the receiver to accept
    exactly those sequences. *)

From S2P Require Import Prelude Random Socket.

(** ** The code *)

(** [struct WSFrame]: [None] is the indeterminate opcode of a default
    initialised frame. *)
Record WSFrame := {
  opcode : option Z; payload : bytes; isClose : bool; isValid : bool;
}.
#[export] Instance WSFrame_eta : Eta WSFrame := fun f =>
  {| opcode := opcode f; payload := payload f; isClose := isClose f; isValid := isValid f |}.
#[export] Instance set_opcode : Settable opcode := ltac:(derive_setter).
#[export] Instance set_payload : Settable payload := ltac:(derive_setter).
#[export] Instance set_isClose : Settable isClose := ltac:(derive_setter).
#[export] Instance set_isValid : Settable isValid := ltac:(derive_setter).

(** [WSFrame message;] and [WSFrame{}]. *)
Definition new_WSFrame : WSFrame := {| opcode := None; payload := []; isClose := false; isValid := false |}.
Definition zero_WSFrame : WSFrame := new_WSFrame <| opcode := Some 0 |>.

Definition MAX_MESSAGE_SIZE : Z := 1024 * 1024.

(** [data[i] ^ mask[i % 4]] for every [i]. *)
Definition apply_mask (key data : bytes) : bytes :=
  imap (fun i b => u8 (b .^ nth (i mod 4) key 0)) data.

(** The length field: the second byte, with [flag] the mask bit, and the
    extended length. *)
Definition push_length (flag len : Z) : bytes :=
  if len <? 126 then [u8 (flag .| len)]
  else if len <=? 65535 then [flag .| 126; u8 ((len .>> 8) .& 0xFF); u8 (len .& 0xFF)]
  else (flag .| 127) :: map (fun i => u8 ((u64 len .>> (i * 8)) .& 0xFF)) [7; 6; 5; 4; 3; 2; 1; 0].

Section code.
Context {W : Type} `{Sys W}.

(** [for (...) mask[i] = static_cast<uint8_t>(dis(gen))] *)
Fixpoint dis_bytes (n : nat) (gen : engine) : bytes :=
  match n with
  | O => []
  | S n => let '(v, gen) := std_dis (W := W) gen in u8 v :: dis_bytes n gen
  end.

(** [std::random_device rd; std::mt19937 gen(rd());] and the loop. *)
Definition mt_bytes (n : nat) : io W bytes :=
  let! seed := random in iret (dis_bytes n (mt_seed mt19937 seed)).

(** [for (auto& b : key) b = static_cast<uint8_t>(rd());] *)
Fixpoint random_bytes (n : nat) : io W bytes :=
  match n with
  | O => iret []
  | S n => let! v := random in let! vs := random_bytes n in iret (u8 v :: vs)
  end.

(** The frame [wsSendBinary] sends, and the one [wsSendBinaryMasked] sends. *)
Definition binary_frame (data : bytes) : io W bytes :=
  iret ([0x82] ++ push_length 0 (zlen data) ++ data).
Definition masked_frame (data : bytes) : io W bytes :=
  let! mask := mt_bytes 4 in
  iret ([0x82] ++ push_length 0x80 (zlen data) ++ mask ++ apply_mask mask data).

Definition wsSendBinary (sock : Z) (data : bytes) : io W bool :=
  let! frame := binary_frame data in sendAll sock frame (zlen frame).

Definition wsSendBinaryMasked (sock : Z) (data : bytes) : io W bool :=
  let! frame := masked_frame data in sendAll sock frame (zlen frame).

(** The frame [wsSendControl] sends, if the payload is short enough. *)
Definition control_out (op : Z) (data : bytes) (masked : bool) : io W (option bytes) :=
  if 125 <? zlen data then iret None
  else
    let out := [u8 (0x80 .| (op .& 0x0F)); u8 ((if masked then 0x80 else 0) .| zlen data)] in
    if masked then let! key := random_bytes 4 in iret (Some (out ++ key ++ apply_mask key data))
    else iret (Some (out ++ data)).

Definition wsSendControl (sock op : Z) (data : bytes) (masked : bool) : io W bool :=
  let! out := control_out op data masked in
  match out with
  | None => iret false
  | Some out => sendAll sock out (zlen out)
  end.

Definition wsSendClose (sock : Z) (reason : bytes) : io W bool :=
  let len := zlen reason in
  let frame := [0x88] ++
    (if bool_decide (reason = []) then [0]
     else (if len <? 126 then [u8 len] else [126; u8 ((len .>> 8) .& 0xFF); u8 (len .& 0xFF)]) ++ reason) in
  sendAll sock frame (zlen frame).

(** The extended length of [wsRecvFrame]; [None] is [return message]. *)
Definition recv_length (sock len7 : Z) : io W (option Z) :=
  if len7 =? 126 then
    let! e := recvAll sock 2 in
    match e with
    | None => iret None
    | Some ext =>
        let! e0 := ilift (rd ext 0) in let! e1 := ilift (rd ext 1) in
        iret (Some (u64 (e0 .<< 8) .| e1))
    end
  else if len7 =? 127 then
    let! e := recvAll sock 8 in
    match e with
    | None => iret None
    | Some ext =>
        let! e0 := ilift (rd ext 0) in
        if negb (e0 .& 0x80 =? 0) then iret None
        else iret (Some (foldl (fun l b => u64 (l .<< 8) .| b) 0 ext))
    end
  else iret (Some len7).

(** The mask key and the unmasked payload. *)
Definition recv_body (sock : Z) (masked : bool) (payloadLen : Z) : io W (option bytes) :=
  let! m := if masked then recvAll sock 4 else iret (Some [0; 0; 0; 0]) in
  match m with
  | None => iret None
  | Some mask =>
      let! p := if 0 <? payloadLen then recvAll sock payloadLen else iret (Some []) in
      match p with
      | None => iret None
      | Some p => iret (Some (if masked then apply_mask mask p else p))
      end
  end.

(** The head of one round of [wsRecvFrame], up to unmasking, with [size] the
    bytes of the message so far: [fin], the opcode and the payload, or [None]
    for [return message]. *)
Definition recv_one (sock : Z) (expectMasked : bool) (size : Z) : io W (option (bool * Z * bytes)) :=
  let! h := recvAll sock 2 in
  match h with
  | None => iret None
  | Some hdr =>
      let! h0 := ilift (rd hdr 0) in let! h1 := ilift (rd hdr 1) in
      let fin := negb (h0 .& 0x80 =? 0) in
      if negb (h0 .& 0x70 =? 0) then iret None else
      let op := h0 .& 0x0F in
      let masked := negb (h1 .& 0x80 =? 0) in
      if negb (eqb masked expectMasked) then iret None else
      let! l := recv_length sock (h1 .& 0x7F) in
      match l with
      | None => iret None
      | Some payloadLen =>
          let control := 0x08 <=? op in
          if (control && (negb fin || (125 <? payloadLen))) || (MAX_MESSAGE_SIZE <? payloadLen)
             || (MAX_MESSAGE_SIZE <? u64 (size + payloadLen)) then iret None else
          let! p := recv_body sock masked payloadLen in
          match p with
          | None => iret None
          | Some p => iret (Some (fin, op, p))
          end
      end
  end.

(** [while (true)] of [wsRecvFrame]; every round reads one frame. *)
Fixpoint recv_frames (fuel : nat) (sock : Z) (expectMasked : bool) (message : WSFrame)
    (fragmented : bool) : io W WSFrame :=
  match fuel with
  | O => ilift Stuck
  | S fuel =>
      let! r := recv_one sock expectMasked (zlen (payload message)) in
      match r with
      | None => iret message
      | Some (fin, op, p) =>
          if op =? 0x08 then
            let! _ := wsSendControl sock 0x08 p (negb expectMasked) in
            iret {| opcode := Some op; payload := p; isClose := true; isValid := true |}
          else if op =? 0x09 then
            let! ok := wsSendControl sock 0x0A p (negb expectMasked) in
            if ok then recv_frames fuel sock expectMasked message fragmented else iret message
          else if op =? 0x0A then recv_frames fuel sock expectMasked message fragmented
          else if (op =? 0x02) && negb fragmented then
            let message := message <| opcode := Some op |> <| payload := p |> in
            if fin then iret (message <| isValid := true |>)
            else recv_frames fuel sock expectMasked message true
          else if (op =? 0x00) && fragmented then
            let message := message <| payload := payload message ++ p |> in
            if fin then iret (message <| isValid := true |>)
            else recv_frames fuel sock expectMasked message fragmented
          else iret zero_WSFrame
      end
  end.

Definition wsRecvFrame (fuel : nat) (sock : Z) (expectMasked : bool) : io W WSFrame :=
  recv_frames fuel sock expectMasked new_WSFrame false.
End code.

(** ** The reference: RFC 6455 frames *)

(** The three ways a payload length is written. *)
Inductive lenform := Len7 | Len16 | Len64.

Record wsframe := {
  w_fin : bool; w_op : Z; w_form : lenform; w_key : option bytes; w_body : bytes;
}.

Definition form_code (form : lenform) (len : Z) : Z :=
  match form with Len7 => len | Len16 => 126 | Len64 => 127 end.
Definition form_ext (form : lenform) (len : Z) : bytes :=
  match form with Len7 => [] | Len16 => be_bytes 2 len | Len64 => be_bytes 8 len end.
Definition form_fits (form : lenform) (len : Z) : Prop :=
  match form with Len7 => len < 126 | Len16 => len < 2 ^ 16 | Len64 => len < 2 ^ 63 end.

(** The shortest form, which every sender of RFC 6455 uses. *)
Definition shortest (len : Z) : lenform :=
  if len <? 126 then Len7 else if len <? 2 ^ 16 then Len16 else Len64.

Definition has_key (key : option bytes) : bool := match key with None => false | Some _ => true end.
Definition key_ok (key : option bytes) : Prop :=
  match key with None => True | Some key => length key = 4%nat /\ is_bytes key end.
Abbreviation is_masked f := (has_key (w_key f)).

(** The key and the masked payload. *)
Definition body_wire (key : option bytes) (p : bytes) : bytes :=
  match key with None => p | Some key => key ++ apply_mask key p end.

Definition wire (f : wsframe) : bytes :=
  [(if w_fin f then 128 else 0) + w_op f;
   (if is_masked f then 128 else 0) + form_code (w_form f) (zlen (w_body f))]
  ++ form_ext (w_form f) (zlen (w_body f)) ++ body_wire (w_key f) (w_body f).

Definition wires (fs : list wsframe) : bytes := concat (map wire fs).

Record frame_ok (f : wsframe) : Prop := {
  ok_op : 0 <= w_op f < 16;
  ok_form : form_fits (w_form f) (zlen (w_body f));
  ok_key : key_ok (w_key f);
  ok_body : is_bytes (w_body f);
}.

(** What the receiver demands of a frame when the message so far has [size]
    bytes: masked as expected, control frames short and unfragmented, message
    within the limit. *)
Record acceptable (expectMasked : bool) (size : Z) (f : wsframe) : Prop := {
  acc_ok : frame_ok f;
  acc_mask : is_masked f = expectMasked;
  acc_control : 8 <= w_op f -> w_fin f = true /\ zlen (w_body f) <= 125;
  acc_size : size + zlen (w_body f) <= MAX_MESSAGE_SIZE;
}.

(** [collects em frag acc fs frag' acc' pings]: reading the frames [fs] takes
    the receiver from [acc] collected so far to [acc'], with a fragmented
    message under way when [frag]; [pings] are the pings to answer. *)
Inductive collects (em : bool) : bool -> bytes -> list wsframe -> bool -> bytes -> list bytes -> Prop :=
  | c_nil frag acc : collects em frag acc [] frag acc []
  | c_ping frag acc f fs frag' acc' pings :
      acceptable em (zlen acc) f -> w_op f = 9 ->
      collects em frag acc fs frag' acc' pings ->
      collects em frag acc (f :: fs) frag' acc' (w_body f :: pings)
  | c_pong frag acc f fs frag' acc' pings :
      acceptable em (zlen acc) f -> w_op f = 10 ->
      collects em frag acc fs frag' acc' pings ->
      collects em frag acc (f :: fs) frag' acc' pings
  | c_first acc f fs frag' acc' pings :
      acceptable em (zlen acc) f -> w_op f = 2 -> w_fin f = false ->
      collects em true (w_body f) fs frag' acc' pings ->
      collects em false acc (f :: fs) frag' acc' pings
  | c_next acc f fs frag' acc' pings :
      acceptable em (zlen acc) f -> w_op f = 0 -> w_fin f = false ->
      collects em true (acc ++ w_body f) fs frag' acc' pings ->
      collects em true acc (f :: fs) frag' acc' pings.

(** The final data frame of a message. *)
Definition completes (em frag : bool) (acc : bytes) (f : wsframe) (m : bytes) : Prop :=
  acceptable em (zlen acc) f /\ w_fin f = true
  /\ if frag then w_op f = 0 /\ m = acc ++ w_body f else w_op f = 2 /\ m = w_body f.

(** The answers to a list of pings, masked when [masked], on the wire. *)
Definition control_frame (op : Z) (key : option bytes) (p : bytes) : wsframe :=
  {| w_fin := true; w_op := op; w_form := Len7; w_key := key; w_body := p |}.
Definition reply (op : Z) (masked : bool) (p : bytes) (f : wsframe) : Prop :=
  frame_ok f /\ is_masked f = masked /\ f = control_frame op (w_key f) p.
Definition replies (op : Z) (masked : bool) (ps : list bytes) (out : bytes) : Prop :=
  exists fs, out = wires fs /\ Forall2 (reply op masked) ps fs.

Ltac ws_fields :=
  unfold set_field, set_opcode, set_payload, set_isClose, set_isValid;
  cbn [opcode payload isClose isValid].

(** ** Masking *)

Lemma length_apply_mask key data : length (apply_mask key data) = length data.
Proof. apply length_imap. Qed.

Lemma nth_byte (key : bytes) i : is_bytes key -> is_u8 (nth i key 0).
Proof.
  intros Hk. destruct (nth_in_or_default i key 0) as [Hi| ->]; [|solve_width].
  apply list_elem_of_In in Hi. by apply (proj1 (Forall_forall _ _) Hk).
Qed.

Lemma apply_mask_bytes key data : is_bytes (apply_mask key data).
Proof. apply Forall_lookup. intros i b Hb. unfold apply_mask in Hb. rewrite list_lookup_imap in Hb.
  destruct (data !! i); [|done]. injection Hb as <-. apply u8_range. Qed.

(** Masking twice with the same key is the identity. *)
Lemma apply_mask_twice key data : is_bytes key -> is_bytes data ->
  apply_mask key (apply_mask key data) = data.
Proof.
  intros Hk Hd. apply list_eq. intros i. unfold apply_mask. rewrite !list_lookup_imap.
  destruct (data !! i) as [b|] eqn:E; [|done]. cbn. f_equal.
  assert (is_u8 b) as Hb by (by apply (Forall_lookup_1 _ _ _ _ Hd E)).
  pose proof (nth_byte key (i mod 4) Hk) as Hn.
  assert (is_u8 (b .^ nth (i mod 4) key 0)) as Hx by (apply lxor_range; done).
  rewrite (u8_small (b .^ _)) by done.
  by rewrite Z.lxor_assoc, Z.lxor_nilpotent, Z.lxor_0_r, u8_small.
Qed.
#[export] Hint Resolve apply_mask_bytes : hws.

(** ** Header bytes *)

Lemma first_byte fin op : 0 <= op < 16 ->
  let h0 := (if fin : bool then 128 else 0) + op in
  negb (h0 .& 0x80 =? 0) = fin /\ (h0 .& 0x70 =? 0) = true /\ h0 .& 0x0F = op.
Proof.
  intros Ho. assert (is_u8 op) as Hb by solve_width. revert Ho. cbv zeta. destruct fin; by_bytes op.
Qed.

Lemma first_byte_inv h0 : is_u8 h0 -> (h0 .& 0x70 =? 0) = true ->
  h0 = (if negb (h0 .& 0x80 =? 0) then 128 else 0) + h0 .& 0x0F /\ 0 <= h0 .& 0x0F < 16.
Proof. intros Hb. by_bytes h0. Qed.

Lemma second_byte m c : 0 <= c < 128 ->
  let h1 := (if m : bool then 128 else 0) + c in negb (h1 .& 0x80 =? 0) = m /\ h1 .& 0x7F = c.
Proof.
  intros Hc. assert (is_u8 c) as Hb by solve_width. revert Hc. cbv zeta. destruct m; by_bytes c.
Qed.

Lemma second_byte_inv h1 : is_u8 h1 ->
  h1 = (if negb (h1 .& 0x80 =? 0) then 128 else 0) + h1 .& 0x7F /\ 0 <= h1 .& 0x7F < 128.
Proof. intros Hb. by_bytes h1. Qed.

Lemma top_bit b : is_u8 b -> (b .& 0x80 =? 0) = (b <? 128).
Proof. intros Hb. by_bytes b. Qed.

(** ** Lengths *)

Lemma be_fold_64 ext : is_bytes ext -> (length ext <= 8)%nat ->
  foldl (fun l b => u64 (l .<< 8) .| b) 0 ext = be_value ext.
Proof.
  intros Hb Hl. induction ext as [|x ext IH] using rev_ind; [done|].
  apply Forall_app in Hb as [Hb [Hx _]%Forall_cons]. rewrite length_app in Hl. cbn [length] in Hl.
  rewrite foldl_app. cbn [foldl]. rewrite IH by (done || lia). unfold be_value at 2. rewrite foldl_app.
  cbn [foldl]. fold (be_value ext). f_equal. apply u64_small.
  pose proof (be_value_range ext Hb). rewrite Z.shiftl_mul_pow2 by lia.
  assert (2 ^ (8 * zlen ext) <= 2 ^ 56) by (apply Z.pow_le_mono_r; lia). solve_width.
Qed.

Lemma be_two e0 e1 : is_u8 e0 -> is_u8 e1 -> u64 (e0 .<< 8) .| e1 = be_value [e0; e1].
Proof.
  intros H0 H1. rewrite <- (be_fold_64 [e0; e1]); [|by repeat (apply Forall_cons; split)|cbn; lia].
  cbn [foldl]. by rewrite Z.shiftl_0_l.
Qed.

(** The top bit of the first byte decides whether the length is below 2^63. *)
Lemma be_top_bit e0 ext : is_u8 e0 -> is_bytes ext -> length ext = 7%nat ->
  (e0 .& 0x80 =? 0) = (be_value (e0 :: ext) <? 2 ^ 63).
Proof.
  intros H0 He Hl. rewrite top_bit, be_value_cons, Hl by done.
  pose proof (be_value_range ext He) as Hr. rewrite Hl in Hr.
  change (2 ^ (8 * Z.of_nat 7)) with (2 ^ 56) in *. change (2 ^ 63) with (128 * 2 ^ 56).
  destruct (Z.ltb_spec e0 128); symmetry; [apply Z.ltb_lt|apply Z.ltb_ge]; nia.
Qed.

(** ** Receiving one frame *)

Section receive.
Context {W : Type} `{SysLaws W}.

Lemma recv_length_total s len7 w : 0 <= len7 < 128 ->
  exists r w', recv_length s len7 w = (Ok r, w') /\ untouched s w w' /\
    match r with
    | None => True
    | Some len => exists form, form_code form len = len7 /\ form_fits form len /\ 0 <= len
        /\ incoming s w = form_ext form len ++ incoming s w'
    end.
Proof.
  intros H7. unfold recv_length. destruct (Z.eqb_spec len7 126) as [->|N6]; [|destruct (Z.eqb_spec len7 127) as [->|N7]].
  - destruct (recvAll_case s 2 w) as [(ext & w' & E & Hu & Hin & Hl)|(w' & E & Hu & _)]; [lia| |];
      rewrite (ibind_run _ _ _ _ _ E); [|by exists None, w'].
    destruct ext as [|e0 [|e1 []]]; try (cbn in Hl; lia).
    destruct (incoming_app_bytes s w _ _ Hin) as [Hb _]. rewrite !Forall_cons in Hb. split_hyps.
    exists (Some (be_value [e0; e1])), w'. split; [by rewrite rd_0, rd_1, !ibind_lift, be_two|]. split; [done|].
    assert (is_bytes [e0; e1]) as Hb by (by repeat (apply Forall_cons; split)).
    pose proof (be_value_range _ Hb) as Hr. change (2 ^ (8 * zlen [e0; e1])) with (2 ^ 16) in Hr.
    exists Len16. cbn [form_code form_fits form_ext]. split_and!; [done|lia|lia|]. rewrite Hin. f_equal. symmetry. by apply (be_bytes_be_value [e0; e1]).
  - destruct (recvAll_case s 8 w) as [(ext & w' & E & Hu & Hin & Hl)|(w' & E & Hu & _)]; [lia| |];
      rewrite (ibind_run _ _ _ _ _ E); [|by exists None, w'].
    destruct ext as [|e0 ext]; [cbn in Hl; lia|]. cbn [length] in Hl.
    destruct (incoming_app_bytes s w _ _ Hin) as [Hb _]. pose proof Hb as [He0 Hext]%Forall_cons.
    rewrite rd_0, ibind_lift, (be_top_bit e0 ext) by (done || lia).
    destruct (Z.ltb_spec (be_value (e0 :: ext)) (2 ^ 63)) as [Hlt|_]; [|by exists None, w'].
    exists (Some (be_value (e0 :: ext))), w'. split; [cbn [negb]; by rewrite be_fold_64 by (done || cbn; lia)|].
    split; [done|]. pose proof (be_value_range _ Hb).
    exists Len64. split_and!; [done|done|lia|]. rewrite Hin. f_equal. symmetry.
    cbn [form_ext]. replace 8%nat with (length (e0 :: ext)) by (cbn; lia). by apply be_bytes_be_value.
  - exists (Some len7), w. split_and!; [done|done|]. exists Len7. cbn. split_and!; (done || lia).
Qed.

Lemma recv_length_ok s form len rest w : 0 <= len -> form_fits form len ->
  incoming s w = form_ext form len ++ rest ->
  exists w', recv_length s (form_code form len) w = (Ok (Some len), w') /\ untouched s w w'
    /\ incoming s w' = rest.
Proof.
  intros Hnn Hf Hin. unfold recv_length. destruct form; cbn [form_code form_fits form_ext] in *.
  - rewrite !(proj2 (Z.eqb_neq _ _)) by lia. by exists w.
  - change (126 =? 126) with true. cbn iota.
    destruct (recvAll_ok s _ _ w Hin) as (w' & E & Hu & Hin'); [rewrite length_be_bytes; lia|].
    rewrite length_be_bytes in E. change (Z.of_nat 2) with 2 in E. rewrite (ibind_run _ _ _ _ _ E).
    exists w'. split; [|done]. cbn [be_bytes]. rewrite rd_0, rd_1, !ibind_lift, be_two by (rewrite land_255; apply u8_range).
    change [_; _] with (be_bytes 2 len). rewrite be_value_be_bytes.
    change (8 * Z.of_nat 2) with 16. by rewrite Z.mod_small by lia.
  - change (127 =? 126) with false. change (127 =? 127) with true. cbn iota.
    destruct (recvAll_ok s _ _ w Hin) as (w' & E & Hu & Hin'); [rewrite length_be_bytes; lia|].
    rewrite length_be_bytes in E. change (Z.of_nat 8) with 8 in E. rewrite (ibind_run _ _ _ _ _ E).
    exists w'. split; [|done].
    assert (be_value (be_bytes 8 len) = len) as Hv.
    { rewrite be_value_be_bytes. apply Z.mod_small. change (8 * Z.of_nat 8) with 64. lia. }
    pose proof (length_be_bytes 8 len) as Hl. pose proof (be_bytes_bytes 8 len) as Hb.
    destruct (be_bytes 8 len) as [|e0 ext]; [done|]. pose proof Hb as [He0 Hext]%Forall_cons.
    rewrite rd_0, ibind_lift, (be_top_bit e0 ext), Hv, (proj2 (Z.ltb_lt _ _)) by (done || (cbn in Hl; lia)). cbn [negb].
    by rewrite be_fold_64, Hv by (done || lia).
Qed.

(** The size test of the receiver, in the ranges where it is applied. *)
Lemma size_check fin op len size : 0 <= size <= MAX_MESSAGE_SIZE -> 0 <= len ->
  ((0x08 <=? op) && (negb fin || (125 <? len))) || (MAX_MESSAGE_SIZE <? len)
    || (MAX_MESSAGE_SIZE <? u64 (size + len)) = false <->
  (8 <= op -> fin = true /\ len <= 125) /\ size + len <= MAX_MESSAGE_SIZE.
Proof.
  intros Hs Hl. unfold MAX_MESSAGE_SIZE in *.
  rewrite !orb_false_iff, andb_false_iff, orb_false_iff, negb_false_iff, Z.leb_gt, !Z.ltb_ge.
  split.
  - intros [[Hc H1] H2]. rewrite u64_small in H2 by solve_width. split; [|lia]. intros. destruct Hc; [lia|done].
  - intros [Hc Hm]. rewrite u64_small by solve_width. split_and!; [|lia|lia].
    destruct (Z.lt_ge_cases op 8); [by left|right; auto].
Qed.

Lemma recv_payload s len w : 0 <= len < 2 ^ 31 ->
  exists r w', (if 0 <? len then recvAll s len else iret (Some [])) w = (Ok r, w') /\ untouched s w w' /\
    match r with
    | None => zlen (incoming s w) < len
    | Some p => zlen p = len /\ incoming s w = p ++ incoming s w'
    end.
Proof.
  intros Hl. destruct (Z.ltb_spec 0 len).
  - destruct (recvAll_case s len w) as [(p & w' & E & Hu & Hin & Hp)|(w' & E & Hu & Hsh)]; [lia| |].
    + by exists (Some p), w'.
    + by exists None, w'.
  - exists (Some []), w. split_and!; [done|done|cbn; lia|done].
Qed.

Lemma recv_body_total s masked len w : 0 <= len < 2 ^ 31 ->
  exists r w', recv_body s masked len w = (Ok r, w') /\ untouched s w w' /\
    match r with
    | None => zlen (incoming s w) < len + (if masked then 4 else 0)
    | Some p => exists key, has_key key = masked /\ key_ok key
        /\ zlen p = len /\ is_bytes p /\ incoming s w = body_wire key p ++ incoming s w'
    end.
Proof.
  intros Hl. unfold recv_body. destruct masked.
  - destruct (recvAll_case s 4 w) as [(key & w1 & E1 & Hu1 & Hin1 & Hk)|(w1 & E1 & Hu1 & Hs1)]; [lia| |];
      rewrite (ibind_run _ _ _ _ _ E1); [|exists None, w1; split_and!; [done|done|lia]].
    destruct (recv_payload s len w1 Hl) as (r & w2 & E2 & Hu2 & HR). rewrite (ibind_run _ _ _ _ _ E2).
    destruct (incoming_app_bytes _ _ _ _ Hin1) as [Hkb _].
    destruct r as [p|]; [|exists None, w2; split_and!; [done|by etrans|rewrite Hin1, length_app; lia]].
    destruct HR as [Hp Hin2]. destruct (incoming_app_bytes _ _ _ _ Hin2) as [Hpb _].
    exists (Some (apply_mask key p)), w2. split_and!; [done|by etrans|]. exists (Some key).
    rewrite length_apply_mask. split_and!; [done|split; [lia|done]|done|auto with hws|].
    cbn [body_wire]. rewrite apply_mask_twice by done. by rewrite Hin1, Hin2, app_assoc.
  - rewrite ibind_ret. destruct (recv_payload s len w Hl) as (r & w2 & E2 & Hu2 & HR).
    rewrite (ibind_run _ _ _ _ _ E2).
    destruct r as [p|]; [|exists None, w2; split_and!; [done|done|lia]].
    destruct HR as [Hp Hin2]. destruct (incoming_app_bytes _ _ _ _ Hin2) as [Hpb _].
    exists (Some p), w2. split_and!; [done|done|]. exists None. by split_and!.
Qed.

Lemma recv_body_ok s key p rest w : zlen p < 2 ^ 31 -> key_ok key -> is_bytes p ->
  incoming s w = body_wire key p ++ rest ->
  exists w', recv_body s (has_key key) (zlen p) w = (Ok (Some p), w') /\ untouched s w w' /\ incoming s w' = rest.
Proof.
  intros Hl Hk Hp Hin. destruct (recv_body_total s (has_key key) (zlen p) w) as (r & w' & E & Hu & HR); [lia|].
  exists w'. destruct r as [p'|]; cycle 1.
  { rewrite Hin, length_app in HR. destruct key as [key|]; cbn [has_key body_wire key_ok] in *; [|lia].
    rewrite length_app, length_apply_mask in HR. lia. }
  destruct HR as (key' & Hhk & Hk' & Hpl & Hp' & Hin'). rewrite Hin in Hin'.
  destruct key as [key|], key' as [key'|]; try done; cbn [body_wire key_ok has_key] in *.
  - destruct Hk as [Hk Hkb], Hk' as [Hk' Hkb']. rewrite <- !app_assoc in Hin'.
    apply app_inj_1 in Hin' as [<- Hin']; [|lia].
    apply app_inj_1 in Hin' as [Hm ->]; [|rewrite !length_apply_mask; lia].
    apply (f_equal (apply_mask key)) in Hm. rewrite !apply_mask_twice in Hm by done. by subst p'.
  - apply app_inj_1 in Hin' as [<- ->]; [done|lia].
Qed.

Lemma form_code_range form len : 0 <= len -> form_fits form len -> 0 <= form_code form len < 128.
Proof. destruct form; cbn; lia. Qed.

(** A frame at the front of the stream is read whole. *)
Lemma recv_one_ok s em size f rest w : 0 <= size <= MAX_MESSAGE_SIZE -> acceptable em size f ->
  incoming s w = wire f ++ rest ->
  exists w', recv_one s em size w = (Ok (Some (w_fin f, w_op f, w_body f)), w') /\ untouched s w w'
    /\ incoming s w' = rest.
Proof.
  intros Hs [[Hop Hform Hkey Hb] Hm Hctl Hsz] Hin. unfold wire in Hin. rewrite <- !app_assoc in Hin.
  unfold recv_one.
  destruct (recvAll_ok s _ _ w Hin) as (w1 & E1 & Hu1 & Hin1); [cbn; lia|].
  change (zlen [_; _]) with 2 in E1. rewrite (ibind_run _ _ _ _ _ E1), rd_0, rd_1, !ibind_lift.
  pose proof (form_code_range (w_form f) (zlen (w_body f)) (Nat2Z.is_nonneg _) Hform) as Hc.
  destruct (first_byte (w_fin f) (w_op f) Hop) as (-> & -> & ->). cbn [negb].
  destruct (second_byte (is_masked f) _ Hc) as (-> & ->). rewrite Hm, eqb_reflx. cbn [negb].
  destruct (recv_length_ok s _ _ _ w1 (Nat2Z.is_nonneg _) Hform Hin1) as (w2 & E2 & Hu2 & Hin2).
  rewrite (ibind_run _ _ _ _ _ E2). rewrite (proj2 (size_check _ _ _ _ Hs (Nat2Z.is_nonneg _))) by done.
  destruct (recv_body_ok s (w_key f) (w_body f) rest w2) as (w3 & E3 & Hu3 & Hin3);
    [unfold MAX_MESSAGE_SIZE in *; lia|done|done|done|].
  rewrite Hm in E3. rewrite (ibind_run _ _ _ _ _ E3). exists w3. split_and!; [done| |done].
  do 2 (etrans; [done|]). done.
Qed.

(** Every frame that is read was acceptable and at the front of the stream. *)
Lemma recv_one_total s em size w : 0 <= size <= MAX_MESSAGE_SIZE ->
  exists r w', recv_one s em size w = (Ok r, w') /\ untouched s w w' /\
    match r with
    | None => True
    | Some (fin, op, p) => exists f, acceptable em size f /\ w_fin f = fin /\ w_op f = op /\ w_body f = p
        /\ incoming s w = wire f ++ incoming s w'
    end.
Proof.
  intros Hs. unfold recv_one.
  destruct (recvAll_case s 2 w) as [(h & w1 & E1 & Hu1 & Hin1 & Hh)|(w1 & E1 & Hu1 & _)]; [lia| |];
    rewrite (ibind_run _ _ _ _ _ E1); [|by exists None, w1].
  destruct h as [|h0 [|h1 []]]; try (cbn in Hh; lia).
  destruct (incoming_app_bytes _ _ _ _ Hin1) as [[Hh0 [Hh1 _]%Forall_cons]%Forall_cons _].
  rewrite rd_0, rd_1, !ibind_lift.
  destruct (h0 .& 0x70 =? 0) eqn:E0; cbn [negb]; [|by exists None, w1].
  destruct (first_byte_inv h0 Hh0 E0) as [Eh0 Hop]. destruct (second_byte_inv h1 Hh1) as [Eh1 Hc].
  set (fin := negb (h0 .& 0x80 =? 0)) in *. set (m := negb (h1 .& 0x80 =? 0)) in *.
  destruct (eqb m em) eqn:Em; cbn [negb]; [apply eqb_prop in Em|by exists None, w1].
  destruct (recv_length_total s _ w1 Hc) as (l & w2 & E2 & Hu2 & HL). rewrite (ibind_run _ _ _ _ _ E2).
  destruct l as [len|]; [|exists None, w2; split_and!; [done|by etrans|done]].
  destruct HL as (form & Hcode & Hfits & Hlen & Hin2).
  match goal with |- context [if ?c then _ else _] => destruct c eqn:Ec end.
  { exists None, w2. split_and!; [done|by etrans|done]. }
  apply size_check in Ec as [Hctl Hsz]; [|done|done].
  destruct (recv_body_total s m len w2) as (r & w3 & E3 & Hu3 & HR); [unfold MAX_MESSAGE_SIZE in *; lia|].
  rewrite (ibind_run _ _ _ _ _ E3). assert (untouched s w w3) as Hu by (do 2 (etrans; [done|]); done).
  destruct r as [p|]; [|by exists None, w3].
  destruct HR as (key & Hhk & Hk & Hpl & Hpb & Hin3). exists (Some (fin, h0 .& 0x0F, p)), w3.
  split_and!; [done|done|].
  exists {| w_fin := fin; w_op := h0 .& 0x0F; w_form := form; w_key := key; w_body := p |}.
  split_and!; [|done|done|done|].
  - split; [split; cbn; [done|by rewrite Hpl|done|done]|cbn; congruence|cbn; rewrite Hpl; done|cbn; rewrite Hpl; done].
  - unfold wire. cbn [w_fin w_op w_form w_key w_body]. rewrite Hhk, Hpl, Hcode, <- Eh0, <- Eh1.
    rewrite <- !app_assoc, <- Hin3, <- Hin2. done.
Qed.

(** ** Sending *)

(** A call that tried to send the frame [f]: true when the connection accepted
    all of it. *)
Definition tried (s : Z) (f : wsframe) (ok : bool) (w w' : W) : Prop :=
  ok = (zlen (wire f) <=? room s w) /\ sent s (take (Z.to_nat (room s w)) (wire f)) w w'.

Lemma tried_ok s f w w' : tried s f true w w' -> sent s (wire f) w w'.
Proof.
  intros [E Hs]. symmetry in E. apply Z.leb_le in E. rewrite take_ge in Hs by lia. done.
Qed.

Lemma sent_after s bs w w1 w2 :
  untouched s w w1 -> incoming s w1 = incoming s w -> sent s bs w1 w2 -> sent s bs w w2.
Proof.
  intros (Ho & Hr & Hop) Hin (Ho2 & Hr2 & Hop2 & Hp). split_and!; congruence.
Qed.

Lemma random_bytes_spec s n w :
  exists bs w', random_bytes n w = (Ok bs, w') /\ length bs = n /\ is_bytes bs
    /\ untouched s w w' /\ incoming s w' = incoming s w.
Proof.
  revert w. induction n as [|n IH]; intros w; [by exists [], w|]. cbn [random_bytes].
  unfold random at 1. unfold ibind at 1. pose proof (random_law s w) as L.
  destruct (sys_random w) as [v w1]. destruct L as (Hu & Hin & Hv).
  destruct (IH w1) as (bs & w2 & E & Hl & Hb & Hu2 & Hin2). rewrite (ibind_run _ _ _ _ _ E).
  exists (u8 v :: bs), w2. split_and!; [done|cbn; lia|constructor; [apply u8_range|done]|by etrans|congruence].
Qed.

Lemma mt_bytes_spec s n w :
  exists bs w', mt_bytes n w = (Ok bs, w') /\ length bs = n /\ is_bytes bs
    /\ untouched s w w' /\ incoming s w' = incoming s w.
Proof.
  unfold mt_bytes, random, ibind, iret. pose proof (random_law s w) as L.
  destruct (sys_random w) as [seed w']. destruct L as (Hu & Hin & _). eexists _, w'. split; [reflexivity|].
  generalize (mt_seed mt19937 seed) as g. induction n as [|n IH]; intros g; [by split_and!|]. cbn [dis_bytes].
  destruct (std_dis g) as [v g']. destruct (IH g') as (Hl & Hb & _).
  split_and!; [cbn; lia|constructor; [apply u8_range|done]|done|done].
Qed.

Lemma push_length_spec (m : bool) len : 0 <= len < 2 ^ 63 ->
  push_length (if m then 0x80 else 0) len =
    ((if m then 128 else 0) + form_code (shortest len) len) :: form_ext (shortest len) len.
Proof.
  intros Hl. unfold push_length, shortest.
  assert ((len <=? 65535) = (len <? 2 ^ 16)) as ->.
  { apply eq_bool_prop_intro. rewrite !Is_true_true, Z.leb_le, Z.ltb_lt. lia. }
  assert (forall c, 0 <= c < 128 -> (if m then 0x80 else 0) .| c = (if m then 128 else 0) + c) as Hor.
  { intros c Hc. assert (is_u8 c) as Hb by solve_width. revert Hc. destruct m; by_bytes c. }
  destruct (Z.ltb_spec len 126); [|destruct (Z.ltb_spec len (2 ^ 16))]; cbn [form_code form_ext].
  - rewrite Hor by lia. rewrite u8_small by (destruct m; solve_width). done.
  - rewrite Hor by lia. cbn [be_bytes]. rewrite !land_255, !(u8_small (u8 _)) by apply u8_range.
    by rewrite Z.shiftr_0_r.
  - rewrite Hor by lia. rewrite u64_small by solve_width. cbn [be_bytes map].
    rewrite !land_255, !(u8_small (u8 _)) by apply u8_range. done.
Qed.

(** The frame of [wsSendBinary] and [wsSendBinaryMasked]. *)
Definition data_frame (key : option bytes) (data : bytes) : wsframe :=
  {| w_fin := true; w_op := 2; w_form := shortest (zlen data); w_key := key; w_body := data |}.

Lemma shortest_fits len : len < 2 ^ 63 -> form_fits (shortest len) len.
Proof. intros H2. unfold shortest. repeat case_match; cbn; lia. Qed.

Lemma data_frame_ok key data : key_ok key -> is_bytes data -> zlen data < 2 ^ 63 -> frame_ok (data_frame key data).
Proof. intros Hk Hd Hl. split; cbn; [lia|by apply shortest_fits|done|done]. Qed.

Lemma length_wire f : key_ok (w_key f) ->
  zlen (wire f) = 2 + zlen (form_ext (w_form f) (zlen (w_body f)))
    + (if is_masked f then 4 else 0) + zlen (w_body f).
Proof.
  intros Hk. unfold wire. rewrite !length_app. cbn [length].
  destruct (w_key f) as [key|]; cbn [body_wire has_key key_ok] in *; [|lia].
  destruct Hk as [Hk _]. rewrite length_app, length_apply_mask. lia.
Qed.

Lemma length_form_ext form len : 0 <= zlen (form_ext form len) <= 8.
Proof. destruct form; cbn [form_ext]; rewrite ?length_be_bytes; cbn; lia. Qed.

Lemma binary_frame_run data (w : W) : zlen data < 2 ^ 63 -> binary_frame data w = (Ok (wire (data_frame None data)), w).
Proof. intros Hl. unfold binary_frame. by rewrite (push_length_spec false) by lia. Qed.

Lemma masked_frame_run s data (w : W) : zlen data < 2 ^ 63 ->
  exists key w', masked_frame data w = (Ok (wire (data_frame (Some key) data)), w') /\ key_ok (Some key)
    /\ untouched s w w' /\ incoming s w' = incoming s w.
Proof.
  intros Hl. unfold masked_frame. destruct (mt_bytes_spec s 4 w) as (key & w1 & E1 & Hk & Hkb & Hu & Hin).
  rewrite (ibind_run _ _ _ _ _ E1), (push_length_spec true) by lia. by exists key, w1.
Qed.

Lemma length_data_frame key data : key_ok key -> zlen (wire (data_frame key data)) <= zlen data + 14.
Proof.
  intros Hk. rewrite length_wire by done. cbn [w_body w_form w_key data_frame].
  pose proof (length_form_ext (shortest (zlen data)) (zlen data)). destruct (has_key key); lia.
Qed.

Lemma wsSendBinary_tried s data w : zlen data < 2 ^ 31 - 16 ->
  exists ok w', wsSendBinary s data w = (Ok ok, w') /\ tried s (data_frame None data) ok w w'.
Proof.
  intros Hl. unfold wsSendBinary. rewrite (ibind_run _ _ _ _ _ (binary_frame_run data w ltac:(lia))).
  pose proof (length_data_frame None data I).
  destruct (sendAll_spec s (wire (data_frame None data)) w) as (w' & E & Hs); [lia|]. rewrite E. by eexists _, w'.
Qed.

Lemma wsSendBinaryMasked_tried s data w : zlen data < 2 ^ 31 - 16 ->
  exists key ok w', wsSendBinaryMasked s data w = (Ok ok, w') /\ key_ok (Some key)
    /\ tried s (data_frame (Some key) data) ok w w'.
Proof.
  intros Hl. unfold wsSendBinaryMasked. destruct (masked_frame_run s data w) as (key & w1 & E1 & Hk & Hu & Hin); [lia|].
  rewrite (ibind_run _ _ _ _ _ E1). pose proof (length_data_frame (Some key) data Hk).
  destruct (sendAll_spec s (wire (data_frame (Some key) data)) w1) as (w' & E & Hs); [lia|].
  exists key, (zlen (wire (data_frame (Some key) data)) <=? room s w1), w'. rewrite E.
  split_and!; [done|done|]. pose proof Hu as (_ & Hr & _). rewrite Hr in *. split; [done|]. by eapply sent_after.
Qed.

(** The two leading bytes of a control frame. *)
Lemma control_bytes op len (m : bool) : 0 <= op < 16 -> 0 <= len < 126 ->
  [u8 (0x80 .| (op .& 0x0F)); u8 ((if m then 0x80 else 0) .| len)] = [128 + op; (if m then 128 else 0) + len].
Proof.
  intros Ho Hl. f_equal.
  - assert (is_u8 op) as Hb by solve_width. revert Ho. by_bytes op.
  - f_equal. assert (is_u8 len) as Hb by solve_width. revert Hl. destruct m; by_bytes len.
Qed.

Lemma control_out_run s op p m (w : W) : 0 <= op < 16 -> zlen p <= 125 ->
  exists key w', control_out op p m w = (Ok (Some (wire (control_frame op key p))), w') /\ has_key key = m
    /\ key_ok key /\ untouched s w w' /\ incoming s w' = incoming s w.
Proof.
  intros Ho Hp. unfold control_out. rewrite (proj2 (Z.ltb_ge _ _)), control_bytes by lia. destruct m.
  - destruct (random_bytes_spec s 4 w) as (key & w1 & E1 & Hk & Hkb & Hu & Hin).
    rewrite (ibind_run _ _ _ _ _ E1). by exists (Some key), w1.
  - by exists None, w.
Qed.

Lemma length_control_wire op key p : key_ok key -> zlen (wire (control_frame op key p)) <= zlen p + 6.
Proof.
  intros Hk. rewrite length_wire by done. cbn [w_body w_form w_key control_frame form_ext length].
  destruct (has_key key); lia.
Qed.

Lemma wsSendControl_tried s op p m w : 0 <= op < 16 -> zlen p <= 125 ->
  exists key ok w', wsSendControl s op p m w = (Ok ok, w') /\ has_key key = m /\ key_ok key
    /\ tried s (control_frame op key p) ok w w'.
Proof.
  intros Ho Hp. unfold wsSendControl. destruct (control_out_run s op p m w Ho Hp) as (key & w1 & E1 & Hm & Hk & Hu & Hin).
  rewrite (ibind_run _ _ _ _ _ E1). pose proof (length_control_wire op key p Hk).
  destruct (sendAll_spec s (wire (control_frame op key p)) w1) as (w' & E & Hs); [lia|].
  eexists key, _, w'. rewrite E. split_and!; [done|done|done|].
  pose proof Hu as (_ & Hr & _). rewrite Hr in *. split; [done|]. by eapply sent_after.
Qed.
End receive.
