(* ===== verification/WsReceive.v ===== *)
(** * Receiving WebSocket messages ([wsRecvFrame] of common/ws.hpp)

    The message loop over the frames of [WsFrame]: what a run of [wsRecvFrame]
    reads, answers and returns, in both directions, and when it terminates. *)

From S2P Require Import Prelude Socket WsFrame.

Section receive.
Context {W : Type} `{SysLaws W}.

(** ** Receiving a message *)

(** The output [out] of a stretch of the run. *)
Definition emitted (s : Z) (out : bytes) (w w' : W) : Prop :=
  outgoing s w' = outgoing s w ++ out /\ room s w' = room s w - zlen out /\ opened w' = opened w.

Lemma emitted_nil s w w' : untouched s w w' -> emitted s [] w w'.
Proof. intros (Ho & Hr & Hop). split_and!; [by rewrite app_nil_r|cbn; lia|done]. Qed.

Lemma emitted_app s a b w1 w2 w3 : emitted s a w1 w2 -> emitted s b w2 w3 -> emitted s (a ++ b) w1 w3.
Proof.
  intros (E1 & R1 & O1) (E2 & R2 & O2).
  split_and!; [by rewrite E2, E1, app_assoc|rewrite length_app; lia|congruence].
Qed.

Lemma sent_emitted s bs w w' : sent s bs w w' -> emitted s bs w w' /\ incoming s w `prefix_of` incoming s w'.
Proof. by intros (? & ? & ? & ?). Qed.

(** Reading one frame: exactly its bytes are taken from the input, and nothing
    else happens to the connection. *)
Definition took (s : Z) (f : wsframe) (w w' : W) : Prop :=
  untouched s w w' /\ incoming s w = wire f ++ incoming s w'.

(** Reading [fs] one after the other: every frame is taken from the input there
    is at that moment, and a ping is answered, by the run of [wsSendControl]
    that leads to the next frame, before anything else is read; [out] are the
    answers. *)
Inductive consumed (s : Z) (em : bool) : list wsframe -> bytes -> W -> W -> Prop :=
  | consumed_nil w : consumed s em [] [] w w
  | consumed_silent f fs out w w1 w2 : w_op f <> 9 -> took s f w w1 ->
      consumed s em fs out w1 w2 -> consumed s em (f :: fs) out w w2
  | consumed_ping f fs key out w w1 w2 w3 : w_op f = 9 -> took s f w w1 ->
      wsSendControl s 10 (w_body f) (negb em) w1 = (Ok true, w2) ->
      sent s (wire (control_frame 10 key (w_body f))) w1 w2 ->
      consumed s em fs out w2 w3 ->
      consumed s em (f :: fs) (wire (control_frame 10 key (w_body f)) ++ out) w w3.

Lemma consumed_emitted s em fs out w w' : consumed s em fs out w w' -> emitted s out w w'.
Proof.
  induction 1 as [w|f fs out w w1 w2 _ [Hu _] _ IH|f fs key out w w1 w2 w3 _ [Hu _] _ Hs _ IH].
  - by apply emitted_nil.
  - exact (emitted_app s [] out w w1 w2 (emitted_nil _ _ _ Hu) IH).
  - apply sent_emitted in Hs as [He _].
    exact (emitted_app s [] _ w w1 w3 (emitted_nil _ _ _ Hu) (emitted_app _ _ _ _ _ _ He IH)).
Qed.

(** A reply behind a frame that was read. *)
Lemma emitted_reply s out w w1 w2 : untouched s w w1 -> sent s out w1 w2 -> emitted s out w w2.
Proof.
  intros Hu Hs. apply sent_emitted in Hs as [He _].
  exact (emitted_app s [] out w w1 w2 (emitted_nil _ _ _ Hu) He).
Qed.

Lemma replies_nil op m : replies op m [] [].
Proof. by exists []. Qed.

Lemma replies_cons op m p key ps out : 0 <= op < 16 -> key_ok key -> has_key key = m -> zlen p <= 125 -> is_bytes p ->
  replies op m ps out -> replies op m (p :: ps) (wire (control_frame op key p) ++ out).
Proof.
  intros Ho Hk Hm Hp Hb (fs & -> & HF). exists (control_frame op key p :: fs). split; [done|].
  constructor; [|done]. split; [split; cbn; (done || lia)|done].
Qed.
#[local] Hint Resolve replies_nil : core.

(** What the last round of [wsRecvFrame] did. *)
Inductive finish (s : Z) (em frag : bool) (acc : bytes) (r : WSFrame) (w w' : W) : Prop :=
  | finish_message f :
      completes em frag acc f (payload r) -> took s f w w' ->
      isValid r = true -> isClose r = false -> finish s em frag acc r w w'
  | finish_close f key ok w1 :
      acceptable em (zlen acc) f -> w_op f = 8 -> took s f w w1 -> key_ok key -> has_key key = negb em ->
      wsSendControl s 8 (w_body f) (negb em) w1 = (Ok ok, w') ->
      tried s (control_frame 8 key (w_body f)) ok w1 w' ->
      r = {| opcode := Some 8; payload := w_body f; isClose := true; isValid := true |} ->
      finish s em frag acc r w w'
  | finish_invalid : isValid r = false -> isClose r = false -> opened w' = opened w ->
      finish s em frag acc r w w'.

Lemma acceptable_size em acc f : acceptable em (zlen acc) f -> zlen (acc ++ w_body f) <= MAX_MESSAGE_SIZE.
Proof. intros [_ _ _ Hs]. rewrite length_app. lia. Qed.

Lemma acceptable_control em size f : acceptable em size f -> 8 <= w_op f ->
  zlen (w_body f) <= 125 /\ is_bytes (w_body f).
Proof. intros [[_ _ _ Hb] _ Hc _] Hop. by destruct (Hc Hop). Qed.

(** A run from [w] to [w'] that reads frames [collects] allows, answers their
    pings, and then ends in one of the three ways. *)
Definition explained (s : Z) (em frag : bool) (acc : bytes) (r : WSFrame) (w w' : W) : Prop :=
  exists fs frag' acc' pings out w1, collects em frag acc fs frag' acc' pings
    /\ consumed s em fs out w w1 /\ replies 10 (negb em) pings out /\ finish s em frag' acc' r w1 w'.

Lemma explained_now s em frag acc r w w' : finish s em frag acc r w w' -> explained s em frag acc r w w'.
Proof.
  intros Hfin. exists [], frag, acc, [], [], w. split; [constructor|]. split; [constructor|done].
Qed.

Lemma explained_invalid s em frag acc r w w' :
  isValid r = false -> isClose r = false -> opened w' = opened w -> explained s em frag acc r w w'.
Proof. intros. by apply explained_now, finish_invalid. Qed.

(** A round that read [f] without an answer. *)
Lemma explained_step s em frag acc frag1 acc1 f r w w1 w' :
  w_op f <> 9 -> took s f w w1 ->
  (forall fs frag' acc' pings, collects em frag1 acc1 fs frag' acc' pings ->
     collects em frag acc (f :: fs) frag' acc' pings) ->
  explained s em frag1 acc1 r w1 w' -> explained s em frag acc r w w'.
Proof.
  intros H9 Ht Hstep (fs & frag' & acc' & pings & out & w2 & HC & Hcon & Hrep & Hfin).
  exists (f :: fs), frag', acc', pings, out, w2. split_and!; [by apply Hstep| |done|done].
  by eapply consumed_silent.
Qed.

(** A round that answered a ping. *)
Lemma explained_ping s em frag acc f key r w w1 w2 w' :
  acceptable em (zlen acc) f -> w_op f = 9 -> key_ok key -> has_key key = negb em -> took s f w w1 ->
  wsSendControl s 10 (w_body f) (negb em) w1 = (Ok true, w2) ->
  sent s (wire (control_frame 10 key (w_body f))) w1 w2 ->
  explained s em frag acc r w2 w' -> explained s em frag acc r w w'.
Proof.
  intros Hacc H9 Hk Hhk Ht Es Hs (fs & frag' & acc' & pings & out & w3 & HC & Hcon & Hrep & Hfin).
  destruct (acceptable_control _ _ _ Hacc) as [Hp Hb]; [lia|].
  exists (f :: fs), frag', acc', (w_body f :: pings), (wire (control_frame 10 key (w_body f)) ++ out), w3.
  split_and!; [by apply c_ping| |by apply replies_cons|done].
  by eapply consumed_ping.
Qed.

(** Every run that returns is explained. *)
Lemma recv_frames_sound fuel s em msg frag w r w' :
  zlen (payload msg) <= MAX_MESSAGE_SIZE -> isValid msg = false -> isClose msg = false ->
  recv_frames fuel s em msg frag w = (Ok r, w') -> explained s em frag (payload msg) r w w'.
Proof.
  revert msg frag w. induction fuel as [|fuel IH]; intros msg frag w Hsz Hv Hc Hrun; [done|].
  cbn [recv_frames] in Hrun.
  destruct (recv_one_total s em (zlen (payload msg)) w) as (o & w1 & E & Hu & HO); [lia|].
  rewrite (ibind_run _ _ _ _ _ E) in Hrun.
  pose proof Hu as (_ & _ & Hop).
  destruct o as [[[fin op] p]|]; [|injection Hrun as <- <-; by apply explained_invalid].
  destruct HO as (f & Hacc & <- & <- & <- & Hin). pose proof (conj Hu Hin : took s f w w1) as Hgot.
  destruct (Z.eqb_spec (w_op f) 8) as [E8|N8].
  { destruct (acceptable_control _ _ _ Hacc) as [Hp Hb]; [lia|].
    destruct (wsSendControl_tried s 8 (w_body f) (negb em) w1) as (key & ok & w2 & Es & Hk & Hko & Ht); [lia|done|].
    rewrite (ibind_run _ _ _ _ _ Es) in Hrun. injection Hrun as <- <-. rewrite E8.
    apply explained_now. by eapply finish_close. }
  destruct (Z.eqb_spec (w_op f) 9) as [E9|N9].
  { destruct (acceptable_control _ _ _ Hacc) as [Hp Hb]; [lia|].
    destruct (wsSendControl_tried s 10 (w_body f) (negb em) w1) as (key & ok & w2 & Es & Hk & Hko & Ht); [lia|done|].
    rewrite (ibind_run _ _ _ _ _ Es) in Hrun.
    destruct ok.
    - apply tried_ok in Ht. eapply explained_ping; eauto.
    - destruct Ht as (_ & _ & _ & Hop2 & _). injection Hrun as <- <-. apply explained_invalid; congruence. }
  destruct (Z.eqb_spec (w_op f) 10) as [E10|N10].
  { eapply explained_step; eauto using c_pong. }
  destruct (Z.eqb_spec (w_op f) 2) as [E2|N2]; cbn [andb] in Hrun;
    [destruct frag; cbn [negb] in Hrun|destruct (Z.eqb_spec (w_op f) 0) as [E0|N0]; cbn [andb] in Hrun; [destruct frag|]].
  all: try (rewrite ?E2 in Hrun; injection Hrun as <- <-; by apply explained_invalid).
  all: destruct (w_fin f) eqn:Ef;
    [injection Hrun as <- <-; apply explained_now, (finish_message _ _ _ _ _ _ _ f); [by split|done..]|].
  - eapply explained_step; eauto using c_first. apply (IH _ _ _) in Hrun; [done| |done|done].
    ws_fields. pose proof (acc_size _ _ _ Hacc). lia.
  - eapply explained_step; eauto using c_next. apply (IH _ _ _) in Hrun; [done| |done|done].
    ws_fields. by apply (acceptable_size em).
Qed.

Lemma collects_bytes em frag acc fs frag' acc' pings : collects em frag acc fs frag' acc' pings ->
  is_bytes acc -> is_bytes acc'.
Proof.
  induction 1 as [|? ? ? ? ? ? ? ? ? ? IH|? ? ? ? ? ? ? ? ? ? IH|? f ? ? ? ? Hacc ? ? ? IH|? f ? ? ? ? Hacc ? ? ? IH];
    intros Hb; try done; try (by apply IH).
  - apply IH, Hacc.
  - apply IH, Forall_app; split; [done|apply Hacc].
Qed.

(** Receiving opens and closes nothing, and does not throw. *)
Lemma wsRecvFrame_opened fuel s em w r w' : wsRecvFrame fuel s em w = (Ok r, w') -> opened w' = opened w.
Proof.
  intros Hrun. apply recv_frames_sound in Hrun; [|cbn; unfold MAX_MESSAGE_SIZE; lia|done|done].
  destruct Hrun as (fs & frag & acc & pings & out & w1 & _ & Hcon & _ & Hfin).
  apply consumed_emitted in Hcon as (_ & _ & <-).
  destruct Hfin as [f _ [(_ & _ & ->) _]|f key ok w2 _ _ [(_ & _ & <-) _] _ _ _ (_ & _ & _ & -> & _) _|]; done.
Qed.

Lemma recv_frames_no_throw fuel s em msg frag w e w' : zlen (payload msg) <= MAX_MESSAGE_SIZE ->
  recv_frames fuel s em msg frag w <> (Throw e, w').
Proof.
  revert msg frag w. induction fuel as [|fuel IH]; intros msg frag w Hsz Hrun; [done|]. cbn [recv_frames] in Hrun.
  destruct (recv_one_total s em (zlen (payload msg)) w) as (o & w1 & E & _ & HO); [lia|].
  rewrite (ibind_run _ _ _ _ _ E) in Hrun. destruct o as [[[fin op] p]|]; [|done].
  destruct HO as (f & Hacc & <- & <- & <- & _).
  pose proof (acc_size _ _ _ Hacc). pose proof (acceptable_size _ _ _ Hacc).
  destruct (Z.eqb_spec (w_op f) 8); [|destruct (Z.eqb_spec (w_op f) 9)].
  - destruct (acceptable_control _ _ _ Hacc) as [Hp _]; [lia|].
    destruct (wsSendControl_tried s 8 (w_body f) (negb em) w1) as (key & ok & w2 & Es & _); [lia|done|].
    by rewrite (ibind_run _ _ _ _ _ Es) in Hrun.
  - destruct (acceptable_control _ _ _ Hacc) as [Hp _]; [lia|].
    destruct (wsSendControl_tried s 10 (w_body f) (negb em) w1) as (key & ok & w2 & Es & _); [lia|done|].
    rewrite (ibind_run _ _ _ _ _ Es) in Hrun. destruct ok; [by eapply IH|done].
  - repeat (case_match; try done; try (by eapply IH in Hrun; [done|ws_fields; (done || lia)])).
Qed.

(** The payload of a valid frame is a byte string of at most 1 MiB. *)
Lemma wsRecvFrame_payload fuel s em w r w' :
  wsRecvFrame fuel s em w = (Ok r, w') -> isValid r = true ->
  is_bytes (payload r) /\ zlen (payload r) <= MAX_MESSAGE_SIZE.
Proof.
  intros Hrun Hv. apply recv_frames_sound in Hrun; [|cbn; unfold MAX_MESSAGE_SIZE; lia|done|done].
  destruct Hrun as (fs & frag & acc & pings & out & w1 & HC & _ & _ & Hfin).
  apply collects_bytes in HC; [|constructor].
  destruct Hfin as [f (Hacc & _ & Hop)|f key ok w2 Hacc _ _ _ _ _ _ ->|]; [| |congruence].
  - pose proof (acceptable_size _ _ _ Hacc) as Hs. pose proof (acc_size _ _ _ Hacc). pose proof (ok_body _ (acc_ok _ _ _ Hacc)).
    destruct frag; destruct Hop as [_ ->]; [split; [by apply Forall_app|done]|split; [done|lia]].
  - pose proof (acc_size _ _ _ Hacc). cbn [payload]. split; [apply Hacc|lia].
Qed.

(** A frame in the hands of a receive loop. *)
Definition frame_in_hand (f : WSFrame) : Prop :=
  isValid f = true -> is_bytes (payload f) /\ zlen (payload f) <= MAX_MESSAGE_SIZE.

(** Bytes that suffice to answer the pings. *)
Definition pong_room (pings : list bytes) : Z := foldr (fun p n => zlen p + 6 + n) 0 pings.

Lemma pong_room_nonneg pings : 0 <= pong_room pings.
Proof. unfold pong_room. induction pings; cbn [foldr]; lia. Qed.

(** One round on a frame that is neither final nor a close. *)
Lemma recv_round s em msg frag f rest w : zlen (payload msg) <= MAX_MESSAGE_SIZE ->
  acceptable em (zlen (payload msg)) f -> incoming s w = wire f ++ rest ->
  (w_op f = 10 -> exists w1, (forall fuel, recv_frames (S fuel) s em msg frag w = recv_frames fuel s em msg frag w1)
     /\ emitted s [] w w1 /\ incoming s w1 = rest)
  /\ (w_op f = 9 -> zlen (w_body f) + 6 <= room s w ->
     exists w1 key, (forall fuel, recv_frames (S fuel) s em msg frag w = recv_frames fuel s em msg frag w1)
     /\ key_ok key /\ has_key key = negb em
     /\ emitted s (wire (control_frame 10 key (w_body f))) w w1 /\ rest `prefix_of` incoming s w1)
  /\ (w_op f = 2 -> w_fin f = false -> frag = false -> exists w1, (forall fuel,
     recv_frames (S fuel) s em msg frag w =
       recv_frames fuel s em (msg <| opcode := Some 2 |> <| payload := w_body f |>) true w1)
     /\ emitted s [] w w1 /\ incoming s w1 = rest)
  /\ (w_op f = 0 -> w_fin f = false -> frag = true -> exists w1, (forall fuel,
     recv_frames (S fuel) s em msg frag w =
       recv_frames fuel s em (msg <| payload := payload msg ++ w_body f |>) true w1)
     /\ emitted s [] w w1 /\ incoming s w1 = rest).
Proof.
  intros Hsz Hacc Hin. destruct (recv_one_ok s em _ f rest w (conj (Nat2Z.is_nonneg _) Hsz) Hacc Hin)
    as (w1 & E & Hu & Hin1).
  pose proof (emitted_nil _ _ _ Hu) as Hcon.
  split_and!.
  - intros Hop. exists w1. split; [|done]. intros fuel. cbn [recv_frames].
    by rewrite (ibind_run _ _ _ _ _ E), Hop.
  - intros H9 Hroom. destruct (acceptable_control _ _ _ Hacc) as [Hp Hb]; [lia|].
    destruct (wsSendControl_tried s 10 (w_body f) (negb em) w1) as (key & ok & w2 & Es & Hk & Hko & Ht); [lia|done|].
    exists w2, key. pose proof Ht as [Hok _]. pose proof (length_control_wire 10 key (w_body f) Hko).
    destruct Hu as (Ho & Hr & Hop). rewrite Hr, (proj2 (Z.leb_le _ _)) in Hok by lia. subst ok.
    apply tried_ok in Ht. split_and!; [|done|done| |].
    + intros fuel. cbn [recv_frames]. rewrite (ibind_run _ _ _ _ _ E), H9. cbn [Z.eqb Pos.eqb].
      by rewrite (ibind_run _ _ _ _ _ Es).
    + eapply emitted_reply; [by split_and!|done].
    + rewrite <- Hin1. apply Ht.
  - intros Hop Hfin ->. exists w1. split; [|done]. intros fuel. cbn [recv_frames].
    by rewrite (ibind_run _ _ _ _ _ E), Hop, Hfin.
  - intros Hop Hfin ->. exists w1. split; [|done]. intros fuel. cbn [recv_frames].
    by rewrite (ibind_run _ _ _ _ _ E), Hop, Hfin.
Qed.

Lemma emitted_room s out w w' : emitted s out w w' -> room s w' = room s w - zlen out.
Proof. by intros (_ & Hr & _). Qed.

(** [n] rounds take the receiver from [msg] to a message with [acc'], answer
    [pings], and leave [rest] at the front of the stream. *)
Definition reads (s : Z) (em : bool) (n : nat) (msg : WSFrame) (frag : bool) (w : W)
    (frag' : bool) (acc' : bytes) (pings : list bytes) (rest : bytes) : Prop :=
  exists msg' w1 out,
    (forall fuel, recv_frames (n + fuel) s em msg frag w = recv_frames fuel s em msg' frag' w1)
    /\ payload msg' = acc' /\ isValid msg' = isValid msg /\ isClose msg' = isClose msg
    /\ zlen acc' <= MAX_MESSAGE_SIZE /\ replies 10 (negb em) pings out
    /\ emitted s out w w1 /\ rest `prefix_of` incoming s w1.

Lemma reads_quiet s em n msg frag w msg1 frag1 w1 frag' acc' pings rest :
  (forall fuel, recv_frames (S fuel) s em msg frag w = recv_frames fuel s em msg1 frag1 w1) ->
  emitted s [] w w1 -> isValid msg1 = isValid msg -> isClose msg1 = isClose msg ->
  reads s em n msg1 frag1 w1 frag' acc' pings rest -> reads s em (S n) msg frag w frag' acc' pings rest.
Proof.
  intros E Hem Hv Hc (msg' & w2 & out & E2 & Hp & Hv2 & Hc2 & Hs & Hrep & He & Hpre).
  exists msg', w2, out. split_and!; try (done || congruence).
  - intros fuel. cbn [Nat.add]. by rewrite E.
  - by apply (emitted_app s [] out w w1 w2).
Qed.

(** Frames that [collects] allows are read in as many rounds. *)
Lemma recv_frames_collect s em frag acc fs frag' acc' pings :
  collects em frag acc fs frag' acc' pings -> forall msg w rest,
  payload msg = acc -> zlen acc <= MAX_MESSAGE_SIZE -> wires fs ++ rest `prefix_of` incoming s w ->
  pong_room pings <= room s w -> reads s em (length fs) msg frag w frag' acc' pings rest.
Proof.
  induction 1 as [frag acc|frag acc f fs frag' acc' pings Hacc Hop HC IH|frag acc f fs frag' acc' pings Hacc Hop HC IH
    |acc f fs frag' acc' pings Hacc Hop Hfin HC IH|acc f fs frag' acc' pings Hacc Hop Hfin HC IH];
    intros msg w rest <- Hsz Hin Hroom.
  { exists msg, w, []. split_and!; try done. by apply emitted_nil. }
  all: unfold wires in Hin; cbn [map concat] in Hin; rewrite <- app_assoc in Hin; destruct Hin as [more Hin];
    rewrite <- !app_assoc in Hin; cbn [length];
    pose proof (fun fr => recv_round s em msg fr f _ w Hsz Hacc Hin) as R;
    assert (wires fs ++ rest `prefix_of` concat (map wire fs) ++ rest ++ more) as Hpre
      by (rewrite app_assoc; by apply prefix_app_r).
  - destruct (R frag) as (_ & R9 & _). unfold pong_room in Hroom. cbn [foldr] in Hroom.
    fold (pong_room pings) in Hroom. pose proof (pong_room_nonneg pings).
    destruct (R9 Hop) as (w1 & key & E & Hk & Hhk & Hcon & Hp); [lia|].
    pose proof (length_control_wire 10 key (w_body f) Hk). pose proof (emitted_room _ _ _ _ Hcon).
    destruct (acceptable_control _ _ _ Hacc) as [Hpl Hpb]; [lia|].
    destruct (IH msg w1 rest) as (msg' & w2 & out & E2 & Hm & Hv & Hc & Hs & Hrep & He & Hpre2);
      [done|done|by etrans|lia|].
    exists msg', w2, (wire (control_frame 10 key (w_body f)) ++ out). split_and!; try done.
    + intros fuel. cbn [Nat.add]. by rewrite E.
    + by apply replies_cons.
    + eapply emitted_app; [apply Hcon|done].
  - destruct (R frag) as (R10 & _). destruct (R10 Hop) as (w1 & E & Hcon & Hp).
    pose proof (emitted_room _ _ _ _ Hcon) as Hr.
    eapply reads_quiet; [exact E|done|done|done|]. apply IH; [done|done|by rewrite Hp|cbn in Hr; lia].
  - destruct (R false) as (_ & _ & R2 & _). destruct (R2 Hop Hfin eq_refl) as (w1 & E & Hcon & Hp).
    pose proof (emitted_room _ _ _ _ Hcon) as Hr. pose proof (acc_size _ _ _ Hacc).
    eapply reads_quiet; [exact E|done|done|done|]. apply IH; [done|lia|by rewrite Hp|cbn in Hr; lia].
  - destruct (R true) as (_ & _ & _ & R0). destruct (R0 Hop Hfin eq_refl) as (w1 & E & Hcon & Hp).
    pose proof (emitted_room _ _ _ _ Hcon) as Hr. pose proof (acceptable_size _ _ _ Hacc).
    eapply reads_quiet; [exact E|done|done|done|]. apply IH; [done|done|by rewrite Hp|cbn in Hr; lia].
Qed.

Lemma replies_length op m ps out : replies op m ps out -> zlen out <= pong_room ps.
Proof.
  intros (gs & -> & HF). induction HF as [|p g ps gs ([_ _ Hk _] & _ & ->) HF IH]; [done|].
  unfold wires, pong_room in *. cbn [map concat foldr]. rewrite length_app.
  pose proof (length_control_wire op (w_key g) p Hk). lia.
Qed.

(** After the frames of [collects], the receiver has read the next frame. *)
Lemma recv_last fuel s em w fs frag acc pings f rest :
  collects em false [] fs frag acc pings -> acceptable em (zlen acc) f ->
  incoming s w = wires (fs ++ [f]) ++ rest -> pong_room pings <= room s w -> (length fs < fuel)%nat ->
  exists fuel' msg w1 w2 out, wsRecvFrame fuel s em w = recv_frames (S fuel') s em msg frag w1
    /\ recv_one s em (zlen (payload msg)) w1 = (Ok (Some (w_fin f, w_op f, w_body f)), w2)
    /\ payload msg = acc /\ isValid msg = false /\ isClose msg = false
    /\ replies 10 (negb em) pings out /\ emitted s out w w2 /\ rest `prefix_of` incoming s w2.
Proof.
  intros HC Hacc Hin Hroom Hfuel. unfold wires in Hin. rewrite map_app, concat_app in Hin.
  cbn [map concat] in Hin. rewrite app_nil_r, <- app_assoc in Hin.
  destruct (recv_frames_collect s em _ _ _ _ _ _ HC new_WSFrame w (wire f ++ rest))
    as (msg & w1 & out & E & Hm & Hv & Hc & Hsz & Hrep & He & [more Hin1]);
    [done|unfold MAX_MESSAGE_SIZE; cbn; lia|by rewrite Hin|done|].
  rewrite <- app_assoc in Hin1. subst acc.
  destruct (recv_one_ok s em _ f _ w1 (conj (Nat2Z.is_nonneg _) Hsz) Hacc Hin1) as (w2 & E2 & Hu & Hin2).
  exists (fuel - length fs - 1)%nat, msg, w1, w2, out. split_and!; try done.
  - rewrite <- E. unfold wsRecvFrame. f_equal. lia.
  - rewrite <- (app_nil_r out). eapply emitted_app; [done|by apply emitted_nil].
  - rewrite Hin2. by apply prefix_app_r.
Qed.
End receive.

(** ** Termination *)

(** Sends that make the peer silent: the world does not grow its input. *)
Definition quiet_peer (W : Type) `{Sys W} : Prop :=
  forall s bs (w : W), incoming s (snd (sys_send s bs w)) = incoming s w.

Section termination.
Context {W : Type} `{SysLaws W} (quiet : quiet_peer W).

Lemma send_loop_quiet fuel s buf len total (w : W) :
  incoming s (snd (send_loop fuel s buf len total w)) = incoming s w.
Proof.
  revert total w. induction fuel as [|fuel IH]; intros total w; cbn [send_loop]; case_match; try done.
  unfold ibind at 1. unfold ilift. destruct (rd_range _ _ _) as [bs| |]; try done.
  unfold ibind, send. pose proof (quiet s bs w) as Hq. destruct (sys_send s bs w) as [n w1]. cbn [snd] in Hq.
  case_match; [done|]. by rewrite IH.
Qed.

Lemma wsSendBinary_quiet s data (w : W) : incoming s (snd (wsSendBinary s data w)) = incoming s w.
Proof. apply send_loop_quiet. Qed.

Lemma wsSendControl_quiet s op p m (w : W) : incoming s (snd (wsSendControl s op p m w)) = incoming s w.
Proof.
  unfold wsSendControl, control_out. case_match; [done|]. destruct m.
  - destruct (random_bytes_spec s 4 w) as (key & w1 & E1 & _ & _ & _ & Hin).
    rewrite (ibind_run _ _ _ _ _ (ibind_run _ _ _ _ _ E1)). unfold sendAll. by rewrite send_loop_quiet.
  - rewrite ibind_ret. apply send_loop_quiet.
Qed.

(** With such a peer the frames read are, together, the front of the input. *)
Lemma consumed_quiet s em fs out (w w' : W) : consumed s em fs out w w' ->
  incoming s w = wires fs ++ incoming s w'.
Proof.
  induction 1 as [w|f fs out w w1 w2 _ [_ Hin] _ IH|f fs key out w w1 w2 w3 _ [_ Hin] Es _ _ IH]; [done|..];
    rewrite Hin; unfold wires in *; cbn [map concat]; rewrite <- app_assoc; f_equal; [done|].
  rewrite <- IH. pose proof (wsSendControl_quiet s 10 (w_body f) (negb em) w1) as Hq. by rewrite Es in Hq.
Qed.

(** Reading only takes bytes away. *)
Definition shrinks {A} (s : Z) (m : io W A) : Prop :=
  forall w, zlen (incoming s (snd (m w))) <= zlen (incoming s w).

Lemma shrinks_ret {A} s (r : result A) : shrinks s (ilift r).
Proof. by intros w. Qed.

Lemma shrinks_bind {A B} s (m : io W A) (f : A -> io W B) :
  shrinks s m -> (forall a, shrinks s (f a)) -> shrinks s (ibind m f).
Proof.
  intros Hm Hf w. specialize (Hm w). unfold ibind. destruct (m w) as [[a| |] w1]; cbn [snd] in *; [|done..].
  specialize (Hf a w1). lia.
Qed.

Lemma recvAll_shrinks s len : 0 <= len < 2 ^ 31 -> shrinks s (recvAll s len).
Proof.
  intros Hl w. destruct (recvAll_spec s len w Hl) as (r & w' & -> & _ & HR). cbn [snd].
  destruct (_ <=? _); destruct HR as [_ ->]; [rewrite length_drop|cbn]; lia.
Qed.

Lemma recv_one_shrinks s em size : shrinks s (recv_one s em size).
Proof.
  unfold recv_one, recv_length, recv_body.
  repeat first [apply shrinks_ret | apply (shrinks_ret s (Ok _)) | apply recvAll_shrinks; lia
    | apply shrinks_bind; [|intros ?] | case_match].
  all: apply recvAll_shrinks. all: unfold MAX_MESSAGE_SIZE in *.
  all: repeat match goal with H : _ || _ = false |- _ => apply orb_false_iff in H as [? ?] end; lia.
Qed.

(** A frame takes at least two bytes off a silent connection. *)
Lemma recv_frames_terminates fuel s em msg frag (w : W) :
  zlen (payload msg) <= MAX_MESSAGE_SIZE -> isValid msg = false -> zlen (incoming s w) < 2 * Z.of_nat fuel ->
  exists r w', recv_frames fuel s em msg frag w = (Ok r, w')
    /\ zlen (incoming s w') + (if isValid r then 2 else 0) <= zlen (incoming s w).
Proof.
  revert msg frag w. induction fuel as [|fuel IH]; intros msg frag w Hsz Hv Hf; [lia|]. cbn [recv_frames].
  destruct (recv_one_total s em (zlen (payload msg)) w) as (o & w1 & E & Hu & HO); [lia|].
  rewrite (ibind_run _ _ _ _ _ E). pose proof (recv_one_shrinks s em (zlen (payload msg)) w) as Hle.
  rewrite E in Hle. cbn [snd] in Hle.
  destruct o as [[[fin op] p]|]; [|eexists _, _; split; [done|rewrite Hv; lia]].
  destruct HO as (f & Hacc & <- & <- & <- & Hin).
  assert (zlen (incoming s w1) + 2 <= zlen (incoming s w)) as Hf1.
  { rewrite Hin, length_app, Nat2Z.inj_add, length_wire by apply Hacc.
    pose proof (length_form_ext (w_form f) (zlen (w_body f))). destruct (is_masked f); lia. }
  assert (forall msg' frag' w2, incoming s w2 = incoming s w1 -> zlen (payload msg') <= MAX_MESSAGE_SIZE ->
    isValid msg' = false -> exists r w', recv_frames fuel s em msg' frag' w2 = (Ok r, w')
    /\ zlen (incoming s w') + (if isValid r then 2 else 0) <= zlen (incoming s w)) as Hnext.
  { intros msg' frag' w2 Hw2 Hs' Hv'. destruct (IH msg' frag' w2 Hs' Hv') as (r & w' & E' & Hl'); [rewrite Hw2; lia|].
    exists r, w'. split; [done|]. rewrite Hw2 in Hl'. lia. }
  destruct (Z.eqb_spec (w_op f) 8); [|destruct (Z.eqb_spec (w_op f) 9)].
  - destruct (acceptable_control _ _ _ Hacc) as [Hp Hb]; [lia|].
    destruct (wsSendControl_tried s 8 (w_body f) (negb em) w1) as (key & ok & w2 & Es & _); [lia|done|].
    pose proof (wsSendControl_quiet s 8 (w_body f) (negb em) w1) as Hq. rewrite Es in Hq. cbn [snd] in Hq.
    rewrite (ibind_run _ _ _ _ _ Es). eexists _, _. split; [done|]. cbn [isValid]. rewrite Hq. lia.
  - destruct (acceptable_control _ _ _ Hacc) as [Hp Hb]; [lia|].
    destruct (wsSendControl_tried s 10 (w_body f) (negb em) w1) as (key & ok & w2 & Es & _); [lia|done|].
    pose proof (wsSendControl_quiet s 10 (w_body f) (negb em) w1) as Hq. rewrite Es in Hq. cbn [snd] in Hq.
    rewrite (ibind_run _ _ _ _ _ Es). destruct ok; [by apply Hnext|].
    eexists _, _. split; [done|]. rewrite Hv, Hq. lia.
  - pose proof (acc_size _ _ _ Hacc). pose proof (acceptable_size _ _ _ Hacc).
    repeat (case_match; try (eexists _, _; split; [done|ws_fields; rewrite ?Hv; cbn [isValid zero_WSFrame]; lia]);
      try (apply Hnext; ws_fields; (done || lia))).
    all: eexists _, _; split; [done|]; change (isValid zero_WSFrame) with false; cbn iota; lia.
Qed.

Lemma wsRecvFrame_quiet fuel s em (w : W) : zlen (incoming s w) < 2 * Z.of_nat fuel ->
  exists r w', wsRecvFrame fuel s em w = (Ok r, w')
    /\ zlen (incoming s w') + (if isValid r then 2 else 0) <= zlen (incoming s w).
Proof. intros Hf. apply recv_frames_terminates; [cbn; unfold MAX_MESSAGE_SIZE; lia|done|done]. Qed.
End termination.

(** ** Properties *)

(** C4: reassembly.  When the stream starts with any sequence of acceptable
    frames that makes up one message (data fragments with pings and pongs in
    between, any legal length encoding, any mask keys, within the 1 MiB limit)
    and the answers can be sent, [wsRecvFrame] returns within one round per
    frame a valid frame whose payload is the concatenation of the fragments,
    has sent exactly one PONG per PING, in order and with its payload, masked
    on the client side, and leaves the rest of the stream unread. *)
Theorem wsRecvFrame_complete {W} `{SysLaws W} fuel s em (w : W) fs frag acc pings f m rest :
  collects em false [] fs frag acc pings -> completes em frag acc f m ->
  incoming s w = wires (fs ++ [f]) ++ rest -> pong_room pings <= room s w -> (length fs < fuel)%nat ->
  exists r w' out, wsRecvFrame fuel s em w = (Ok r, w')
    /\ isValid r = true /\ isClose r = false /\ payload r = m
    /\ emitted s out w w' /\ replies 10 (negb em) pings out /\ rest `prefix_of` incoming s w'.
Proof.
  intros HC (Hacc & Hfin & Hop) Hin Hroom Hfuel.
  destruct (recv_last fuel s em w fs frag acc pings f rest HC Hacc Hin Hroom Hfuel)
    as (fuel' & msg & w1 & w2 & out & E & E2 & <- & Hv & Hc & Hrep & He & Hp).
  rewrite E. cbn [recv_frames]. rewrite (ibind_run _ _ _ _ _ E2), Hfin.
  exists (if frag then msg <| payload := payload msg ++ w_body f |> <| isValid := true |>
          else msg <| opcode := Some 2 |> <| payload := w_body f |> <| isValid := true |>), w2, out.
  destruct frag; destruct Hop as [-> ->]; by split_and!.
Qed.

(** Frames of the witness: a ping, a fragment, a pong, the last fragment. *)
Definition demo_frame (fin : bool) (op : Z) (body : bytes) : wsframe :=
  {| w_fin := fin; w_op := op; w_form := Len7; w_key := Some [1; 2; 3; 4]; w_body := body |}.
Definition demo_frames : list wsframe :=
  [demo_frame true 9 (str "hi"); demo_frame false 2 (str "ab"); demo_frame true 10 []].
Definition demo_tape : tape silent := tape_of (wires (demo_frames ++ [demo_frame true 0 (str "cd")]) ++ str "tail") 100.

Lemma demo_acceptable fin op body size : 0 <= op < 16 -> (length body < 100)%nat -> is_bytes body ->
  0 <= size <= 1000 -> (8 <= op -> fin = true) -> acceptable true size (demo_frame fin op body).
Proof.
  intros Ho Hl Hb Hs Hc. split; [split|..]; cbn [demo_frame w_op w_fin w_form w_key w_body form_fits key_ok];
    try done; try (unfold MAX_MESSAGE_SIZE; lia).
  - split; [done|]. repeat (apply Forall_cons; split; [solve_width|]). constructor.
  - intros H8. split; [auto|lia].
Qed.

Lemma silent_quiet : quiet_peer (tape silent).
Proof.
  intros s bs w. cbn [sys_send tape_sys]. case_bool_decide; [|done]. unfold tape_send. case_match; [done|].
  cbn [snd]. do 2 (unfold set_field, set_t_in, set_t_out, set_t_room; cbn [incoming tape_sys t_in]).
  by rewrite app_nil_r.
Qed.

Lemma wsRecvFrame_complete_witness :
  exists r w' out, wsRecvFrame 4 7 true demo_tape = (Ok r, w')
    /\ isValid r = true /\ isClose r = false /\ payload r = str "ab" ++ str "cd"
    /\ emitted 7 out demo_tape w' /\ replies 10 false [str "hi"] out
    /\ str "tail" `prefix_of` incoming 7 w'.
Proof.
  apply (wsRecvFrame_complete 4 7 true demo_tape demo_frames true (str "ab") [str "hi"]
           (demo_frame true 0 (str "cd"))); [| |vm_compute; reflexivity|vm_compute; discriminate|cbn; lia].
  - apply c_ping; [apply demo_acceptable; first [apply str_bytes | cbn; lia | done]|reflexivity|].
    apply c_first; [apply demo_acceptable; first [apply str_bytes | cbn; lia | done]|reflexivity..|].
    apply c_pong; [apply demo_acceptable; first [apply (str_bytes EmptyString) | cbn; lia | done]|reflexivity|apply c_nil].
  - split; [apply demo_acceptable; first [apply str_bytes | cbn; lia | done]|done].
Defined.

(** C11: soundness.  Whatever arrives, a valid result of [wsRecvFrame] is
    accounted for byte by byte: the run took whole acceptable frames off the
    input, one after the other, each in full from the bytes that were there when
    it was read; these frames make up the returned payload (or, for a close,
    end with a CLOSE frame whose payload is returned and which was answered with
    a CLOSE carrying the same payload); exactly the pings among them were
    answered, each before the next frame was read; and the payload is at most
    1 MiB.  Unless the peer answers output with further input, the input was
    these frames followed by what is left of it. *)
Theorem wsRecvFrame_sound {W} `{SysLaws W} fuel s em (w w' : W) r :
  wsRecvFrame fuel s em w = (Ok r, w') -> isValid r = true ->
  exists fs frag acc pings out w1, collects em false [] fs frag acc pings
    /\ consumed s em fs out w w1 /\ replies 10 (negb em) pings out
    /\ zlen (payload r) <= MAX_MESSAGE_SIZE
    /\ (if isClose r
        then exists f key ok w2, acceptable em (zlen acc) f /\ w_op f = 8 /\ payload r = w_body f
               /\ took s f w1 w2 /\ has_key key = negb em
               /\ wsSendControl s 8 (w_body f) (negb em) w2 = (Ok ok, w')
               /\ tried s (control_frame 8 key (w_body f)) ok w2 w'
        else exists f, completes em frag acc f (payload r) /\ took s f w1 w')
    /\ (quiet_peer W -> incoming s w = wires fs ++ incoming s w1).
Proof.
  intros Hrun Hv. pose proof Hrun as Hx.
  apply recv_frames_sound in Hx; [|cbn; unfold MAX_MESSAGE_SIZE; lia|done|done].
  destruct Hx as (fs & frag & acc & pings & out & w1 & HC & Hcon & Hrep & Hfin).
  exists fs, frag, acc, pings, out, w1. split_and!; try done.
  - by apply (wsRecvFrame_payload fuel s em w r w').
  - destruct Hfin as [f Hcomp Hgot _ ->|f key ok w2 Hacc H8 Hgot Hk Hhk Es Ht ->|]; [| |congruence].
    + by exists f.
    + cbn [isClose payload]. by exists f, key, ok, w2.
  - intros Hq. by eapply consumed_quiet.
Qed.

Lemma wsRecvFrame_sound_witness : exists r w' fs (w1 : tape silent), wsRecvFrame 4 7 true demo_tape = (Ok r, w')
  /\ isValid r = true /\ zlen (payload r) <= MAX_MESSAGE_SIZE
  /\ incoming 7 demo_tape = wires fs ++ incoming 7 w1.
Proof.
  eexists {| opcode := Some 2; payload := str "abcd"; isClose := false; isValid := true |},
    (snd (wsRecvFrame 4 7 true demo_tape)).
  destruct (wsRecvFrame_sound 4 7 true demo_tape (snd (wsRecvFrame 4 7 true demo_tape))
    {| opcode := Some 2; payload := str "abcd"; isClose := false; isValid := true |})
    as (fs & frag & acc & pings & out & w1 & _ & _ & _ & Hs & _ & Hin); [vm_compute; reflexivity|reflexivity|].
  exists fs, w1. split_and!; [vm_compute; reflexivity|reflexivity|exact Hs|exact (Hin silent_quiet)].
Defined.

(** C29: the closing handshake.  A CLOSE frame behind any acceptable control
    and data frames ends the wait: [wsRecvFrame] returns the frame marked
    [isClose] with the peer's payload and has sent a CLOSE with that payload,
    masked on the client side, after the PONGs. *)
Theorem wsRecvFrame_close {W} `{SysLaws W} fuel s em (w : W) fs frag acc pings f rest :
  collects em false [] fs frag acc pings -> acceptable em (zlen acc) f -> w_op f = 8 ->
  incoming s w = wires (fs ++ [f]) ++ rest ->
  pong_room pings + zlen (w_body f) + 6 <= room s w -> (length fs < fuel)%nat ->
  exists r w' out1 out2, wsRecvFrame fuel s em w = (Ok r, w')
    /\ isValid r = true /\ isClose r = true /\ payload r = w_body f
    /\ emitted s (out1 ++ out2) w w' /\ replies 10 (negb em) pings out1
    /\ replies 8 (negb em) [w_body f] out2 /\ rest `prefix_of` incoming s w'.
Proof.
  intros HC Hacc H8 Hin Hroom Hfuel.
  destruct (recv_last fuel s em w fs frag acc pings f rest HC Hacc Hin ltac:(lia) Hfuel)
    as (fuel' & msg & w1 & w2 & out & E & E2 & <- & Hv & Hc & Hrep & He & Hp).
  destruct (acceptable_control _ _ _ Hacc) as [Hpl Hpb]; [lia|].
  destruct (wsSendControl_tried s 8 (w_body f) (negb em) w2) as (key & ok & w3 & Es & Hk & Hko & Ht); [lia|done|].
  pose proof (length_control_wire 8 key (w_body f) Hko). pose proof (replies_length _ _ _ _ Hrep).
  pose proof Ht as [Hok _]. pose proof He as (_ & Hr & _).
  rewrite Hr, (proj2 (Z.leb_le _ _)) in Hok by lia. subst ok. apply tried_ok, sent_emitted in Ht as [He2 Hp2].
  rewrite E. cbn [recv_frames]. rewrite (ibind_run _ _ _ _ _ E2), H8. cbn [Z.eqb Pos.eqb].
  rewrite (ibind_run _ _ _ _ _ Es).
  eexists _, w3, out, (wire (control_frame 8 key (w_body f))). split; [reflexivity|]. split_and!; try done.
  - by eapply emitted_app.
  - rewrite <- (app_nil_r (wire _)). apply replies_cons; (done || lia || apply replies_nil).
  - by etrans.
Qed.

Lemma wsRecvFrame_close_witness :
  exists r w' out1 out2,
    wsRecvFrame 1 7 true (tape_of (wires ([] ++ [demo_frame true 8 (str "bye")]) ++ []) 100) = (Ok r, w')
    /\ isValid r = true /\ isClose r = true /\ payload r = str "bye"
    /\ emitted 7 (out1 ++ out2) (tape_of (wires ([] ++ [demo_frame true 8 (str "bye")]) ++ []) 100) w'
    /\ replies 10 false [] out1 /\ replies 8 false [str "bye"] out2 /\ [] `prefix_of` incoming 7 w'.
Proof.
  apply (wsRecvFrame_close 1 7 true _ [] false [] [] (demo_frame true 8 (str "bye")));
    [apply c_nil|apply demo_acceptable; first [apply str_bytes | cbn; lia | done]|reflexivity
    |vm_compute; reflexivity|vm_compute; discriminate|cbn; lia].
Defined.

(** C27: rejection.  When the stream does not start with a complete frame the
    receiver accepts (a reserved bit is set, the masking is wrong for the
    side, a control frame is long or fragmented, the length is over 1 MiB, or
    the stream ends early), [wsRecvFrame] gives up in the first round with an
    invalid frame and sends nothing. *)
Theorem wsRecvFrame_rejects {W} `{SysLaws W} fuel s em (w : W) :
  (forall f, acceptable em 0 f -> wire f `prefix_of` incoming s w -> False) ->
  exists w', wsRecvFrame (S fuel) s em w = (Ok new_WSFrame, w') /\ untouched s w w'.
Proof.
  intros Hno. unfold wsRecvFrame. cbn [recv_frames payload new_WSFrame length].
  destruct (recv_one_total s em 0 w) as (o & w1 & E & Hu & HO); [unfold MAX_MESSAGE_SIZE; lia|].
  change (Z.of_nat 0) with 0. rewrite (ibind_run _ _ _ _ _ E).
  destruct o as [[[fin op] p]|]; [|by exists w1].
  destruct HO as (f & Hacc & _ & _ & _ & Hin). exfalso. apply (Hno f Hacc). rewrite Hin. by apply prefix_app_r.
Qed.

(** An unmasked frame sent to the server. *)
Lemma wsRecvFrame_rejects_witness :
  exists w', wsRecvFrame 1 7 true (tape_of [0x82; 0x01; 0x41] 100) = (Ok new_WSFrame, w')
    /\ untouched 7 (tape_of [0x82; 0x01; 0x41] 100) w'.
Proof.
  apply (wsRecvFrame_rejects 0 7 true). intros f [[Hop Hform Hkey _] Hm _ _] [k Hk].
  assert (nth 1 (incoming 7 (tape_of [0x82; 0x01; 0x41] 100)) 0 = 1) as H1 by reflexivity.
  rewrite Hk in H1. unfold wire in H1. rewrite Hm in H1. cbn [nth app] in H1.
  pose proof (form_code_range (w_form f) (zlen (w_body f)) (Nat2Z.is_nonneg _) Hform). lia.
Defined.

(** Receiving a single data frame. *)
Lemma recv_data_frame {W} `{SysLaws W} s key data rest (w : W) : key_ok key -> is_bytes data ->
  zlen data <= MAX_MESSAGE_SIZE -> incoming s w = wire (data_frame key data) ++ rest ->
  exists f w', wsRecvFrame 1 s (has_key key) w = (Ok f, w') /\ isValid f = true /\ isClose f = false
    /\ payload f = data /\ incoming s w' = rest /\ untouched s w w'.
Proof.
  intros Hk Hd Hl Hin. assert (acceptable (has_key key) 0 (data_frame key data)) as Hacc.
  { split; [apply data_frame_ok; [done|done|unfold MAX_MESSAGE_SIZE in *; lia]|done|cbn; lia|cbn; lia]. }
  destruct (recv_one_ok s (has_key key) 0 _ rest w ltac:(unfold MAX_MESSAGE_SIZE; lia) Hacc Hin) as (w' & E & Hu & Hin').
  exists (new_WSFrame <| opcode := Some 2 |> <| payload := data |> <| isValid := true |>), w'.
  split; [|by split_and!]. unfold wsRecvFrame. cbn [recv_frames payload new_WSFrame length].
  change (Z.of_nat 0) with 0. by rewrite (ibind_run _ _ _ _ _ E).
Qed.

(** The sender of each side: the client masks, the server does not. *)
Definition send_as {W} `{Sys W} (masked : bool) (s : Z) (data : bytes) : io W bool :=
  if masked then wsSendBinaryMasked s data else wsSendBinary s data.

(** C15: transport round trip.  What [wsSendBinaryMasked] (or [wsSendBinary])
    puts on one connection, once it arrives on the other, is received by
    [wsRecvFrame] of the server (or the client) in one round as exactly the
    same payload, for every payload up to 1 MiB, and nothing behind the frame
    is consumed. *)
Theorem binary_roundtrip {Wc Ws} `{SysLaws Wc} `{SysLaws Ws} masked c data (wc : Wc) :
  is_bytes data -> zlen data <= MAX_MESSAGE_SIZE -> zlen data + 14 <= room c wc ->
  exists out wc', send_as masked c data wc = (Ok true, wc')
    /\ outgoing c wc' = outgoing c wc ++ out
    /\ forall s (ws : Ws) rest, incoming s ws = out ++ rest ->
       exists r ws', wsRecvFrame 1 s masked ws = (Ok r, ws') /\ isValid r = true /\ isClose r = false
         /\ payload r = data /\ incoming s ws' = rest /\ untouched s ws ws'.
Proof.
  intros Hd Hs Hroom. unfold MAX_MESSAGE_SIZE in *.
  assert (exists key wc', send_as masked c data wc = (Ok true, wc') /\ has_key key = masked /\ key_ok key
    /\ sent c (wire (data_frame key data)) wc wc') as (key & wc' & E & Hk & Hko & (Ho & _)).
  { pose proof (length_form_ext (shortest (zlen data)) (zlen data)). destruct masked; cbn [send_as].
    - destruct (wsSendBinaryMasked_tried c data wc) as (key & ok & wc' & E & Hk & Ht); [lia|].
      exists (Some key), wc'. pose proof Ht as [Hok _].
      rewrite length_wire, (proj2 (Z.leb_le _ _)) in Hok by (done || (cbn; lia)). subst ok.
      split_and!; try done. by apply tried_ok.
    - destruct (wsSendBinary_tried c data wc) as (ok & wc' & E & Ht); [lia|].
      exists None, wc'. pose proof Ht as [Hok _].
      rewrite length_wire, (proj2 (Z.leb_le _ _)) in Hok by (done || (cbn; lia)). subst ok.
      split_and!; try done. by apply tried_ok. }
  exists (wire (data_frame key data)), wc'. split_and!; [done|done|]. intros s ws rest Hin.
  rewrite <- Hk. apply (recv_data_frame s key); (done || unfold MAX_MESSAGE_SIZE; lia).
Qed.

Lemma binary_roundtrip_witness :
  exists out wc', send_as true 7 (str "payload") (tape_of [] 100) = (Ok true, wc')
    /\ outgoing 7 wc' = outgoing 7 (tape_of [] 100) ++ out
    /\ forall s (ws : tape silent) rest, incoming s ws = out ++ rest ->
       exists r ws', wsRecvFrame 1 s true ws = (Ok r, ws') /\ isValid r = true /\ isClose r = false
         /\ payload r = str "payload" /\ incoming s ws' = rest /\ untouched s ws ws'.
Proof.
  apply (binary_roundtrip (Ws := tape silent) true 7 (str "payload") (tape_of [] 100));
    [apply str_bytes|vm_compute; discriminate|vm_compute; discriminate].
Defined.

(** C28: termination.  Against a peer that does not answer, [wsRecvFrame]
    returns within one round per two bytes of input, whatever the input: every
    round that continues has consumed a frame of at least two bytes.  (A peer
    that pings again on every PONG keeps any receiver busy.) *)
Theorem wsRecvFrame_terminates {W} `{SysLaws W} s em (w : W) :
  quiet_peer W ->
  exists r w', wsRecvFrame (S (length (incoming s w) / 2)) s em w = (Ok r, w').
Proof.
  intros Hq. destruct (wsRecvFrame_quiet Hq (S (length (incoming s w) / 2)) s em w) as (r & w' & E & _); [|by exists r, w'].
  pose proof (Nat.div_mod (length (incoming s w)) 2). pose proof (Nat.mod_upper_bound (length (incoming s w)) 2). lia.
Qed.

Lemma wsRecvFrame_terminates_witness :
  exists r w', wsRecvFrame (S (length (incoming 7 (tape_of [0x82; 0x85; 0; 0; 0; 0; 1] 9)) / 2)) 7 true
    (tape_of [0x82; 0x85; 0; 0; 0; 0; 1] 9) = (Ok r, w').
Proof. apply (wsRecvFrame_terminates 7 true (tape_of [0x82; 0x85; 0; 0; 0; 0; 1] 9)). exact silent_quiet. Defined.
