(* ===== verification/HttpText.v ===== *)
(** * Header lookup in HTTP text ([extractHeader] of common/ws.hpp)

    The string search of the handshake, position by position as the source has
    it, and its meaning on well-formed header blocks: a case-insensitive lookup
    of the first field with the name. *)

From S2P Require Import Prelude Socket.

(** ** The code *)

(** [tolower] in the C locale, which leaves everything but A to Z alone. *)
Definition tolower (c : Z) : Z := if (65 <=? c) && (c <=? 90) then c + 32 else c.
Abbreviation lower := (map tolower).

(** [s.find(p)]: the first position; [None] is [npos]. *)
Fixpoint find (p s : bytes) : option Z :=
  if starts_with p s then Some 0
  else match s with
       | [] => None
       | _ :: s => k ← find p s; Some (k + 1)
       end.

(** [s.find(p, pos)]. *)
Definition find_from (p s : bytes) (pos : Z) : option Z :=
  k ← find p (drop (Z.to_nat pos) s); Some (pos + k).

(** [s.substr(pos, n)]. *)
Definition substr (s : bytes) (pos n : Z) : result bytes :=
  if zlen s <? pos then Throw (str "basic_string::substr")
  else Ok (take (Z.to_nat n) (drop (Z.to_nat pos) s)).

(** [while (pos < t.size() && (t[pos] == ' ' || t[pos] == '\t')) pos++]. *)
Fixpoint skip_blanks (fuel : nat) (t : bytes) (pos : Z) : result Z :=
  if negb (pos <? zlen t) then Ok pos
  else
    let* c := rd t pos in
    if negb ((c =? 32) || (c =? 9)) then Ok pos
    else match fuel with
         | O => Stuck
         | S f => skip_blanks f t (pos + 1)
         end.

Definition extractHeader (httpText key : bytes) : result bytes :=
  let lowerKey := lower (CRLF ++ key ++ str ":") in
  let lowerText := lower httpText in
  match find lowerKey lowerText with
  | None => Ok []
  | Some pos =>
      let* pos := skip_blanks (length lowerText) lowerText (pos + zlen lowerKey) in
      let e := match find_from CRLF lowerText pos with Some e => e | None => zlen lowerText end in
      substr httpText pos (e - pos)
  end.

(** ** The reference: header blocks *)

Abbreviation field := (bytes * bytes)%type.

Definition field_text (h : field) : bytes := CRLF ++ h.1 ++ str ": " ++ h.2.

(** A start line and header fields, ended by an empty line. *)
Definition head_text (start : bytes) (hs : list field) : bytes :=
  start ++ concat (map field_text hs) ++ HTTP_END.

Definition no_crlf (s : bytes) : Prop := Forall (fun c => c <> 13 /\ c <> 10) s.

(** Names have no colon, values do not start with a blank. *)
Definition name_ok (n : bytes) : Prop := no_crlf n /\ Forall (fun c => c <> 58) n.
Definition value_ok (v : bytes) : Prop := no_crlf v /\ head v <> Some 32 /\ head v <> Some 9.
Definition field_ok (h : field) : Prop := name_ok h.1 /\ value_ok h.2.
Definition head_ok (start : bytes) (hs : list field) : Prop := no_crlf start /\ Forall field_ok hs.

(** The value of the first field called [key], up to case. *)
Fixpoint lookup_field (key : bytes) (hs : list field) : option bytes :=
  match hs with
  | [] => None
  | (n, v) :: hs => if bool_decide (lower n = lower key) then Some v else lookup_field key hs
  end.

(** ** Search *)

Lemma tolower_eq c k : (k < 65 \/ 123 <= k) -> tolower c = k <-> c = k.
Proof. intros Hk. unfold tolower. destruct (Z.leb_spec 65 c), (Z.leb_spec c 90); cbn [andb]; lia. Qed.

(** A text without the first character of the pattern is passed over. *)
Lemma find_skip x p a s : Forall (fun c => c <> x) a ->
  find (x :: p) (a ++ s) = k ← find (x :: p) s; Some (k + zlen a).
Proof.
  induction 1 as [|c a Hc Ha IH]; cbn [app length].
  - destruct (find (x :: p) s); cbn [mbind option_bind]; [f_equal; lia|done].
  - cbn [find starts_with]. rewrite (proj2 (Z.eqb_neq _ _)) by congruence. cbn [andb]. rewrite IH.
    destruct (find (x :: p) s); cbn [mbind option_bind]; [f_equal; lia|done].
Qed.

Lemma find_here p s : starts_with p s = true -> find p s = Some 0.
Proof. intros Hp. destruct s; cbn [find]; by rewrite Hp. Qed.

Lemma find_next p c s : starts_with p (c :: s) = false -> find p (c :: s) = k ← find p s; Some (k + 1).
Proof. intros Hp. cbn [find]. by rewrite Hp. Qed.

Lemma starts_with_app p s t : starts_with (p ++ s) (p ++ t) = starts_with s t.
Proof. induction p as [|x p IH]; [done|]. cbn [app starts_with]. by rewrite Z.eqb_refl. Qed.

(** Names without colons are equal when one is a prefix up to the colon. *)
Lemma starts_with_name n k t : Forall (fun c => c <> 58) n -> Forall (fun c => c <> 58) k ->
  starts_with (k ++ [58]) (n ++ 58 :: t) = bool_decide (n = k).
Proof.
  intros Hn. revert k. induction Hn as [|c n Hc Hn IH]; intros k Hk; destruct Hk as [|d k Hd Hk].
  - done.
  - cbn. rewrite (proj2 (Z.eqb_neq _ _)) by done. by rewrite bool_decide_eq_false_2.
  - cbn [app starts_with]. rewrite (proj2 (Z.eqb_neq _ _)) by congruence. by rewrite bool_decide_eq_false_2.
  - cbn [app starts_with]. rewrite IH by done. destruct (Z.eqb_spec d c) as [->|Hne]; cbn [andb].
    + apply bool_decide_ext. split; congruence.
    + symmetry. apply bool_decide_eq_false_2. congruence.
Qed.

Definition fields_text (hs : list field) : bytes := concat (map field_text hs) ++ HTTP_END.

Lemma fields_text_crlf hs : exists post, fields_text hs = CRLF ++ post.
Proof. destruct hs as [|[n v] hs]; [by exists CRLF|]. unfold fields_text. cbn [map concat]. rewrite <- app_assoc. by eexists. Qed.

(** The lower-case pattern that is searched for. *)
Definition pattern_of (key : bytes) : bytes := lower (CRLF ++ key ++ str ":").

Lemma pattern_of_cons key : pattern_of key = 13 :: 10 :: lower key ++ [58].
Proof. unfold pattern_of. by rewrite !map_app. Qed.

Lemma lower_avoids x s : (x < 65 \/ 123 <= x) -> Forall (fun c => c <> x) s -> Forall (fun c => c <> x) (lower s).
Proof. intros Hx Hs. apply Forall_map. eapply Forall_impl; [exact Hs|]. intros c Hc E. by apply Hc, (tolower_eq c x Hx). Qed.

Lemma no_crlf_avoids s : no_crlf s -> Forall (fun c => c <> 13) s /\ Forall (fun c => c <> 10) s.
Proof. intros Hs. split; eapply Forall_impl; try exact Hs; by intros c []. Qed.

Lemma find_end key : no_crlf key -> find (pattern_of key) (lower HTTP_END) = None.
Proof.
  intros Hk. rewrite pattern_of_cons. change (lower HTTP_END) with [13; 10; 13; 10].
  assert (exists c t, lower key ++ [58] = c :: t /\ c <> 13) as (c & t & -> & Hc).
  { destruct Hk as [|c key [Hc _] Hk]; [by exists 58, []|]. cbn [map app]. eexists _, _. split; [done|].
    intros E. by apply Hc, (tolower_eq c 13); [lia|]. }
  cbn [find starts_with Z.eqb Pos.eqb andb]. by rewrite (proj2 (Z.eqb_neq c 13)).
Qed.

(** Where the search stops in a header block. *)
Lemma find_field key hs : name_ok key -> Forall field_ok hs ->
  match lookup_field key hs with
  | None => find (pattern_of key) (lower (fields_text hs)) = None
  | Some v => exists pre n post, fields_text hs = pre ++ CRLF ++ n ++ str ": " ++ v ++ CRLF ++ post
      /\ length n = length key /\ value_ok v
      /\ find (pattern_of key) (lower (fields_text hs)) = Some (zlen pre)
  end.
Proof.
  intros [Hk Hkc]. induction 1 as [|[n v] hs [[Hn Hnc] Hv] Hhs IH]; cbn [lookup_field]; [by apply find_end|].
  cbn [fst snd] in *. assert (fields_text ((n, v) :: hs) = CRLF ++ n ++ str ": " ++ v ++ fields_text hs) as E.
  { unfold fields_text, field_text. cbn [map concat fst snd]. by rewrite <- !app_assoc. }
  rewrite E. rewrite !map_app.
  change (lower CRLF) with [13; 10]. change (lower (str ": ")) with [58; 32].
  assert (starts_with (pattern_of key) ([13; 10] ++ lower n ++ [58; 32] ++ lower v ++ lower (fields_text hs))
          = bool_decide (lower n = lower key)) as Hsw.
  { rewrite pattern_of_cons. cbn [app starts_with Z.eqb Pos.eqb andb].
    apply starts_with_name; apply lower_avoids; (done || lia). }
  case_bool_decide as Hname.
  - destruct (fields_text_crlf hs) as [post Hpost]. exists [], n, post. rewrite <- Hpost. split_and!; try done.
    + apply (f_equal length) in Hname. by rewrite !length_map in Hname.
    + by apply find_here.
  - cbn [app] in Hsw |- *. rewrite find_next by done.
    replace (10 :: lower n ++ 58 :: 32 :: lower v ++ lower (fields_text hs))
      with ((10 :: lower n ++ 58 :: 32 :: lower v) ++ lower (fields_text hs)) by (cbn [app]; by rewrite <- !app_assoc).
    rewrite pattern_of_cons, find_skip, <- pattern_of_cons; cycle 1.
    { destruct (no_crlf_avoids n Hn), (no_crlf_avoids v (proj1 Hv)).
      repeat (apply Forall_cons; split; [lia|]). apply Forall_app; split; [by apply lower_avoids; [lia|]|].
      repeat (apply Forall_cons; split; [lia|]). by apply lower_avoids; [lia|]. }
    destruct (lookup_field key hs) as [v'|]; [|by rewrite IH].
    destruct IH as (pre & n' & post & -> & Hl & Hv' & ->).
    exists (CRLF ++ n ++ str ": " ++ v ++ pre), n', post. split_and!; [by rewrite <- !app_assoc|done|done|].
    cbn [mbind option_bind]. f_equal. rewrite !length_app. cbn [length CRLF str]. rewrite !length_app, !length_map. cbn [length]. rewrite length_map. lia.
Qed.

Lemma skip_blanks_spec fuel a b c d : (length b <= fuel)%nat ->
  Forall (fun x => x = 32 \/ x = 9) b -> c <> 32 -> c <> 9 ->
  skip_blanks fuel (a ++ b ++ c :: d) (zlen a) = Ok (zlen (a ++ b)).
Proof.
  intros Hf Hb H32 H9. revert fuel a Hf. induction Hb as [|x b Hx Hb IH]; intros fuel a Hf.
  - rewrite app_nil_r. cbn [app].
    destruct fuel; cbn [skip_blanks]; rewrite (proj2 (Z.ltb_lt _ _)) by (rewrite length_app; cbn; lia);
      cbn [negb]; rewrite rd_middle; cbn [rbind]; by rewrite !(proj2 (Z.eqb_neq _ _)).
  - destruct fuel as [|f]; [cbn in Hf; lia|]. cbn [length] in Hf. cbn [skip_blanks app].
    rewrite (proj2 (Z.ltb_lt _ _)) by (rewrite length_app; cbn; lia). cbn [negb]. rewrite rd_middle. cbn [rbind].
    replace ((x =? 32) || (x =? 9)) with true by (destruct Hx as [->| ->]; done). cbn [negb].
    replace (a ++ x :: b ++ c :: d) with ((a ++ [x]) ++ b ++ c :: d) by (by rewrite <- app_assoc).
    replace (zlen a + 1) with (zlen (a ++ [x])) by (rewrite length_app; cbn; lia).
    rewrite IH by lia. by rewrite <- app_assoc.
Qed.

(** The lookup: on a well-formed header block [extractHeader] returns the value
    of the first field with the name, or the empty text. *)
Lemma extractHeader_head start hs key : head_ok start hs -> name_ok key ->
  extractHeader (head_text start hs) key = Ok (default [] (lookup_field key hs)).
Proof.
  intros [Hstart Hhs] Hkey. unfold extractHeader. change (lower (CRLF ++ key ++ str ":")) with (pattern_of key).
  change (head_text start hs) with (start ++ fields_text hs). rewrite map_app.
  assert (find (pattern_of key) (lower start ++ lower (fields_text hs)) =
          k ← find (pattern_of key) (lower (fields_text hs)); Some (k + zlen (lower start))) as ->.
  { rewrite pattern_of_cons. apply find_skip, lower_avoids; [lia|]. by apply no_crlf_avoids. }
  pose proof (find_field key hs Hkey Hhs) as HF. destruct (lookup_field key hs) as [v|]; [|by rewrite HF].
  destruct HF as (pre & n & post & -> & Hn & (Hvc & Hv32 & Hv9) & ->). cbn [mbind option_bind from_option id].
  set (a := start ++ pre ++ CRLF ++ n ++ [58]).
  assert (start ++ pre ++ CRLF ++ n ++ str ": " ++ v ++ CRLF ++ post = a ++ [32] ++ v ++ CRLF ++ post) as Etext.
  { unfold a. rewrite <- !app_assoc. done. }
  rewrite <- map_app, Etext.
  assert (zlen pre + zlen (lower start) + zlen (pattern_of key) = zlen (lower a)) as ->.
  { unfold a. rewrite pattern_of_cons. cbn [length]. rewrite !length_map, !length_app, length_map. cbn [length CRLF]. lia. }
  assert (exists c d, lower v ++ CRLF ++ lower post = c :: d /\ c <> 32 /\ c <> 9) as (c & d & Ecd & Hc32 & Hc9).
  { destruct v as [|x v]; [by eexists 13, _|]. cbn [map app]. eexists _, _. split; [done|].
    split; intros E; [apply Hv32|apply Hv9]; cbn [head]; f_equal; by (apply (tolower_eq x); [lia|]). }
  rewrite !map_app. change (lower [32]) with [32]. change (lower CRLF) with CRLF. rewrite Ecd.
  rewrite skip_blanks_spec by (rewrite ?length_app; cbn [length]; try done; try lia; by repeat constructor).
  cbn [rbind]. unfold find_from. rewrite Nat2Z.id.
  rewrite (app_assoc (lower a) [32]), drop_app_length, <- Ecd.
  assert (find CRLF (lower v ++ CRLF ++ lower post) = Some (zlen v)) as ->.
  { unfold CRLF at 1. rewrite find_skip by (apply lower_avoids; [lia|by apply no_crlf_avoids]).
    rewrite find_here by done. cbn [mbind option_bind]. by rewrite length_map. }
  cbn [mbind option_bind]. unfold substr. rewrite !length_app, length_map.
  rewrite (proj2 (Z.ltb_ge _ _)) by (cbn [length]; lia). f_equal.
  replace (Z.to_nat (Z.of_nat (length a + length [32]))) with (length (a ++ [32])) by (rewrite length_app; cbn; lia).
  rewrite app_assoc, drop_app_length.
  match goal with |- context [Z.to_nat (?x + zlen v - ?x)] => replace (Z.to_nat (x + zlen v - x)) with (length v) by lia end.
  apply take_app_length.
Qed.

(** ** Every text *)

Lemma find_some p s k : find p s = Some k -> 0 <= k /\ k + zlen p <= zlen s.
Proof.
  revert k. induction s as [|c s IH]; intros k; cbn [find]; destruct (starts_with p _) eqn:E.
  1,3: intros [= <-]; apply starts_with_spec in E as [r ->]; rewrite length_app; lia.
  - done.
  - destruct (find p s) as [j|]; [|done]. cbn [mbind option_bind]. intros [= <-].
    destruct (IH j eq_refl). cbn [length]. lia.
Qed.

(** [find] returns the least position. *)
Lemma find_least p a b : exists k, find p (a ++ p ++ b) = Some k /\ 0 <= k <= zlen a.
Proof.
  induction a as [|c a IH]; cbn [app].
  - exists 0. split; [apply find_here, starts_with_spec; by exists b|lia].
  - cbn [find]. destruct (starts_with p _); [exists 0; cbn; split; [done|lia]|].
    destruct IH as (k & -> & Hk). exists (k + 1). cbn [length]. split; [done|lia].
Qed.

Lemma skip_blanks_total fuel t pos : 0 <= pos <= zlen t -> zlen t - pos <= Z.of_nat fuel ->
  exists pos', skip_blanks fuel t pos = Ok pos' /\ pos <= pos' <= zlen t.
Proof.
  revert pos. induction fuel as [|f IH]; intros pos Hp Hf; cbn [skip_blanks].
  { rewrite (proj2 (Z.ltb_ge _ _)) by lia. exists pos. split; [done|lia]. }
  destruct (Z.ltb_spec pos (zlen t)); cbn [negb]; [|exists pos; split; [done|lia]].
  destruct (lookup_lt_is_Some_2 t (Z.to_nat pos)) as [c Hc]; [lia|].
  rewrite (rd_lookup t pos c) by (done || lia). cbn [rbind]. case_match; [exists pos; split; [done|lia]|].
  destruct (IH (pos + 1)) as (p' & E & Hp'); [lia..|]. exists p'. split; [done|lia].
Qed.

(** [extractHeader] returns on every text, with a part of the text. *)
Lemma extractHeader_total text key :
  exists v a b, extractHeader text key = Ok v /\ text = a ++ v ++ b.
Proof.
  unfold extractHeader. destruct (find _ (lower text)) as [k|] eqn:E; [|by exists [], [], text].
  apply find_some in E as [Hk Hl]. rewrite (length_map _ text) in Hl.
  set (p := lower (CRLF ++ key ++ str ":")) in *.
  destruct (skip_blanks_total (length (lower text)) (lower text) (k + zlen p)) as (pos & -> & Hpos);
    [rewrite length_map; lia..|]. rewrite length_map in Hpos. cbn [rbind].
  set (e := match find_from _ _ _ with Some e => e | None => _ end). unfold substr.
  rewrite (proj2 (Z.ltb_ge _ _)) by lia.
  eexists _, (take (Z.to_nat pos) text), (drop (Z.to_nat (e - pos)) (drop (Z.to_nat pos) text)).
  split; [done|]. by rewrite take_drop, take_drop.
Qed.

(** ** Blocks on the wire *)

Lemma find_block start hs : head_ok start hs ->
  find HTTP_END (head_text start hs) = Some (zlen (start ++ concat (map field_text hs))).
Proof.
  intros [Hstart Hhs]. unfold head_text. unfold HTTP_END at 1, CRLF. cbn [app].
  rewrite find_skip by (by apply no_crlf_avoids).
  assert (find [13; 10; 13; 10] (concat (map field_text hs) ++ HTTP_END) = Some (zlen (concat (map field_text hs)))) as ->.
  { induction Hhs as [|[n v] hs [[Hn _] [Hv _]] Hhs IH]; [done|]. cbn [map concat fst snd] in *.
    set (T := concat (map field_text hs) ++ HTTP_END) in *. rewrite <- app_assoc.
    change (concat (map field_text hs) ++ HTTP_END) with T. change (field_text (n, v)) with (CRLF ++ n ++ str ": " ++ v).
    assert (starts_with [13; 10; 13; 10] ((CRLF ++ n ++ str ": " ++ v) ++ T) = false) as Hsw.
    { destruct Hn as [|c n [Hc _] Hn]; [done|]. cbn [app CRLF starts_with].
      by rewrite (proj2 (Z.eqb_neq 13 c)). }
    cbn [app CRLF] in *. rewrite find_next by done.
    change (10 :: (n ++ str ": " ++ v) ++ T) with ((10 :: n ++ str ": " ++ v) ++ T).
    rewrite (find_skip 13 _ (10 :: n ++ str ": " ++ v)), IH; cbn [mbind option_bind].
    - f_equal. cbn [length]. rewrite !length_app. lia.
    - destruct (no_crlf_avoids n Hn), (no_crlf_avoids v Hv).
      apply Forall_cons; split; [lia|]. apply Forall_app; split; [done|].
      repeat (apply Forall_cons; split; [vm_compute; discriminate|]). done. }
  cbn [mbind option_bind]. f_equal. rewrite length_app. lia.
Qed.

(** A well-formed head is a header block: its only empty line is the last. *)
Lemma head_text_block start hs : head_ok start hs -> header_block (head_text start hs).
Proof.
  intros Hok. split.
  - apply ends_headers_spec. exists (start ++ concat (map field_text hs)). by rewrite <- app_assoc.
  - intros p [q Hq] Hne. apply not_true_is_false. intros [x ->]%ends_headers_spec. apply Hne.
    rewrite <- app_assoc in Hq. destruct (find_least HTTP_END x q) as (k & Hk & Hkx).
    rewrite <- Hq, find_block in Hk by done. injection Hk as <-.
    apply (f_equal length) in Hq as Hlen. unfold head_text in Hlen.
    rewrite app_assoc in Hlen. rewrite !length_app in *.
    destruct q; [by rewrite Hq, app_nil_r|]. cbn [length] in Hlen. lia.
Qed.

(** ** Properties *)

(** C38: header lookup.  On every well-formed header block (a start line and
    fields without stray line breaks) [extractHeader] returns the value of the
    first field whose name matches the key up to ASCII case, in its original
    case and without the leading blank, and the empty text when there is none. *)
Theorem extractHeader_lookup start hs key :
  head_ok start hs -> name_ok key ->
  extractHeader (head_text start hs) key = Ok (default [] (lookup_field key hs)).
Proof. apply extractHeader_head. Qed.

Lemma extractHeader_lookup_witness :
  extractHeader (head_text (str "GET /ws HTTP/1.1")
      [(str "Host", str "localhost:9898"); (str "SEC-WebSocket-KEY", str "AbC=")]) (str "Sec-WebSocket-Key")
  = Ok (str "AbC=").
Proof.
  refine (extractHeader_lookup (str "GET /ws HTTP/1.1")
    [(str "Host", str "localhost:9898"); (str "SEC-WebSocket-KEY", str "AbC=")] (str "Sec-WebSocket-Key") _ _);
    repeat (first [split | apply Forall_cons | apply Forall_nil]); vm_compute; discriminate.
Defined.
