(* ===== verification/Handshake.v ===== *)
(** * The WebSocket handshake (common/ws.hpp: wsAcceptKey, generateWSKey,
    WSServer, WSClient)

    Both ends of the opening handshake with every early return: which sockets
    they open and close, what they send, what they accept.  Stack memory that
    the SHA-1 object does not initialise is the parameter [garbage], the
    environment variable WS_PATH the parameter [env_path].
    The call of [setsockopt] in [listen] is left out: its result is unused. *)

From stdpp Require Import gmap.
From S2P Require Import Prelude HashBlocks Fips180 Sha1 Base64 Socket WsFrame HttpText.

(** ** The code *)

Definition WS_GUID : bytes := str "258EAFA5-E914-47DA-95CA-C5AB0DC85B11".

Definition wsAcceptKey (garbage clientKey : bytes) : result bytes :=
  let combined := clientKey ++ WS_GUID in
  let* sha := sha1_update combined (new_SHA1 garbage) in
  let* (hash, _) := sha1_final sha in
  base64Encode hash (zlen hash).

(** [std::iscntrl] in the C locale. *)
Definition iscntrl (c : Z) : bool := (c <? 32) || (c =? 127).

(** The value of the userId header as the server keeps it. *)
Definition clean_userId (u : bytes) : bytes := take 128 (List.filter (fun c => negb (iscntrl c)) u).

Record WSServer := { listenSock : Z }.
Record WSClient := { cl_sock : Z }.

(** The request and the response on the wire. *)
Definition ws_request (path host : bytes) (port : Z) (wsKey userId : bytes) : bytes :=
  str "GET " ++ path ++ str " HTTP/1.1" ++ CRLF ++
  str "Host: " ++ host ++ str ":" ++ to_string port ++ CRLF ++
  str "Upgrade: websocket" ++ CRLF ++
  str "Connection: Upgrade" ++ CRLF ++
  str "Sec-WebSocket-Key: " ++ wsKey ++ CRLF ++
  str "Sec-WebSocket-Version: 13" ++ CRLF ++
  str "userId: " ++ userId ++ CRLF ++ CRLF.

Definition ws_response (acceptKey : bytes) : bytes :=
  str "HTTP/1.1 101 Switching Protocols" ++ CRLF ++
  str "Upgrade: websocket" ++ CRLF ++
  str "Connection: Upgrade" ++ CRLF ++
  str "Sec-WebSocket-Accept: " ++ acceptKey ++ CRLF ++ CRLF.

Section code.
Context {W : Type} `{Sys W} (garbage : bytes) (env_path : option bytes).

Definition ws_path : bytes := match env_path with Some p => p | None => str "/ws" end.

Definition generateWSKey : io W bytes :=
  let! buf := mt_bytes 16 in ilift (base64Encode buf 16).

(** [WSServer::listen] *)
Definition server_listen (port : Z) : io W (bool * WSServer) := fun w =>
  let '(s, w) := sys_socket w in
  if s =? HWS_INVALID_SOCKET then (Ok (false, {| listenSock := s |}), w) else
  let '(r, w) := sys_bind s port w in
  if r =? -1 then (Ok (false, {| listenSock := HWS_INVALID_SOCKET |}), sys_close s w) else
  let '(r, w) := sys_listen s 5 w in
  if r =? -1 then (Ok (false, {| listenSock := HWS_INVALID_SOCKET |}), sys_close s w) else
  (Ok (true, {| listenSock := s |}), w).

(** [hws_close(clientSock); return HWS_INVALID_SOCKET;] with [userId] as it is. *)
Definition reject (clientSock : Z) (userId : bytes) : io W (Z * bytes) :=
  let! _ := hws_close clientSock in iret (HWS_INVALID_SOCKET, userId).

(** [WSServer::accept] behind [::accept]: the socket, or
    [HWS_INVALID_SOCKET], and the [userId] parameter afterwards. *)
Definition accept_upgrade (clientSock : Z) (userId : bytes) : io W (Z * bytes) :=
  let! httpText := recvHttpHeaders clientSock in
  if bool_decide (httpText = []) then reject clientSock userId else
  if negb (starts_with (str "GET " ++ ws_path ++ str " HTTP/1.1" ++ CRLF) httpText)
  then reject clientSock userId else
  let! upgrade := ilift (extractHeader httpText (str "Upgrade")) in
  if negb (bool_decide (upgrade = str "websocket")) then reject clientSock userId else
  let! wsKey := ilift (extractHeader httpText (str "Sec-WebSocket-Key")) in
  if bool_decide (wsKey = []) then reject clientSock userId else
  let! u := ilift (extractHeader httpText (str "userId")) in
  let u := clean_userId u in
  let! userId := if bool_decide (u = []) then let! t := nowMs in iret (str "cpp-" ++ to_string t)
                 else iret u in
  let! acceptKey := ilift (wsAcceptKey garbage wsKey) in
  let response := ws_response acceptKey in
  let! ok := sendAll clientSock response (zlen response) in
  if ok then iret (clientSock, userId) else reject clientSock userId.

Definition server_accept (srv : WSServer) (userId : bytes) : io W (Z * bytes) := fun w =>
  let '(clientSock, w) := sys_accept (listenSock srv) w in
  if clientSock =? HWS_INVALID_SOCKET then (Ok (HWS_INVALID_SOCKET, userId), w)
  else accept_upgrade clientSock userId w.

(** [WSServer::close] *)
Definition server_close (srv : WSServer) : io W WSServer :=
  if negb (listenSock srv =? HWS_INVALID_SOCKET) then
    let! _ := hws_close (listenSock srv) in iret {| listenSock := HWS_INVALID_SOCKET |}
  else iret srv.

(** [hws_close(sock); sock = HWS_INVALID_SOCKET; return false;] *)
Definition abandon (sock : Z) : io W (bool * WSClient) :=
  let! _ := hws_close sock in iret (false, {| cl_sock := HWS_INVALID_SOCKET |}).

(** [WSClient::connect] behind [::connect]. *)
Definition client_upgrade (sock : Z) (host : bytes) (port : Z) (userId : bytes) : io W (bool * WSClient) :=
  let! wsKey := generateWSKey in
  let request := ws_request ws_path host port wsKey userId in
  let! ok := sendAll sock request (zlen request) in
  if negb ok then abandon sock else
  let! response := recvHttpHeaders sock in
  if bool_decide (response = []) then abandon sock else
  if negb (starts_with (str "HTTP/1.1 101 ") response) then abandon sock else
  let! got := ilift (extractHeader response (str "Sec-WebSocket-Accept")) in
  let! want := ilift (wsAcceptKey garbage wsKey) in
  if negb (bool_decide (got = want)) then abandon sock else
  iret (true, {| cl_sock := sock |}).

Definition client_connect (host : bytes) (port : Z) (userId : bytes) : io W (bool * WSClient) := fun w =>
  let '(sock, w) := sys_socket w in
  if sock =? HWS_INVALID_SOCKET then (Ok (false, {| cl_sock := sock |}), w) else
  let '(found, w) := sys_resolve host w in
  if negb found then abandon sock w else
  let '(r, w) := sys_connect sock host port w in
  if r =? -1 then abandon sock w else
  client_upgrade sock host port userId w.

(** [WSClient::close] *)
Definition client_close (cl : WSClient) : io W WSClient :=
  if negb (cl_sock cl =? HWS_INVALID_SOCKET) then
    let! _ := hws_close (cl_sock cl) in iret {| cl_sock := HWS_INVALID_SOCKET |}
  else iret cl.
End code.

(** ** The accept key *)

(** RFC 6455, section 4.2.2: Base64 of the SHA-1 of the key and the GUID. *)
Definition accept_key (k : bytes) : bytes :=
  b64_text (store_words (md_hash sha1_block sha1_iv (k ++ WS_GUID))).

Lemma wsAcceptKey_spec garbage k : length garbage = 64%nat -> wsAcceptKey garbage k = Ok (accept_key k).
Proof.
  intros Hg. unfold wsAcceptKey. destruct (sha1_one_shot garbage (k ++ WS_GUID) Hg) as (st & st' & -> & E).
  cbn [rbind]. rewrite E. cbn [rbind]. apply base64Encode_spec, store_words_bytes.
Qed.

Lemma length_accept_key k : zlen (accept_key k) = 28.
Proof. unfold accept_key. rewrite length_b64_text, length_sha1_digest. done. Qed.

Lemma b64_text_value l : is_bytes l -> value_ok (b64_text l).
Proof.
  intros Hl. pose proof (b64_text_alphabet l Hl) as Ha. split.
  - eapply Forall_impl; [exact Ha|]. cbn beta. intros c [_ Hc]. lia.
  - destruct Ha as [|c t [_ Hc] Ht]; [done|]. cbn [head]. split; intros [= ->]; lia.
Qed.

(** ** The texts as header blocks *)

Definition request_start (path : bytes) : bytes := str "GET " ++ path ++ str " HTTP/1.1".
Definition request_fields (host : bytes) (port : Z) (wsKey userId : bytes) : list field :=
  [(str "Host", host ++ str ":" ++ to_string port); (str "Upgrade", str "websocket");
   (str "Connection", str "Upgrade"); (str "Sec-WebSocket-Key", wsKey);
   (str "Sec-WebSocket-Version", str "13"); (str "userId", userId)].
Definition response_fields (acceptKey : bytes) : list field :=
  [(str "Upgrade", str "websocket"); (str "Connection", str "Upgrade"); (str "Sec-WebSocket-Accept", acceptKey)].

Lemma ws_request_head path host port wsKey userId :
  ws_request path host port wsKey userId =
    head_text (request_start path) (request_fields host port wsKey userId).
Proof.
  unfold ws_request, head_text, request_start, request_fields, field_text.
  cbn [map concat fst snd str]. rewrite <- !app_assoc. cbn [app]. rewrite <- ?app_assoc. done.
Qed.

Lemma ws_response_head acceptKey :
  ws_response acceptKey = head_text (str "HTTP/1.1 101 Switching Protocols") (response_fields acceptKey).
Proof.
  unfold ws_response, head_text, response_fields, field_text. cbn [map concat fst snd str].
  rewrite <- !app_assoc. cbn [app]. rewrite <- ?app_assoc. done.
Qed.

(** Literals of the program are well-formed names and values. *)
Definition plain (s : bytes) : bool := forallb (fun c => (32 <? c) && (c <? 127) && negb (c =? 58)) s.
Lemma plain_name s : plain s = true -> name_ok s.
Proof.
  intros Hs. unfold plain in Hs. rewrite forallb_forall in Hs.
  split; apply Forall_forall; intros c Hc%list_elem_of_In%Hs;
    rewrite !andb_true_iff, negb_true_iff, !Z.ltb_lt, Z.eqb_neq in Hc; lia.
Qed.
Lemma plain_value s : plain s = true -> value_ok s.
Proof.
  intros Hs. pose proof (plain_name s Hs) as [Hn _]. split; [done|].
  destruct s as [|c s]; [done|]. unfold plain in Hs. cbn [forallb] in Hs.
  rewrite !andb_true_iff, !Z.ltb_lt in Hs. cbn [head]. split; intros [= ->]; lia.
Qed.

Lemma no_crlf_app a b : no_crlf a -> no_crlf b -> no_crlf (a ++ b).
Proof. intros Ha Hb. by apply Forall_app. Qed.

Lemma no_crlf_check s : forallb (fun c => negb (c =? 13) && negb (c =? 10)) s = true -> no_crlf s.
Proof.
  rewrite forallb_forall. intros Hs. apply Forall_forall. intros c Hc%list_elem_of_In%Hs.
  rewrite andb_true_iff, !negb_true_iff, !Z.eqb_neq in Hc. lia.
Qed.

Lemma to_string_no_crlf n : is_i64 n -> no_crlf (to_string n).
Proof.
  intros Hn. destruct (to_string_value n Hn) as (Hd & _ & ->). apply no_crlf_app.
  - case_match; by repeat constructor.
  - eapply Forall_impl; [exact Hd|]. cbn beta. lia.
Qed.

Lemma head_app_neq (a b : bytes) x : head a <> Some x -> head b <> Some x -> head (a ++ b) <> Some x.
Proof. by destruct a. Qed.

Lemma request_ok path host port wsKey userId : no_crlf path -> value_ok host -> is_i64 port ->
  value_ok wsKey -> value_ok userId ->
  head_ok (request_start path) (request_fields host port wsKey userId).
Proof.
  intros Hp [Hh Hh'] Hport Hk Hu. split.
  - repeat apply no_crlf_app; (done || by apply no_crlf_check).
  - repeat (apply Forall_cons; split); try apply Forall_nil; split; cbn [fst snd];
      try (by apply plain_name); try (by apply plain_value); try done.
    split.
    + repeat apply no_crlf_app; [done|by apply no_crlf_check|by apply to_string_no_crlf].
    + split; apply head_app_neq; (done || apply Hh').
Qed.

Lemma response_ok acceptKey : value_ok acceptKey ->
  head_ok (str "HTTP/1.1 101 Switching Protocols") (response_fields acceptKey).
Proof.
  intros Hk. split; [by apply no_crlf_check|].
  repeat (apply Forall_cons; split); try apply Forall_nil; split; cbn [fst snd];
    try (by apply plain_name); try (by apply plain_value); done.
Qed.

(** ** The server side *)

(** The identity the server keeps when the request says [u] at time [t]. *)
Definition kept_userId (u : bytes) (t : Z) : bytes :=
  if bool_decide (clean_userId u = []) then str "cpp-" ++ to_string t else clean_userId u.

Lemma clean_userId_id u : Forall (fun c => iscntrl c = false) u -> (length u <= 128)%nat -> clean_userId u = u.
Proof.
  intros Hu Hl. unfold clean_userId. rewrite take_ge.
  - induction Hu as [|c u Hc Hu IH]; [done|]. cbn [List.filter length] in *. rewrite Hc. cbn [negb]. rewrite IH by lia. done.
  - etrans; [apply List.filter_length_le|done].
Qed.

Lemma clean_userId_spec u : Forall (fun c => iscntrl c = false) (clean_userId u) /\ (length (clean_userId u) <= 128)%nat.
Proof.
  split; [|unfold clean_userId; rewrite length_take; lia]. unfold clean_userId. apply Forall_take, Forall_forall.
  intros c Hc%list_elem_of_In. apply filter_In in Hc as [_ Hc]. by apply negb_true_iff.
Qed.

Section laws.
Context {W : Type} `{SysLaws W} (garbage : bytes) (env_path : option bytes).
Hypothesis garbage_size : length garbage = 64%nat.

Lemma nowMs_run s (w : W) :
  exists t w', nowMs w = (Ok t, w') /\ untouched s w w' /\ incoming s w' = incoming s w /\ 0 <= t < 2 ^ 62.
Proof.
  pose proof (now_law s w) as L. unfold nowMs. destruct (sys_now w) as [t w']. destruct L as (? & ? & ?).
  by exists t, w'.
Qed.

(** The choice of the identity. *)
Lemma userId_run s u (w : W) :
  exists t w', (if bool_decide (clean_userId u = []) then let! t := nowMs in iret (str "cpp-" ++ to_string t)
                else iret (clean_userId u)) w = (Ok (kept_userId u t), w')
    /\ untouched s w w' /\ incoming s w' = incoming s w /\ 0 <= t < 2 ^ 62.
Proof.
  unfold kept_userId. case_bool_decide.
  - destruct (nowMs_run s w) as (t & w' & E & Hu & Hin & Ht). rewrite (ibind_run _ _ _ _ _ E). by exists t, w'.
  - by exists 0, w.
Qed.

Lemma length_ws_response k : zlen (ws_response (accept_key k)) = 129.
Proof.
  unfold ws_response. rewrite !length_app. pose proof (length_accept_key k). cbn [length str CRLF]. lia.
Qed.

Lemma accept_upgrade_ok s host port wsKey userId rest u0 (w : W) :
  no_crlf (ws_path env_path) -> value_ok host -> is_i64 port -> value_ok wsKey -> wsKey <> [] -> value_ok userId ->
  zlen (ws_request (ws_path env_path) host port wsKey userId) <= 8193 ->
  incoming s w = ws_request (ws_path env_path) host port wsKey userId ++ rest ->
  129 <= room s w ->
  exists t w', accept_upgrade garbage env_path s u0 w = (Ok (s, kept_userId userId t), w')
    /\ outgoing s w' = outgoing s w ++ ws_response (accept_key wsKey)
    /\ opened w' = opened w /\ rest `prefix_of` incoming s w' /\ 0 <= t < 2 ^ 62.
Proof.
  intros Hp Hh Hport Hk Hk0 Hu Hlen Hin Hroom.
  pose proof (request_ok _ _ _ _ _ Hp Hh Hport Hk Hu) as Hok. rewrite ws_request_head in *.
  unfold accept_upgrade.
  destruct (recvHttpHeaders_ok s _ rest w Hin (head_text_block _ _ Hok) Hlen) as (w1 & E1 & Hu1 & Hin1).
  rewrite (ibind_run _ _ _ _ _ E1).
  assert (starts_with (str "GET " ++ ws_path env_path ++ str " HTTP/1.1" ++ CRLF)
    (head_text (request_start (ws_path env_path)) (request_fields host port wsKey userId)) = true) as Hsw.
  { apply starts_with_spec. eexists. unfold head_text, request_start, request_fields, field_text at 1.
    cbn [map concat fst snd]. rewrite <- !app_assoc. done. }
  rewrite bool_decide_eq_false_2 by (intros E; rewrite E in Hsw; cbn in Hsw; done).
  rewrite Hsw. cbn [negb].
  rewrite !(extractHeader_head _ _ _ Hok) by (by apply plain_name). rewrite ibind_lift.
  change (lookup_field (str "Upgrade") _) with (Some (str "websocket")). cbn [from_option id].
  rewrite bool_decide_eq_true_2 by done. cbn [negb].
  rewrite ibind_lift. change (lookup_field (str "Sec-WebSocket-Key") _) with (Some wsKey). cbn [from_option id].
  rewrite bool_decide_eq_false_2, ibind_lift by done.
  change (lookup_field (str "userId") _) with (Some userId). cbn [from_option id].
  destruct (userId_run s userId w1) as (t & w2 & E2 & Hu2 & Hin2 & Ht). rewrite (ibind_run _ _ _ _ _ E2).
  rewrite wsAcceptKey_spec, ibind_lift by done. pose proof (length_ws_response wsKey) as Hr.
  destruct Hu1 as (Ho1 & Hr1 & Hop1), Hu2 as (Ho2 & Hr2 & Hop2).
  destruct (sendAll_ok s (ws_response (accept_key wsKey)) w2) as (w3 & E3 & Ho3 & _ & Hop3 & Hp3); [lia|lia|].
  rewrite (ibind_run _ _ _ _ _ E3). exists t, w3.
  split_and!; [done|congruence|congruence| |lia..]. by rewrite Hin2, Hin1 in Hp3.
Qed.

(** ** The client side *)

(** A key that [generateWSKey] can return: Base64 of sixteen bytes. *)
Definition client_key (k : bytes) : Prop := exists l, length l = 16%nat /\ is_bytes l /\ k = b64_text l.

Lemma client_key_value k : client_key k -> value_ok k /\ k <> [] /\ zlen k = 24.
Proof.
  intros (l & Hl & Hb & ->). pose proof (length_b64_text l) as Hlen. rewrite Hl in Hlen.
  change (4 * ((Z.of_nat 16 + 2) / 3)) with 24 in Hlen.
  split_and!; [by apply b64_text_value| |done]. intros E. rewrite E in Hlen. done.
Qed.

Lemma generateWSKey_run s (w : W) :
  exists k w', generateWSKey w = (Ok k, w') /\ client_key k /\ untouched s w w' /\ incoming s w' = incoming s w.
Proof.
  unfold generateWSKey. destruct (mt_bytes_spec s 16 w) as (l & w' & E & Hl & Hb & Hu & Hin).
  rewrite (ibind_run _ _ _ _ _ E). exists (b64_text l), w'.
  pose proof (base64Encode_spec l Hb) as Hs. rewrite Hl in Hs. change (Z.of_nat 16) with 16 in Hs.
  unfold ilift. rewrite Hs. split_and!; try done. by exists l.
Qed.

(** The client sends its request; when the right response then arrives, the
    connection is up. *)
Lemma client_upgrade_ok s host port userId (w : W) :
  (forall k, client_key k -> zlen (ws_request (ws_path env_path) host port k userId) < 2 ^ 31
     /\ zlen (ws_request (ws_path env_path) host port k userId) <= room s w) ->
  exists k w1, client_key k
    /\ sent s (ws_request (ws_path env_path) host port k userId) w w1
    /\ forall rest, incoming s w1 = ws_response (accept_key k) ++ rest ->
       exists w', client_upgrade garbage env_path s host port userId w = (Ok (true, {| cl_sock := s |}), w')
         /\ untouched s w1 w' /\ incoming s w' = rest.
Proof.
  intros Hreq. unfold client_upgrade.
  destruct (generateWSKey_run s w) as (k & w0 & E0 & Hk & Hu0 & Hin0). rewrite (ibind_run _ _ _ _ _ E0).
  destruct (Hreq k Hk) as [Hl Hr]. pose proof Hu0 as (_ & Hr0 & _).
  destruct (sendAll_ok s (ws_request (ws_path env_path) host port k userId) w0) as (w1 & E1 & Hs); [lia|lia|].
  exists k, w1. split; [done|]. split; [by eapply sent_after|]. intros rest Hin.
  rewrite (ibind_run _ _ _ _ _ E1). cbn [negb].
  assert (head_ok (str "HTTP/1.1 101 Switching Protocols") (response_fields (accept_key k))) as Hok.
  { apply response_ok, b64_text_value, store_words_bytes. }
  pose proof (length_ws_response k) as Hlen. rewrite ws_response_head in Hin, Hlen.
  destruct (recvHttpHeaders_ok s _ rest w1 Hin (head_text_block _ _ Hok)) as (w2 & E2 & Hu2 & Hin2); [lia|].
  rewrite (ibind_run _ _ _ _ _ E2). rewrite bool_decide_eq_false_2 by done.
  assert (starts_with (str "HTTP/1.1 101 ") (head_text (str "HTTP/1.1 101 Switching Protocols")
    (response_fields (accept_key k))) = true) as -> by done. cbn [negb].
  rewrite (extractHeader_head _ _ _ Hok), ibind_lift by (by apply plain_name).
  change (lookup_field (str "Sec-WebSocket-Accept") _) with (Some (accept_key k)). cbn [from_option id].
  rewrite wsAcceptKey_spec, ibind_lift by done. rewrite bool_decide_eq_true_2 by done. by exists w2.
Qed.

(** ** Descriptors *)

(** The outcome of a handshake attempt on an open socket [s]. *)
Definition kept_or_closed (s : Z) (ok : bool) (w w' : W) : Prop :=
  opened w' = if ok then opened w else opened w ∖ {[ s ]}.

Lemma reject_run s u (w w0 : W) : opened w = opened w0 ->
  exists w', reject s u w = (Ok (HWS_INVALID_SOCKET, u), w') /\ kept_or_closed s false w0 w'.
Proof.
  intros Ho. eexists. split; [done|]. unfold kept_or_closed. by rewrite close_law, Ho.
Qed.

Lemma abandon_run s (w w0 : W) : opened w = opened w0 ->
  exists w', abandon s w = (Ok (false, {| cl_sock := HWS_INVALID_SOCKET |}), w') /\ kept_or_closed s false w0 w'.
Proof.
  intros Ho. eexists. split; [done|]. unfold kept_or_closed. by rewrite close_law, Ho.
Qed.

Lemma accept_upgrade_total s u0 (w : W) :
  exists (ok : bool) u w', accept_upgrade garbage env_path s u0 w = (Ok (if ok then s else HWS_INVALID_SOCKET, u), w')
    /\ kept_or_closed s ok w w'
    /\ (ok = true -> exists v t, u = kept_userId v t /\ 0 <= t < 2 ^ 62).
Proof.
  unfold accept_upgrade.
  destruct (recvHttpHeaders_spec s w) as (text & used & w1 & E1 & (_ & _ & Ho1) & _).
  rewrite (ibind_run _ _ _ _ _ E1).
  assert (forall u, exists (ok : bool) u' w', reject s u w1 = (Ok (if ok then s else HWS_INVALID_SOCKET, u'), w')
    /\ kept_or_closed s ok w w' /\ (ok = true -> exists v t, u' = kept_userId v t /\ 0 <= t < 2 ^ 62)) as Hrej.
  { intros u. destruct (reject_run s u w1 w Ho1) as (w' & E & Hc). by exists false, u, w'. }
  case_bool_decide; [apply Hrej|]. destruct (starts_with _ text); cbn [negb]; [|apply Hrej].
  destruct (extractHeader_total text (str "Upgrade")) as (up & _ & _ & -> & _). rewrite ibind_lift.
  case_bool_decide; cbn [negb]; [|apply Hrej].
  destruct (extractHeader_total text (str "Sec-WebSocket-Key")) as (k & _ & _ & -> & _). rewrite ibind_lift.
  case_bool_decide; [apply Hrej|].
  destruct (extractHeader_total text (str "userId")) as (v & _ & _ & -> & _). rewrite ibind_lift.
  destruct (userId_run s v w1) as (t & w2 & E2 & (_ & _ & Ho2) & _ & Ht). rewrite (ibind_run _ _ _ _ _ E2).
  rewrite wsAcceptKey_spec, ibind_lift by done. pose proof (length_ws_response k).
  destruct (sendAll_spec s (ws_response (accept_key k)) w2) as (w3 & E3 & _ & _ & Ho3 & _); [lia|].
  rewrite (ibind_run _ _ _ _ _ E3). destruct (_ <=? _).
  - exists true, (kept_userId v t), w3. split_and!; [done|unfold kept_or_closed; congruence|]. intros _. by exists v, t.
  - destruct (reject_run s (kept_userId v t) w3 w) as (w' & E & Hc); [congruence|]. by exists false, (kept_userId v t), w'.
Qed.

Lemma client_upgrade_total s host port userId (w : W) :
  (forall k, client_key k -> zlen (ws_request (ws_path env_path) host port k userId) < 2 ^ 31) ->
  exists (ok : bool) w', client_upgrade garbage env_path s host port userId w =
      (Ok (ok, {| cl_sock := if ok then s else HWS_INVALID_SOCKET |}), w')
    /\ kept_or_closed s ok w w'.
Proof.
  intros Hreq. unfold client_upgrade.
  destruct (generateWSKey_run s w) as (k & w0 & E0 & Hk & (_ & _ & Ho0) & _). rewrite (ibind_run _ _ _ _ _ E0).
  destruct (sendAll_spec s (ws_request (ws_path env_path) host port k userId) w0) as (w1 & E1 & _ & _ & Ho1 & _);
    [by apply Hreq|]. rewrite (ibind_run _ _ _ _ _ E1).
  assert (forall w2, opened w2 = opened w -> exists (ok : bool) w', abandon s w2 =
      (Ok (ok, {| cl_sock := if ok then s else HWS_INVALID_SOCKET |}), w') /\ kept_or_closed s ok w w') as Hgive.
  { intros w2 Ho. destruct (abandon_run s w2 w Ho) as (w' & E & Hc). by exists false, w'. }
  destruct (_ <=? _); cbn [negb]; [|apply Hgive; congruence].
  destruct (recvHttpHeaders_spec s w1) as (text & used & w2 & E2 & (_ & _ & Ho2) & _). rewrite (ibind_run _ _ _ _ _ E2).
  case_bool_decide; [apply Hgive; congruence|].
  destruct (starts_with _ text); cbn [negb]; [|apply Hgive; congruence].
  destruct (extractHeader_total text (str "Sec-WebSocket-Accept")) as (got & _ & _ & -> & _).
  rewrite ibind_lift, wsAcceptKey_spec, ibind_lift by done. case_bool_decide; cbn [negb]; [|apply Hgive; congruence].
  exists true, w2. split; [done|]. unfold kept_or_closed. congruence.
Qed.
End laws.

(** ** Properties *)

(** C8: the two ends agree.  With the same WS_PATH on both sides, a plain host
    and identity, the client's upgrade sends one request under a fresh key such
    that (1) every server connection that delivers the request accepts it,
    takes over the identity and answers with the response of that key, and
    (2) once that response arrives at the client, the client's connection is
    up and nothing behind the response is consumed. *)
Theorem handshake_interop {Wc Ws} `{SysLaws Wc} `{SysLaws Ws} g1 g2 env c host port userId (wc : Wc) :
  length g1 = 64%nat -> length g2 = 64%nat ->
  no_crlf (ws_path env) -> value_ok host -> is_u16 port -> value_ok userId ->
  Forall (fun x => iscntrl x = false) userId -> userId <> [] -> (length userId <= 128)%nat ->
  zlen (ws_path env) + zlen host <= 7800 -> 8193 <= room c wc ->
  exists key wc1, client_key key
    /\ sent c (ws_request (ws_path env) host port key userId) wc wc1
    /\ (forall s u0 (ws : Ws) rest,
          incoming s ws = ws_request (ws_path env) host port key userId ++ rest -> 129 <= room s ws ->
          exists ws', accept_upgrade g1 env s u0 ws = (Ok (s, userId), ws')
            /\ outgoing s ws' = outgoing s ws ++ ws_response (accept_key key)
            /\ opened ws' = opened ws /\ rest `prefix_of` incoming s ws')
    /\ (forall rest, incoming c wc1 = ws_response (accept_key key) ++ rest ->
          exists wc', client_upgrade g2 env c host port userId wc = (Ok (true, {| cl_sock := c |}), wc')
            /\ incoming c wc' = rest).
Proof.
  intros Hg1 Hg2 Hp Hh Hport Hu Huc Hu0 Hul Hsize Hroom.
  assert (forall k, client_key k -> zlen (ws_request (ws_path env) host port k userId) <= 8193) as Hlen.
  { intros k Hk. destruct (client_key_value k Hk) as (_ & _ & Hkl). unfold ws_request.
    pose proof (digits_length 20 port []) as Hd. unfold to_string.
    rewrite (proj2 (Z.ltb_ge _ _)) by solve_width. rewrite !length_app. cbn [length str CRLF] in *. lia. }
  destruct (client_upgrade_ok g2 env Hg2 c host port userId wc) as (key & wc1 & Hk & Hs & Hup).
  { intros k Hk. specialize (Hlen k Hk). lia. }
  exists key, wc1. split_and!; [done|done| |].
  - intros s u0 ws rest Hin Hr. destruct (client_key_value key Hk) as (Hkv & Hk0 & _).
    destruct (accept_upgrade_ok g1 env Hg1 s host port key userId rest u0 ws)
      as (t & ws' & E & Ho & Hop & Hpre & _); try done; [solve_width|by apply Hlen|].
    exists ws'. unfold kept_userId in E. rewrite clean_userId_id, bool_decide_eq_false_2 in E by done. done.
  - intros rest Hin. destruct (Hup rest Hin) as (wc' & E & _ & Hin'). by exists wc'.
Qed.

Lemma handshake_interop_witness :
  exists key wc1, client_key key
    /\ sent 7 (ws_request (str "/ws") (str "localhost") 9898 key (str "cpp-client-1")) (tape_of [] (Z.to_nat 9000)) wc1
    /\ (forall s u0 (ws : tape silent) rest,
          incoming s ws = ws_request (str "/ws") (str "localhost") 9898 key (str "cpp-client-1") ++ rest ->
          129 <= room s ws ->
          exists ws', accept_upgrade (replicate 64 0xAA) None s u0 ws = (Ok (s, str "cpp-client-1"), ws')
            /\ outgoing s ws' = outgoing s ws ++ ws_response (accept_key key)
            /\ opened ws' = opened ws /\ rest `prefix_of` incoming s ws')
    /\ (forall rest, incoming 7 wc1 = ws_response (accept_key key) ++ rest ->
          exists wc', client_upgrade (replicate 64 0x55) None 7 (str "localhost") 9898 (str "cpp-client-1")
                        (tape_of [] (Z.to_nat 9000)) = (Ok (true, {| cl_sock := 7 |}), wc')
            /\ incoming 7 wc' = rest).
Proof.
  apply (handshake_interop (Ws := tape silent) (replicate 64 0xAA) (replicate 64 0x55) None 7 (str "localhost") 9898
           (str "cpp-client-1") (tape_of [] (Z.to_nat 9000)));
    [reflexivity|reflexivity|by apply no_crlf_check|by apply plain_value|vm_compute; split; congruence
    |by apply plain_value|vm_compute; repeat constructor|discriminate|vm_compute; lia|vm_compute; discriminate
    |vm_compute; discriminate].
Defined.

(** Opening [s] and closing it again leaves the descriptors as they were. *)
Lemma fresh_closed (s : Z) (X Y : gset Z) : s ∉ X -> Y = {[ s ]} ∪ X -> Y ∖ {[ s ]} = X.
Proof.
  intros Hs ->. apply leibniz_equiv. intros x. rewrite elem_of_difference, elem_of_union, !elem_of_singleton.
  split; [tauto|]. intros Hx. split; [by right|]. by intros ->.
Qed.

Lemma server_accept_spec {W} `{SysLaws W} garbage env srv u0 (w : W) :
  length garbage = 64%nat ->
  exists s u w', server_accept garbage env srv u0 w = (Ok (s, u), w')
    /\ (if s =? HWS_INVALID_SOCKET then opened w' = opened w
        else (s ∉ opened w) /\ opened w' = {[ s ]} ∪ opened w
             /\ Forall (fun c => iscntrl c = false) u /\ (1 <= length u <= 128)%nat).
Proof.
  intros Hg. unfold server_accept. pose proof (accept_law (listenSock srv) w) as L.
  destruct (sys_accept (listenSock srv) w) as [s w1]. destruct (s =? HWS_INVALID_SOCKET) eqn:Es.
  { exists HWS_INVALID_SOCKET, u0, w1. by rewrite Z.eqb_refl. }
  destruct L as [Hs Ho]. destruct (accept_upgrade_total garbage env Hg s u0 w1) as (ok & u & w2 & E & Hc & Hu).
  eexists _, u, w2. split; [exact E|]. unfold kept_or_closed in Hc. destruct ok.
  - rewrite Es. destruct (Hu eq_refl) as (v & t & -> & Ht). split_and!; [done|congruence|..]; unfold kept_userId.
    + case_bool_decide; [|apply clean_userId_spec]. apply Forall_app; split; [by repeat constructor|].
      destruct (to_string_value t) as (Hd & _ & Hs'); [solve_width|]. rewrite Hs'.
      rewrite (proj2 (Z.ltb_ge _ _)) by lia. eapply Forall_impl; [exact Hd|]. cbn beta. intros c Hc'.
      unfold iscntrl. rewrite (proj2 (Z.ltb_ge _ _)), (proj2 (Z.eqb_neq _ _)) by lia. done.
    + case_bool_decide; [rewrite length_app; cbn; lia|]. by destruct (clean_userId v); [|cbn; lia].
    + case_bool_decide; [|apply clean_userId_spec]. rewrite length_app. unfold to_string.
      rewrite (proj2 (Z.ltb_ge _ _)) by lia. pose proof (digits_length 20 t []). cbn [length str] in *. lia.
  - rewrite Z.eqb_refl, Hc. by apply fresh_closed.
Qed.

(** C36: [WSServer::accept] returns for every connection and every request
    text, leaks no descriptor and keeps a clean identity: a failed attempt
    leaves the open descriptors exactly as before, a successful one adds the
    returned socket, and the identity then has 1 to 128 characters and no
    control character. *)
Theorem server_accept_safe {W} `{SysLaws W} garbage env srv u0 (w : W) :
  length garbage = 64%nat ->
  exists s u w', server_accept garbage env srv u0 w = (Ok (s, u), w')
    /\ (if s =? HWS_INVALID_SOCKET then opened w' = opened w
        else (s ∉ opened w) /\ opened w' = {[ s ]} ∪ opened w
             /\ Forall (fun c => iscntrl c = false) u /\ (1 <= length u <= 128)%nat).
Proof. apply server_accept_spec. Qed.

Lemma server_accept_safe_witness :
  let w := tape_of (ws_request (str "/ws") (str "h") 1 (str "k") [9; 65; 7]) 200 in
  exists s u w', server_accept (replicate 64 0) None {| listenSock := 3 |} [] w = (Ok (s, u), w')
    /\ (if s =? HWS_INVALID_SOCKET then opened w' = opened w
        else (s ∉ opened w) /\ opened w' = {[ s ]} ∪ opened w
             /\ Forall (fun c => iscntrl c = false) u /\ (1 <= length u <= 128)%nat).
Proof. intros w. apply (server_accept_safe (replicate 64 0) None {| listenSock := 3 |} [] w). reflexivity. Defined.

Lemma client_connect_spec {W} `{SysLaws W} garbage env host port userId (w : W) :
  length garbage = 64%nat ->
  zlen (ws_path env) + zlen host + zlen userId < 2 ^ 30 -> is_u16 port ->
  exists (ok : bool) cl w', client_connect garbage env host port userId w = (Ok (ok, cl), w')
    /\ (if ok then (cl_sock cl ∉ opened w) /\ opened w' = {[ cl_sock cl ]} ∪ opened w
        else cl_sock cl = HWS_INVALID_SOCKET /\ opened w' = opened w).
Proof.
  intros Hg Hsize Hport. unfold client_connect. pose proof (socket_law w) as L.
  destruct (sys_socket w) as [s w1]. destruct (s =? HWS_INVALID_SOCKET) eqn:Es.
  { exists false, {| cl_sock := s |}, w1. split; [done|]. split; [by apply Z.eqb_eq|done]. }
  destruct L as [Hs Ho]. pose proof (resolve_law host w1) as Lr. destruct (sys_resolve host w1) as [found w2].
  assert (forall w3, opened w3 = opened w1 -> exists (ok : bool) cl w', abandon s w3 = (Ok (ok, cl), w')
    /\ (if ok then (cl_sock cl ∉ opened w) /\ opened w' = {[ cl_sock cl ]} ∪ opened w
        else cl_sock cl = HWS_INVALID_SOCKET /\ opened w' = opened w)) as Hgive.
  { intros w3 Ho3. destruct (abandon_run s w3 w1 Ho3) as (w' & E & Hc). eexists false, _, w'. split; [exact E|].
    split; [done|]. unfold kept_or_closed in Hc. rewrite Hc. by apply fresh_closed. }
  destruct found; cbn [negb]; [|by apply Hgive].
  pose proof (connect_law s host port w2) as Lc. destruct (sys_connect s host port w2) as [r w3].
  cbn [snd] in *. destruct (r =? -1); [apply Hgive; congruence|].
  destruct (client_upgrade_total garbage env Hg s host port userId w3) as (ok & w4 & E & Hc).
  { intros k Hk. destruct (client_key_value k Hk) as (_ & _ & Hkl). unfold ws_request, to_string.
    pose proof (digits_length 20 port []).
    rewrite (proj2 (Z.ltb_ge port 0)) by solve_width. rewrite !length_app. cbn [length str CRLF] in *. lia. }
  eexists ok, _, w4. split; [exact E|]. unfold kept_or_closed in Hc. cbn [cl_sock].
  destruct ok; [split; [done|congruence]|split; [done|]]. rewrite Hc. apply fresh_closed; congruence.
Qed.

Lemma server_listen_spec {W} `{SysLaws W} port (w : W) :
  exists (ok : bool) srv w1 srv' w2, server_listen port w = (Ok (ok, srv), w1)
    /\ (if ok then (listenSock srv ∉ opened w) /\ opened w1 = {[ listenSock srv ]} ∪ opened w
        else listenSock srv = HWS_INVALID_SOCKET /\ opened w1 = opened w)
    /\ server_close srv w1 = (Ok srv', w2) /\ listenSock srv' = HWS_INVALID_SOCKET /\ opened w2 = opened w.
Proof.
  unfold server_listen. pose proof (socket_law w) as L.
  destruct (sys_socket w) as [s w1]. destruct (s =? HWS_INVALID_SOCKET) eqn:Es.
  { apply Z.eqb_eq in Es as ->. eexists false, _, w1, _, w1. split; [reflexivity|]. by split_and!. }
  destruct L as [Hs Ho]. pose proof (bind_law s port w1) as Lb. destruct (sys_bind s port w1) as [r w2].
  assert (forall w3, opened w3 = opened w1 -> opened (sys_close s w3) = opened w) as Hclose.
  { intros w3 Ho3. rewrite close_law, Ho3. by apply fresh_closed. }
  cbn [snd] in Lb. destruct (r =? -1).
  { eexists false, _, _, _, _. split; [reflexivity|]. split_and!; [done|by apply Hclose|reflexivity|done|by apply Hclose]. }
  pose proof (listen_law s 5 w2) as Ll. destruct (sys_listen s 5 w2) as [r' w3]. cbn [snd] in Ll.
  destruct (r' =? -1).
  { eexists false, _, _, _, _. split; [reflexivity|].
    split_and!; [done|apply Hclose; congruence|reflexivity|done|apply Hclose; congruence]. }
  eexists true, _, w3, _, _. split; [reflexivity|]. cbn [listenSock]. split_and!; [done|congruence|..].
  - unfold server_close. cbn [listenSock]. rewrite Es. reflexivity.
  - done.
  - apply Hclose. congruence.
Qed.

(** C12: the accept key is the one of RFC 6455, section 4.2.2, for every key and
    whatever the uninitialised buffer of the hash object held: a text of 28
    characters that is the Base64 text of the FIPS 180-4 SHA-1 digest of the key
    followed by the GUID of the RFC, and that decodes to this digest. *)
Theorem wsAcceptKey_rfc garbage k :
  length garbage = 64%nat -> is_bytes k ->
  let digest := SHA1_digest (k ++ str "258EAFA5-E914-47DA-95CA-C5AB0DC85B11") in
  wsAcceptKey garbage k = Ok (b64_text digest)
  /\ zlen (b64_text digest) = 28 /\ b64_decode (b64_text digest) = Some digest.
Proof.
  intros Hg Hk digest. assert (digest = store_words (md_hash sha1_block sha1_iv (k ++ WS_GUID))) as ->.
  { symmetry. apply sha1_digest_fips, Forall_app. split; [done|apply str_bytes]. }
  split_and!; [by apply wsAcceptKey_spec|apply length_accept_key|]. apply b64_decode_text, store_words_bytes.
Qed.

Lemma wsAcceptKey_rfc_witness :
  let digest := SHA1_digest (str "dGhlIHNhbXBsZSBub25jZQ==" ++ str "258EAFA5-E914-47DA-95CA-C5AB0DC85B11") in
  wsAcceptKey (replicate 64 0xAA) (str "dGhlIHNhbXBsZSBub25jZQ==") = Ok (b64_text digest)
  /\ zlen (b64_text digest) = 28 /\ b64_decode (b64_text digest) = Some digest.
Proof. apply (wsAcceptKey_rfc (replicate 64 0xAA) (str "dGhlIHNhbXBsZSBub25jZQ==")); [reflexivity|apply str_bytes]. Defined.

(** The example of RFC 6455, section 1.3. *)
Example wsAcceptKey_example :
  wsAcceptKey (replicate 64 0xAA) (str "dGhlIHNhbXBsZSBub25jZQ==") = Ok (str "s3pPLMBiTxaQ9kYGzzhZRbK+xOo=").
Proof. vm_compute. reflexivity. Qed.

(** A client whose peer is the server code: the request goes out in pieces, the
    peer runs [accept_upgrade] on it, and the client comes up. *)
Definition server_peer (out : bytes) : bytes :=
  if ends_headers out
  then outgoing 7 (snd (accept_upgrade (replicate 64 0) None 7 [] (tape_of out (Z.to_nat 500))))
  else [].
Example connect_to_server :
  match client_connect (replicate 64 0xAA) None (str "localhost") 9898 (str "cpp-client-1")
          (Tape server_peer [] [] (Z.to_nat 500) 99 true [] 1 0) with
  | (Ok (ok, cl), w) => (ok, cl_sock cl, t_fds w)
  | _ => (false, 0, [])
  end = (true, 1, [1]).
Proof. vm_compute. reflexivity. Qed.
