(* ===== verification/Clock.v ===== *)
(** * Wall-clock text (common/codec.hpp: gmtimeSafe, nowISO)

    The UTC calendar of [gmtime_r] and the ISO-8601 text the server puts in its
    TIME_NOTIFICATION messages.  The time itself comes from the world. *)

From S2P Require Import Prelude Socket Utf8 ByteIO.

(** ** The code *)

(** The fields of [std::tm] that the format uses, with the year and the month
    as they are printed. *)
Record tm := { tm_year : Z; tm_mon : Z; tm_mday : Z; tm_hour : Z; tm_min : Z; tm_sec : Z }.

Definition leap (y : Z) : bool := (y mod 4 =? 0) && (negb (y mod 100 =? 0) || (y mod 400 =? 0)).
Definition year_days (y : Z) : Z := if leap y then 366 else 365.
Definition month_days (y : Z) : list Z :=
  [31; if leap y then 29 else 28; 31; 30; 31; 30; 31; 31; 30; 31; 30; 31].

(** The year a day falls in, counting years from [y], and the day in it. *)
Fixpoint split_year (fuel : nat) (y day : Z) : Z * Z :=
  match fuel with
  | O => (y, day)
  | S f => if day <? year_days y then (y, day) else split_year f (y + 1) (day - year_days y)
  end.

(** The month and the day in it, both from one. *)
Fixpoint split_month (ms : list Z) (mon day : Z) : Z * Z :=
  match ms with
  | [] => (mon, day + 1)
  | m :: ms => if day <? m then (mon, day + 1) else split_month ms (mon + 1) (day - m)
  end.

(** [gmtime_r] of a time in seconds since 1970. *)
Definition gmtimeSafe (t : Z) : tm :=
  let '(y, d) := split_year (S (Z.to_nat (t / 86400 / 365))) 1970 (t / 86400) in
  let '(mon, mday) := split_month (month_days y) 1 d in
  {| tm_year := y; tm_mon := mon; tm_mday := mday;
     tm_hour := t mod 86400 / 3600; tm_min := t mod 3600 / 60; tm_sec := t mod 60 |}.

Definition two (n : Z) : bytes := [48 + n / 10; 48 + n mod 10].

(** [std::put_time(&tm, "%Y-%m-%dT%H:%M:%SZ")]. *)
Definition put_iso (t : tm) : bytes :=
  to_string (tm_year t) ++ [45] ++ two (tm_mon t) ++ [45] ++ two (tm_mday t) ++ [84] ++
  two (tm_hour t) ++ [58] ++ two (tm_min t) ++ [58] ++ two (tm_sec t) ++ [90].

Definition nowISO {W} `{Sys W} : io W bytes :=
  let! ms := nowMs in iret (put_iso (gmtimeSafe (ms / 1000))).

(** ** The reference: counting days *)

(** Days from 1970 to the first of January of [y], in closed form. *)
Definition days_before (y : Z) : Z :=
  365 * (y - 1970) + ((y - 1) / 4 - 1969 / 4) - ((y - 1) / 100 - 1969 / 100) + ((y - 1) / 400 - 1969 / 400).

(** Seconds since 1970 of a broken-down time ([timegm]). *)
Definition timegm (t : tm) : Z :=
  (days_before (tm_year t)
   + foldr Z.add 0 (take (Z.to_nat (tm_mon t - 1)) (month_days (tm_year t)))
   + (tm_mday t - 1)) * 86400
  + tm_hour t * 3600 + tm_min t * 60 + tm_sec t.

(** A date of the calendar and a time of the day. *)
Definition tm_ok (t : tm) : Prop :=
  1 <= tm_mon t <= 12
  /\ (exists m, month_days (tm_year t) !! Z.to_nat (tm_mon t - 1) = Some m /\ 1 <= tm_mday t <= m)
  /\ 0 <= tm_hour t < 24 /\ 0 <= tm_min t < 60 /\ 0 <= tm_sec t < 60.

(** ** Lemmas *)

Lemma days_before_succ y : days_before (y + 1) = days_before y + year_days y.
Proof.
  unfold days_before, year_days, leap.
  destruct (Z.eqb_spec (y mod 4) 0), (Z.eqb_spec (y mod 100) 0), (Z.eqb_spec (y mod 400) 0); cbn [andb orb negb];
    Z.to_euclidean_division_equations; lia.
Qed.

Lemma year_days_range y : 365 <= year_days y <= 366.
Proof. unfold year_days. destruct (leap y); lia. Qed.

Lemma split_year_spec fuel y day : 0 <= day -> day < 365 * Z.of_nat fuel ->
  let '(y', d) := split_year fuel y day in
  days_before y' + d = days_before y + day /\ 0 <= d < year_days y' /\ y <= y' <= y + day / 365.
Proof.
  revert y day. induction fuel as [|f IH]; intros y day H0 Hf; [lia|]. cbn [split_year].
  pose proof (year_days_range y). destruct (Z.ltb_spec day (year_days y)).
  - pose proof (Z.div_pos day 365). split_and!; lia.
  - specialize (IH (y + 1) (day - year_days y)). destruct (split_year f (y + 1) (day - year_days y)) as [y' d].
    rewrite days_before_succ in IH. destruct IH as (? & ? & ? & ?); [lia|lia|]. split_and!; try lia.
    assert ((day - year_days y) / 365 <= (day - 365) / 365) by (apply Z.div_le_mono; lia).
    replace (day - 365) with (day + (-1) * 365) in * by lia. rewrite Z.div_add in * by lia. lia.
Qed.

Lemma split_month_spec ms mon day : 0 <= day < foldr Z.add 0 ms ->
  let '(mon', mday) := split_month ms mon day in
  exists i m, mon' = mon + Z.of_nat i /\ ms !! i = Some m /\ 1 <= mday <= m
    /\ foldr Z.add 0 (take i ms) + (mday - 1) = day.
Proof.
  revert mon day. induction ms as [|m ms IH]; intros mon day Hd; cbn [foldr] in Hd; [lia|]. cbn [split_month].
  destruct (Z.ltb_spec day m).
  - exists 0%nat, m. cbn. split_and!; (done || lia).
  - specialize (IH (mon + 1) (day - m)). destruct (split_month ms (mon + 1) (day - m)) as [mon' mday].
    destruct IH as (i & m' & -> & Hi & Hm & Hsum); [lia|]. exists (S i), m'. cbn. split_and!; (done || lia).
Qed.

Lemma month_days_total y : foldr Z.add 0 (month_days y) = year_days y /\ length (month_days y) = 12%nat.
Proof. unfold month_days, year_days. by destruct (leap y). Qed.

(** ** Properties *)

Lemma gmtimeSafe_spec t : 0 <= t -> timegm (gmtimeSafe t) = t /\ tm_ok (gmtimeSafe t)
  /\ 1970 <= tm_year (gmtimeSafe t) <= 1970 + t / 86400 / 365.
Proof.
  intros Ht. assert (0 <= t / 86400) as Hd by (apply Z.div_pos; lia). unfold gmtimeSafe.
  pose proof (split_year_spec (S (Z.to_nat (t / 86400 / 365))) 1970 (t / 86400) Hd) as HY.
  destruct (split_year _ _ _) as [y d]. destruct HY as (Hy & Hdr & Hyr).
  { pose proof (Z.div_pos (t / 86400) 365). rewrite Nat2Z.inj_succ, Z2Nat.id by lia.
    Z.to_euclidean_division_equations. lia. }
  destruct (month_days_total y) as [Hsum Hlen].
  pose proof (split_month_spec (month_days y) 1 d) as HM. destruct (split_month (month_days y) 1 d) as [mon mday].
  destruct HM as (i & m & -> & Hi & Hm & Hs); [lia|]. pose proof (lookup_lt_Some _ _ _ Hi) as Hil.
  unfold timegm, tm_ok. cbn [tm_year tm_mon tm_mday tm_hour tm_min tm_sec].
  replace (1 + Z.of_nat i - 1) with (Z.of_nat i) by lia. rewrite Nat2Z.id. split_and!; try lia.
  - change (days_before 1970) with 0 in Hy.
    replace (days_before y + foldr Z.add 0 (take i (month_days y)) + (mday - 1)) with (t / 86400) by lia.
    Z.to_euclidean_division_equations. lia.
  - by exists m.
  - Z.to_euclidean_division_equations. lia.
  - apply Z.div_lt_upper_bound; [lia|]. pose proof (Z.mod_pos_bound t 86400). lia.
  - apply Z.div_pos; [apply Z.mod_pos_bound|]; lia.
  - apply Z.div_lt_upper_bound; [lia|]. pose proof (Z.mod_pos_bound t 3600). lia.
  - apply Z.mod_pos_bound. lia.
  - apply Z.mod_pos_bound. lia.
Qed.

(** The text of a time up to the year 9999: twenty printable characters. *)
Lemma to_string_4 n : 1000 <= n < 10000 -> length (to_string n) = 4%nat.
Proof.
  intros Hn. unfold to_string. rewrite (proj2 (Z.ltb_ge _ _)) by lia.
  do 4 (cbn [digits]; match goal with |- context [?a <? 10] => destruct (Z.ltb_spec a 10) end;
    [try done; exfalso; Z.to_euclidean_division_equations; lia|]).
  exfalso. Z.to_euclidean_division_equations. lia.
Qed.



(** A leap day. *)
Example iso_leap_day : put_iso (gmtimeSafe 1709210096) = str "2024-02-29T12:34:56Z".
Proof. vm_compute. reflexivity. Qed.
