(* ===== verification/Server.v ===== *)
(** * The server session (server/ws_server.cpp: main, handleClient)

    The port of [main], and the receive loop of one connection with the
    variables it shares with the other threads of the session and the handler
    of each message type.  [reply_to] and [next_session] are the abstract
    contract of the handler, written out field by field; the code is shown to
    refine it, bytes on the wire included.  The threads are in ServerThreads.v,
    the rest of [main] in ServerMain.v.  Logging only writes to the console and
    is left out. *)

From S2P Require Import Prelude StdMap Utf8 ByteIO Message Codec HashBlocks Fips180 Sha256 Socket WsFrame WsReceive Clock.

(** ** The code *)

Definition PORT : Z := 9898.
Definition SERVER_LANG : bytes := str "CPP".
Definition SESSION_TIMEOUT_MS : Z := 60000.

(** [atoi]: blanks, a sign, then digits.  C leaves values outside [int] open;
    the C library converts through a saturating [long]. *)
Definition isspace (c : Z) : bool := (c =? 32) || ((9 <=? c) && (c <=? 13)).
Fixpoint atoi_digits (s : bytes) (acc : Z) : Z :=
  match s with
  | c :: s => if (48 <=? c) && (c <=? 57) then atoi_digits s (acc * 10 + (c - 48)) else acc
  | [] => acc
  end.
Fixpoint atoi (s : bytes) : Z :=
  match s with
  | [] => 0
  | c :: s' =>
      if isspace c then atoi s'
      else if c =? 45 then i32 (Z.max (- 2 ^ 63) (- atoi_digits s' 0))
      else if c =? 43 then i32 (Z.min (2 ^ 63 - 1) (atoi_digits s' 0))
      else i32 (Z.min (2 ^ 63 - 1) (atoi_digits s 0))
  end.

(** The port of [main], from WS_PORT. *)
Definition main_port (portEnv : option bytes) : Z :=
  match portEnv with
  | None => PORT
  | Some s => let v := atoi s in if 0 <? v then u16 v else PORT
  end.

(** The variables the threads of a session share, and [clientLanguage] of the
    receive loop. *)
Record session := { active : bool; lastPongTs : Z; clientLang : bytes }.
#[export] Instance session_eta : Eta session := fun st =>
  {| active := active st; lastPongTs := lastPongTs st; clientLang := clientLang st |}.
#[export] Instance set_active : Settable active := ltac:(derive_setter).
#[export] Instance set_lastPongTs : Settable lastPongTs := ltac:(derive_setter).
#[export] Instance set_clientLang : Settable clientLang := ltac:(derive_setter).

(** [std::hex << static_cast<int>(type)]. *)
Definition hex_int (n : Z) : bytes :=
  if n <? 16 then [hex_digit n] else [hex_digit (n / 16); hex_digit (n mod 16)].

(** The messages the server builds. *)
Definition bonjour : Message := (new_message MSG_BONJOUR) <| serverLanguage := SERVER_LANG |>.
Definition echo_result_of (now : Z) (lang : bytes) (m : Message) : EchoResult :=
  let kv := kv_set (str "id") (to_string (echoId m)) [] in
  let kv := kv_set (str "data") (echoData m) kv in
  let kv := kv_set (str "meta") (echoMeta m) kv in
  let kv := kv_set (str "lang") lang kv in
  {| idx := now; er_type := 0; kv := kv |}.
Definition echo_response (now : Z) (lang : bytes) (m : Message) : Message :=
  (new_message MSG_ECHO_RESPONSE) <| echoStatus := 200 |> <| echoResults := [echo_result_of now lang m] |>.
Definition hash_response (m : Message) (hash : bytes) : Message :=
  (new_message MSG_HASH_RESPONSE) <| randomId := randomId m |> <| hashHex := hash |>.
Definition error_message (code : Z) (text : bytes) : Message :=
  (new_message MSG_ERROR) <| errorCode := code |> <| errorMessage := text |>.
Definition ping_message (now : Z) : Message := (new_message MSG_PING) <| timestampMs := now |>.
Definition time_message (now : Z) (iso : bytes) : Message :=
  (new_message MSG_TIME_NOTIFICATION) <| timestampMs := now |> <| iso8601 := iso |>.
Definition kiss_message : Message :=
  (new_message MSG_KISS_REQUEST) <| osName := str "Linux" |> <| osVersion := str "unknown" |>
    <| osRelease := str "unknown" |> <| osArch := str "x86_64" |>.

Section code.
Context {W : Type} `{Sys W} (clientSock : Z).

(** Code of a session runs over the shared variables and the world. *)
Abbreviation sio := (io (session * W)).

Definition on_net {A} (m : io W A) : sio A := fun c => let '(r, w) := m (snd c) in (r, (fst c, w)).
Definition get_session : sio session := fun c => (Ok (fst c), c).
Definition set_session (st : session) : sio unit := fun c => (Ok tt, (st, snd c)).
Definition deactivate : sio unit :=
  let! st := get_session in set_session (st <| active := false |>).

(** [sendFrame]: under the mutex, and only while active. *)
Definition sendFrame (data : bytes) : sio bool :=
  let! st := get_session in
  if active st then on_net (wsSendBinary clientSock data) else iret false.

(** [sendFrame(m.encode())]. *)
Definition send_message (m : Message) : sio bool :=
  let! data := ilift (encode m) in sendFrame data.

(** The [switch (msg.type)] of the receive loop. *)
Definition handle_message (msg : Message) : sio unit :=
  if type msg =? MSG_HELLO then
    let! st := get_session in
    let! _ := set_session (st <| clientLang := clientLanguage msg |>) in
    let! _ := send_message bonjour in iret tt
  else if type msg =? MSG_ECHO_REQUEST then
    let! now := on_net nowMs in
    let! st := get_session in
    let! _ := send_message (echo_response now (clientLang st) msg) in iret tt
  else if type msg =? MSG_KISS_RESPONSE then iret tt
  else if type msg =? MSG_PONG then
    let! now := on_net nowMs in
    let! st := get_session in
    set_session (st <| lastPongTs := now |>)
  else if type msg =? MSG_RANDOM_NUMBER then
    let! hash := ilift (hashNumber (randomNumber msg)) in
    let! _ := send_message (hash_response msg hash) in iret tt
  else if type msg =? MSG_DISCONNECT then deactivate
  else if type msg =? MSG_ERROR then iret tt
  else
    let! _ := send_message (error_message ERR_UNKNOWN_MSG_TYPE (str "unknown type 0x" ++ hex_int (type msg))) in
    iret tt.

(** What the loop does with one frame; false leaves the loop. *)
Definition serve_frame (frame : WSFrame) : sio bool :=
  if negb (isValid frame) || isClose frame then iret false
  else
    match decodeMessage (WsFrame.payload frame) (zlen (WsFrame.payload frame)) with
    | Ok msg => let! _ := handle_message msg in iret true
    | Throw e =>
        let unknown := starts_with (str "unknown message type") e in
        let! _ := send_message (error_message (if unknown then ERR_UNKNOWN_MSG_TYPE else ERR_DECODE) e) in
        let! _ := if negb unknown then deactivate else iret tt in
        iret true
    | Stuck => ilift Stuck
    end.

(** [while (active)] of the receive loop: at most [rounds] messages, each of at
    most [fuel] WebSocket frames. *)
Fixpoint receive_loop (rounds fuel : nat) : sio unit :=
  let! st := get_session in
  if negb (active st) then iret tt
  else match rounds with
       | O => ilift Stuck
       | S rounds =>
           let! frame := on_net (wsRecvFrame fuel clientSock true) in
           let! go := serve_frame frame in
           if go then receive_loop rounds fuel else iret tt
       end.
End code.

(** ** The contract of the handler *)

(** The hash text of a number: ten hexadecimal characters of its SHA-256. *)
Definition hash_text (n : Z) : bytes :=
  take 10 (hex_text (SHA256 (to_string n))).

(** The one result of an echo: the request's fields and the session's
    language, in the order of their keys. *)
Definition echoed (now : Z) (lang : bytes) (m : Message) : EchoResult :=
  {| idx := now; er_type := 0;
     kv := [(str "data", echoData m); (str "id", to_string (echoId m)); (str "lang", lang); (str "meta", echoMeta m)] |}.

(** The message the server answers with, at time [now]. *)
Definition reply_to (now : Z) (lang : bytes) (m : Message) : option Message :=
  if type m =? MSG_HELLO then Some ((new_message MSG_BONJOUR) <| serverLanguage := str "CPP" |>)
  else if type m =? MSG_ECHO_REQUEST then
    Some ((new_message MSG_ECHO_RESPONSE) <| echoStatus := 200 |> <| echoResults := [echoed now lang m] |>)
  else if type m =? MSG_RANDOM_NUMBER then
    Some ((new_message MSG_HASH_RESPONSE) <| randomId := randomId m |> <| hashHex := hash_text (randomNumber m) |>)
  else if bool_decide (type m ∈ [MSG_KISS_RESPONSE; MSG_PONG; MSG_DISCONNECT; MSG_ERROR]) then None
  else Some ((new_message MSG_ERROR) <| errorCode := 2 |>
               <| errorMessage := str "unknown type 0x" ++ hex_int (type m) |>).

(** The variables of the session afterwards. *)
Definition next_session (now : Z) (st : session) (m : Message) : session :=
  if type m =? MSG_HELLO then st <| clientLang := clientLanguage m |>
  else if type m =? MSG_PONG then st <| lastPongTs := now |>
  else if type m =? MSG_DISCONNECT then st <| active := false |>
  else st.

(** What a session keeps: a language that can be sent, a time in range. *)
Definition session_ok (st : session) : Prop :=
  string_ok (clientLang st) /\ zlen (clientLang st) <= MAX_MESSAGE_SIZE /\ is_i64 (lastPongTs st).

(** ** The replies are well-formed messages *)

Lemma ascii_string_ok s : Forall (fun c => 0 <= c < 128) s -> zlen s < 2 ^ 32 -> string_ok s.
Proof.
  intros Hs Hl. split; [|split; [|done]].
  - clear Hl. induction Hs as [|c s Hc Hs IH]; [apply is_utf8_nil|]. apply is_utf8_ascii; [lia|done].
  - eapply Forall_impl; [exact Hs|]. cbn beta. intros. solve_width.
Qed.

Lemma to_string_ascii n : is_i64 n -> Forall (fun c => 0 <= c < 128) (to_string n) /\ (length (to_string n) <= 21)%nat.
Proof.
  intros Hn. split.
  - destruct (to_string_value n Hn) as (Hd & _ & ->). apply Forall_app; split.
    + case_match; repeat constructor; lia.
    + eapply Forall_impl; [exact Hd|]. cbn beta. lia.
  - assert (forall k, (length (digits 20 k []) <= 20)%nat) as Hd by (intros k; apply (digits_length 20 k [])).
    unfold to_string. case_match; [cbn [length]; specialize (Hd (- n))|specialize (Hd n)]; lia.
Qed.

Lemma to_string_ok n : is_i64 n -> string_ok (to_string n).
Proof. intros Hn. destruct (to_string_ascii n Hn) as [Ha Hl]. apply ascii_string_ok; [done|lia]. Qed.

Lemma hash_text_ascii n : Forall (fun c => 0 <= c < 128) (hash_text n) /\ (length (hash_text n) <= 10)%nat.
Proof.
  split; [|unfold hash_text; rewrite length_take; lia]. apply Forall_take.
  eapply Forall_impl; [apply hex_text_hex, SHA256_bytes|]. unfold is_hex. lia.
Qed.

Lemma hex_int_ascii n : is_u8 n -> Forall (fun c => 0 <= c < 128) (hex_int n) /\ (length (hex_int n) <= 2)%nat.
Proof.
  assert (forall c, 0 <= c < 16 -> 0 <= hex_digit c < 128) as Hh by (intros c Hc; unfold hex_digit; case_match; lia).
  intros Hn. unfold hex_int. case_match; split; cbn [length]; try lia;
    repeat (apply Forall_cons; split; [apply Hh; solve_width|]); constructor.
Qed.

Lemma str_ascii_check s : forallb (fun c => (0 <=? c) && (c <? 128)) s = true -> Forall (fun c => 0 <= c < 128) s.
Proof.
  intros Hs. apply Forall_forall. intros c Hc%list_elem_of_In. pose proof (proj1 (forallb_forall _ _) Hs c Hc) as Hb. cbn beta in Hb. lia.
Qed.

(** The messages the code builds are the ones of the contract. *)
Lemma reply_to_code now lang m : reply_to now lang m =
  if type m =? MSG_HELLO then Some bonjour
  else if type m =? MSG_ECHO_REQUEST then Some (echo_response now lang m)
  else if type m =? MSG_RANDOM_NUMBER then Some (hash_response m (hash_text (randomNumber m)))
  else if bool_decide (type m ∈ [MSG_KISS_RESPONSE; MSG_PONG; MSG_DISCONNECT; MSG_ERROR]) then None
  else Some (error_message ERR_UNKNOWN_MSG_TYPE (str "unknown type 0x" ++ hex_int (type m))).
Proof. reflexivity. Qed.

Lemma echo_kv now lang m :
  kv (echo_result_of now lang m) =
    [(str "data", echoData m); (str "id", to_string (echoId m)); (str "lang", lang); (str "meta", echoMeta m)].
Proof. reflexivity. Qed.

Lemma echo_response_ok now lang m : is_i64 now -> string_ok lang -> type m = MSG_ECHO_REQUEST -> message_ok m ->
  message_ok (echo_response now lang m).
Proof.
  intros Hn Hl Ht Hm. unfold message_ok in *. rewrite Ht in Hm. cbn -[string_ok] in Hm.
  destruct Hm as [[Hid Hmeta] Hdata]. cbn -[string_ok kv_set to_string kv_ok].
  split; [solve_width|]. split; [|lia]. apply Forall_cons; split; [|constructor].
  split_and!; [done|done|cbn; solve_width|]. rewrite echo_kv. split_and!; [|..].
  - repeat constructor.
  - repeat (apply Forall_cons; split; [split; cbn [fst snd]; try (done || by apply to_string_ok);
      apply ascii_string_ok; [by apply str_ascii_check|cbn; lia]|]). constructor.
  - cbn. lia.
Qed.

Lemma size_wire_entries l : zlen (wire_entries l) = foldr (fun e n => 8 + zlen e.1 + zlen e.2 + n) 0 l.
Proof.
  induction l as [|[k v] l IH]; [done|]. unfold wire_entries in *. cbn [map concat foldr fst snd].
  unfold wire_entry at 1. cbn [fst snd]. rewrite !length_app, !length_wire_string. lia.
Qed.

Lemma echo_response_size now lang m : zlen (payload_wire (echo_response now lang m)) =
  67 + zlen (echoData m) + zlen (to_string (echoId m)) + zlen lang + zlen (echoMeta m).
Proof.
  unfold payload_wire. cbn -[be_bytes echo_result_of wire_kv]. rewrite app_nil_r.
  unfold wire_kv. rewrite echo_kv, !length_app, !length_be_bytes. cbn [length]. rewrite !length_app, !length_be_bytes.
  pose proof (size_wire_entries (kv (echo_result_of now lang m))) as Hl. rewrite echo_kv in Hl.
  cbn [foldr fst snd length str] in *. lia.
Qed.

Lemma error_message_ok code text : is_i32 code -> Forall (fun c => 0 <= c < 128) text -> zlen text <= 100 ->
  message_ok (error_message code text) /\ relevant (error_message code text) = error_message code text
  /\ zlen (payload_wire (error_message code text)) <= 108.
Proof.
  intros Hc Ht Hl. split_and!; [|done|].
  - unfold message_ok. cbn -[string_ok]. split; [done|]. apply ascii_string_ok; [done|lia].
  - unfold payload_wire. cbn -[be_bytes wire_string]. rewrite length_app, length_be_bytes, length_wire_string. lia.
Qed.

(** Messages out of a frame of at most 1 MiB.  (An ECHO_RESPONSE, which the
    server does not expect, may repeat map keys and be shorter than its frame.) *)
Definition small (m : Message) : Prop :=
  type m = MSG_ECHO_RESPONSE \/ zlen (payload_wire m) <= MAX_MESSAGE_SIZE.

(** Every reply can be sent and decodes to itself. *)
Lemma reply_ok now lang m r : reply_to now lang m = Some r -> message_ok m -> is_i64 now ->
  string_ok lang -> zlen lang <= MAX_MESSAGE_SIZE -> small m ->
  message_ok r /\ relevant r = r /\ zlen (payload_wire r) <= 2 * MAX_MESSAGE_SIZE + 108.
Proof.
  intros Hr Hm Hn Hl Hll Hs. unfold small, MAX_MESSAGE_SIZE in *. rewrite reply_to_code in Hr.
  destruct (Z.eqb_spec (type m) MSG_HELLO) as [E|_].
  { injection Hr as <-. split_and!; [|done|vm_compute; discriminate].
    unfold message_ok. cbn -[string_ok]. by apply string_check_ok. }
  destruct (Z.eqb_spec (type m) MSG_ECHO_REQUEST) as [E|_].
  { injection Hr as <-. split_and!; [by apply echo_response_ok|done|]. rewrite echo_response_size.
    destruct Hs as [Hs|Hs]; [by rewrite E in Hs|]. unfold payload_wire in Hs. unfold message_ok in Hm. rewrite E in Hs, Hm.
    cbn -[be_bytes wire_string string_ok] in Hs, Hm. destruct Hm as [[Hid _] _].
    rewrite !length_app, !length_wire_string, length_be_bytes in Hs. pose proof (to_string_ascii _ Hid). lia. }
  destruct (Z.eqb_spec (type m) MSG_RANDOM_NUMBER) as [E|_].
  { injection Hr as <-. unfold message_ok in Hm. rewrite E in Hm. cbn in Hm. destruct Hm as [Hid _].
    destruct (hash_text_ascii (randomNumber m)) as [Ha Hlen]. split_and!; [|done|].
    - unfold message_ok. cbn -[string_ok hash_text]. split; [done|]. apply ascii_string_ok; [done|lia].
    - unfold payload_wire. cbn -[be_bytes wire_string hash_text]. rewrite length_app, length_be_bytes, length_wire_string. lia. }
  case_bool_decide; [done|]. injection Hr as <-. destruct (message_ok_type m Hm) as [_ Ht].
  destruct (hex_int_ascii (type m) Ht) as [Ha Hlen].
  destruct (error_message_ok ERR_UNKNOWN_MSG_TYPE (str "unknown type 0x" ++ hex_int (type m))) as (H1 & H2 & H3).
  - unfold ERR_UNKNOWN_MSG_TYPE. solve_width.
  - apply Forall_app; split; [by apply str_ascii_check|done].
  - rewrite length_app. cbn [length str]. lia.
  - split_and!; [done|done|etrans; [exact H3|lia]].
Qed.

(** The bytes of a message in a WebSocket frame of the server. *)
Definition message_wire (m : Message) : bytes :=
  wire (data_frame None (frame_bytes (type m) 0 (payload_wire m))).

Lemma length_message_wire m : zlen (message_wire m) <= zlen (payload_wire m) + 18.
Proof.
  unfold message_wire. rewrite length_wire by done. cbn [data_frame w_form w_key w_body has_key].
  rewrite length_frame_bytes.
  pose proof (length_form_ext (shortest (8 + zlen (payload_wire m))) (8 + zlen (payload_wire m))). lia.
Qed.

(** ** The handler refines the contract *)

Section laws.
Context {W : Type} `{SysLaws W} (sock : Z).

Lemma on_net_run {A} (m : io W A) st w a w' : m w = (Ok a, w') -> on_net m (st, w) = (Ok a, (st, w')).
Proof. intros E. unfold on_net. cbn [fst snd]. by rewrite E. Qed.

Lemma now_run (w : W) : exists t w', nowMs w = (Ok t, w') /\ untouched sock w w'
  /\ incoming sock w' = incoming sock w /\ is_i64 t.
Proof.
  pose proof (now_law sock w) as L. unfold nowMs. destruct (sys_now w) as [t w']. destruct L as (? & ? & ?).
  exists t, w'. split_and!; try done; solve_width.
Qed.

(** Sending a message: it goes out as a whole, in part, or not at all. *)
Lemma send_message_run st r (w : W) : message_ok r -> zlen (payload_wire r) < 2 ^ 30 ->
  exists ok w', send_message sock r (st, w) = (Ok ok, (st, w'))
    /\ (if active st then tried sock (data_frame None (frame_bytes (type r) 0 (payload_wire r))) ok w w'
        else ok = false /\ w' = w).
Proof.
  intros Hr Hl. unfold send_message. rewrite encode_frame, ibind_lift by done.
  unfold sendFrame, ibind, get_session. cbn [fst]. destruct (active st); [|by exists false, w].
  destruct (wsSendBinary_tried sock (frame_bytes (type r) 0 (payload_wire r)) w) as (ok & w' & E & Ht).
  { rewrite length_frame_bytes. lia. }
  exists ok, w'. split; [|done]. by apply on_net_run.
Qed.

Lemma send_message_ok st r (w : W) : active st = true -> message_ok r ->
  zlen (payload_wire r) < 2 ^ 30 -> zlen (payload_wire r) + 18 <= room sock w ->
  exists w', send_message sock r (st, w) = (Ok true, (st, w')) /\ sent sock (message_wire r) w w'.
Proof.
  intros Ha Hr Hl Hroom. destruct (send_message_run st r w Hr Hl) as (ok & w' & E & Ht). rewrite Ha in Ht.
  pose proof Ht as [Hok _]. pose proof (length_message_wire r) as Hm. unfold message_wire in *.
  rewrite (proj2 (Z.leb_le _ _)) in Hok by lia. subst ok. exists w'. split; [done|]. by apply tried_ok.
Qed.

(** What happened on the network while a message was handled. *)
Definition answered (r : option Message) (w w' : W) : Prop :=
  match r with
  | None => untouched sock w w' /\ incoming sock w' = incoming sock w
  | Some r => sent sock (message_wire r) w w'
  end.

Lemma get_run {A} (f : session -> io (session * W) A) st w : ibind get_session f (st, w) = f st (st, w).
Proof. done. Qed.
Lemma set_run {A} (f : unit -> io (session * W) A) st st' w : ibind (set_session st') f (st, w) = f tt (st', w).
Proof. done. Qed.
Lemma now_bind {A} (f : Z -> io (session * W) A) st w t w' :
  nowMs w = (Ok t, w') -> ibind (on_net nowMs) f (st, w) = f t (st, w').
Proof. intros E. exact (ibind_run _ _ _ _ _ (on_net_run _ st _ _ _ E)). Qed.

Lemma answer_run now lang m r st (w0 w : W) : reply_to now lang m = Some r ->
  message_ok m -> small m -> is_i64 now -> string_ok lang -> zlen lang <= MAX_MESSAGE_SIZE ->
  active st = true -> 2 * MAX_MESSAGE_SIZE + 200 <= room sock w0 ->
  untouched sock w0 w -> incoming sock w = incoming sock w0 ->
  exists w', (let! _ := send_message sock r in iret tt) (st, w) = (Ok tt, (st, w'))
    /\ sent sock (message_wire r) w0 w'.
Proof.
  intros Hr Hm Hs Hn Hl Hll Ha Hroom Hu Hin. pose proof Hu as (_ & Hr0 & _).
  destruct (reply_ok now lang m r Hr Hm Hn Hl Hll Hs) as (Hok & _ & Hsz). unfold MAX_MESSAGE_SIZE in *.
  destruct (send_message_ok st r w Ha Hok) as (w' & E & Hsent); [lia|lia|].
  exists w'. rewrite (ibind_run _ _ _ _ _ E). split; [done|]. by eapply sent_after.
Qed.

Lemma handle_message_refines st m (w : W) :
  active st = true -> session_ok st -> message_ok m -> small m -> 2 * MAX_MESSAGE_SIZE + 200 <= room sock w ->
  let now := fst (sys_now w) in
  exists w', handle_message sock m (st, w) = (Ok tt, (next_session now st m, w'))
    /\ is_i64 now /\ answered (reply_to now (clientLang st) m) w w'.
Proof.
  intros Ha (Hlang & Hll & _) Hm Hs Hroom now.
  destruct (now_run w) as (t & w1 & Et & Hu & Hin & Ht). assert (now = t) as ->.
  { unfold now. unfold nowMs in Et. destruct (sys_now w). by injection Et. }
  rewrite reply_to_code. unfold handle_message, next_session, answered.
  destruct (Z.eqb_spec (type m) MSG_HELLO) as [E|N1].
  { destruct (answer_run t (clientLang st) m bonjour (st <| clientLang := clientLanguage m |>) w w)
      as (w' & E' & Hsent); try done; [by rewrite reply_to_code, E|].
    exists w'. by rewrite get_run, set_run. }
  destruct (Z.eqb_spec (type m) MSG_ECHO_REQUEST) as [E|N2].
  { destruct (answer_run t (clientLang st) m (echo_response t (clientLang st) m) st w w1)
      as (w' & E' & Hsent); try done; [by rewrite reply_to_code, E|].
    exists w'. rewrite (now_bind _ _ _ _ _ Et), get_run, E'. by rewrite E. }
  destruct (Z.eqb_spec (type m) MSG_RANDOM_NUMBER) as [E|N3].
  { destruct (answer_run t (clientLang st) m (hash_response m (hash_text (randomNumber m))) st w w)
      as (w' & E' & Hsent); try done; [by rewrite reply_to_code, E|].
    exists w'. rewrite E. cbn [Z.eqb Pos.eqb MSG_RANDOM_NUMBER MSG_KISS_RESPONSE MSG_PONG MSG_DISCONNECT].
    rewrite hashNumber_spec, ibind_lift. split_and!; done. }
  case_bool_decide as Hin4.
  { rewrite !elem_of_cons, elem_of_nil in Hin4. destruct Hin4 as [E|[E|[E|[E|[]]]]]; rewrite E.
    - by exists w.
    - exists w1. cbn [Z.eqb Pos.eqb MSG_PONG MSG_KISS_RESPONSE]. by rewrite (now_bind _ _ _ _ _ Et), get_run.
    - by exists w.
    - by exists w. }
  rewrite !elem_of_cons, elem_of_nil in Hin4. rewrite !(proj2 (Z.eqb_neq _ _)) by tauto.
  destruct (answer_run t (clientLang st) m
    (error_message ERR_UNKNOWN_MSG_TYPE (str "unknown type 0x" ++ hex_int (type m))) st w w)
      as (w' & E' & Hsent); try done.
  { rewrite reply_to_code, !(proj2 (Z.eqb_neq _ _)) by done.
    rewrite bool_decide_eq_false_2; [done|]. by rewrite !elem_of_cons, elem_of_nil. }
  by exists w'.
Qed.

(** ** One frame *)

Lemma decoded_small data m : is_bytes data -> zlen data <= MAX_MESSAGE_SIZE ->
  decodeMessage data (zlen data) = Ok m -> message_ok m /\ relevant m = m /\ small m.
Proof.
  intros Hb Hl Hd. unfold MAX_MESSAGE_SIZE in *.
  pose proof (decodeMessage_outcome data Hb ltac:(unfold size_ok; lia)) as HO. rewrite Hd in HO.
  destruct HO as (Hok & Hrel & flags & used & junk & -> & Hp). split_and!; [done|done|].
  destruct (decide (type m = MSG_ECHO_RESPONSE)) as [E|Hne]; [by left|right].
  rewrite length_frame_bytes, length_app in Hl. unfold message_parses, payload_wire in *.
  destruct (shape_of (type m)) as [s|] eqn:Hsh; [|done].
  rewrite <- (shape_canonical _ s _ _ Hsh Hne Hp). unfold MAX_MESSAGE_SIZE. lia.
Qed.

(** The texts of decoding errors are short and printable. *)
Lemma decode_error_text data e : is_bytes data -> zlen data <= MAX_MESSAGE_SIZE ->
  decodeMessage data (zlen data) = Throw e -> Forall (fun c => 0 <= c < 128) e /\ zlen e <= 100.
Proof.
  intros Hb Hl Hd. unfold MAX_MESSAGE_SIZE in *.
  pose proof (decodeMessage_outcome data Hb ltac:(unfold size_ok; lia)) as HO. rewrite Hd in HO.
  assert (Forall (fun e => Forall (fun c => 0 <= c < 128) e /\ zlen e <= 100) read_errors) as Hre.
  { repeat (apply Forall_cons; split; [split; [by apply str_ascii_check|cbn; lia]|]). constructor. }
  destruct HO as [[Hin _]|(t & flags & p & _ & _ & _ & Hw)].
  - destruct (to_string_ascii (zlen data)) as [Ha Hlen]; [solve_width|].
    unfold frame_errors in Hin. rewrite !elem_of_cons, elem_of_nil in Hin.
    destruct Hin as [->|[->|[->|[->|[]]]]]; split; try (by apply str_ascii_check); try (cbn; lia).
    apply Forall_app; split; [by apply str_ascii_check|done].
  - case_decide; [by apply (proj1 (Forall_forall _ _) Hre)|]. subst e.
    split; [by apply str_ascii_check|cbn; lia].
Qed.

(** The session keeps its invariant. *)
Lemma next_session_ok now st m : session_ok st -> message_ok m -> small m -> is_i64 now ->
  session_ok (next_session now st m).
Proof.
  intros (Hl & Hll & Ht) Hm Hs Hn. unfold next_session.
  destruct (Z.eqb_spec (type m) MSG_HELLO) as [E|_]; [|by repeat case_match].
  unfold message_ok, small, payload_wire in *. rewrite E in Hm, Hs. cbn -[wire_string string_ok] in Hm, Hs.
  split_and!; cbn [clientLang]; [done| |done].
  destruct Hs as [?|Hs]; [done|]. rewrite length_wire_string in Hs. unfold MAX_MESSAGE_SIZE in *.
  change (clientLang (st <| clientLang := clientLanguage m |>)) with (clientLanguage m). lia.
Qed.

(** ** Whatever happens on the network *)

(** A run of session code that returns, keeps the invariant, never turns a
    session back on, opens and closes nothing, sends nothing on an inactive
    session, and on a silent connection reads nothing. *)
Definition steady {A} (c : session * W) (res : result A * (session * W)) : Prop :=
  exists a st' w', res = (Ok a, (st', w')) /\ session_ok st' /\ (active st' = true -> active (fst c) = true)
    /\ (quiet_peer W -> incoming sock w' = incoming sock (snd c))
    /\ opened w' = opened (snd c)
    /\ (active (fst c) = false -> outgoing sock w' = outgoing sock (snd c)).

Lemma send_steady r st (w : W) : session_ok st -> message_ok r -> zlen (payload_wire r) < 2 ^ 30 ->
  steady (st, w) ((let! _ := send_message sock r in iret tt) (st, w)).
Proof.
  intros Hst Hr Hl. destruct (send_message_run st r w Hr Hl) as (ok & w' & E & Ht).
  rewrite (ibind_run _ _ _ _ _ E). exists tt, st, w'. cbn [fst snd]. split_and!; try done; cycle 1.
  { destruct (active st); [apply Ht|by destruct Ht as [_ ->]]. }
  { intros Ha. rewrite Ha in Ht. by destruct Ht as [_ ->]. }
  intros Hq. revert E. unfold send_message. rewrite encode_frame, ibind_lift by done.
  unfold sendFrame. rewrite get_run. destruct (active st); [|intros [= _ <-]; done].
  unfold on_net. cbn [fst snd].
  pose proof (wsSendBinary_quiet Hq sock (frame_bytes (type r) 0 (payload_wire r)) w) as Hs.
  destruct (wsSendBinary _ _ w) as [o w1]. intros [= _ <-]. done.
Qed.

Lemma steady_then {A B} (st : session) (w w1 : W) (m : io W A) a (f : A -> io (session * W) B) :
  m w = (Ok a, w1) -> untouched sock w w1 -> incoming sock w1 = incoming sock w ->
  steady (st, w1) (f a (st, w1)) -> steady (st, w) ((let! x := on_net m in f x) (st, w)).
Proof.
  intros E (Hout & _ & Hopen) Hin (b & st' & w' & Er & Hok & Hact & Hq & Hop & Ho).
  exists b, st', w'. rewrite (ibind_run _ _ _ _ _ (on_net_run m st w a w1 E)), Er. cbn [fst snd] in *.
  split_and!; try done; [intros Hqp; by rewrite Hq, Hin|congruence|intros Ha; by rewrite Ho, Hout].
Qed.

Lemma handle_message_steady st m (w : W) : session_ok st -> message_ok m -> small m ->
  steady (st, w) (handle_message sock m (st, w)).
Proof.
  intros Hst Hm Hs. destruct (now_run w) as (t & w1 & Et & Hu & Hin & Ht).
  pose proof Hst as (Hl & Hll & Hp).
  assert (forall now r, reply_to now (clientLang st) m = Some r -> is_i64 now ->
    message_ok r /\ zlen (payload_wire r) < 2 ^ 30) as Hrep.
  { intros now r Hr Hn. destruct (reply_ok _ _ _ _ Hr Hm Hn Hl Hll Hs) as (? & _ & ?).
    unfold MAX_MESSAGE_SIZE in *. split; [done|lia]. }
  assert (forall st', session_ok st' -> (active st' = true -> active st = true) ->
    steady (st, w) (@Ok unit tt, (st', w))) as Hnow.
  { intros st' Hok' Hact. by exists tt, st', w. }
  pose proof (next_session_ok t st m Hst Hm Hs Ht) as Hnext. unfold next_session in Hnext.
  setoid_rewrite reply_to_code in Hrep. unfold handle_message.
  destruct (Z.eqb_spec (type m) MSG_HELLO) as [E|N1].
  { rewrite get_run, set_run. destruct (Hrep 0 bonjour eq_refl ltac:(solve_width)) as [Hr Hz].
    exact (send_steady bonjour (st <| clientLang := clientLanguage m |>) w Hnext Hr Hz). }
  destruct (Z.eqb_spec (type m) MSG_ECHO_REQUEST) as [E|N2].
  { eapply steady_then; [exact Et|done|done|]. rewrite get_run. destruct (Hrep t _ eq_refl Ht) as [Hr Hz].
    by apply send_steady. }
  destruct (Z.eqb_spec (type m) MSG_RANDOM_NUMBER) as [E|N3].
  { rewrite E. cbn [Z.eqb Pos.eqb MSG_RANDOM_NUMBER MSG_KISS_RESPONSE MSG_PONG MSG_DISCONNECT].
    rewrite hashNumber_spec, ibind_lift. destruct (Hrep 0 _ eq_refl ltac:(solve_width)) as [Hr Hz]. by apply send_steady. }
  destruct (Z.eqb_spec (type m) MSG_KISS_RESPONSE) as [E|N4]; [by apply Hnow|].
  destruct (Z.eqb_spec (type m) MSG_PONG) as [E|N5].
  { eapply steady_then; [exact Et|done|done|]. rewrite get_run. by exists tt, (st <| lastPongTs := t |>), w1. }
  destruct (Z.eqb_spec (type m) MSG_DISCONNECT) as [E|N6].
  { unfold deactivate. rewrite get_run. by apply Hnow. }
  destruct (Z.eqb_spec (type m) MSG_ERROR) as [E|N7]; [by apply Hnow|].
  rewrite bool_decide_eq_false_2 in Hrep by (by rewrite !elem_of_cons, elem_of_nil; tauto).
  destruct (Hrep 0 _ eq_refl ltac:(solve_width)) as [Hr Hz]. by apply send_steady.
Qed.

(** The report of a frame that does not decode. *)
Definition decode_report (e : bytes) : Message :=
  (new_message MSG_ERROR) <| errorCode := if starts_with (str "unknown message type") e then 2 else 1 |>
    <| errorMessage := e |>.

Lemma decode_report_code e :
  error_message (if starts_with (str "unknown message type") e then ERR_UNKNOWN_MSG_TYPE else ERR_DECODE) e = decode_report e.
Proof. reflexivity. Qed.

Lemma decode_report_ok data e : is_bytes data -> zlen data <= MAX_MESSAGE_SIZE ->
  decodeMessage data (zlen data) = Throw e ->
  message_ok (decode_report e) /\ relevant (decode_report e) = decode_report e
  /\ zlen (payload_wire (decode_report e)) <= 108.
Proof.
  intros Hb Hl Hd. destruct (decode_error_text data e Hb Hl Hd) as [Ha He].
  rewrite <- decode_report_code. apply error_message_ok; [|done|done]. unfold ERR_UNKNOWN_MSG_TYPE, ERR_DECODE. case_match; solve_width.
Qed.

Lemma decode_never_stuck data : is_bytes data -> zlen data <= MAX_MESSAGE_SIZE ->
  decodeMessage data (zlen data) <> Stuck.
Proof.
  intros Hb Hl E. pose proof (decodeMessage_outcome data Hb ltac:(unfold size_ok, MAX_MESSAGE_SIZE in *; lia)) as HO.
  by rewrite E in HO.
Qed.

Lemma serve_frame_steady st f (w : W) : session_ok st ->
  is_bytes (WsFrame.payload f) -> zlen (WsFrame.payload f) <= MAX_MESSAGE_SIZE ->
  steady (st, w) (serve_frame sock f (st, w)).
Proof.
  intros Hst Hb Hl. unfold serve_frame. case_match; [by exists false, st, w|].
  destruct (decodeMessage _ _) as [m|e|] eqn:Hd.
  - destruct (decoded_small _ m Hb Hl Hd) as (Hok & _ & Hs).
    destruct (handle_message_steady st m w Hst Hok Hs) as (u & st' & w' & E & Hrest).
    rewrite (ibind_run _ _ _ _ _ E). by exists true, st', w'.
  - destruct (decode_report_ok _ e Hb Hl Hd) as (Hok & _ & Hsz).
    destruct (send_message_run st (decode_report e) w Hok ltac:(lia)) as (ok & w' & E & _).
    destruct (send_steady (decode_report e) st w Hst Hok ltac:(lia)) as (u & st2 & w2 & E2 & _ & _ & Hq & Hop & Ho).
    rewrite (ibind_run _ _ _ _ _ E) in E2. injection E2 as _ <- <-.
    rewrite decode_report_code, (ibind_run _ _ _ _ _ E). destruct Hst as (? & ? & ?).
    destruct (starts_with _ e); cbn [negb]; [by exists true, st, w'|].
    by exists true, (st <| active := false |>), w'.
  - by destruct (decode_never_stuck _ Hb Hl).
Qed.

(** The receive loop on a silent connection: it ends, after at most one round
    per two bytes of input. *)
Lemma receive_loop_quiet rounds fuel st (w : W) : quiet_peer W -> session_ok st ->
  zlen (incoming sock w) < 2 * Z.of_nat rounds -> zlen (incoming sock w) < 2 * Z.of_nat fuel ->
  exists st' w', receive_loop sock rounds fuel (st, w) = (Ok tt, (st', w')) /\ session_ok st'.
Proof.
  intros Hq. revert st w. induction rounds as [|rounds IH]; intros st w Hst Hr Hf; [lia|].
  cbn [receive_loop]. rewrite get_run. destruct (active st); cbn [negb]; [|by exists st, w].
  destruct (wsRecvFrame_quiet Hq fuel sock true w Hf) as (f & w1 & E1 & Hl1).
  rewrite (ibind_run _ _ _ _ _ (on_net_run _ st w f w1 E1)).
  destruct (isValid f) eqn:Hv; cycle 1.
  { unfold serve_frame. rewrite Hv. cbn [negb orb]. rewrite ibind_ret. by exists st, w1. }
  destruct (wsRecvFrame_payload _ _ _ _ _ _ E1 Hv) as [Hb Hl].
  destruct (serve_frame_steady st f w1 Hst Hb Hl) as (go & st2 & w2 & E2 & Hst2 & _ & Hq2 & _).
  rewrite (ibind_run _ _ _ _ _ E2). destruct go; [|by exists st2, w2].
  cbn [snd] in Hq2. rewrite <- (Hq2 Hq) in Hl1. apply IH; [done|lia|lia].
Qed.
End laws.

(** ** Properties *)

(** C3: the server implements its contract.  On an active session, for every
    frame content of at most 1 MiB: a decodable message leads to exactly the
    answer and the session of the contract ([HELLO] is answered with [BONJOUR],
    [ECHO_REQUEST] with the echo, [RANDOM_NUMBER] with the hash, [PONG] renews
    the session to the present time, [DISCONNECT] ends it, an unexpected type is reported);
    anything else is reported with an [ERROR] message, after which the session
    goes on exactly when the type was unknown.  The answer is on the wire in
    one unmasked frame, the session keeps its invariant. *)
Theorem server_contract {W} `{SysLaws W} sock st f (w : W) :
  active st = true -> session_ok st -> isValid f = true -> isClose f = false ->
  is_bytes (WsFrame.payload f) -> zlen (WsFrame.payload f) <= MAX_MESSAGE_SIZE ->
  2 * MAX_MESSAGE_SIZE + 200 <= room sock w ->
  let now := fst (sys_now w) in
  exists st' w', serve_frame sock f (st, w) = (Ok true, (st', w')) /\ session_ok st'
    /\ match decodeMessage (WsFrame.payload f) (zlen (WsFrame.payload f)) with
       | Ok m => st' = next_session now st m /\ answered sock (reply_to now (clientLang st) m) w w'
       | Throw e =>
           sent sock (message_wire (decode_report e)) w w'
           /\ st' = if starts_with (str "unknown message type") e then st else st <| active := false |>
       | Stuck => False
       end.
Proof.
  intros Ha Hst Hv Hc Hb Hl Hroom now. unfold serve_frame. rewrite Hv, Hc. cbn [negb orb].
  destruct (decodeMessage _ _) as [m|e|] eqn:Hd; [| |by destruct (decode_never_stuck _ Hb Hl)].
  - destruct (decoded_small _ m Hb Hl Hd) as (Hok & _ & Hs).
    destruct (handle_message_refines sock st m w Ha Hst Hok Hs Hroom) as (w' & E & Hn & Hans).
    rewrite (ibind_run _ _ _ _ _ E). exists (next_session now st m), w'.
    split_and!; try done. by apply next_session_ok.
  - destruct (decode_report_ok _ e Hb Hl Hd) as (Hok & _ & Hsz). unfold MAX_MESSAGE_SIZE in *.
    destruct (send_message_ok sock st (decode_report e) w Ha Hok) as (w' & E & Hsent); [lia|lia|].
    rewrite decode_report_code, (ibind_run _ _ _ _ _ E).
    exists (if starts_with (str "unknown message type") e then st else st <| active := false |>), w'.
    split_and!; [by destruct (starts_with _ e)| |done|done].
    destruct Hst as (? & ? & ?). by destruct (starts_with _ e).
Qed.

(** A session and a request for the witnesses. *)
Definition demo_session : session := {| active := true; lastPongTs := 5; clientLang := str "Go" |}.
Definition demo_request : bytes := frame_bytes MSG_RANDOM_NUMBER 0 (be_bytes 8 7 ++ be_bytes 8 42).
Definition demo_message : WSFrame :=
  {| WsFrame.opcode := Some 2; WsFrame.payload := demo_request; isClose := false; isValid := true |}.
Definition roomy : tape silent := tape_of [] (Z.to_nat 3000000).

Lemma demo_session_ok : session_ok demo_session.
Proof. split_and!; [by apply string_check_ok|vm_compute; discriminate|vm_compute; split; congruence]. Qed.

Lemma demo_request_bytes : is_bytes demo_request.
Proof. repeat (apply Forall_cons; split; [vm_compute; split; congruence|]). constructor. Qed.

Lemma room_roomy : room 7 roomy = 3000000.
Proof. cbn [room tape_sys roomy tape_of t_room]. by rewrite Z2Nat.id by lia. Qed.

Lemma server_contract_witness :
  let now := fst (sys_now roomy) in
  exists st' w', serve_frame 7 demo_message (demo_session, roomy) = (Ok true, (st', w')) /\ session_ok st'
    /\ match decodeMessage demo_request (zlen demo_request) with
       | Ok m => st' = next_session now demo_session m /\ answered 7 (reply_to now (str "Go") m) roomy w'
       | Throw e =>
           sent 7 (message_wire (decode_report e)) roomy w'
           /\ st' = if starts_with (str "unknown message type") e then demo_session
                    else demo_session <| active := false |>
       | Stuck => False
       end.
Proof.
  apply (server_contract 7 demo_session demo_message roomy);
    [reflexivity|apply demo_session_ok|reflexivity|reflexivity|apply demo_request_bytes|vm_compute; discriminate|].
  rewrite room_roomy. vm_compute. discriminate.
Defined.

(** The frame content of a message that has arrived, as either side reads it. *)
Lemma frame_content_ok r : message_ok r -> relevant r = r -> zlen (payload_wire r) <= MAX_MESSAGE_SIZE - 8 ->
  is_bytes (frame_bytes (type r) 0 (payload_wire r))
  /\ zlen (frame_bytes (type r) 0 (payload_wire r)) <= MAX_MESSAGE_SIZE
  /\ decodeMessage (frame_bytes (type r) 0 (payload_wire r)) (zlen (frame_bytes (type r) 0 (payload_wire r))) = Ok r.
Proof.
  unfold MAX_MESSAGE_SIZE. intros Hok Hrel Hl. split_and!.
  - by apply frame_bytes_bytes.
  - rewrite length_frame_bytes. lia.
  - pose proof (decodeMessage_frame r 0 [] Hok) as HD. rewrite app_nil_r in HD.
    rewrite HD, Hrel; [done|constructor|lia].
Qed.

(** C35: the receive loop ends.  On a connection whose peer sends finitely many
    bytes and does not answer, the receive loop of [handleClient] returns,
    without an exception or an out-of-range access, after at most one round per
    two bytes received, whatever the bytes are. *)
Theorem receive_loop_terminates {W} `{SysLaws W} sock st (w : W) :
  quiet_peer W -> session_ok st ->
  let n := S (length (incoming sock w) / 2) in
  exists st' w', receive_loop sock n n (st, w) = (Ok tt, (st', w')) /\ session_ok st'.
Proof.
  intros Hq Hst n. assert (zlen (incoming sock w) < 2 * Z.of_nat n) as Hn.
  { unfold n. pose proof (Nat.div_mod (length (incoming sock w)) 2).
    pose proof (Nat.mod_upper_bound (length (incoming sock w)) 2). lia. }
  by apply receive_loop_quiet.
Qed.

Lemma receive_loop_terminates_witness :
  let w := tape_of [0x82; 0x81; 1; 2; 3; 4; 5] 100 in
  let n := S (length (incoming 7 w) / 2) in
  exists st' w', receive_loop 7 n n (demo_session, w) = (Ok tt, (st', w')) /\ session_ok st'.
Proof.
  exact (receive_loop_terminates 7 demo_session (tape_of [0x82; 0x81; 1; 2; 3; 4; 5] 100)
    silent_quiet demo_session_ok).
Defined.

Lemma atoi_digits_value s acc : Forall (fun c => 48 <= c <= 57) s ->
  atoi_digits s acc = foldl (fun a c => a * 10 + (c - 48)) acc s.
Proof.
  intros Hs. revert acc. induction Hs as [|c s Hc Hs IH]; intros acc; [done|]. cbn [atoi_digits foldl].
  rewrite !(proj2 (Z.leb_le _ _)) by lia. apply IH.
Qed.

Lemma atoi_to_string n : 0 <= n < 2 ^ 31 -> atoi (to_string n) = n.
Proof.
  intros Hn. destruct (to_string_value n) as (Hd & Hv & _); [solve_width|]. rewrite Z.abs_eq in Hd, Hv by lia.
  unfold dec_value in Hv. rewrite <- atoi_digits_value in Hv by done.
  destruct (to_string n) as [|c t]; [cbn in Hv; subst n; done|].
  pose proof Hd as [Hc _]%Forall_cons. cbn [atoi]. unfold isspace.
  rewrite !(proj2 (Z.eqb_neq _ _)), (proj2 (Z.leb_gt c 13)) by lia. rewrite andb_false_r. cbn [orb].
  rewrite Hv, Z.min_r by lia. solve_width.
Qed.

(** The port.  Without WS_PORT the server uses 9898; for a WS_PORT text that
    is a positive decimal number of an [int] it uses the number modulo 65536,
    so every real port number is used as given, and larger numbers wrap. *)
Theorem main_port_decimal p :
  1 <= p < 2 ^ 31 -> main_port None = 9898 /\ main_port (Some (to_string p)) = p mod 65536
    /\ (p < 65536 -> main_port (Some (to_string p)) = p).
Proof.
  intros Hp. unfold main_port. rewrite atoi_to_string by lia. rewrite (proj2 (Z.ltb_lt 0 p)) by lia.
  split_and!; [done|done|]. intros. solve_width.
Qed.

Lemma main_port_decimal_witness : main_port None = 9898 /\ main_port (Some (to_string 8080)) = 8080 mod 65536
    /\ (8080 < 65536 -> main_port (Some (to_string 8080)) = 8080).
Proof. apply (main_port_decimal 8080). lia. Defined.

(** A number one above the last port selects port 0. *)
Example main_port_wraps : main_port (Some (str "65536")) = 0.
Proof. vm_compute. reflexivity. Qed.
