(* ===== verification/Log.v ===== *)
(** * The console log (common/codec.hpp: log, and the texts its callers build)

    [log] inserts a line with the time, the program's name and a text into
    [std::cout], piece by piece and without a lock.  The texts are built from the
    messages that arrive: [server_log] and [client_log] are the ones the two
    receive loops write for a message, [session_starts] and the following those
    about the session itself.  What the threads of a program write is on the
    console in an interleaving of their characters ([mixed]).  Calls that do not
    overlap can be read back if their texts have no line break; calls that
    overlap need not be readable at all. *)

From stdpp Require Import gmap.
From S2P Require Import Prelude ByteIO Message Codec Socket HttpText Handshake Clock Server.

(** ** The code *)

(** [std::put_time(&tm, "%Y-%m-%d %H:%M:%S")]. *)
Definition put_clock (t : tm) : bytes :=
  to_string (tm_year t) ++ [45] ++ two (tm_mon t) ++ [45] ++ two (tm_mday t) ++ [32] ++
  two (tm_hour t) ++ [58] ++ two (tm_min t) ++ [58] ++ two (tm_sec t).

(** What a call at [t] seconds since 1970 inserts, one piece per [<<]. *)
Definition log_pieces (t : Z) (name msg : bytes) : list bytes :=
  [str "["; put_clock (gmtimeSafe t); str "] [INFO] ["; name; str "] "; msg; [10]].

(** The insertions of a call of [log] into the standard output. *)
Definition log {W} `{Sys W} (name msg : bytes) : io W (list bytes) :=
  let! ms := nowMs in iret (log_pieces (ms / 1000) name msg).

(** What the server's receive loop logs for a message, before it answers. *)
Definition server_log (sessionId : bytes) (msg : Message) : list bytes :=
  if type msg =? MSG_HELLO then [str "HELLO from " ++ clientLanguage msg ++ str ", session=" ++ sessionId]
  else if type msg =? MSG_ECHO_REQUEST then [str "ECHO_REQUEST id=" ++ to_string (echoId msg)]
  else if type msg =? MSG_KISS_RESPONSE then
    [str "KISS_RESPONSE lang=" ++ kissLanguage msg ++ str " enc=" ++ kissEncoding msg ++ str " tz=" ++ kissTimeZone msg]
  else if type msg =? MSG_PONG then []
  else if type msg =? MSG_RANDOM_NUMBER then
    [str "RANDOM_NUMBER id=" ++ to_string (randomId msg) ++ str " number=" ++ to_string (randomNumber msg)]
  else if type msg =? MSG_DISCONNECT then [str "DISCONNECT reason=" ++ disconnectReason msg]
  else if type msg =? MSG_ERROR then [str "ERROR code=" ++ to_string (errorCode msg) ++ str " msg=" ++ errorMessage msg]
  else [str "Unknown message type: 0x" ++ hex_int (type msg)].

(** The lines about a session: its start, its timeout, the two catch clauses
    ([what] is the text of the exception), its end. *)
Definition session_starts (userId : bytes) : bytes := str "[" ++ userId ++ str "] session+".
Definition session_expires (userId : bytes) : bytes := str "[" ++ userId ++ str "] session timeout".
Definition session_throws (userId what : bytes) : bytes := str "[" ++ userId ++ str "] exception: " ++ what.
Definition session_throws_unknown (userId : bytes) : bytes := str "[" ++ userId ++ str "] unknown exception".
Definition session_ends (userId : bytes) : bytes := str "[" ++ userId ++ str "] session-".

(** The lines of the server's [main] on port [p]: the start, a failure to bind,
    the success. *)
Definition server_main_log (p : Z) : list bytes :=
  [str "Starting C++ WebSocket server on port " ++ to_string p; str "Failed to bind port " ++ to_string p;
   str "Listening on 0.0.0.0:" ++ to_string p].

(** The lines of the client's [main]: the start, the address, the attempts and
    the failure. *)
Definition client_url (host : bytes) (p : Z) : bytes := str "ws://" ++ host ++ str ":" ++ to_string p.
Definition client_main_log (host : bytes) (p : Z) : list bytes :=
  [str "Starting C++ WebSocket client [version: 1.0.0]"; str "Connecting to " ++ client_url host p]
  ++ map (fun attempt => str "Connection attempt " ++ to_string attempt ++ str "/3 to " ++ client_url host p) [1; 2; 3]
  ++ [str "Failed to connect after 3 attempts"].

(** The loop over the entries of a result. *)
Fixpoint kvStr (first : bool) (acc : bytes) (kv : list (bytes * bytes)) : bytes :=
  match kv with
  | [] => acc
  | (k, v) :: kv => kvStr false ((if first then acc else acc ++ str ", ") ++ k ++ str "=" ++ v) kv
  end.

(** The loop over the results of an echo, from the index [i]. *)
Fixpoint result_log (i : Z) (rs : list EchoResult) : list bytes :=
  match rs with
  | [] => []
  | r :: rs =>
      (str "  Result #" ++ to_string (i + 1) ++ str ": idx=" ++ to_string (idx r) ++ str " type=" ++ to_string (er_type r)
       ++ str " kv={" ++ kvStr true [] (kv r) ++ str "}") :: result_log (i + 1) rs
  end.

(** What the client's receive loop logs for a message. *)
Definition client_log (msg : Message) : list bytes :=
  if type msg =? MSG_BONJOUR then [str "BONJOUR server_language=" ++ serverLanguage msg]
  else if type msg =? MSG_PING then []
  else if type msg =? MSG_TIME_NOTIFICATION then
    [str "TIME_NOTIFICATION ts=" ++ to_string (timestampMs msg) ++ str " iso=" ++ iso8601 msg]
  else if type msg =? MSG_KISS_REQUEST then [str "KISS_REQUEST os=" ++ osName msg ++ str " arch=" ++ osArch msg]
  else if type msg =? MSG_ECHO_RESPONSE then
    (str "ECHO_RESPONSE status=" ++ to_string (echoStatus msg) ++ str " results=" ++ to_string (zlen (echoResults msg)))
      :: result_log 0 (echoResults msg)
  else if type msg =? MSG_HASH_RESPONSE then [str "HASH_RESPONSE id=" ++ to_string (randomId msg) ++ str " hash=" ++ hashHex msg]
  else if type msg =? MSG_ERROR then [str "ERROR code=" ++ to_string (errorCode msg) ++ str " msg=" ++ errorMessage msg]
  else if type msg =? MSG_DISCONNECT then [str "DISCONNECT reason=" ++ disconnectReason msg]
  else [str "Unknown message type: 0x" ++ hex_int (type msg)].

(** ** The console *)

(** An interleaving of the characters that the threads write. *)
Inductive mixed {A} : list (list A) -> list A -> Prop :=
  | mixed_done ls : Forall (eq []) ls -> mixed ls []
  | mixed_next ls i x l out : ls !! i = Some (x :: l) -> mixed (<[i := l]> ls) out -> mixed ls (x :: out).

(** The characters of a call, in order. *)
Definition log_line (t : Z) (name msg : bytes) : bytes := concat (log_pieces t name msg).

Lemma log_line_text t name msg :
  log_line t name msg = str "[" ++ put_clock (gmtimeSafe t) ++ str "] [INFO] [" ++ name ++ str "] " ++ msg ++ [10].
Proof. unfold log_line, log_pieces. cbn [concat]. by rewrite app_nil_r. Qed.

(** One thread writes a whole text while the other is in the middle of its own. *)
Lemma mixed_inside {A} (a b c : list A) : mixed [a ++ b; c] (a ++ c ++ b).
Proof.
  induction a as [|x a IH]; cbn [app]; [|by apply (mixed_next _ 0 x (a ++ b))].
  induction c as [|x c IH]; cbn [app]; [|by apply (mixed_next _ 1 x c)].
  induction b as [|x b IH]; [by repeat constructor|by apply (mixed_next _ 0 x b)].
Qed.

(** ** Reading a log back *)

(** What is before and after the first [c]. *)
Fixpoint cut (c : Z) (l : bytes) : option (bytes * bytes) :=
  match l with
  | [] => None
  | x :: l => if x =? c then Some ([], l) else '(a, b) ← cut c l; Some (x :: a, b)
  end.

Definition read_clock (s : bytes) : Z :=
  let field i n := dec_value (take n (drop i s)) in
  timegm {| tm_year := field 0%nat 4%nat; tm_mon := field 5%nat 2%nat; tm_mday := field 8%nat 2%nat;
            tm_hour := field 11%nat 2%nat; tm_min := field 14%nat 2%nat; tm_sec := field 17%nat 2%nat |}.

(** One line, and the rest of the log. *)
Definition read_line (text : bytes) : option ((Z * bytes * bytes) * bytes) :=
  '(name, rest) ← cut 93 (drop 30 text);
  '(msg, rest) ← cut 10 (drop 1 rest);
  Some ((read_clock (take 19 (drop 1 text)), name, msg), rest).

Fixpoint read_log (fuel : nat) (text : bytes) : option (list (Z * bytes * bytes)) :=
  match fuel, text with
  | _, [] => Some []
  | O, _ => None
  | S fuel, _ => '(e, rest) ← read_line text; es ← read_log fuel rest; Some (e :: es)
  end.

(** A call whose line can be read back: a year of four digits, and neither
    bracket nor line break where it would end a field. *)
Definition readable (e : Z * bytes * bytes) : Prop :=
  let '(t, name, msg) := e in
  0 <= t /\ tm_year (gmtimeSafe t) < 10000 /\ (93 ∉ name) /\ (10 ∉ msg).
Definition line_of (e : Z * bytes * bytes) : bytes := let '(t, name, msg) := e in log_line t name msg.

Lemma cut_app c a b : c ∉ a -> cut c (a ++ c :: b) = Some (a, b).
Proof.
  induction a as [|x a IH]; cbn [cut app]; [by rewrite Z.eqb_refl|]. rewrite not_elem_of_cons. intros [Hx Ha].
  rewrite (proj2 (Z.eqb_neq _ _)) by congruence. by rewrite IH.
Qed.

Lemma dec_two n : 0 <= n < 100 -> dec_value (two n) = n.
Proof. intros Hn. unfold dec_value, two. cbn [foldl]. Z.to_euclidean_division_equations. lia. Qed.

Lemma tm_ok_month t : tm_ok t -> 1 <= tm_mon t <= 12 /\ 1 <= tm_mday t <= 31.
Proof.
  intros (Hm & (d & Hd & Hmd) & _). split; [done|]. assert (d <= 31); [|lia].
  apply list_elem_of_lookup_2 in Hd. unfold month_days in Hd. repeat (apply elem_of_cons in Hd as [->|Hd]; [repeat case_match; lia|]). by apply elem_of_nil in Hd.
Qed.

Lemma read_put_clock t : 0 <= t -> tm_year (gmtimeSafe t) < 10000 ->
  length (put_clock (gmtimeSafe t)) = 19%nat /\ read_clock (put_clock (gmtimeSafe t)) = t.
Proof.
  intros Ht Hy. destruct (gmtimeSafe_spec t Ht) as (Hg & Hok & Hyr). pose proof (to_string_4 (tm_year (gmtimeSafe t)) ltac:(lia)) as H4.
  destruct (tm_ok_month _ Hok) as [Hmon Hday]. destruct Hok as (_ & _ & Hh & Hmi & Hs).
  destruct (to_string_value (tm_year (gmtimeSafe t))) as (_ & Hv & _); [solve_width|]. rewrite Z.abs_eq in Hv by lia.
  rewrite <- Hg at 3. unfold put_clock, read_clock. destruct (to_string (tm_year (gmtimeSafe t))) as [|a [|b [|c [|d [|]]]]]; try done.
  split; [done|]. cbn [two app take drop]. f_equal. rewrite Hv.
  pose proof (dec_two (tm_mon (gmtimeSafe t)) ltac:(lia)) as E1. pose proof (dec_two (tm_mday (gmtimeSafe t)) ltac:(lia)) as E2.
  pose proof (dec_two (tm_hour (gmtimeSafe t)) ltac:(lia)) as E3. pose proof (dec_two (tm_min (gmtimeSafe t)) ltac:(lia)) as E4.
  pose proof (dec_two (tm_sec (gmtimeSafe t)) ltac:(lia)) as E5. unfold two in *. rewrite E1, E2, E3, E4, E5. by destruct (gmtimeSafe t).
Qed.

Lemma read_line_of e rest : readable e -> read_line (line_of e ++ rest) = Some (e, rest).
Proof.
  destruct e as [[t name] msg]. intros (Ht & Hy & Hn & Hm). destruct (read_put_clock t Ht Hy) as [Hl Hr].
  unfold read_line, line_of. rewrite log_line_text. set (c := put_clock (gmtimeSafe t)) in *.
  assert (drop 30 ((str "[" ++ c ++ str "] [INFO] [" ++ name ++ str "] " ++ msg ++ [10]) ++ rest) = name ++ 93 :: [32] ++ msg ++ 10 :: rest) as ->.
  { replace ((str "[" ++ c ++ str "] [INFO] [" ++ name ++ str "] " ++ msg ++ [10]) ++ rest)
      with ((str "[" ++ c ++ str "] [INFO] [") ++ name ++ 93 :: [32] ++ msg ++ 10 :: rest) by (by rewrite <- !app_assoc).
    apply drop_app_length'. rewrite !length_app, Hl. done. }
  assert (take 19 (drop 1 ((str "[" ++ c ++ str "] [INFO] [" ++ name ++ str "] " ++ msg ++ [10]) ++ rest)) = c) as ->.
  { change (str "[") with [91]. cbn [app]. rewrite <- !app_assoc. by apply take_app_length'. }
  rewrite cut_app by done. cbn [mbind option_bind app drop]. rewrite drop_0, cut_app by done. cbn [mbind option_bind]. by rewrite Hr.
Qed.

(** ** The texts *)

(** The reference for the entries: all of them, in the order of the map, with a
    comma between two. *)
Definition join (sep : bytes) (l : list bytes) : bytes :=
  match l with [] => [] | x :: l => x ++ concat (map (app sep) l) end.

Lemma kvStr_join kv : kvStr true [] kv = join (str ", ") (map (fun '(k, v) => k ++ str "=" ++ v) kv).
Proof.
  assert (forall acc kv, kvStr false acc kv = acc ++ concat (map (app (str ", ")) (map (fun '(k, v) => k ++ str "=" ++ v) kv))) as Hf.
  { intros acc kv0. revert acc. induction kv0 as [|[k v] kv0 IH]; intros acc; cbn [kvStr map concat]; [by rewrite app_nil_r|]. by rewrite IH, <- !app_assoc. }
  destruct kv as [|[k v] kv]; [done|]. cbn [kvStr map join]. apply Hf.
Qed.

Lemma result_log_spec i rs : result_log i rs = imap (fun n r => str "  Result #" ++ to_string (i + Z.of_nat n + 1) ++ str ": idx=" ++ to_string (idx r)
    ++ str " type=" ++ to_string (er_type r) ++ str " kv={" ++ join (str ", ") (map (fun '(k, v) => k ++ str "=" ++ v) (kv r)) ++ str "}") rs.
Proof.
  revert i. induction rs as [|r rs IH]; intros i; [done|]. cbn [result_log imap]. rewrite kvStr_join, IH. f_equal; [by rewrite Z.add_0_r|].
  apply imap_ext. intros n r' _. unfold compose. by replace (i + 1 + Z.of_nat n + 1) with (i + Z.of_nat (S n) + 1) by lia.
Qed.

Lemma no_crlf_line s : no_crlf s -> 10 ∉ s.
Proof. unfold no_crlf. rewrite Forall_forall. intros Hs Hin. by destruct (Hs 10 Hin). Qed.

(** The identity of a session brings no line break into the log. *)
Lemma session_log_line u t what msg : 0 <= t < 2 ^ 62 -> no_crlf what ->
  (let userId := kept_userId u t in
   msg ∈ [session_starts userId; session_expires userId; session_throws userId what; session_throws_unknown userId; session_ends userId]) ->
  10 ∉ msg.
Proof.
  intros Ht Hw Hm. apply no_crlf_line. assert (no_crlf (kept_userId u t)) as Hu.
  { unfold kept_userId. case_bool_decide; [apply no_crlf_app; [by apply no_crlf_check|apply to_string_no_crlf; solve_width]|].
    destruct (clean_userId_spec u) as [Hc _]. eapply Forall_impl; [exact Hc|]. intros c. unfold iscntrl. cbn beta. lia. }
  cbv zeta in Hm. rewrite !elem_of_cons, elem_of_nil in Hm.
  destruct Hm as [->|[->|[->|[->|[->|[]]]]]]; repeat apply no_crlf_app; try done; by apply no_crlf_check.
Qed.

(** Nor do the lines of [main]; the client's host comes from its environment. *)
Lemma main_log_line host p msg : no_crlf host -> is_u16 p -> msg ∈ server_main_log p ++ client_main_log host p -> 10 ∉ msg.
Proof.
  intros Hh Hp Hm. apply no_crlf_line. assert (no_crlf (to_string p)) as Hn by (apply to_string_no_crlf; solve_width).
  assert (Forall no_crlf (server_main_log p ++ client_main_log host p)) as Hall; [|rewrite Forall_forall in Hall; auto].
  unfold server_main_log, client_main_log, client_url. cbn [map app].
  repeat (apply Forall_cons; split; [repeat apply no_crlf_app; try done; by apply no_crlf_check|]). constructor.
Qed.

(** ** Properties *)

(** Calls that do not overlap can be read back: a console with their lines one
    after the other, names without bracket, texts without line break, in the
    years 1970 to 9999, is read as exactly those calls, times to the second, in
    order. *)
Theorem log_roundtrip es : Forall readable es -> read_log (length es) (concat (map line_of es)) = Some es.
Proof.
  intros Hes. induction Hes as [|e es He _ IH]; [done|]. cbn [length map concat]. pose proof (read_line_of e (concat (map line_of es)) He) as Hr.
  destruct (line_of e ++ concat (map line_of es)) as [|x text] eqn:E; [by destruct e as [[t name] msg]|]. cbn [read_log]. rewrite Hr. cbn [mbind option_bind].
  by rewrite IH.
Qed.

(** The lines about a session are such calls whatever the peer sent as its
    identity, and so are the lines of both [main] functions. *)
Lemma program_lines_readable u t host p what t' msg : 0 <= t < 2 ^ 62 -> no_crlf host -> no_crlf what -> is_u16 p -> 0 <= t' < 2 ^ 37 ->
  (let userId := kept_userId u t in
   msg ∈ [session_starts userId; session_expires userId; session_throws userId what; session_throws_unknown userId; session_ends userId])
  \/ msg ∈ server_main_log p ++ client_main_log host p ->
  readable (t', str "ws-server", msg) /\ readable (t', str "ws-client", msg).
Proof.
  intros Ht Hh Hw Hp Ht' Hm. assert (10 ∉ msg) as Hl.
  { destruct Hm as [Hm|Hm]; [exact (session_log_line _ _ _ _ Ht Hw Hm)|exact (main_log_line _ _ _ Hh Hp Hm)]. }
  assert (tm_year (gmtimeSafe t') < 10000) as Hy.
  { destruct (gmtimeSafe_spec t') as (_ & _ & Hy); [lia|]. Z.to_euclidean_division_equations. lia. }
  split; (split_and!; [lia|done|by apply (bool_decide_unpack _); vm_compute|done]).
Qed.

(** Calls that overlap: the console of two threads that log the start of their
    sessions in the same second can be a text that cannot be read as a log at
    all. *)
Theorem log_mixes : exists a b out, readable a /\ readable b /\ mixed [line_of a; line_of b] out
  /\ read_log (length out) out = None.
Proof.
  assert (forall msg, bool_decide (10 ∉ msg) = true -> readable (1709210096, str "ws-server", msg)) as Hr.
  { intros msg Hm. split_and!; [lia|vm_compute; reflexivity|by apply (bool_decide_unpack _); vm_compute|by apply bool_decide_eq_true in Hm]. }
  pose proof (Hr (str "[cpp-1] session+") eq_refl) as Ha. pose proof (Hr (str "[cpp-2] session+") eq_refl) as Hb. clear Hr.
  set (a := (1709210096, str "ws-server", str "[cpp-1] session+")) in *. set (b := (1709210096, str "ws-server", str "[cpp-2] session+")) in *.
  exists a, b, (take 44 (line_of a) ++ line_of b ++ drop 44 (line_of a)). split_and!; [done|done| |].
  { rewrite <- (take_drop 44 (line_of a)) at 1. apply mixed_inside. }
  vm_compute. reflexivity.
Qed.

(** The head of a line. *)
Definition log_head (t : Z) (name : bytes) : bytes := str "[" ++ put_clock (gmtimeSafe t) ++ str "] [INFO] [" ++ name ++ str "] ".

(** Line breaks forge: a text with a line break and the head of a line in it
    reads as two calls.  The texts of the receive loops are made of what the
    peer sent: a HELLO with such a language adds a line of its own choice to
    the server's log. *)
Theorem hello_forges_line t t' lang forged sid :
  let m := (new_message MSG_HELLO) <| clientLanguage := lang ++ [10] ++ log_head t' (str "ws-server") ++ forged |> in
  map (log_line t (str "ws-server")) (server_log sid m)
  = [log_line t (str "ws-server") (str "HELLO from " ++ lang) ++ log_line t' (str "ws-server") (forged ++ str ", session=" ++ sid)].
Proof.
  cbv zeta. change (server_log sid _) with [str "HELLO from " ++ (lang ++ [10] ++ log_head t' (str "ws-server") ++ forged) ++ str ", session=" ++ sid].
  cbn [map]. rewrite !log_line_text. unfold log_head. by rewrite <- !app_assoc.
Qed.

(** Such a message passes the decoder. *)
Example forging_hello : let m := (new_message MSG_HELLO) <| clientLanguage := str "x" ++ [10] ++ log_head 0 (str "ws-server") ++ str "[root] session+" |> in
  (let* bs := encode m in decodeMessage bs (zlen bs)) = Ok m.
Proof. vm_compute. reflexivity. Qed.

(** An ECHO_RESPONSE in the client's log. *)
Example echo_log : client_log ((new_message MSG_ECHO_RESPONSE) <| echoStatus := 200 |>
    <| echoResults := [{| idx := 7; er_type := 0; kv := [(str "data", str "hi"); (str "id", str "1")] |}; {| idx := 8; er_type := 0; kv := [] |}] |>)
  = [str "ECHO_RESPONSE status=200 results=2"; str "  Result #1: idx=7 type=0 kv={data=hi, id=1}"; str "  Result #2: idx=8 type=0 kv={}"].
Proof. vm_compute. reflexivity. Qed.
