(* ===== verification/Endpoint.v ===== *)
(** * Two threads on one socket: [sendFrame] and [wsRecvFrame] in steps

    In both programs several threads use one socket.  The senders go through
    the lambda [sendFrame], which takes a mutex, looks at the flag [active] and
    then calls [::send] until the frame is out; the main thread reads frames
    with [wsRecvFrame], which answers pings and closes on its own, without the
    mutex.  This file cuts both into the steps between which another thread can
    run: a [job] is a call of [sendFrame] under way, a [receiving] a call of
    [wsRecvFrame] under way.  A call that is not interrupted does what the
    function does in one go ([job_alone], [recv_alone]).  Reading a frame is one
    step, since no other thread reads from the socket. *)

From stdpp Require Import gmap relations.
From S2P Require Import Prelude ByteIO Message Codec Socket WsFrame WsReceive.

(** ** The code *)

(** [sendFrame(data)]: at the [lock_guard], at [if (active)], in the loop of
    [sendAll], at the end of the scope of the lock. *)
Inductive job :=
  | JLock (data : bytes)
  | JTest (data : bytes)
  | JWrite (buf : bytes) (total : Z)
  | JUnlock (ok : bool).

(** What [wsRecvFrame] does once its control frame is out. *)
Inductive after :=
  | AfterClose (frame : WSFrame)
  | AfterPing (message : WSFrame) (fragmented : bool).

(** [wsRecvFrame]: at the top of its loop, or in the [sendAll] of a reply. *)
Inductive receiving :=
  | RFrame (message : WSFrame) (fragmented : bool)
  | RReply (buf : bytes) (total : Z) (k : after).

(** What a receive loop does with a frame, up to its call of [sendFrame]:
    leave the loop, or send an answer or none and perhaps stop the session. *)
Inductive plan := Leave | Quiet (stop : bool) | Reply (m : Message) (stop : bool).

Section code.
Context {W : Type} `{Sys W} (sock : Z).

(** One [::send] of [sendAll]: the new [total], or [None] for a failure. *)
Definition send_once (buf : bytes) (total : Z) : io W (option Z) :=
  let! bs := ilift (rd_range buf total (i32 (zlen buf - total))) in
  let! n := send sock bs in
  iret (if n <=? 0 then None else Some (total + n)).

(** One step of [sendFrame] with the flag and the mutex as they are: the mutex
    afterwards with the rest of the call or its result; [None] when blocked. *)
Definition job_step (build : bytes -> io W bytes) (active locked : bool) (j : job) :
    io W (option (bool * (job + bool))) :=
  match j with
  | JLock data => iret (if locked then None else Some (true, inl (JTest data)))
  | JTest data =>
      if active then let! frame := build data in iret (Some (locked, inl (JWrite frame 0)))
      else iret (Some (locked, inl (JUnlock false)))
  | JWrite buf total =>
      if negb (total <? zlen buf) then iret (Some (locked, inl (JUnlock true)))
      else let! t := send_once buf total in
           iret (Some (locked, inl (match t with None => JUnlock false | Some t => JWrite buf t end)))
  | JUnlock ok => iret (Some (false, inr ok))
  end.

Definition after_reply (k : after) (ok : bool) : receiving + WSFrame :=
  match k with
  | AfterClose frame => inr frame
  | AfterPing message fragmented => if ok then inl (RFrame message fragmented) else inr message
  end.

Definition begin_reply (expectMasked : bool) (op : Z) (p : bytes) (k : after) : io W (receiving + WSFrame) :=
  let! out := control_out op p (negb expectMasked) in
  iret (match out with None => after_reply k false | Some out => inl (RReply out 0 k) end).

(** One step of [wsRecvFrame]: the rest of the call, or the returned frame. *)
Definition recv_step (expectMasked : bool) (r : receiving) : io W (receiving + WSFrame) :=
  match r with
  | RFrame message fragmented =>
      let! r := recv_one sock expectMasked (zlen (payload message)) in
      match r with
      | None => iret (inr message)
      | Some (fin, op, p) =>
          if op =? 0x08 then
            begin_reply expectMasked 0x08 p
              (AfterClose {| opcode := Some op; payload := p; isClose := true; isValid := true |})
          else if op =? 0x09 then begin_reply expectMasked 0x0A p (AfterPing message fragmented)
          else if op =? 0x0A then iret (inl (RFrame message fragmented))
          else if (op =? 0x02) && negb fragmented then
            let message := message <| opcode := Some op |> <| payload := p |> in
            if fin then iret (inr (message <| isValid := true |>)) else iret (inl (RFrame message true))
          else if (op =? 0x00) && fragmented then
            let message := message <| payload := payload message ++ p |> in
            if fin then iret (inr (message <| isValid := true |>)) else iret (inl (RFrame message fragmented))
          else iret (inr zero_WSFrame)
      end
  | RReply buf total k =>
      if negb (total <? zlen buf) then iret (after_reply k true)
      else let! t := send_once buf total in
           iret (match t with None => after_reply k false | Some t => inl (RReply buf t k) end)
  end.

(** Uninterrupted steps of one call. *)
Inductive job_goes (build : bytes -> io W bytes) (active : bool) :
    bool * (job + bool) * W -> bool * (job + bool) * W -> Prop :=
  | job_goes_step l j x w w' : job_step build active l j w = (Ok (Some x), w') ->
      job_goes build active (l, inl j, w) (x, w').
Inductive recv_goes (expectMasked : bool) : (receiving + WSFrame) * W -> (receiving + WSFrame) * W -> Prop :=
  | recv_goes_step r x w w' : recv_step expectMasked r w = (Ok x, w') -> recv_goes expectMasked (inl r, w) (x, w').
End code.

(** ** An uninterrupted call is the function *)

Section alone.
Context {W : Type} `{Sys W} (sock : Z).

Lemma send_loop_once f buf total (w : W) : total < zlen buf ->
  send_loop (S f) sock buf (zlen buf) total w =
    (let! t := send_once sock buf total in
     match t with None => iret false | Some t => send_loop f sock buf (zlen buf) t end) w.
Proof.
  intros Hl. cbn [send_loop]. rewrite (proj2 (Z.ltb_lt _ _)) by done. cbn [negb].
  unfold send_once, ibind, ilift. destruct (rd_range _ _ _); try done. unfold send. destruct (sys_send _ _ w) as [n w1].
  unfold iret. by destruct (n <=? 0).
Qed.

(** The loop of [sendAll], for any steps that follow [send_once]. *)
Lemma send_loop_alone {S} (R : relation (S * W)) (at_ : Z -> S) (fin : bool -> S) buf :
  (forall t w, zlen buf <= t -> rtc R (at_ t, w) (fin true, w)) ->
  (forall t o w w', t < zlen buf -> send_once sock buf t w = (Ok o, w') ->
     rtc R (at_ t, w) (match o with None => fin false | Some t => at_ t end, w')) ->
  forall fuel total w ok w', send_loop fuel sock buf (zlen buf) total w = (Ok ok, w') ->
    rtc R (at_ total, w) (fin ok, w').
Proof.
  intros Hend Hgo. induction fuel as [|f IH]; intros total w ok w' E;
    (destruct (Z.ltb_spec total (zlen buf)) as [Hlt|Hge];
     [|cbn [send_loop] in E; rewrite (proj2 (Z.ltb_ge _ _)) in E by lia; injection E as <- <-; by apply Hend]).
  - cbn [send_loop] in E. by rewrite (proj2 (Z.ltb_lt _ _)) in E by lia.
  - rewrite send_loop_once in E by done. unfold ibind in E.
    destruct (send_once sock buf total w) as [[o|e|] w1] eqn:E1; [|done..].
    etrans; [by apply (Hgo _ _ _ _ Hlt E1)|]. destruct o as [t|]; [by apply IH|]. injection E as <- <-. apply rtc_refl.
Qed.

Lemma send_alone build active l buf (w : W) ok w' : sendAll sock buf (zlen buf) w = (Ok ok, w') ->
  rtc (job_goes sock build active) (l, inl (JWrite buf 0), w) (l, inl (JUnlock ok), w').
Proof.
  apply (send_loop_alone (job_goes sock build active) (fun t => (l, inl (JWrite buf t))) (fun ok => (l, inl (JUnlock ok)))).
  - intros t w0 Ht. apply rtc_once, job_goes_step. cbn [job_step]. by rewrite (proj2 (Z.ltb_ge _ _)) by lia.
  - intros t o w0 w1 Ht E. apply rtc_once.
    destruct o as [t1|]; apply job_goes_step; cbn [job_step]; rewrite (proj2 (Z.ltb_lt _ _)) by lia; cbn [negb];
      unfold ibind; by rewrite E.
Qed.

(** A call of [sendFrame] on a free mutex, alone: the flag decides between no
    effect at all and the whole send; the mutex is free again. *)
Lemma job_alone (build : bytes -> io W bytes) (active : bool) data (w : W) ok w' :
  (if active then (let! frame := build data in sendAll sock frame (zlen frame)) else iret false) w = (Ok ok, w') ->
  rtc (job_goes sock build active) (false, inl (JLock data), w) (false, inr ok, w').
Proof.
  intros E. eapply rtc_l; [by apply job_goes_step|]. eapply rtc_r; [|by apply (job_goes_step _ _ _ true (JUnlock ok))].
  destruct active.
  - unfold ibind in E. destruct (build data w) as [[frame|e|] w1] eqn:Eb; [|done..].
    eapply rtc_l; [apply job_goes_step; cbn [job_step]; unfold ibind; by rewrite Eb|]. by apply send_alone.
  - injection E as <- <-. by apply rtc_once, job_goes_step.
Qed.

Lemma reply_alone em buf k (w : W) ok w' : sendAll sock buf (zlen buf) w = (Ok ok, w') ->
  rtc (recv_goes sock em) (inl (RReply buf 0 k), w) (after_reply k ok, w').
Proof.
  apply (send_loop_alone (recv_goes sock em) (fun t => inl (RReply buf t k)) (fun ok => after_reply k ok)).
  - intros t w0 Ht. apply rtc_once, recv_goes_step. cbn [recv_step]. by rewrite (proj2 (Z.ltb_ge _ _)) by lia.
  - intros t o w0 w1 Ht E. apply rtc_once.
    apply recv_goes_step. cbn [recv_step]. rewrite (proj2 (Z.ltb_lt _ _)) by lia. cbn [negb]. unfold ibind. rewrite E. by destruct o.
Qed.

(** The control reply of a round: one step to the reply, then its sends. *)
Lemma control_alone em op p k msg frag fin op0 (w w1 : W) ok w' :
  recv_one sock em (zlen (payload msg)) w = (Ok (Some (fin, op0, p)), w1) ->
  recv_step sock em (RFrame msg frag) w = begin_reply em op p k w1 ->
  wsSendControl sock op p (negb em) w1 = (Ok ok, w') ->
  rtc (recv_goes sock em) (inl (RFrame msg frag), w) (after_reply k ok, w').
Proof.
  intros E1 Es E. unfold begin_reply in Es. unfold wsSendControl in E. unfold ibind in E, Es.
  destruct (control_out op p (negb em) w1) as [[[out|]|e|] w2]; try done.
  - eapply rtc_l; [by apply recv_goes_step|]. by apply reply_alone.
  - injection E as <- <-. by apply rtc_once, recv_goes_step.
Qed.

Lemma recv_frames_alone fuel em msg frag (w : W) f w' : recv_frames fuel sock em msg frag w = (Ok f, w') ->
  rtc (recv_goes sock em) (inl (RFrame msg frag), w) (inr f, w').
Proof.
  revert msg frag w. induction fuel as [|fuel IH]; intros msg frag w E; [done|]. cbn [recv_frames] in E.
  unfold ibind at 1 in E. destruct (recv_one sock em (zlen (payload msg)) w) as [[[[[fin op] p]|]|e|] w1] eqn:E1; [| |done..].
  2: { injection E as <- <-. apply rtc_once, recv_goes_step. cbn [recv_step]. by rewrite (ibind_run _ _ _ _ _ E1). }
  assert (forall x, recv_step sock em (RFrame msg frag) w = (Ok x, w1) ->
    rtc (recv_goes sock em) (x, w1) (inr f, w') -> rtc (recv_goes sock em) (inl (RFrame msg frag), w) (inr f, w')) as Hone.
  { intros x Ex Hx. eapply rtc_l; [by apply recv_goes_step|done]. }
  pose proof (control_alone em) as Hctl. specialize (Hctl) with (1 := E1).
  cbn [recv_step] in Hone, Hctl. setoid_rewrite (ibind_run _ _ _ _ _ E1) in Hone. setoid_rewrite (ibind_run _ _ _ _ _ E1) in Hctl.
  destruct (op =? 8); [|destruct (op =? 9)].
  - unfold ibind in E. destruct (wsSendControl _ _ _ _ w1) as [[ok|e|] w2] eqn:E2; [|done..]. injection E as <- <-.
    exact (Hctl _ (AfterClose _) frag ok w2 eq_refl E2).
  - unfold ibind in E. destruct (wsSendControl _ _ _ _ w1) as [[ok|e|] w2] eqn:E2; [|done..].
    etrans; [exact (Hctl _ (AfterPing msg frag) frag ok w2 eq_refl E2)|]. cbn [after_reply]. destruct ok; [by apply IH|]. injection E as <- <-. apply rtc_refl.
  - repeat case_match; (eapply Hone; [reflexivity|]); first [by apply IH | injection E as <- <-; apply rtc_refl].
Qed.

(** A call of [wsRecvFrame], alone. *)
Lemma recv_alone fuel em (w : W) f w' : wsRecvFrame fuel sock em w = (Ok f, w') ->
  rtc (recv_goes sock em) (inl (RFrame new_WSFrame false), w) (inr f, w').
Proof. apply recv_frames_alone. Qed.
End alone.

(** ** What the steps do *)

(** [f] is a WebSocket frame of a sender with the content [data]; it carries the
    message [m]. *)
Definition framed (masked : bool) (data f : bytes) : Prop :=
  exists key, has_key key = masked /\ key_ok key /\ f = wire (data_frame key data).
Definition carries (masked : bool) (m : Message) (f : bytes) : Prop :=
  message_ok m /\ zlen (payload_wire m) < 2 ^ 30 /\ framed masked (frame_bytes (type m) 0 (payload_wire m)) f.

(** [data] encodes a message out of [says], and can be sent. *)
Definition sendable (says : Message -> Prop) (data : bytes) : Prop :=
  exists m, says m /\ message_ok m /\ zlen (payload_wire m) < 2 ^ 30 /\ data = frame_bytes (type m) 0 (payload_wire m).

(** A call of [sendFrame] for a message out of [says]. *)
Definition job_ok (masked : bool) (says : Message -> Prop) (j : job) : Prop :=
  match j with
  | JLock data | JTest data => sendable says data
  | JWrite buf total => (exists m, says m /\ carries masked m buf) /\ 0 <= total <= zlen buf
  | JUnlock _ => True
  end.

(** A frame under way carries an [allowed] message. *)
Definition under_way (masked : bool) (allowed : Message -> Prop) (j : job) : Prop :=
  match j with JWrite buf _ => exists m, allowed m /\ carries masked m buf | _ => True end.

Lemma job_under_way masked (says allowed : Message -> Prop) j :
  (forall m, says m -> allowed m) -> job_ok masked says j -> under_way masked allowed j.
Proof. intros Hs. destruct j; try done. intros [(m & ? & ?) _]. exists m. auto. Qed.

Definition job_held (j : job) : bool := match j with JLock _ => false | _ => true end.

(** The bytes of a frame under way that are already out. *)
Definition job_part (j : job) : bytes :=
  match j with JWrite buf total => take (Z.to_nat total) buf | _ => [] end.

Lemma carries_length masked m f : carries masked m f -> 0 < zlen f < 2 ^ 31.
Proof.
  intros (_ & Hl & key & _ & Hk & ->). rewrite length_wire by done. cbn [w_body w_form w_key data_frame].
  rewrite length_frame_bytes. pose proof (length_form_ext (shortest (8 + zlen (payload_wire m))) (8 + zlen (payload_wire m))).
  destruct (has_key key); lia.
Qed.

(** What a program must show of the function that builds its frames. *)
Class Builder {W : Type} `{Sys W} (build : bytes -> io W bytes) (masked : bool) : Prop :=
  build_run s data (w : W) : zlen data < 2 ^ 63 ->
    exists key w', build data w = (Ok (wire (data_frame key data)), w') /\ has_key key = masked /\ key_ok key
      /\ untouched s w w' /\ incoming s w' = incoming s w.

#[export] Instance binary_builder {W} `{SysLaws W} : Builder (binary_frame (W := W)) false.
Proof. intros s data w Hl. exists None, w. by rewrite binary_frame_run. Qed.
#[export] Instance masked_builder {W} `{SysLaws W} : Builder (masked_frame (W := W)) true.
Proof.
  intros s data w Hl. destruct (masked_frame_run s data w Hl) as (key & w' & ? & ? & ? & ?). by exists (Some key), w'.
Qed.

Lemma Forall2_snoc {A B} (R : A -> B -> Prop) xs ys x y : Forall2 R xs ys -> R x y -> Forall2 R (xs ++ [x]) (ys ++ [y]).
Proof. intros HF HR. apply Forall2_app; [done|]. by constructor. Qed.

Section moves.
Context {W : Type} `{SysLaws W} (sock : Z).

Lemma send_once_run buf total (w : W) : zlen buf < 2 ^ 31 -> 0 <= total < zlen buf ->
  exists o w', send_once sock buf total w = (Ok o, w') /\
    match o with
    | Some t => total < t <= zlen buf /\ 0 < room sock w
        /\ sent sock (take (Z.to_nat (t - total)) (drop (Z.to_nat total) buf)) w w'
    | None => room sock w = 0 /\ sent sock [] w w'
    end.
Proof.
  intros Hb Ht. unfold send_once. assert (i32 (zlen buf - total) = zlen buf - total) as -> by solve_width.
  unfold rd_range. rewrite !(proj2 (Z.leb_le _ _)) by lia. cbn [andb]. rewrite ibind_lift.
  rewrite take_ge by (rewrite length_drop; lia). unfold send, ibind, iret.
  assert (zlen (drop (Z.to_nat total) buf) = zlen buf - total) as Hd by (rewrite length_drop; lia).
  pose proof (send_law sock (drop (Z.to_nat total) buf) w) as L. pose proof (room_nonneg sock w).
  destruct (sys_send sock _ w) as [n w1]. lapply L; [clear L; intros L|by intros E; rewrite E in Hd; cbn in Hd; lia].
  destruct (Z.ltb_spec 0 (room sock w)); destruct L as [Hn Hs].
  - rewrite (proj2 (Z.leb_gt n 0)) by lia. exists (Some (total + n)), w1. split; [done|].
    replace (total + n - total) with n by lia. split_and!; [lia..|done].
  - rewrite (proj2 (Z.leb_le n 0)) by lia. exists None, w1. split_and!; [done|lia|done].
Qed.

(** The steps of [sendFrame] as a relation on the call and the world. *)
Inductive job_moves (masked active locked : bool) : job -> W -> bool -> job + bool -> W -> Prop :=
  | jm_lock data w : locked = false -> job_moves masked active locked (JLock data) w true (inl (JTest data)) w
  | jm_test buf data w w' : active = true -> framed masked data buf -> untouched sock w w' -> incoming sock w' = incoming sock w ->
      job_moves masked active locked (JTest data) w locked (inl (JWrite buf 0)) w'
  | jm_skip data w : active = false -> job_moves masked active locked (JTest data) w locked (inl (JUnlock false)) w
  | jm_full buf w : job_moves masked active locked (JWrite buf (zlen buf)) w locked (inl (JUnlock true)) w
  | jm_send buf t t' w w' : 0 <= t < t' -> t' <= zlen buf -> 0 < room sock w ->
      sent sock (take (Z.to_nat (t' - t)) (drop (Z.to_nat t) buf)) w w' ->
      job_moves masked active locked (JWrite buf t) w locked (inl (JWrite buf t')) w'
  | jm_fail buf t w w' : 0 <= t < zlen buf -> room sock w = 0 -> sent sock [] w w' ->
      job_moves masked active locked (JWrite buf t) w locked (inl (JUnlock false)) w'
  | jm_unlock ok w : job_moves masked active locked (JUnlock ok) w false (inr ok) w.

Context (build : bytes -> io W bytes) (masked : bool) `{!Builder build masked}.

Lemma job_step_run says active locked j (w : W) : job_ok masked says j -> exists o w', job_step sock build active locked j w = (Ok o, w')
  /\ match o with
     | None => locked = true /\ job_held j = false
     | Some (l, x) => job_moves masked active locked j w l x w'
     end.
Proof.
  intros Hj. destruct j as [data|data|buf t|ok]; cbn [job_step job_ok] in *.
  - destruct locked; [by exists None, w|]. exists (Some (true, inl (JTest data))), w. split; [done|by constructor].
  - destruct active; [|eexists (Some _), w; split; [done|by constructor]]. destruct Hj as (m & _ & Hm & Hl & ->).
    destruct (build_run sock (frame_bytes (type m) 0 (payload_wire m)) w) as (key & w' & E & Hk & Hko & Hu & Hin).
    { rewrite length_frame_bytes. lia. }
    rewrite (ibind_run _ _ _ _ _ E). eexists (Some _), w'. split; [done|].
    apply jm_test; [done| |done|done]. by exists key.
  - destruct Hj as [(m & _ & Hm) Ht]. pose proof (carries_length _ _ _ Hm). destruct (Z.ltb_spec t (zlen buf)); cbn [negb].
    + destruct (send_once_run buf t w) as (o & w' & E & Ho); [lia..|]. rewrite (ibind_run _ _ _ _ _ E).
      eexists (Some _), w'. split; [done|]. destruct o as [t'|]; destruct_and? Ho; constructor; (done || lia).
    + assert (t = zlen buf) as -> by lia. eexists (Some _), w. split; [done|constructor].
  - eexists (Some _), w. split; [done|constructor].
Qed.

(** Steps keep a call well-formed and the descriptors open. *)
Lemma job_moves_ok says active locked j w l x w' : job_moves masked active locked j w l x w' -> job_ok masked says j ->
  opened w' = opened w /\ match x with inl j' => job_ok masked says j' | inr _ => True end.
Proof.
  destruct 1 as [|buf data w w' _ Hc (_ & _ & Hop) _| | |buf t t' w w' ? ? ? (_ & _ & Hop & _)|buf t w w' ? ? (_ & _ & Hop & _)|];
    cbn [job_ok]; intros Hj; try done.
  - destruct Hj as (m & Hsay & Hm & Hl & ->). assert (carries masked m buf) as Hcm by done.
    split; [done|]. split; [by exists m|]. pose proof (carries_length _ _ _ Hcm). lia.
  - split; [done|]. destruct Hj. split; [done|lia].
Qed.

(** The mutex is taken by the first step and released by the last. *)
Lemma job_moves_lock active locked j w l x w' : job_moves masked active locked j w l x w' ->
  (job_held j = true -> locked = true) ->
  l = match x with inl _ => true | inr _ => false end
  /\ match x with inl j' => job_held j' = true | inr _ => job_held j = true end
  /\ (job_held j = false -> locked = false).
Proof. destruct 1; cbn [job_held]; intros Hl; split_and!; try done; auto. Qed.

(** ** The mutex *)

(** The calls among [j] that hold the mutex. *)
Definition held (j : job) : list job := if job_held j then [j] else [].
Definition held_after (x : job + bool) : list job := match x with inl j => held j | inr _ => [] end.

(** A thread whose call takes a step is the only holder, if there is one. *)
Lemma holders_move pre post active locked j w l x w' : job_moves masked active locked j w l x w' ->
  length (pre ++ held j ++ post) = (if locked then 1 else 0)%nat ->
  pre = [] /\ post = [] /\ length (pre ++ held_after x ++ post) = (if l then 1 else 0)%nat.
Proof.
  intros Hm. rewrite !length_app. unfold held at 1. intros Hlen.
  assert (job_held j = true -> locked = true) as Hl by (intros Hj; rewrite Hj in Hlen; destruct locked; cbn in Hlen; [done|lia]).
  destruct (job_moves_lock _ _ _ _ _ _ _ Hm Hl) as (-> & Hx & Hn).
  assert (length pre = 0 /\ length post = 0)%nat as [->%nil_length_inv ->%nil_length_inv].
  { destruct (job_held j); [destruct locked|rewrite Hn in Hlen by done]; cbn in Hlen; lia. }
  split_and!; [done|done|]. destruct x as [j'|ok]; cbn; [|done]. unfold held. by rewrite Hx.
Qed.

(** ** The stream of a connection *)

(** Nothing, or a beginning of a frame that carries an [allowed] message. *)
Definition partial (allowed : Message -> Prop) (p : bytes) : Prop :=
  p = [] \/ exists m f, allowed m /\ carries masked m f /\ p `prefix_of` f.

(** [ms] are the messages that went out as a whole since the output was [out0],
    [hs] the calls that hold the mutex.  What follows the frames of [ms] is the
    part of the frame under way; once a send has failed, a last frame may be
    cut off, and nothing more goes out. *)
Definition stream (allowed : Message -> Prop) (ms : list Message) (out0 : bytes) (hs : list job) (w : W) : Prop :=
  exists fs, Forall2 (carries masked) ms fs /\
    (outgoing sock w = out0 ++ concat fs ++ concat (map job_part hs)
     \/ room sock w = 0 /\ concat (map job_part hs) = []
        /\ exists p, partial allowed p /\ outgoing sock w = out0 ++ concat fs ++ p).

Lemma stream_quiet allowed ms out0 hs hs' w w' : stream allowed ms out0 hs w ->
  outgoing sock w' = outgoing sock w -> room sock w' <= room sock w ->
  concat (map job_part hs') = concat (map job_part hs) -> stream allowed ms out0 hs' w'.
Proof.
  intros (fs & HF & Hs) Ho Hr Hp. exists fs. split; [done|]. rewrite Ho, Hp.
  destruct Hs as [Hs|[Hz Hs]]; [by left|right]. split; [|done]. pose proof (room_nonneg sock w'). lia.
Qed.

Lemma stream_start allowed w : stream allowed [] (outgoing sock w) [] w.
Proof. exists []. split; [constructor|]. left. cbn. by rewrite app_nil_r. Qed.

(** The message a step completes: the one whose frame is out. *)
Definition completed (x : job + bool) : bool := match x with inl (JUnlock true) => true | _ => false end.

(** The step of the call that holds the mutex, or takes it. *)
Lemma stream_job allowed (says : Message -> Prop) ms out0 active locked j w l x w' :
  (forall m, says m -> allowed m) -> job_ok masked says j ->
  stream allowed ms out0 (held j) w -> job_moves masked active locked j w l x w' ->
  if completed x then job_part j <> [] /\ exists m, says m /\ stream allowed (ms ++ [m]) out0 (held_after x) w'
  else stream allowed ms out0 (held_after x) w'.
Proof.
  intros Hsub Hj Hs Hm. destruct Hm as [|? ? ? ? ? ? (? & ? & ?) ?| |buf w|buf t t' w w' Ht Ht' Hr (Ho & Hro & _)|buf t w w' Ht Hr (Ho & Hro & _)|];
    unfold held_after, held in *; cbn [job_held completed] in *.
  1,2,3,7: eapply stream_quiet; [exact Hs|done|lia|done].
  - destruct Hj as [(m & Hsay & Hm) _]. pose proof (carries_length _ _ _ Hm) as Hlen.
    assert (job_part (JWrite buf (zlen buf)) = buf) as Hp by (cbn [job_part]; by rewrite Nat2Z.id, firstn_all).
    assert (buf <> []) as Hne by (intros ->; cbn in Hlen; lia). rewrite Hp. split; [done|]. exists m. split; [done|].
    destruct Hs as (fs & HF & [Hs|(_ & Hz & _)]); cbn [map concat] in *; rewrite Hp, app_nil_r in *; [|done].
    exists (fs ++ [buf]). split; [by apply Forall2_snoc|]. left. rewrite Hs, concat_app. cbn [map concat job_part]. by rewrite !app_nil_r.
  - destruct Hs as (fs & HF & [Hs|[Hz Hs]]); [|lia]. exists fs. split; [done|]. left.
    rewrite Ho, Hs. cbn [map job_part concat]. rewrite !app_nil_r, <- !app_assoc. do 2 f_equal.
    replace (Z.to_nat t') with (Z.to_nat t + Z.to_nat (t' - t))%nat by lia. apply take_take_drop.
  - destruct Hj as [(m & Hsay & Hm) _]. destruct Hs as (fs & HF & [Hs|(Hz & _ & Hs)]); exists fs; (split; [done|]); right; cbn [length] in Hro;
      (split; [lia|]); (split; [done|]).
    + exists (take (Z.to_nat t) buf). split; [right; exists m, buf; split_and!; auto using prefix_take|].
      rewrite Ho, Hs. cbn [map job_part concat]. by rewrite !app_nil_r.
    + by rewrite Ho, app_nil_r.
Qed.

(** A call that finds the flag cleared sends nothing. *)
Lemma stream_dry allowed ms out0 locked j w l x w' : match j with JWrite _ _ => False | _ => True end ->
  stream allowed ms out0 (held j) w -> job_moves masked false locked j w l x w' -> stream allowed ms out0 (held_after x) w'.
Proof. intros Hd Hs Hm. destruct Hm; unfold held_after, held in *; cbn [job_held] in *; try done; by eapply stream_quiet; [exact Hs|done|lia|]. Qed.

Lemma job_moves_room active locked j w l x w' : job_moves masked active locked j w l x w' ->
  room sock w' <= room sock w /\ (concat (map job_part (held j)) = [] -> room sock w = 0 -> concat (map job_part (held_after x)) = []).
Proof. destruct 1 as [|? ? ? ? ? ? (? & ? & ?) ?| | |? ? ? ? ? ? ? ? (? & ? & ?)|? ? ? ? ? ? (? & ? & ?)|]; split; try done; cbn [length] in *; lia. Qed.

(** The output is always whole frames and a part of one more. *)
Lemma stream_out allowed ms out0 hs w : stream allowed ms out0 hs w -> (length hs <= 1)%nat -> Forall (under_way masked allowed) hs ->
  exists fs p, Forall2 (carries masked) ms fs /\ outgoing sock w = out0 ++ concat fs ++ p /\ partial allowed p
    /\ (hs = [] -> 0 < room sock w -> p = []).
Proof.
  intros (fs & HF & Hs) Hl Hok. exists fs. destruct Hs as [Hs|(Hz & _ & p & Hp & Ho)]; [|exists p; split_and!; try done; lia].
  eexists. split; [done|]. split; [exact Hs|]. split; [|by intros ->]. destruct hs as [|j [|? ?]]; cbn in Hl; [by left| |lia].
  apply Forall_cons_1 in Hok as [Hok _]. cbn [map concat]. rewrite app_nil_r.
  destruct j as [| |buf t|]; [by left..| |by left]. destruct Hok as (m & Hm & Hc). right. exists m, buf.
  split_and!; [done|done|apply prefix_take].
Qed.
End moves.

(** ** What the steps of [wsRecvFrame] do *)

(** A message under way. *)
Definition so_far (m : WSFrame) : Prop :=
  isValid m = false /\ isClose m = false /\ is_bytes (payload m) /\ zlen (payload m) <= MAX_MESSAGE_SIZE.

Definition recv_ok (r : receiving) : Prop :=
  match r with
  | RFrame message _ => so_far message
  | RReply buf total k => zlen buf <= 131 /\ 0 <= total <= zlen buf
      /\ match k with AfterClose frame => frame_in_hand frame | AfterPing message _ => so_far message end
  end.

Definition outcome_ok (x : receiving + WSFrame) : Prop :=
  match x with inl r => recv_ok r | inr f => frame_in_hand f end.

Definition replying (r : receiving) : bool := match r with RFrame _ _ => false | RReply _ _ _ => true end.

Lemma so_far_in_hand m : so_far m -> frame_in_hand m.
Proof. intros (Hv & _) Hv'. congruence. Qed.

Lemma after_reply_ok k ok : match k with AfterClose frame => frame_in_hand frame | AfterPing message _ => so_far message end ->
  outcome_ok (after_reply k ok).
Proof. destruct k; cbn [after_reply]; [done|]. destruct ok; [done|]. apply so_far_in_hand. Qed.

(** What is left to do: input to read, then output to finish. *)
Definition recv_measure {W} `{Sys W} (sock : Z) (r : receiving) (w : W) : nat :=
  200 * length (incoming sock w) + match r with RFrame _ _ => 1 | RReply buf total _ => 2 + (length buf - Z.to_nat total) end.

Section receive_moves.
Context {W : Type} `{SysLaws W} (sock : Z) (em : bool).

Record recv_effect (r : receiving) (w : W) (x : receiving + WSFrame) (w' : W) : Prop := {
  re_opened : opened w' = opened w;
  re_room : room sock w' <= room sock w;
  re_outcome : outcome_ok x;
  re_silent : replying r = false -> outgoing sock w' = outgoing sock w;
  re_measure : quiet_peer W -> match x with inl r' => (recv_measure sock r' w' < recv_measure sock r w)%nat | inr _ => True end;
}.

Lemma send_once_quiet buf total (w : W) : quiet_peer W -> incoming sock (snd (send_once sock buf total w)) = incoming sock w.
Proof.
  intros Hq. unfold send_once, ibind, ilift. destruct (rd_range _ _ _); try done. unfold send.
  specialize (Hq sock a w). by destruct (sys_send sock a w).
Qed.

Lemma begin_reply_run op p k m frag (w w1 : W) : 0 <= op < 16 -> zlen p <= 125 ->
  match k with AfterClose frame => frame_in_hand frame | AfterPing message _ => so_far message end ->
  untouched sock w w1 -> (length (incoming sock w1) + 2 <= length (incoming sock w))%nat ->
  exists x w', begin_reply em op p k w1 = (Ok x, w') /\ recv_effect (RFrame m frag) w x w'.
Proof.
  intros Ho Hp Hk (Ho1 & Hr1 & Hop1) Hin. unfold begin_reply.
  destruct (control_out_run sock op p (negb em) w1 Ho Hp) as (key & w2 & E & _ & Hko & (Ho2 & Hr2 & Hop2) & Hin2).
  rewrite (ibind_run _ _ _ _ _ E). eexists _, w2. split; [done|].
  pose proof (length_control_wire op key p Hko).
  split; [congruence|lia|cbn [outcome_ok recv_ok]; split_and!; (done || lia)|congruence|].
  intros _. unfold recv_measure. rewrite Hin2. change (Z.to_nat 0) with 0%nat. lia.
Qed.

Lemma quiet_round m frag (w w1 : W) x : untouched sock w w1 ->
  (length (incoming sock w1) + 2 <= length (incoming sock w))%nat \/ (exists f, x = inr f) -> outcome_ok x ->
  (forall r', x = inl r' -> replying r' = false) -> recv_effect (RFrame m frag) w x w1.
Proof.
  intros (Ho & Hr & Hop) Hin Hx Hrep. split; [done|lia|done|done|]. intros _. destruct x as [r'|]; [|done].
  destruct Hin as [Hin|[f ?]]; [|done]. specialize (Hrep r' eq_refl). destruct r'; [|done]. unfold recv_measure. lia.
Qed.

Lemma recv_step_run r (w : W) : recv_ok r -> exists x w', recv_step sock em r w = (Ok x, w') /\ recv_effect r w x w'.
Proof.
  destruct r as [m frag|buf t k]; cbn [recv_ok recv_step]; intros Hok.
  - pose proof Hok as (Hv & Hc & Hb & Hl). assert (frame_in_hand m) as Hm by (by apply so_far_in_hand).
    destruct (recv_one_total sock em (zlen (payload m)) w) as (o & w1 & E & Hu & HO); [lia|].
    rewrite (ibind_run _ _ _ _ _ E). destruct o as [[[fin op] p]|]; cycle 1.
    { eexists _, w1. split; [done|]. apply quiet_round; [done|right; by eexists|done|done]. }
    destruct HO as (f & Hacc & Hfin & Hop & Hp & Hin).
    assert (length (incoming sock w1) + 2 <= length (incoming sock w))%nat as Hlen by (rewrite Hin; unfold wire; rewrite !length_app; cbn; lia).
    pose proof Hacc as [[Hop16 _ _ Hbody] _ _ Hsz]. rewrite Hp in Hbody, Hsz. rewrite Hop in Hop16.
    destruct (Z.eqb_spec op 8) as [->|_]; [|destruct (Z.eqb_spec op 9) as [->|_]].
    + destruct (acceptable_control _ _ _ Hacc ltac:(lia)) as [Hpl _]. rewrite Hp in Hpl.
      apply begin_reply_run; [lia|done| |done|done]. intros _. cbn [payload]. split; [done|]. unfold MAX_MESSAGE_SIZE. lia.
    + destruct (acceptable_control _ _ _ Hacc ltac:(lia)) as [Hpl _]. rewrite Hp in Hpl. by apply begin_reply_run; [lia|..].
    + assert (so_far (m <| opcode := Some op |> <| payload := p |>)) as H1 by (unfold so_far; do 2 ws_fields; split_and!; try done; lia).
      assert (so_far (m <| payload := payload m ++ p |>)) as H2.
      { unfold so_far. ws_fields. split_and!; try done; [by apply Forall_app|]. rewrite length_app. lia. }
      repeat case_match; eexists _, w1; (split; [done|]); apply quiet_round; first [done | by left | idtac];
        try (by intros ? [= <-]); try (intros _; ws_fields; (apply H1 || apply H2)).
      all: by intros.
  - destruct Hok as (Hbuf & Ht & Hk). destruct (Z.ltb_spec t (zlen buf)) as [Hlt|Hge]; cbn [negb]; cycle 1.
    { eexists _, w. split; [done|]. split; [done|lia|by apply after_reply_ok|done|]. intros _.
      destruct k; cbn [after_reply]; [done|]. unfold recv_measure. lia. }
    destruct (send_once_run sock buf t w) as (o & w' & E & Ho); [lia..|].
    pose proof (send_once_quiet buf t w) as Hq. rewrite E in Hq. cbn [snd] in Hq. rewrite (ibind_run _ _ _ _ _ E).
    eexists _, w'. split; [done|]. destruct o as [t'|].
    + destruct Ho as (Ht' & Hr & (Hout & Hro & Hop & _)).
      split; [done|lia|cbn [outcome_ok recv_ok]; split_and!; (done || lia)|done|].
      intros Hqp. unfold recv_measure. rewrite Hq by done. lia.
    + destruct Ho as (Hr & (Hout & Hro & Hop & _)). split; [done|cbn [length] in Hro; lia|by apply after_reply_ok|done|].
      intros Hqp. destruct k; cbn [after_reply]; [done|]. done.
Qed.
End receive_moves.

(** ** The steps left in a call of [sendFrame] that finds the flag cleared *)

Definition job_weight (j : job) : nat :=
  match j with JLock _ => 3 | JTest _ => 2 | JWrite buf t => 2 + (length buf - Z.to_nat t) | JUnlock _ => 1 end.

Lemma job_step_weight {W} `{SysLaws W} sock (build : bytes -> io W bytes) masked `{!Builder build masked} says active j l w l' x w' :
  quiet_peer W -> active = false -> job_ok masked says j -> job_step sock build active l j w = (Ok (Some (l', x)), w') ->
  (match x with inl j' => job_weight j' | inr _ => 0 end < job_weight j)%nat /\ incoming sock w' = incoming sock w.
Proof.
  intros Hq -> Hj E. destruct (job_step_run sock build masked says false l j w Hj) as (o & w1 & E1 & Ho).
  rewrite E1 in E. injection E as -> ->. destruct j as [data|data|buf t|ok]; cbn [job_step] in E1.
  - inversion Ho; subst. cbn. split; [lia|done].
  - inversion Ho; subst; [done|]. cbn. split; [lia|done].
  - pose proof (send_once_quiet sock buf t w Hq) as Hin. destruct (negb _).
    { injection E1 as <- <- <-. cbn. split; [lia|done]. }
    unfold ibind in E1. destruct (send_once sock buf t w) as [[o'|e|] w2]; [|done..]. injection E1 as <- <- <-. cbn [snd] in Hin.
    split; [|done]. inversion Ho; subst; cbn [job_weight]; lia.
  - inversion Ho; subst. cbn. split; [lia|done].
Qed.
