(* ===== verification/ServerThreads.v ===== *)
(** * The threads of a session (server/ws_server.cpp: handleClient)

    [handleClient] runs five threads over shared variables: the receive loop,
    three senders (PING, TIME_NOTIFICATION, KISS_REQUEST) and the timeout check.
    The state of a session has a program counter per thread, the flag, the last
    PONG time and the mutex; [exec] runs one thread to its next step and [step]
    is any thread doing so.  Every access to the flag or to the last PONG time is
    a step of its own, and so is every [::send]; calls of [sendFrame] and [wsRecvFrame] proceed as
    jobs and receivings (Endpoint.v). *)

From stdpp Require Import gmap relations.
From S2P Require Import Prelude ByteIO Message Codec HashBlocks Sha256 Socket WsFrame WsReceive Clock Server Endpoint.

(** ** The code *)

Inductive bg := Ping | Time | Kiss | Timeout.

(** Where a background thread is: at [while (active)], in [sleep_for], at
    [if (!active) break;], at its message or its check, in the middle of the
    check with the time read or with the last PONG time loaded, in [sendFrame],
    at [active = false], at [hws_shutdown], returned. *)
Inductive tpc :=
  | TLoop | TSleep | TCheck | TAct | TNow (now : Z) | TPong (pong : Z) | TSend (j : job) | TFail | TShut | TExit.

(** Where the receive thread is: at [while (active)], in [wsRecvFrame], with a
    frame, at [lastPongTs.store(...)] with the time read, in [sendFrame] (and
    about to stop the session after it), at [active = false], at the cleanup ([active = false], [hws_close], the
    joins), returned. *)
Inductive mpc :=
  | MLoop | MRecv (r : receiving) | MServe (f : WSFrame) | MStore (now : Z) | MSend (j : job) (stop : bool) | MStop
  | MClean | MClose | MJoin | MDone.

#[export] Instance bg_eq_dec : EqDecision bg.
Proof. solve_decision. Defined.

Inductive actor := Main | Bg (k : bg).

Definition bgs : list bg := [Ping; Time; Kiss; Timeout].

(** The shared variables, the mutex and the threads. *)
Record sess := Sess { c_vars : session; c_lock : bool; c_main : mpc; c_bg : bg -> tpc }.

Definition set_pc (k : bg) (pc : tpc) (f : bg -> tpc) : bg -> tpc :=
  fun k' => if bool_decide (k' = k) then pc else f k'.

(** What the receive thread does with a frame: a plan as in any receive loop, or
    storing the time it has read. *)
Inductive deed := Do (p : plan) | Renew (now : Z).

(** The verdict of the timeout check on the two values it has read. *)
Definition verdict (now pong : Z) : tpc := if SESSION_TIMEOUT_MS <? now - pong then TFail else TLoop.

Section code.
Context {W : Type} `{Sys W} (sock : Z).

Definition plan_message (msg : Message) : io (session * W) deed :=
  if type msg =? MSG_HELLO then
    let! st := get_session in
    let! _ := set_session (st <| clientLang := clientLanguage msg |>) in
    iret (Do (Reply bonjour false))
  else if type msg =? MSG_ECHO_REQUEST then
    let! now := on_net nowMs in
    let! st := get_session in
    iret (Do (Reply (echo_response now (clientLang st) msg) false))
  else if type msg =? MSG_KISS_RESPONSE then iret (Do (Quiet false))
  else if type msg =? MSG_PONG then
    let! now := on_net nowMs in
    iret (Renew now)
  else if type msg =? MSG_RANDOM_NUMBER then
    let! hash := ilift (hashNumber (randomNumber msg)) in
    iret (Do (Reply (hash_response msg hash) false))
  else if type msg =? MSG_DISCONNECT then iret (Do (Quiet true))
  else if type msg =? MSG_ERROR then iret (Do (Quiet false))
  else iret (Do (Reply (error_message ERR_UNKNOWN_MSG_TYPE (str "unknown type 0x" ++ hex_int (type msg))) false)).

Definition plan_frame (frame : WSFrame) : io (session * W) deed :=
  if negb (isValid frame) || isClose frame then iret (Do Leave)
  else
    match decodeMessage (WsFrame.payload frame) (zlen (WsFrame.payload frame)) with
    | Ok msg => plan_message msg
    | Throw e =>
        let unknown := starts_with (str "unknown message type") e in
        iret (Do (Reply (error_message (if unknown then ERR_UNKNOWN_MSG_TYPE else ERR_DECODE) e) (negb unknown)))
    | Stuck => ilift Stuck
    end.

(** The message a sender builds. *)
Definition bg_message (k : bg) : io W Message :=
  match k with
  | Ping => let! t := nowMs in iret (ping_message t)
  | Time => let! t := nowMs in let! iso := nowISO in iret (time_message t iso)
  | Kiss | Timeout => iret kiss_message
  end.

(** What a thread does once it knows that the session is active: a sender
    builds its message, the timeout thread evaluates the first operand of its
    comparison, the clock or the last PONG time. *)
Definition bg_act (k : bg) (st : session) : io W tpc :=
  match k with
  | Timeout => fun w =>
      if sys_order w then (let! now := nowMs in iret (TNow now)) w
      else (Ok (TPong (lastPongTs st)), w)
  | _ =>
      let! m := bg_message k in
      let! data := ilift (encode m) in
      iret (TSend (JLock data))
  end.

(** One step of a background thread; [None] when it is blocked or returned. *)
Definition exec_bg (k : bg) (s : sess) (w : W) : option (sess * W) :=
  let '(Sess st l m pcs) := s in
  let goto pc := set_pc k pc pcs in
  match pcs k with
  | TLoop => Some (Sess st l m (goto (if active st then TSleep else TExit)), w)
  | TSleep => Some (Sess st l m (goto TCheck), w)
  | TCheck => Some (Sess st l m (goto (if active st then TAct else TExit)), w)
  | TAct =>
      match bg_act k st w with
      | (Ok pc, w) => Some (Sess st l m (goto pc), w)
      | _ => None
      end
  | TNow now => Some (Sess st l m (goto (verdict now (lastPongTs st))), w)
  | TPong pong => let '(now, w) := sys_now w in Some (Sess st l m (goto (verdict now pong)), w)
  | TSend j =>
      match job_step sock binary_frame (active st) l j w with
      | (Ok (Some (l, inl j)), w) => Some (Sess st l m (goto (TSend j)), w)
      | (Ok (Some (l, inr ok)), w) => Some (Sess st l m (goto (if ok then TLoop else TFail)), w)
      | _ => None
      end
  | TFail => Some (Sess (st <| active := false |>) l m (goto (match k with Timeout => TShut | _ => TExit end)), w)
  | TShut => Some (Sess st l m (goto TExit), sys_shutdown sock w)
  | TExit => None
  end.

(** One step of the receive thread; an exception goes to the cleanup. *)
Definition exec_main (s : sess) (w : W) : option (sess * W) :=
  let '(Sess st l m pcs) := s in
  let goto m := Sess st l m pcs in
  match m with
  | MLoop => Some (goto (if active st then MRecv (RFrame new_WSFrame false) else MClean), w)
  | MRecv r =>
      match recv_step sock true r w with
      | (Ok (inl r), w) => Some (goto (MRecv r), w)
      | (Ok (inr f), w) => Some (goto (MServe f), w)
      | (Throw _, w) => Some (goto MClean, w)
      | (Stuck, _) => None
      end
  | MServe f =>
      match plan_frame f (st, w) with
      | (Ok (Renew now), (st, w)) => Some (Sess st l (MStore now) pcs, w)
      | (Ok (Do Leave), (st, w)) => Some (Sess st l MClean pcs, w)
      | (Ok (Do (Quiet stop)), (st, w)) => Some (Sess st l (if stop then MStop else MLoop) pcs, w)
      | (Ok (Do (Reply r stop)), (st, w)) =>
          match encode r with
          | Ok data => Some (Sess st l (MSend (JLock data) stop) pcs, w)
          | Throw _ => Some (Sess st l MClean pcs, w)
          | Stuck => None
          end
      | (Throw _, (st, w)) => Some (Sess st l MClean pcs, w)
      | (Stuck, _) => None
      end
  | MStore now => Some (Sess (st <| lastPongTs := now |>) l MLoop pcs, w)
  | MSend j stop =>
      match job_step sock binary_frame (active st) l j w with
      | (Ok (Some (l, inl j)), w) => Some (Sess st l (MSend j stop) pcs, w)
      | (Ok (Some (l, inr _)), w) => Some (Sess st l (if stop then MStop else MLoop) pcs, w)
      | _ => None
      end
  | MStop => Some (Sess (st <| active := false |>) l MLoop pcs, w)
  | MClean => Some (Sess (st <| active := false |>) l MClose pcs, w)
  | MClose => Some (goto MJoin, sys_close sock w)
  | MJoin => if forallb (fun k => match pcs k with TExit => true | _ => false end) bgs
             then Some (goto MDone, w) else None
  | MDone => None
  end.

Definition exec (a : actor) (s : sess) (w : W) : option (sess * W) :=
  match a with Main => exec_main s w | Bg k => exec_bg k s w end.

Inductive step : relation (sess * W) :=
  | step_exec a s w c : exec a s w = Some c -> step (s, w) c.

(** The variables of [handleClient] and its threads, all about to start. *)
Definition start (now : Z) : sess :=
  Sess {| active := true; lastPongTs := now; clientLang := str "unknown" |} false MLoop (fun _ => TLoop).
End code.

(** ** What the server sends *)

(** The messages from server to client (PROTOCOL.md, section 4). *)
Definition server_says (m : Message) : Prop :=
  type m ∈ [MSG_BONJOUR; MSG_ECHO_RESPONSE; MSG_KISS_REQUEST; MSG_PING; MSG_TIME_NOTIFICATION; MSG_HASH_RESPONSE; MSG_ERROR].

(** The ones that the timers send; all others are answers. *)
Definition timer_says (m : Message) : Prop := type m ∈ [MSG_PING; MSG_TIME_NOTIFICATION; MSG_KISS_REQUEST].

Lemma timer_server m : timer_says m -> server_says m.
Proof. unfold timer_says, server_says. rewrite !elem_of_cons. tauto. Qed.

Lemma timer_says_check m : bool_decide (timer_says m) = true -> timer_says m.
Proof. apply bool_decide_eq_true_1. Qed.
Lemma server_says_check m : bool_decide (server_says m) = true -> server_says m.
Proof. apply bool_decide_eq_true_1. Qed.

Lemma reply_says now lang m r : reply_to now lang m = Some r -> server_says r.
Proof. unfold reply_to. intros Hr. repeat (case_match; try done); injection Hr as <-; by apply server_says_check. Qed.

Lemma two_ascii n : 0 <= n < 100 -> Forall (fun c => 0 <= c < 128) (two n).
Proof. intros Hn. unfold two. repeat (apply Forall_cons; split; [Z.to_euclidean_division_equations; lia|]). constructor. Qed.

Lemma iso_ascii t : 0 <= t < 2 ^ 62 ->
  Forall (fun c => 0 <= c < 128) (put_iso (gmtimeSafe t)) /\ zlen (put_iso (gmtimeSafe t)) <= 40.
Proof.
  intros Ht. destruct (gmtimeSafe_spec t) as (_ & (Hm & (m & Hmd & Hd) & Hh & Hmi & Hs) & Hy); [lia|].
  assert (is_i64 (tm_year (gmtimeSafe t))) as Hyr.
  { assert (t / 86400 / 365 <= t) by (Z.to_euclidean_division_equations; lia). solve_width. }
  destruct (to_string_ascii _ Hyr) as [Ha Hl].
  assert (m <= 31) as Hm31.
  { apply list_elem_of_lookup_2 in Hmd. unfold month_days in Hmd. rewrite !elem_of_cons, elem_of_nil in Hmd.
    destruct (leap _); destruct_or! Hmd; subst; try done; lia. }
  unfold put_iso. split.
  - repeat (apply Forall_app; split); try done; try (apply two_ascii; lia); repeat constructor; lia.
  - rewrite !length_app. cbn [length two]. lia.
Qed.

Section laws.
Context {W : Type} `{SysLaws W} (sock : Z).

Lemma bg_message_run k (w : W) :
  exists m w', bg_message k w = (Ok m, w') /\ timer_says m /\ message_ok m /\ zlen (payload_wire m) <= 100
    /\ untouched sock w w' /\ incoming sock w' = incoming sock w.
Proof.
  pose proof (fun w => now_law sock w) as Hnow.
  assert (forall w : W, exists t w', nowMs w = (Ok t, w') /\ untouched sock w w' /\ incoming sock w' = incoming sock w
    /\ 0 <= t < 2 ^ 62) as Hrun.
  { intros w0. specialize (Hnow w0). unfold nowMs. destruct (sys_now w0) as [t w']. destruct Hnow as (? & ? & ?).
    by exists t, w'. }
  destruct k; cbn [bg_message].
  - destruct (Hrun w) as (t & w1 & E & Hu & Hin & Ht). rewrite (ibind_run _ _ _ _ _ E).
    eexists _, w1. split; [done|]. split; [by apply timer_says_check|]. split_and!; try done.
    unfold message_ok. cbn. solve_width.
  - destruct (Hrun w) as (t & w1 & E & Hu & Hin & Ht). rewrite (ibind_run _ _ _ _ _ E).
    destruct (Hrun w1) as (t2 & w2 & E2 & Hu2 & Hin2 & Ht2). unfold nowISO.
    rewrite (ibind_run _ _ _ _ _ (ibind_run nowMs _ _ _ _ E2)).
    destruct (iso_ascii (t2 / 1000)) as [Ha Hl]; [Z.to_euclidean_division_equations; lia|].
    eexists _, w2. split; [done|]. split; [by apply timer_says_check|]. split_and!; [| |by etrans|congruence].
    + unfold message_ok. cbn -[string_ok put_iso gmtimeSafe]. split; [solve_width|]. apply ascii_string_ok; [done|lia].
    + unfold payload_wire. cbn -[be_bytes wire_string put_iso gmtimeSafe].
      rewrite length_app, length_be_bytes, length_wire_string. lia.
  - exists kiss_message, w. split; [done|]. split; [by apply timer_says_check|]. split_and!; try done.
    unfold message_ok. cbn -[string_ok str]. split_and!; by apply string_check_ok.
  - exists kiss_message, w. split; [done|]. split; [by apply timer_says_check|]. split_and!; try done.
    unfold message_ok. cbn -[string_ok str]. split_and!; by apply string_check_ok.
Qed.

End laws.

(** ** The receive thread alone is the receive loop *)

Section alone.
Context {W : Type} `{Sys W} (sock : Z).

(** What the loop does after its plan. *)
Definition perform (d : deed) : io (session * W) bool :=
  match d with
  | Renew now => let! st := get_session in let! _ := set_session (st <| lastPongTs := now |>) in iret true
  | Do Leave => iret false
  | Do (Quiet stop) => let! _ := if stop then deactivate else iret tt in iret true
  | Do (Reply m stop) =>
      let! _ := send_message sock m in
      let! _ := if stop then deactivate else iret tt in iret true
  end.

Lemma ibind_assoc {V A B C} (m : io V A) (f : A -> io V B) (g : B -> io V C) w :
  ibind (ibind m f) g w = ibind m (fun a => ibind (f a) g) w.
Proof. unfold ibind. by destruct (m w) as [[?|?|] ?]. Qed.

Lemma handle_message_plan m (c : session * W) :
  (let! _ := handle_message sock m in iret true) c = (let! p := plan_message m in perform p) c.
Proof.
  destruct c as [st w]. unfold handle_message, plan_message.
  assert (forall r st' w', (let! _ := (let! _ := send_message sock r in iret tt) in iret true) (st', w') =
    perform (Do (Reply r false)) (st', w')) as Hr.
  { intros r st' w'. unfold perform, ibind, iret. by destruct (send_message sock r (st', w')) as [[?|?|] ?]. }
  assert (exists t w1, nowMs w = (Ok t, w1)) as (t & w1 & Et) by (unfold nowMs; destruct (sys_now w); by eexists _, _).
  case_match; [apply Hr|]. case_match.
  { rewrite !ibind_assoc, !(now_bind _ _ _ _ _ Et). apply Hr. }
  case_match; [done|]. case_match.
  { by rewrite !ibind_assoc, !(now_bind _ _ _ _ _ Et). }
  case_match.
  { rewrite !ibind_assoc. unfold ibind at 1 3, ilift. destruct (hashNumber _); [apply Hr|done|done]. }
  case_match; [done|]. case_match; [done|apply Hr].
Qed.

(** [serve_frame] is the plan and its performance. *)
Lemma serve_frame_plan f (c : session * W) :
  serve_frame sock f c = (let! p := plan_frame f in perform p) c.
Proof.
  unfold serve_frame, plan_frame. case_match; [done|]. destruct (decodeMessage _ _) as [m|e|]; [|done|done].
  apply handle_message_plan.
Qed.

(** Steps of the receive thread, the other threads resting. *)
Definition main_goes (c c' : sess * W) : Prop := exec_main sock c.1 c.2 = Some c'.

Lemma main_receives st pcs fuel (w : W) f w' : wsRecvFrame fuel sock true w = (Ok f, w') ->
  rtc main_goes (Sess st false (MRecv (RFrame new_WSFrame false)) pcs, w) (Sess st false (MServe f) pcs, w').
Proof.
  intros E%recv_alone. apply (rtc_congruence (fun x : (receiving + WSFrame) * W =>
    (Sess st false (match x.1 with inl r => MRecv r | inr f => MServe f end) pcs, x.2)) main_goes) in E; [done|].
  intros x y [r o w0 w1 Hr]. unfold main_goes. cbn [fst snd exec_main]. rewrite Hr. by destruct o.
Qed.

Lemma main_sends st pcs stop data (w : W) ok w' :
  sendFrame sock data (st, w) = (Ok ok, (st, w')) ->
  rtc main_goes (Sess st false (MSend (JLock data) stop) pcs, w) (Sess st false (if stop then MStop else MLoop) pcs, w').
Proof.
  intros E. assert (rtc (job_goes sock binary_frame (active st)) (false, inl (JLock data), w) (false, inr ok, w')) as Hj.
  { apply job_alone. unfold sendFrame in E. rewrite get_run in E. destruct (active st).
    - unfold on_net, wsSendBinary in E. cbn [fst snd] in E. destruct (ibind _ _ w) as [r w1]. congruence.
    - by injection E as <- <-. }
  apply (rtc_congruence (fun x : bool * (job + bool) * W =>
    (Sess st x.1.1 (match x.1.2 with inl j => MSend j stop | inr _ => if stop then MStop else MLoop end) pcs, x.2)) main_goes) in Hj;
    [done|].
  intros x y [l j [l' o] w0 w1 Hx]. unfold main_goes. cbn [fst snd exec_main]. rewrite Hx. by destruct o.
Qed.

Lemma main_performs p st pcs (w : W) go st' w' : perform p (st, w) = (Ok go, (st', w')) -> p <> Do Leave ->
  exists m, match p with
            | Do (Reply r stop) => exists data, encode r = Ok data /\ m = MSend (JLock data) stop
            | Do (Quiet stop) => m = if stop then MStop else MLoop
            | Do Leave => False
            | Renew now => m = MStore now
            end /\ rtc main_goes (Sess st false m pcs, w) (Sess st' false MLoop pcs, w') /\ go = true.
Proof.
  assert (forall (stop : bool) st0 (w0 : W), (let! _ := if stop then deactivate else iret tt in iret true) (st0, w0) = (Ok go, (st', w')) ->
    rtc main_goes (Sess st0 false (if stop then MStop else MLoop) pcs, w0) (Sess st' false MLoop pcs, w') /\ go = true) as Hstop.
  { intros stop st0 w0 E. destruct stop; injection E as <- <- <-; (split; [|done]); [by apply rtc_once|apply rtc_refl]. }
  intros E Hp. destruct p as [[|stop|r stop]|t]; [done|by eexists; split; [|apply Hstop]| |]; cycle 1.
  { cbn [perform] in E. rewrite get_run, set_run in E. injection E as <- <- <-. eexists. split; [done|].
    split; [by apply rtc_once|done]. }
  cbn [perform] in E. unfold ibind at 1, send_message in E. unfold ibind at 1, ilift in E.
  destruct (encode r) as [data|e|]; [|done..]. destruct (sendFrame sock data (st, w)) as [[ok|e|] [st1 w1]] eqn:Es; [|done..].
  assert (st1 = st) as ->.
  { unfold sendFrame in Es. rewrite get_run in Es. destruct (active st); [|by injection Es].
    unfold on_net in Es. cbn [fst snd] in Es. destruct (wsSendBinary sock data w) as [rr ww]. congruence. }
  apply Hstop in E as [E ->]. eexists. split; [by exists data|]. split; [|done]. etrans; [by eapply main_sends|done].
Qed.

(** A run of [receive_loop] that returns is a run of the receive thread from
    the top of its loop to its cleanup. *)
Lemma receive_loop_main rounds fuel st pcs (w : W) st' w' : receive_loop sock rounds fuel (st, w) = (Ok tt, (st', w')) ->
  rtc main_goes (Sess st false MLoop pcs, w) (Sess st' false MClean pcs, w').
Proof.
  revert st w. induction rounds as [|rounds IH]; intros st w E; cbn [receive_loop] in E; rewrite get_run in E;
    (destruct (active st) eqn:Ha; cbn [negb] in E;
     [|injection E as <- <-; apply rtc_once; unfold main_goes; cbn [fst snd exec_main]; by rewrite Ha]); [done|].
  unfold ibind at 1, on_net in E. cbn [fst snd] in E.
  destruct (wsRecvFrame fuel sock true w) as [[f|e|] w1] eqn:E1; [|done..].
  eapply rtc_l; [unfold main_goes; cbn [fst snd exec_main]; by rewrite Ha|].
  etrans; [by apply (main_receives st pcs) in E1|].
  unfold ibind at 1 in E. rewrite serve_frame_plan in E. unfold ibind at 1 in E.
  destruct (plan_frame f (st, w1)) as [[p|e|] [st2 w2]] eqn:Ep; [|done..].
  destruct (perform p (st2, w2)) as [[go|e|] [st3 w3]] eqn:Eg; [|done..].
  assert (forall c, match p with
                    | Renew now => c = (Sess st2 false (MStore now) pcs, w2)
                    | Do Leave => c = (Sess st2 false MClean pcs, w2)
                    | Do (Quiet stop) => c = (Sess st2 false (if stop then MStop else MLoop) pcs, w2)
                    | Do (Reply r stop) => exists data, encode r = Ok data /\ c = (Sess st2 false (MSend (JLock data) stop) pcs, w2)
                    end -> main_goes (Sess st false (MServe f) pcs, w1) c) as Hone.
  { intros c Hc. unfold main_goes. cbn [fst snd exec_main]. rewrite Ep.
    destruct p as [[| |]|]; try by rewrite Hc. destruct Hc as (data & -> & ->). done. }
  destruct p as [[|stop|r stop]|t].
  - injection Eg as <- <- <-. injection E as <- <-. by apply rtc_once, Hone.
  - destruct (main_performs _ _ pcs _ _ _ _ Eg ltac:(done)) as (m & -> & Hgo & ->).
    eapply rtc_l; [by apply Hone|]. etrans; [exact Hgo|by apply IH].
  - destruct (main_performs _ _ pcs _ _ _ _ Eg ltac:(done)) as (m & (data & Hd & ->) & Hgo & ->).
    eapply rtc_l; [apply Hone; by exists data|]. etrans; [exact Hgo|by apply IH].
  - destruct (main_performs _ _ pcs _ _ _ _ Eg ltac:(done)) as (m & -> & Hgo & ->).
    eapply rtc_l; [by apply Hone|]. etrans; [exact Hgo|by apply IH].
Qed.
End alone.

(** ** What the steps do *)

(** The threads that hold the mutex. *)
Definition held_main (m : mpc) : list job := match m with MSend j _ => held j | _ => [] end.
Definition held_bg (pc : tpc) : list job := match pc with TSend j => held j | _ => [] end.
Definition holders (s : sess) : list job :=
  held_main (c_main s) ++ concat (map (fun k => held_bg (c_bg s k)) bgs).

Definition main_ok (m : mpc) : Prop :=
  match m with
  | MRecv r => recv_ok r
  | MServe f => frame_in_hand f
  | MStore now => is_i64 now
  | MSend j _ => job_ok false server_says j
  | _ => True
  end.
Definition bg_ok (pc : tpc) : Prop := match pc with TSend j => job_ok false timer_says j | _ => True end.

(** The cleanup has begun; the socket is still open; every thread is done. *)
Definition closing (m : mpc) : Prop := match m with MClose | MJoin | MDone => True | _ => False end.
Definition live (m : mpc) : bool := match m with MJoin | MDone => false | _ => true end.

(** What holds of a session at any time, whatever the world does. *)
Record local (s : sess) : Prop := {
  loc_vars : session_ok (c_vars s);
  loc_cleanup : closing (c_main s) -> active (c_vars s) = false;
  loc_done : c_main s = MDone -> forall k, c_bg s k = TExit;
  loc_main : main_ok (c_main s);
  loc_bg : forall k, bg_ok (c_bg s k);
  loc_lock : length (holders s) = (if c_lock s then 1 else 0)%nat;
}.

Lemma holders_bg st l m pcs k : exists pre post,
  holders (Sess st l m pcs) = pre ++ held_bg (pcs k) ++ post
  /\ forall st' l' pc, holders (Sess st' l' m (set_pc k pc pcs)) = pre ++ held_bg pc ++ post.
Proof.
  unfold holders, bgs. cbn [c_main c_bg map concat]. destruct k.
  - eexists (held_main m), _. split; [|intros st' l' pc]; cbn; done.
  - eexists (held_main m ++ held_bg (pcs Ping)), _. split; [|intros st' l' pc]; cbn; by rewrite <- !app_assoc.
  - eexists (held_main m ++ held_bg (pcs Ping) ++ held_bg (pcs Time)), _. split; [|intros st' l' pc]; cbn; by rewrite <- !app_assoc.
  - eexists (held_main m ++ held_bg (pcs Ping) ++ held_bg (pcs Time) ++ held_bg (pcs Kiss)), [].
    split; [|intros st' l' pc]; cbn; by rewrite <- !app_assoc.
Qed.

Lemma set_pc_same k pc pcs : set_pc k pc pcs k = pc.
Proof. unfold set_pc. by rewrite bool_decide_eq_true_2. Qed.
Lemma set_pc_ok k pc pcs : bg_ok pc -> (forall k, bg_ok (pcs k)) -> forall k', bg_ok (set_pc k pc pcs k').
Proof. intros Hp Hb k'. unfold set_pc. by case_bool_decide. Qed.

Lemma encode_sendable (says : Message -> Prop) m data : says m -> message_ok m -> zlen (payload_wire m) < 2 ^ 30 ->
  encode m = Ok data -> sendable says data.
Proof. intros Hs Hm Hl. rewrite encode_frame by done. intros [= <-]. by exists m. Qed.

Section steps.
Context {W : Type} `{SysLaws W} (sock : Z).

(** A deed only looks: it sends nothing and does not touch the flag. *)
Definition plan_effect (st : session) (w : W) (d : deed) (st' : session) (w' : W) : Prop :=
  session_ok st' /\ active st' = active st /\ untouched sock w w' /\ incoming sock w' = incoming sock w
  /\ match d with
     | Do (Reply m _) => server_says m /\ message_ok m /\ zlen (payload_wire m) < 2 ^ 30
     | Renew now => is_i64 now
     | _ => True
     end.

Lemma plan_message_run st m (w : W) : session_ok st -> message_ok m -> small m ->
  exists p st' w', plan_message m (st, w) = (Ok p, (st', w')) /\ plan_effect st w p st' w'.
Proof.
  intros Hst Hm Hs. destruct (now_run sock w) as (t & w1 & Et & Hu & Hin & Ht).
  pose proof Hst as (Hl & Hll & Hp).
  assert (forall now r, reply_to now (clientLang st) m = Some r -> is_i64 now ->
    server_says r /\ message_ok r /\ zlen (payload_wire r) < 2 ^ 30) as Hrep.
  { intros now r Hr Hn. pose proof (reply_says _ _ _ _ Hr). destruct (reply_ok _ _ _ _ Hr Hm Hn Hl Hll Hs) as (? & _ & ?).
    unfold MAX_MESSAGE_SIZE in *. split_and!; [done|done|lia]. }
  pose proof (next_session_ok t st m Hst Hm Hs Ht) as Hnext. unfold next_session in Hnext.
  assert (is_i64 0) as Hz by solve_width. setoid_rewrite reply_to_code in Hrep. unfold plan_message.
  destruct (Z.eqb_spec (type m) MSG_HELLO) as [E|N1].
  { eexists _, _, w. split; [reflexivity|]. split_and!; try done; by apply (Hrep 0). }
  destruct (Z.eqb_spec (type m) MSG_ECHO_REQUEST) as [E|N2].
  { rewrite (now_bind _ _ _ _ _ Et), get_run. eexists _, _, w1. split; [reflexivity|]. split_and!; try done; by apply (Hrep t). }
  destruct (Z.eqb_spec (type m) MSG_RANDOM_NUMBER) as [E|N3].
  { rewrite E. cbn [Z.eqb Pos.eqb MSG_RANDOM_NUMBER MSG_KISS_RESPONSE MSG_PONG MSG_DISCONNECT].
    rewrite hashNumber_spec, ibind_lift. eexists _, _, w. split; [reflexivity|]. split_and!; try done; by apply (Hrep 0). }
  destruct (Z.eqb_spec (type m) MSG_KISS_RESPONSE) as [E|N4]; [by eexists _, _, w|].
  destruct (Z.eqb_spec (type m) MSG_PONG) as [E|N5].
  { rewrite (now_bind _ _ _ _ _ Et). by eexists _, _, w1. }
  destruct (Z.eqb_spec (type m) MSG_DISCONNECT) as [E|N6]; [by eexists _, _, w|].
  destruct (Z.eqb_spec (type m) MSG_ERROR) as [E|N7]; [by eexists _, _, w|].
  rewrite bool_decide_eq_false_2 in Hrep by (by rewrite !elem_of_cons, elem_of_nil; tauto).
  eexists _, _, w. split; [reflexivity|]. split_and!; try done; by apply (Hrep 0).
Qed.

Lemma plan_frame_run st f (w : W) : session_ok st -> frame_in_hand f ->
  exists p st' w', plan_frame f (st, w) = (Ok p, (st', w')) /\ plan_effect st w p st' w'.
Proof.
  intros Hst Hf. unfold plan_frame. destruct (isValid f) eqn:Hv; cbn [negb orb]; [|by eexists _, st, w].
  destruct (Hf Hv) as [Hb Hl]. case_match; [by eexists _, st, w|].
  destruct (decodeMessage _ _) as [m|e|] eqn:Hd; [| |by destruct (decode_never_stuck _ Hb Hl)].
  - destruct (decoded_small _ m Hb Hl Hd) as (Hok & _ & Hs). by apply plan_message_run.
  - destruct (decode_report_ok _ e Hb Hl Hd) as (Hok & _ & Hsz). eexists _, st, w. split; [reflexivity|].
    rewrite decode_report_code. split_and!; try done; [|lia]. unfold decode_report. by destruct (starts_with _ e); apply server_says_check.
Qed.

Lemma bg_act_run k st (w : W) : exists pc w', bg_act k st w = (Ok pc, w') /\ bg_ok pc /\ held_bg pc = []
  /\ untouched sock w w' /\ incoming sock w' = incoming sock w
  /\ match k with
     | Timeout => pc = if sys_order w then TNow (fst (sys_now w)) else TPong (lastPongTs st)
     | _ => exists data, pc = TSend (JLock data)
     end.
Proof.
  assert (k <> Timeout -> exists pc w', (let! m := bg_message k in let! data := ilift (encode m) in iret (TSend (JLock data))) w = (Ok pc, w')
    /\ bg_ok pc /\ held_bg pc = [] /\ untouched sock w w' /\ incoming sock w' = incoming sock w
    /\ exists data, pc = TSend (JLock data)) as Hsend.
  { intros _. destruct (bg_message_run sock k w) as (m & w1 & E & Hsay & Hm & Hl & Hu & Hin).
    rewrite (ibind_run _ _ _ _ _ E), encode_frame, ibind_lift by done. eexists _, w1. split; [reflexivity|].
    split_and!; try done; [|by eexists]. exists m. split_and!; [done|done|lia|done]. }
  destruct k; [by apply Hsend..|]. cbn [bg_act]. pose proof (now_law sock w) as L.
  destruct (sys_order w); [|by eexists _, w]. unfold nowMs, ibind. destruct (sys_now w) as [t w1].
  destruct L as (Hu & Hin & _). by eexists _, w1.
Qed.

Lemma verdict_cases now pong : verdict now pong = TFail \/ verdict now pong = TLoop.
Proof. unfold verdict. case_match; auto. Qed.
Lemma held_verdict now pong : held_bg (verdict now pong) = [].
Proof. by destruct (verdict_cases now pong) as [-> | ->]. Qed.

(** Every step keeps the session in order; descriptors change only when the
    receive thread closes the socket. *)
Record exec_effect (s : sess) (w : W) (s' : sess) (w' : W) : Prop := {
  ex_local : local s';
  ex_opened : opened w' = (if live (c_main s) && negb (live (c_main s')) then opened w ∖ {[ sock ]} else opened w);
  ex_live : live (c_main s') = true -> live (c_main s) = true;
  ex_active : active (c_vars s') = true -> active (c_vars s) = true;
  ex_closing : closing (c_main s) -> closing (c_main s');
}.

Lemma exec_bg_effect k s w s' w' : local s -> exec_bg sock k s w = Some (s', w') -> exec_effect s w s' w'.
Proof.
  intros [Hv Hcl Hd Hm Hb Hl] Hx. destruct s as [st l m pcs]. cbn [c_vars c_lock c_main c_bg] in *.
  destruct (holders_bg st l m pcs k) as (pre & post & Hh & Hh'). rewrite Hh in Hl.
  assert (m <> MDone \/ pcs k = TExit) as Hnd by (destruct m; auto).
  assert (forall st' (l' : bool) pc w1, session_ok st' -> (active st' = true -> active st = true) -> bg_ok pc -> opened w1 = opened w ->
    pcs k <> TExit -> length (pre ++ held_bg pc ++ post) = (if l' then 1 else 0)%nat ->
    exec_effect (Sess st l m pcs) w (Sess st' l' m (set_pc k pc pcs)) w1) as Hgo.
  { intros st' l' pc w1 Hst' Ha Hpc Hop Hne Hlen. split; cbn [c_vars c_lock c_main c_bg]; try done.
    - split; cbn [c_vars c_lock c_main c_bg]; try done.
      + intros Hc. specialize (Hcl Hc). destruct (active st'); [|done]. specialize (Ha eq_refl). congruence.
      + intros ->. by destruct Hnd.
      + by apply set_pc_ok.
      + by rewrite Hh'.
    - by destruct (live m). }
  specialize (Hb k). cbn [exec_bg] in Hx. destruct (pcs k) as [| | | |now|pong|j| | |] eqn:Hpc; cbn [held_bg bg_ok] in *.
  - injection Hx as <- <-. apply Hgo; try done; destruct (active st); done.
  - by injection Hx as <- <-; apply Hgo.
  - injection Hx as <- <-. apply Hgo; try done; destruct (active st); done.
  - destruct (bg_act_run k st w) as (pc & w1 & E & Hok & Hheld & (_ & _ & Hop) & _ & _). rewrite E in Hx.
    injection Hx as <- <-. apply Hgo; try done. by rewrite Hheld.
  - injection Hx as <- <-. by destruct (verdict_cases now (lastPongTs st)) as [-> | ->]; apply Hgo.
  - pose proof (now_law sock w) as L. destruct (sys_now w) as [t w1]. destruct L as ((_ & _ & Hop) & _).
    injection Hx as <- <-. by destruct (verdict_cases t pong) as [-> | ->]; apply Hgo.
  - destruct (job_step_run sock binary_frame false _ (active st) l j w Hb) as (o & w1 & E & Ho). rewrite E in Hx.
    destruct o as [[l1 x]|]; [|done]. destruct (job_moves_ok _ _ _ _ _ _ _ _ _ _ Ho Hb) as [Hop Hx'].
    destruct (holders_move _ _ _ _ _ _ _ _ _ _ _ Ho Hl) as (-> & -> & Hlen).
    destruct x as [j'|ok]; injection Hx as <- <-; apply Hgo; try done; by destruct ok.
  - injection Hx as <- <-. apply Hgo; try done; by destruct k.
  - injection Hx as <- <-. apply Hgo; try done. apply shutdown_law. exact sock.
  - done.
Qed.

Lemma exec_main_effect s w s' w' : local s -> exec_main sock s w = Some (s', w') -> exec_effect s w s' w'.
Proof.
  intros [Hv Hcl Hd Hm Hb Hl] Hx. destruct s as [st l m pcs]. unfold holders in Hl. cbn [c_vars c_lock c_main c_bg] in *.
  assert (forall st' (l' : bool) m' w1, session_ok st' -> (active st' = true -> active st = true) -> main_ok m' ->
    (closing m' -> active st' = false) -> (m' = MDone -> forall k, pcs k = TExit) ->
    opened w1 = (if live m && negb (live m') then opened w ∖ {[ sock ]} else opened w) ->
    (live m' = true -> live m = true) -> (closing m -> closing m') ->
    length (held_main m' ++ concat (map (fun k => held_bg (pcs k)) bgs)) = (if l' then 1 else 0)%nat ->
    exec_effect (Sess st l m pcs) w (Sess st' l' m' pcs) w1) as Hgo.
  { intros st' l' m' w1 Hst' Ha Hm' Hc' Hd' Hop Hli Hclo Hlen. by split; cbn [c_vars c_lock c_main c_bg]; [split|..]. }
  destruct m as [|r|f|t|j stop| | | | |]; cbn [exec_main held_main main_ok closing live] in *.
  - injection Hx as <- <-. by apply Hgo; destruct (active st).
  - destruct (recv_step_run sock true r w Hm) as (x & w1 & E & [Hop _ Hout _ _]). rewrite E in Hx.
    by destruct x as [r'|f]; injection Hx as <- <-; apply Hgo.
  - destruct (plan_frame_run st f w Hv Hm) as (p & st1 & w1 & E & Hst1 & Ha & (_ & _ & Hop) & _ & Hp). rewrite E in Hx.
    destruct p as [[|stop|r stop]|t].
    + injection Hx as <- <-. apply Hgo; try done. by rewrite Ha.
    + injection Hx as <- <-. apply Hgo; try by destruct stop. by rewrite Ha.
    + destruct Hp as (Hsay & Hr & Hrl). destruct (encode r) as [data|e|] eqn:He; [| |done];
        injection Hx as <- <-; apply Hgo; try done; try (by rewrite Ha). by apply (encode_sendable _ r).
    + injection Hx as <- <-. apply Hgo; try done. by rewrite Ha.
  - injection Hx as <- <-. apply Hgo; try done. by destruct Hv as (? & ? & _).
  - destruct (job_step_run sock binary_frame false _ (active st) l j w Hm) as (o & w1 & E & Ho). rewrite E in Hx.
    destruct o as [[l1 x]|]; [|done]. destruct (job_moves_ok _ _ _ _ _ _ _ _ _ _ Ho Hm) as [Hop Hx'].
    destruct (holders_move _ _ [] _ _ _ _ _ _ _ _ Ho Hl) as (_ & _ & Hlen).
    destruct x as [j'|ok]; injection Hx as <- <-; apply Hgo; try done; try by destruct stop.
  - by injection Hx as <- <-; apply Hgo.
  - by injection Hx as <- <-; apply Hgo.
  - injection Hx as <- <-. apply Hgo; try done. apply close_law.
  - destruct (forallb _ _) eqn:Hall; [|done]. injection Hx as <- <-. apply Hgo; try done.
    intros _ k. apply forallb_forall with (x := k) in Hall; [by destruct (pcs k)|]. destruct k; cbn; tauto.
  - done.
Qed.

Lemma step_effect s w s' w' : local s -> step sock (s, w) (s', w') -> exec_effect s w s' w'.
Proof.
  intros Hl Hst. inversion Hst as [a ? ? ? Hx]; subst. destruct a; [by apply exec_main_effect|by eapply exec_bg_effect].
Qed.

Lemma start_local now : is_i64 now -> local (start now).
Proof. intros Hn. split; cbn; try done. split_and!; [by apply string_check_ok|vm_compute; discriminate|done]. Qed.

Lemma reachable now (w : W) s w' : is_i64 now -> rtc (step sock) (start now, w) (s, w') ->
  local s /\ opened w' = (if live (c_main s) then opened w else opened w ∖ {[ sock ]}).
Proof.
  intros Hn Hr. assert (forall c c', rtc (step sock) c c' -> local c.1 -> local c'.1 /\
    opened c'.2 = (if live (c_main c.1) && negb (live (c_main c'.1)) then opened c.2 ∖ {[ sock ]} else opened c.2)
    /\ (live (c_main c'.1) = true -> live (c_main c.1) = true)) as Hinv.
  { induction 1 as [c|c [s1 w1] c' Hst _ IH]; intros Hl; [by destruct (live (c_main c.1))|]. destruct c as [s0 w0].
    destruct (step_effect _ _ _ _ Hl Hst) as [Hl1 Hop Hli _ _]. destruct (IH Hl1) as (Hl' & Hop' & Hli'). cbn [fst snd] in *.
    split; [done|]. split; [|auto]. rewrite Hop', Hop.
    destruct (live (c_main c'.1)) eqn:E'; [rewrite (Hli' eq_refl), andb_false_r in *; by rewrite andb_false_r|].
    destruct (live (c_main s1)) eqn:E1; [rewrite (Hli eq_refl); done|]. by destruct (live (c_main s0)). }
  destruct (Hinv _ _ Hr (start_local now Hn)) as (Hl & Hop & _). split; [done|]. cbn in Hop. by destruct (live (c_main s)).
Qed.

Lemma steps_local c c' : rtc (step sock) c c' -> local c.1 -> local c'.1.
Proof.
  induction 1 as [c|c [s1 w1] c' Hst _ IH]; [done|]. intros Hl. apply IH. destruct c as [s0 w0].
  by destruct (step_effect _ _ _ _ Hl Hst).
Qed.

(** ** Output *)

(** The bytes of the frame under way that are still to go. *)
Definition job_rest (j : job) : bytes := match j with JWrite buf t => drop (Z.to_nat t) buf | _ => [] end.
Definition to_come (s : sess) : bytes := concat (map job_rest (holders s)).

(** The receive thread is in [wsRecvFrame]; in one of its replies. *)
Definition reading (m : mpc) : bool := match m with MRecv _ => true | _ => false end.
Definition answering (m : mpc) : bool := match m with MRecv r => replying r | _ => false end.

(** What a step of [sendFrame] sends. *)
Lemma job_moves_out masked active locked j w l x w' : job_moves sock masked active locked j w l x w' ->
  exists out, outgoing sock w' = outgoing sock w ++ out /\ room sock w' <= room sock w
    /\ (out <> [] -> 0 < room sock w)
    /\ (active = false -> out ++ concat (map job_rest (held_after x)) `prefix_of` concat (map job_rest (held j))).
Proof.
  destruct 1 as [|buf data w w' -> _ (Ho & Hr & _)| | |buf t t' w w' Ht Ht' Hr (Ho & Hro & _)|buf t w w' Ht Hr (Ho & Hro & _)|].
  all: try (exists []; rewrite app_nil_r; split_and!; [done|lia|done|]; cbn; intros; first [done | apply prefix_nil]).
  - eexists. split; [exact Ho|]. split; [lia|]. split; [done|]. intros _. cbn. rewrite !app_nil_r.
    replace (Z.to_nat t') with (Z.to_nat t + Z.to_nat (t' - t))%nat by lia. rewrite <- drop_drop, take_drop. done.
  - exists []. split; [done|]. cbn [length] in Hro. split_and!; [lia|done|]. intros _. apply prefix_nil.
Qed.

(** Output of a step: only [sendFrame] and the replies of [wsRecvFrame] send. *)
Lemma exec_bg_out k s w s' w' : local s -> exec_bg sock k s w = Some (s', w') ->
  exists out, outgoing sock w' = outgoing sock w ++ out /\ room sock w' <= room sock w /\ (out <> [] -> 0 < room sock w)
    /\ c_main s' = c_main s
    /\ (active (c_vars s) = false -> out ++ to_come s' `prefix_of` to_come s).
Proof.
  intros [_ _ _ _ Hb Hl] Hx. destruct s as [st l m pcs]. cbn [c_vars c_lock c_main c_bg] in *.
  destruct (holders_bg st l m pcs k) as (pre & post & Hh & Hh'). unfold to_come. rewrite Hh in *.
  assert (forall st' l' pc w1, outgoing sock w1 = outgoing sock w -> room sock w1 <= room sock w ->
    held_bg (pcs k) = [] \/ (pre = [] /\ post = []) -> held_bg pc = [] -> exists out,
    outgoing sock w1 = outgoing sock w ++ out /\ room sock w1 <= room sock w /\ (out <> [] -> 0 < room sock w)
    /\ c_main (Sess st' l' m (set_pc k pc pcs)) = m
    /\ (active st = false -> out ++ concat (map job_rest (holders (Sess st' l' m (set_pc k pc pcs)))) `prefix_of`
       concat (map job_rest (pre ++ held_bg (pcs k) ++ post)))) as Hno.
  { intros st' l' pc w1 Ho Hr Hcase Hpc. exists []. rewrite app_nil_r, Hh', Hpc. split_and!; try done.
    intros _. destruct Hcase as [->|[-> ->]]; [done|apply prefix_nil]. }
  specialize (Hb k). cbn [exec_bg] in Hx. destruct (pcs k) as [| | | |now|pong|j| | |] eqn:Hpc; cbn [held_bg bg_ok] in *.
  - injection Hx as <- <-. apply Hno; auto; by destruct (active st).
  - injection Hx as <- <-. by apply Hno; auto.
  - injection Hx as <- <-. apply Hno; auto; by destruct (active st).
  - destruct (bg_act_run k st w) as (pc & w1 & E & _ & Hheld & (Ho & Hr & _) & _ & _). rewrite E in Hx.
    injection Hx as <- <-. apply Hno; auto. lia.
  - injection Hx as <- <-. by destruct (verdict_cases now (lastPongTs st)) as [-> | ->]; apply Hno; auto.
  - pose proof (now_law sock w) as L. destruct (sys_now w) as [t w1]. destruct L as ((Ho & Hr & _) & _).
    injection Hx as <- <-. by destruct (verdict_cases t pong) as [-> | ->]; apply Hno; auto; lia.
  - destruct (job_step_run sock binary_frame false _ (active st) l j w Hb) as (o & w1 & E & Ho). rewrite E in Hx.
    destruct o as [[l1 x]|]; [|done].
    destruct (holders_move _ _ _ _ _ _ _ _ _ _ _ Ho Hl) as (-> & -> & _).
    destruct (job_moves_out _ _ _ _ _ _ _ _ Ho) as (out & Hout & Hr & Hne & Hp).
    exists out. rewrite !app_nil_r. cbn [app].
    destruct x as [j'|ok]; injection Hx as <- <-; rewrite Hh', !app_nil_r; cbn [app held_bg held_after] in *.
    all: split_and!; try done. by destruct ok.
  - injection Hx as <- <-. apply Hno; auto; by destruct k.
  - injection Hx as <- <-. destruct (shutdown_law sock sock w) as (_ & Ho & Hr & _). by apply Hno; auto.
  - done.
Qed.

Lemma exec_main_out s w s' w' : local s -> exec_main sock s w = Some (s', w') -> answering (c_main s) = false ->
  exists out, outgoing sock w' = outgoing sock w ++ out /\ (room sock w' <= room sock w \/ live (c_main s') = false)
    /\ (out <> [] -> 0 < room sock w)
    /\ (active (c_vars s) = false -> out ++ to_come s' `prefix_of` to_come s)
    /\ (active (c_vars s) = false -> reading (c_main s) = false -> reading (c_main s') = false).
Proof.
  intros [Hv _ _ Hm _ Hl] Hx Han. destruct s as [st l m pcs]. unfold to_come, holders in *. cbn [c_vars c_lock c_main c_bg] in *.
  set (post := concat (map _ bgs)) in *.
  assert (forall st' l' m' w1, outgoing sock w1 = outgoing sock w -> room sock w1 <= room sock w \/ live m' = false ->
    held_main m = [] -> held_main m' = [] -> (active st = false -> reading m = false -> reading m' = false) -> exists out,
    outgoing sock w1 = outgoing sock w ++ out /\ (room sock w1 <= room sock w \/ live (c_main (Sess st' l' m' pcs)) = false)
    /\ (out <> [] -> 0 < room sock w)
    /\ (active st = false -> out ++ concat (map job_rest (held_main m' ++ post)) `prefix_of` concat (map job_rest (held_main m ++ post)))
    /\ (active st = false -> reading m = false -> reading m' = false)) as Hno.
  { intros st' l' m' w1 Ho Hr Hm0 Hm1 Hrd. exists []. rewrite app_nil_r, Hm0, Hm1. by split_and!. }
  destruct m as [|r|f|t|j stop| | | | |]; cbn [exec_main main_ok answering] in *.
  - injection Hx as <- <-. apply Hno; try done; [by left|by destruct (active st)|]. by intros ->.
  - destruct (recv_step_run sock true r w Hm) as (x & w1 & E & [_ Hr _ Ho _]). rewrite E in Hx. specialize (Ho Han).
    destruct x as [r'|f]; injection Hx as <- <-; apply Hno; try done; by left.
  - destruct (plan_frame_run st f w Hv Hm) as (p & st1 & w1 & E & _ & _ & (Ho & Hr & _) & _). rewrite E in Hx.
    assert (room sock w1 <= room sock w) as Hr' by lia.
    destruct p as [[|stop|rr stop]|t]; [| |destruct (encode rr) as [data|e|]; [| |done]|];
      injection Hx as <- <-; apply Hno; try done; try (by left); by destruct stop.
  - injection Hx as <- <-. apply Hno; try done. by left.
  - destruct (job_step_run sock binary_frame false _ (active st) l j w Hm) as (o & w1 & E & Ho). rewrite E in Hx.
    destruct o as [[l1 x]|]; [|done]. cbn [held_main] in Hl.
    destruct (holders_move _ _ [] _ _ _ _ _ _ _ _ Ho Hl) as (_ & Hpost & _).
    destruct (job_moves_out _ _ _ _ _ _ _ _ Ho) as (out & Hout & Hr & Hne & Hp).
    exists out. destruct x as [j'|ok]; injection Hx as <- <-; cbn [c_main c_bg held_main held_after] in *; fold post;
      rewrite Hpost, !app_nil_r; (split_and!; [done|by left|done| |by destruct stop]); [done|].
    destruct stop; cbn [held_main]; exact Hp.
  - injection Hx as <- <-. apply Hno; try done. by left.
  - injection Hx as <- <-. apply Hno; try done. by left.
  - injection Hx as <- <-. apply Hno; try done; [apply close_silent|by right].
  - destruct (forallb _ _); [|done]. injection Hx as <- <-. apply Hno; try done. by left.
  - done.
Qed.
End steps.
