(* ===== verification/ServerRuns.v ===== *)
(** * Runs of a session (server/ws_server.cpp: handleClient)

    What holds in every interleaving of the five threads of [handleClient]: the
    life of the socket, mutual exclusion, the stream of whole frames, the end of
    an inactive session under every schedule, the timeout. *)

From stdpp Require Import gmap relations.
From S2P Require Import Prelude ByteIO Message Codec Socket WsFrame WsReceive Clock Server Endpoint ServerThreads.

(** ** No deadlock *)

Section runs.
Context {W : Type} `{SysLaws W} (sock : Z).

Lemma job_can says active locked j (w : W) : job_ok false says j -> locked = false \/ job_held j = true ->
  exists l x w', job_step sock binary_frame active locked j w = (Ok (Some (l, x)), w').
Proof.
  intros Hj Hcase. destruct (job_step_run sock binary_frame false says active locked j w Hj) as (o & w' & E & Ho).
  destruct o as [[l x]|]; [by exists l, x, w'|]. destruct Ho as [-> Hn]. destruct Hcase as [?|Hh]; [done|congruence].
Qed.

(** A background thread runs unless it has returned or waits for the mutex. *)
Lemma bg_can k s (w : W) : local s -> c_bg s k <> TExit ->
  c_lock s = false \/ held_bg (c_bg s k) <> [] \/ (forall j, c_bg s k <> TSend j) -> is_Some (exec_bg sock k s w).
Proof.
  intros [_ _ _ _ Hb _] Hne Hcase. destruct s as [st l m pcs]. cbn [c_bg c_lock] in *. specialize (Hb k). cbn [exec_bg].
  destruct (pcs k) as [| | | |now|pong|j| | |] eqn:Hpc; try done; try by eexists.
  - destruct (bg_act_run sock k st w) as (pc & w1 & E & _). rewrite E. by eexists.
  - destruct (sys_now w). by eexists.
  - destruct (job_can _ (active st) l j w Hb) as (l1 & x & w1 & E).
    { destruct Hcase as [?|[Hh|Hs]]; [by left| |by destruct (Hs j)]. right. cbn [held_bg] in Hh. unfold held in Hh. by destruct (job_held j). }
    rewrite E. destruct x; by eexists.
Qed.

(** Whoever holds the mutex runs. *)
Lemma holder_can s (w : W) : local s -> c_lock s = true -> exists a, is_Some (exec sock a s w).
Proof.
  intros Hl Hlock. pose proof (loc_lock s Hl) as Hlen. rewrite Hlock in Hlen.
  assert (held_main (c_main s) <> [] \/ exists k, held_bg (c_bg s k) <> []) as [Hm|[k Hk]].
  { destruct (held_main (c_main s)) eqn:Em; [|by left]. right. unfold holders, bgs in Hlen. rewrite Em in Hlen. cbn [app map concat] in Hlen.
    destruct (held_bg (c_bg s Ping)) eqn:E1; [|by exists Ping; rewrite E1]. destruct (held_bg (c_bg s Time)) eqn:E2; [|by exists Time; rewrite E2].
    destruct (held_bg (c_bg s Kiss)) eqn:E3; [|by exists Kiss; rewrite E3]. destruct (held_bg (c_bg s Timeout)) eqn:E4; [done|by exists Timeout; rewrite E4]. }
  - exists Main. pose proof (loc_main s Hl) as Hok. destruct s as [st l m pcs]. cbn [c_main] in *. destruct m as [| | | |j stop| | | | |]; try done.
    cbn [held_main main_ok exec exec_main] in *. destruct (job_can _ (active st) l j w Hok) as (l1 & x & w1 & E).
    { right. unfold held in Hm. by destruct (job_held j). }
    rewrite E. destruct x; by eexists.
  - exists (Bg k). apply bg_can; [done| |by right; left]. intros E. by rewrite E in Hk.
Qed.

Lemma progress s (w : W) : local s -> c_main s <> MDone -> exists c, step sock (s, w) c.
Proof.
  intros Hl Hnd. assert (exists a, is_Some (exec sock a s w)) as [a [c Hc]]; [|by exists c; eapply step_exec].
  destruct (c_lock s) eqn:Hlock; [by apply holder_can|]. pose proof (loc_main s Hl) as Hok. pose proof (loc_vars s Hl) as Hv.
  assert ((exists k, c_bg s k <> TExit) \/ forall k, c_bg s k = TExit) as Hbgs.
  { assert (forall pc, pc = TExit \/ pc <> TExit) as Hdec by (intros []; (by left) || by right).
    destruct (Hdec (c_bg s Ping)); [|by left; exists Ping]. destruct (Hdec (c_bg s Time)); [|by left; exists Time].
    destruct (Hdec (c_bg s Kiss)); [|by left; exists Kiss]. destruct (Hdec (c_bg s Timeout)); [|by left; exists Timeout].
    right. by intros []. }
  destruct Hbgs as [[k Hk]|Hall]; [exists (Bg k); apply bg_can; auto|]. exists Main.
  destruct s as [st l m pcs]. cbn [c_main c_lock c_bg c_vars exec exec_main] in *.
  destruct m as [|r|f|t|j stop| | | | |]; cbn [main_ok] in Hok; try done; try by eexists.
  - destruct (recv_step_run sock true r w Hok) as (x & w1 & E & _). rewrite E. destruct x; by eexists.
  - destruct (plan_frame_run sock st f w Hv Hok) as (p & st1 & w1 & E & _ & _ & _ & _ & Hp). rewrite E.
    destruct p as [[| |r stop]|]; try by eexists. destruct Hp as (_ & Hr & _). rewrite encode_frame by done. by eexists.
  - destruct (job_can _ (active st) l j w Hok) as (l1 & x & w1 & E); [by left|]. rewrite E. destruct x; by eexists.
  - unfold bgs. cbn [forallb]. rewrite !Hall. by eexists.
Qed.

(** ** The end of an inactive session *)

Definition weight_bg (pc : tpc) : nat :=
  match pc with
  | TExit => 0 | TLoop | TCheck | TShut => 1 | TSleep | TFail => 2 | TNow _ | TPong _ => 3
  | TSend j => 2 + job_weight j | TAct => 6
  end.
Definition weight_main (m : mpc) (w : W) : nat :=
  match m with
  | MDone => 0 | MJoin => 1 | MClose => 2 | MClean => 3 | MLoop => 4 | MStore _ | MStop => 5
  | MSend j _ => 5 + job_weight j | MServe _ => 9 | MRecv r => 9 + recv_measure sock r w
  end.
Definition weight (c : sess * W) : nat :=
  weight_main (c_main c.1) c.2 + foldr (fun k n => weight_bg (c_bg c.1 k) + n)%nat 0%nat bgs.

Lemma weight_bgs k pc pcs :
  (foldr (fun k' n => weight_bg (set_pc k pc pcs k') + n) 0 bgs + weight_bg (pcs k)
   = foldr (fun k' n => weight_bg (pcs k') + n) 0 bgs + weight_bg pc)%nat.
Proof. unfold bgs, set_pc. destruct k; cbn [foldr]; repeat (case_bool_decide; [done || idtac|done || idtac]); try done; lia. Qed.

Lemma weight_main_mono m (w w' : W) : (length (incoming sock w') <= length (incoming sock w))%nat ->
  (weight_main m w' <= weight_main m w)%nat.
Proof. intros Hi. destruct m; cbn [weight_main]; try lia. unfold recv_measure. lia. Qed.

Lemma step_weight c c' : quiet_peer W -> local c.1 -> active (c_vars c.1) = false -> step sock c c' ->
  (weight c' < weight c)%nat.
Proof.
  intros Hq Hl Ha Hst. destruct Hst as [a s w [s' w'] Hx]. pose proof (loc_main s Hl) as Hm. pose proof (loc_vars s Hl) as Hv.
  pose proof (loc_bg s Hl) as Hb. clear Hl. destruct s as [st l m pcs]. unfold weight. cbn [fst snd c_main c_bg c_vars] in *.
  destruct a as [|k]; cbn [exec] in Hx.
  - assert (forall st' l' m' w1, (s', w') = (Sess st' l' m' pcs, w1) -> (weight_main m' w1 < weight_main m w)%nat ->
      (weight_main (c_main s') w' + foldr (fun k n => weight_bg (c_bg s' k) + n) 0 bgs
       < weight_main m w + foldr (fun k n => weight_bg (pcs k) + n) 0 bgs)%nat) as Hgo.
    { intros st' l' m' w1 [= -> ->] Hlt. cbn [c_main c_bg]. lia. }
    destruct m as [|r|f|t|j stop| | | | |]; cbn [exec_main main_ok weight_main] in *.
    + injection Hx as <- <-. eapply Hgo; [done|]. rewrite Ha. cbn. lia.
    + destruct (recv_step_run sock true r w Hm) as (x & w1 & E & [_ _ _ _ Hme]). rewrite E in Hx. specialize (Hme Hq).
      destruct x as [r'|f]; injection Hx as <- <-; (eapply Hgo; [done|]); cbn [weight_main]; [lia|]. unfold recv_measure. destruct r; lia.
    + destruct (plan_frame_run sock st f w Hv Hm) as (p & st1 & w1 & E & _). rewrite E in Hx.
      destruct p as [[|stop|rr stop]|t]; [| |destruct (encode rr); [| |done]|]; injection Hx as <- <-; (eapply Hgo; [done|]); cbn; try lia.
      destruct stop; cbn; lia.
    + injection Hx as <- <-. eapply Hgo; [done|]. cbn. lia.
    + destruct (job_step sock binary_frame (active st) l j w) as [[[[l1 x]|]|e|] w1] eqn:E; [|done..].
      eapply (job_step_weight sock binary_frame false) in E as [Hw _]; [|done|done|exact Hm]. destruct x as [j'|ok]; injection Hx as <- <-; (eapply Hgo; [done|]); cbn [weight_main]; [lia|].
      destruct stop; cbn [weight_main]; lia.
    + injection Hx as <- <-. eapply Hgo; [done|]. cbn. lia.
    + injection Hx as <- <-. eapply Hgo; [done|]. cbn. lia.
    + injection Hx as <- <-. eapply Hgo; [done|]. cbn. lia.
    + destruct (forallb _ _); [|done]. injection Hx as <- <-. eapply Hgo; [done|]. cbn. lia.
    + done.
  - assert (forall st' l' pc w1, (s', w') = (Sess st' l' m (set_pc k pc pcs), w1) -> (weight_bg pc < weight_bg (pcs k))%nat ->
      (length (incoming sock w1) <= length (incoming sock w))%nat ->
      (weight_main (c_main s') w' + foldr (fun k n => weight_bg (c_bg s' k) + n) 0 bgs
       < weight_main m w + foldr (fun k n => weight_bg (pcs k) + n) 0 bgs)%nat) as Hgo.
    { intros st' l' pc w1 [= -> ->] Hlt Hin. cbn [c_main c_bg]. pose proof (weight_bgs k pc pcs). pose proof (weight_main_mono m w w1 Hin). lia. }
    specialize (Hb k). cbn [exec_bg] in Hx. destruct (pcs k) as [| | | |now|pong|j| | |] eqn:Hpc; cbn [bg_ok] in Hb.
    + injection Hx as <- <-. eapply Hgo; [done| |done]. rewrite Ha. cbn. lia.
    + injection Hx as <- <-. eapply Hgo; [done| |done]. cbn. lia.
    + injection Hx as <- <-. eapply Hgo; [done| |done]. rewrite Ha. cbn. lia.
    + destruct (bg_act_run sock k st w) as (pc & w1 & E & _ & _ & _ & Hin & Hpk). rewrite E in Hx. injection Hx as <- <-.
      eapply Hgo; [done| |by rewrite Hin]. destruct k; [destruct Hpk as [data ->]; cbn; lia..|]. rewrite Hpk. case_match; cbn; lia.
    + injection Hx as <- <-. eapply Hgo; [done| |done]. destruct (verdict_cases now (lastPongTs st)) as [-> | ->]; cbn; lia.
    + pose proof (now_law sock w) as L. destruct (sys_now w) as [t w1]. destruct L as (_ & Hin & _). injection Hx as <- <-.
      eapply Hgo; [done| |by rewrite Hin]. destruct (verdict_cases t pong) as [-> | ->]; cbn; lia.
    + destruct (job_step sock binary_frame (active st) l j w) as [[[[l1 x]|]|e|] w1] eqn:E; [|done..].
      eapply (job_step_weight sock binary_frame false) in E as [Hw Hin]; [|done|done|exact Hb].
      destruct x as [j'|ok]; injection Hx as <- <-; (eapply Hgo; [done| |by rewrite Hin]); [cbn [weight_bg]; lia|]. destruct ok; cbn; lia.
    + injection Hx as <- <-. eapply Hgo; [done| |done]. destruct k; cbn; lia.
    + injection Hx as <- <-. eapply Hgo; [done|cbn; lia|]. destruct (shutdown_law sock sock w) as (_ & _ & _ & Hi). lia.
    + done.
Qed.

Lemma inactive_sn (c : sess * W) : quiet_peer W -> local c.1 -> active (c_vars c.1) = false -> sn (step sock) c.
Proof.
  intros Hq. assert (forall n c, (weight c < n)%nat -> local c.1 -> active (c_vars c.1) = false -> sn (step sock) c) as Hn.
  { clear c. induction n as [|n IH]; intros c Hw Hl Ha; [lia|]. constructor. intros c' Hc'. unfold flip in Hc'.
    pose proof (step_weight c c' Hq Hl Ha Hc') as Hlt. destruct c as [s0 w0], c' as [s1 w1].
    destruct (step_effect _ _ _ _ _ Hl Hc') as [Hl1 _ _ Hact _]. cbn [fst] in *. apply IH; [lia|done|]. cbn [fst].
    destruct (active (c_vars s1)); [by rewrite Hact in Ha|done]. }
  apply (Hn (S (weight c))). lia.
Qed.

(** An inactive session outside [wsRecvFrame] sends the rest of a frame at most,
    and nothing on a closed socket. *)
Lemma inactive_output (c c' : sess * W) : rtc (step sock) c c' -> local c.1 -> active (c_vars c.1) = false -> reading (c_main c.1) = false ->
  exists p, p ++ to_come c'.1 `prefix_of` to_come c.1 /\ outgoing sock c'.2 = outgoing sock c.2 ++ p
    /\ (sock ∉ opened c.2 -> live (c_main c.1) = false -> p = []).
Proof.
  induction 1 as [c|c [s w0] c' Hst _ IH]; intros Hlc Ha Hrd; [by exists []; rewrite app_nil_r|].
  destruct c as [s0 w00]. destruct (step_effect _ _ _ _ _ Hlc Hst) as [Hl1 Hop1 Hli Hact _]. cbn [fst snd] in *.
  assert (exists out, outgoing sock w0 = outgoing sock w00 ++ out /\ (out <> [] -> 0 < room sock w00)
    /\ out ++ to_come s `prefix_of` to_come s0 /\ reading (c_main s) = false) as (out & Ho & Hne & Hpre & Hrd1).
  { inversion Hst as [a ? ? ? Hx]; subst. destruct a as [|k].
    - destruct (exec_main_out sock _ _ _ _ Hlc Hx) as (out & Ho & _ & Hne & Hpre & Hrd1); [by destruct (c_main s0)|].
      exists out. split_and!; auto.
    - destruct (exec_bg_out sock _ _ _ _ _ Hlc Hx) as (out & Ho & _ & Hne & Hm & Hpre). exists out. rewrite Hm. split_and!; auto. }
  destruct IH as (p & Hp & Hop' & Hnil); [done|destruct (active (c_vars s)); [by rewrite Hact in Ha|done]|done|].
  exists (out ++ p). split_and!.
  - rewrite <- app_assoc. etrans; [by apply prefix_app|done].
  - by rewrite Hop', Ho, app_assoc.
  - intros Hcl Hlive. rewrite Hlive in Hop1. cbn [andb] in Hop1. rewrite (room_closed sock w00 Hcl) in Hne.
    rewrite Hnil; [|by rewrite Hop1|destruct (live (c_main s)); [by rewrite Hli in Hlive|done]].
    destruct out; [done|]. exfalso. assert (0 < 0); [by apply Hne|lia].
Qed.

(** ** The stream *)

(** Steps in which [wsRecvFrame] sends no reply. *)
Inductive plain : relation (sess * W) :=
  | plain_exec a s w c : exec sock a s w = Some c -> (a = Main -> answering (c_main s) = false) -> plain (s, w) c.

(** Messages of the server, and nothing else, are in the stream. *)
Definition said (out0 : bytes) (hs : list job) (w : W) : Prop :=
  exists ms, Forall server_says ms /\ stream sock false server_says ms out0 hs w.

Lemma said_quiet out0 hs hs' w w' : said out0 hs w -> outgoing sock w' = outgoing sock w -> room sock w' <= room sock w ->
  concat (map job_part hs') = concat (map job_part hs) -> said out0 hs' w'.
Proof. intros (ms & Hms & Hs) Ho Hr Hp. exists ms. split; [done|]. by eapply stream_quiet. Qed.

Lemma said_job (says : Message -> Prop) out0 active locked j w l x w' : (forall m, says m -> server_says m) -> job_ok false says j -> said out0 (held j) w ->
  job_moves sock false active locked j w l x w' -> said out0 (held_after x) w'.
Proof.
  intros Hsub Hj (ms & Hms & Hs) Hm. pose proof (stream_job _ _ _ says _ _ _ _ _ _ _ _ _ Hsub Hj Hs Hm) as Hx.
  destruct (completed x); [|by exists ms]. destruct Hx as (_ & m & Hsay & Hs'). exists (ms ++ [m]). split; [|done].
  apply Forall_app. split; [done|]. apply Forall_singleton. auto.
Qed.

Lemma main_said out0 s w s' w' : local s -> exec_main sock s w = Some (s', w') -> answering (c_main s) = false ->
  said out0 (holders s) w -> said out0 (holders s') w'.
Proof.
  intros Hl Hx Han Hs. pose proof (loc_main s Hl) as Hm. pose proof (loc_vars s Hl) as Hv. pose proof (loc_lock s Hl) as Hlen.
  destruct s as [st l m pcs]. cbn [c_main c_vars c_lock] in *.
  assert (forall st' l' m' w1, (s', w') = (Sess st' l' m' pcs, w1) -> held_main m = [] -> held_main m' = [] ->
    outgoing sock w1 = outgoing sock w -> room sock w1 <= room sock w -> said out0 (holders s') w') as Hgo.
  { intros st' l' m' w1 [= -> ->] Hm0 Hm1 Ho Hr. eapply said_quiet; [exact Hs|done|done|].
    unfold holders. cbn [c_main c_bg]. by rewrite Hm0, Hm1. }
  destruct m as [|r|f|t|j stop| | | | |]; cbn [exec_main main_ok answering] in *.
  - injection Hx as <- <-. by eapply Hgo; [done|done|destruct (active st)|done|].
  - destruct (recv_step_run sock true r w Hm) as (x & w1 & E & [_ Hr _ Ho _]). rewrite E in Hx. specialize (Ho Han).
    by destruct x; injection Hx as <- <-; eapply Hgo.
  - destruct (plan_frame_run sock st f w Hv Hm) as (p & st1 & w1 & E & _ & _ & (Ho & Hr & _) & _). rewrite E in Hx.
    assert (room sock w1 <= room sock w) as Hr' by lia.
    destruct p as [[|stop|rr stop]|t]; [| |destruct (encode rr); [| |done]|]; injection Hx as <- <-; eapply Hgo; try done. by destruct stop.
  - injection Hx as <- <-. by eapply Hgo.
  - destruct (job_step_run sock binary_frame false _ (active st) l j w Hm) as (o & w1 & E & Ho). rewrite E in Hx.
    destruct o as [[l1 x]|]; [|done]. unfold holders in *. cbn [c_main c_bg held_main] in *.
    destruct (holders_move _ _ [] _ _ _ _ _ _ _ _ Ho Hlen) as (_ & Hpost & _). rewrite Hpost, app_nil_r in Hs.
    pose proof (said_job _ _ _ _ _ _ _ _ _ (fun _ h => h) Hm Hs Ho) as Hs'.
    destruct x as [j'|ok]; injection Hx as <- <-; cbn [c_main c_bg held_main held_after] in *; rewrite Hpost, app_nil_r; [done|].
    by destruct stop.
  - injection Hx as <- <-. by eapply Hgo.
  - injection Hx as <- <-. by eapply Hgo.
  - injection Hx as <- <-. eapply Hgo; try done; [apply close_silent|]. rewrite (room_closed sock (sys_close sock w)); [apply room_nonneg|].
    rewrite close_law. intros [_ Hn]%elem_of_difference. by apply Hn, elem_of_singleton.
  - destruct (forallb _ _); [|done]. injection Hx as <- <-. by eapply Hgo.
  - done.
Qed.

Lemma bg_said out0 k s w s' w' : local s -> exec_bg sock k s w = Some (s', w') -> said out0 (holders s) w -> said out0 (holders s') w'.
Proof.
  intros Hl Hx Hs. pose proof (loc_bg s Hl) as Hb. pose proof (loc_lock s Hl) as Hlen. destruct s as [st l m pcs]. cbn [c_bg c_lock] in *.
  destruct (holders_bg st l m pcs k) as (pre & post & Hh & Hh'). rewrite Hh in *.
  assert (forall st' l' pc w1, (s', w') = (Sess st' l' m (set_pc k pc pcs), w1) -> held_bg (pcs k) = [] -> held_bg pc = [] ->
    outgoing sock w1 = outgoing sock w -> room sock w1 <= room sock w -> said out0 (holders s') w') as Hgo.
  { intros st' l' pc w1 [= -> ->] Hm0 Hm1 Ho Hr. eapply said_quiet; [exact Hs|done|done|]. by rewrite Hh', Hm0, Hm1. }
  specialize (Hb k). cbn [exec_bg] in Hx. destruct (pcs k) as [| | | |now|pong|j| | |] eqn:Hpc; cbn [bg_ok held_bg] in *.
  - injection Hx as <- <-. by eapply Hgo; [done|done|destruct (active st)|done|].
  - injection Hx as <- <-. by eapply Hgo.
  - injection Hx as <- <-. by eapply Hgo; [done|done|destruct (active st)|done|].
  - destruct (bg_act_run sock k st w) as (pc & w1 & E & _ & Hheld & (Ho & Hr & _) & _). rewrite E in Hx. injection Hx as <- <-.
    eapply Hgo; try done. lia.
  - injection Hx as <- <-. eapply Hgo; try done. apply held_verdict.
  - pose proof (now_law sock w) as L. destruct (sys_now w) as [t w1]. destruct L as ((Ho & Hr & _) & _). injection Hx as <- <-.
    eapply Hgo; try done; [apply held_verdict|lia].
  - destruct (job_step_run sock binary_frame false _ (active st) l j w Hb) as (o & w1 & E & Ho). rewrite E in Hx.
    destruct o as [[l1 x]|]; [|done]. destruct (holders_move _ _ _ _ _ _ _ _ _ _ _ Ho Hlen) as (-> & -> & _).
    cbn [app] in Hs. rewrite app_nil_r in Hs. pose proof (said_job _ _ _ _ _ _ _ _ _ timer_server Hb Hs Ho) as Hs'.
    destruct x as [j'|ok]; injection Hx as <- <-; rewrite Hh'; cbn [app held_bg held_after] in *; rewrite app_nil_r; [done|]. by destruct ok.
  - injection Hx as <- <-. by eapply Hgo; [done|done|destruct k|done|].
  - injection Hx as <- <-. destruct (shutdown_law sock sock w) as (_ & Ho & Hr & _). by eapply Hgo.
  - done.
Qed.

Lemma plain_stream out0 s w s' w' : local s -> plain (s, w) (s', w') -> said out0 (holders s) w -> said out0 (holders s') w'.
Proof.
  intros Hl Hp Hs. inversion Hp as [a ? ? ? Hx Han]; subst. destruct a as [|k]; [|by eapply bg_said].
  eapply main_said; [done|done|by apply Han|done].
Qed.

Lemma plain_step c c' : plain c c' -> step sock c c'.
Proof. intros [a s w c0 Hx _]. by eapply step_exec. Qed.

Lemma plains_stream c c' : rtc plain c c' -> local c.1 -> said (outgoing sock c.2) (holders c.1) c.2 ->
  local c'.1 /\ said (outgoing sock c.2) (holders c'.1) c'.2.
Proof.
  generalize (outgoing sock c.2) as out0. intros out0. induction 1 as [c|c [s1 w1] c' Hst _ IH]; [done|].
  intros Hl Hs. destruct c as [s0 w0]. apply IH.
  - by destruct (step_effect _ _ _ _ _ Hl (plain_step _ _ Hst)).
  - by eapply plain_stream.
Qed.

(** The calls of [sendFrame] under way are well-formed. *)
Lemma holders_ok s : local s -> Forall (under_way false server_says) (holders s).
Proof.
  intros Hl. assert (forall says j, (forall m, says m -> server_says m) -> job_ok false says j -> Forall (under_way false server_says) (held j)) as Hj.
  { intros says j Hsub Hj. unfold held. case_match; [|done]. apply Forall_singleton. by eapply job_under_way. }
  unfold holders, bgs. pose proof (loc_main s Hl) as Hm. pose proof (loc_bg s Hl) as Hb. cbn [map concat].
  assert (forall k, Forall (under_way false server_says) (held_bg (c_bg s k))) as Hk.
  { intros k. specialize (Hb k). destruct (c_bg s k); cbn [held_bg bg_ok] in *; try constructor. by apply (Hj timer_says); [apply timer_server|]. }
  repeat (apply Forall_app; split); try apply Hk; [|constructor]. destruct (c_main s); cbn [held_main main_ok] in *; try constructor. by apply (Hj server_says).
Qed.

Lemma carries_message m f : carries false m f -> f = message_wire m.
Proof. by intros (_ & _ & [key|] & Hk & _ & ->). Qed.

Lemma carries_messages ms fs : Forall2 (carries false) ms fs -> Forall message_ok ms /\ fs = map message_wire ms.
Proof.
  induction 1 as [|m f ms fs Hm _ [IH1 ->]]; [done|]. split; [constructor; [apply Hm|done]|]. by rewrite (carries_message _ _ Hm).
Qed.
End runs.

(** ** Properties *)

(** The receive thread is the receive loop, a check of the two readings of the
    code against each other.  Every run of [receive_loop] that
    returns, the sequential reading of the code with [wsRecvFrame] and
    [sendFrame] in one go, is a run of the receive thread in steps, from the top
    of the loop to the cleanup, with the same session and world at the end and
    the mutex free. *)
Theorem receive_thread_refines {W} `{Sys W} sock rounds fuel st pcs (w : W) st' w' :
  receive_loop sock rounds fuel (st, w) = (Ok tt, (st', w')) ->
  rtc (step sock) (Sess st false MLoop pcs, w) (Sess st' false MClean pcs, w').
Proof.
  intros E%(receive_loop_main sock _ _ _ pcs). eapply rtc_subrel; [|exact E].
  intros [s1 w1] c Hc. by apply (step_exec sock Main).
Qed.

(** A client that disconnects at once. *)
Definition bye_tape : tape silent :=
  tape_of (wire (demo_frame true 2 (frame_bytes MSG_DISCONNECT 0 (be_bytes 4 0)))) 200.

Lemma receive_thread_refines_witness : exists st' w',
  receive_loop 7 9 9 (demo_session, bye_tape) = (Ok tt, (st', w')) /\ active st' = false
  /\ rtc (step 7) (Sess demo_session false MLoop (fun _ => TLoop), bye_tape) (Sess st' false MClean (fun _ => TLoop), w').
Proof.
  assert ((fst (receive_loop 7 9 9 (demo_session, bye_tape)),
    active (fst (snd (receive_loop 7 9 9 (demo_session, bye_tape))))) = (Ok tt, false)) as Hv by (vm_compute; reflexivity).
  destruct (receive_loop 7 9 9 (demo_session, bye_tape)) as [r [st' w']] eqn:E. cbn [fst snd] in Hv.
  injection Hv as -> Ha. exists st', w'. split; [reflexivity|]. split; [exact Ha|].
  exact (receive_thread_refines 7 9 9 demo_session (fun _ => TLoop) bye_tape st' w' E).
Defined.

(** C9: the life of the socket and the mutex.  In every interleaving of the five
    threads: the session stays well-formed; the descriptors are those at the
    start until the cleanup closes the socket, and those less the socket from
    then on; from the cleanup on the session is inactive; [handleClient]
    returns only after all four background threads have; and at most one
    thread is inside [sendFrame], exactly when the mutex is locked. *)
Theorem session_socket_safe {W} `{SysLaws W} sock now (w : W) s w' :
  is_i64 now -> rtc (step sock) (start now, w) (s, w') ->
  session_ok (c_vars s)
  /\ opened w' = (if live (c_main s) then opened w else opened w ∖ {[ sock ]})
  /\ (closing (c_main s) -> active (c_vars s) = false)
  /\ (c_main s = MDone -> forall k, c_bg s k = TExit)
  /\ length (holders s) = (if c_lock s then 1 else 0)%nat.
Proof. intros Hn Hr. destruct (reachable sock now w s w' Hn Hr) as [[H1 H2 H3 _ _ H6] Hop]. by split_and!. Qed.

(** Runs of the executable scheduler, for concrete sessions. *)
Fixpoint run {W} `{Sys W} (sock : Z) (as_ : list actor) (c : sess * W) : option (sess * W) :=
  match as_ with
  | [] => Some c
  | a :: as_ => c' ← exec sock a c.1 c.2; run sock as_ c'
  end.

Lemma run_steps {W} `{Sys W} sock as_ (c c' : sess * W) : run sock as_ c = Some c' -> rtc (step sock) c c'.
Proof.
  revert c. induction as_ as [|a as_ IH]; intros [s w]; cbn [run fst snd]; [intros [= ->]; apply rtc_refl|].
  destruct (exec sock a s w) as [c1|] eqn:E; [|done]. intros Hr. eapply rtc_l; [by eapply step_exec|]. by apply IH.
Qed.

(** A schedule that ends the session of [bye_tape]. *)
Definition bye_schedule : list actor :=
  [Bg Ping; Main; Bg Ping; Main; Bg Ping; Main; Main; Main; Main; Main; Bg Ping; Bg Ping; Bg Ping; Bg Ping; Bg Ping;
   Bg Time; Bg Kiss; Bg Timeout; Main].

Lemma bye_reaches : exists s w, rtc (step 7) (start 5, bye_tape) (s, w) /\ c_main s = MDone.
Proof.
  assert (option_map (fun c => c_main c.1) (run 7 bye_schedule (start 5, bye_tape)) = Some MDone) as Hm by (vm_compute; reflexivity).
  destruct (run 7 bye_schedule (start 5, bye_tape)) as [[s w]|] eqn:E; [|done].
  exists s, w. split; [by apply (run_steps 7 bye_schedule)|]. by injection Hm.
Qed.

Lemma session_socket_safe_witness : exists s (w : tape silent), c_main s = MDone
  /\ session_ok (c_vars s)
  /\ opened w = (if live (c_main s) then opened bye_tape else opened bye_tape ∖ {[ 7 ]})
  /\ (closing (c_main s) -> active (c_vars s) = false)
  /\ (c_main s = MDone -> forall k, c_bg s k = TExit)
  /\ length (holders s) = (if c_lock s then 1 else 0)%nat.
Proof.
  destruct bye_reaches as (s & w & Hr & Hm). exists s, w. split; [exact Hm|].
  apply (session_socket_safe 7 5 bye_tape s w); [vm_compute; split; congruence|exact Hr].
Defined.

(** C30: when the output ends.  Once the socket is closed, no interleaving of the
    threads that are left puts another byte on the connection.  And already
    when the session is inactive and the receive thread has left
    [wsRecvFrame], nothing goes out any more but the rest of the one frame
    that was under way in [sendFrame]. *)
Theorem output_ends {W} `{SysLaws W} sock now (w : W) s1 w1 s2 w2 :
  is_i64 now -> rtc (step sock) (start now, w) (s1, w1) -> rtc (step sock) (s1, w1) (s2, w2) ->
  (live (c_main s1) = false -> outgoing sock w2 = outgoing sock w1)
  /\ (active (c_vars s1) = false -> reading (c_main s1) = false ->
      exists p, p `prefix_of` to_come s1 /\ outgoing sock w2 = outgoing sock w1 ++ p).
Proof.
  intros Hn Hr Hr'. destruct (reachable sock now w s1 w1 Hn Hr) as [Hl Hop]. clear Hr Hn.
  pose proof (inactive_output sock) as Hall.
  split.
  - intros Hlive. destruct (Hall _ _ Hr' Hl) as (p & Hp & Ho & Hnil); cbn [fst snd] in *.
    + apply (loc_cleanup s1 Hl). by destruct (c_main s1).
    + by destruct (c_main s1).
    + rewrite Ho, Hnil, app_nil_r; [done| |done]. rewrite Hop, Hlive. intros [_ Hin]%elem_of_difference. by apply Hin, elem_of_singleton.
  - intros Ha Hrd. destruct (Hall _ _ Hr' Hl Ha Hrd) as (p & Hp & Ho & _). cbn [fst snd] in *. exists p. split; [|done].
    etrans; [|exact Hp]. by apply prefix_app_r.
Qed.

Lemma output_ends_witness : exists s (w : tape silent), c_main s = MDone /\ forall s2 w2, rtc (step 7) (s, w) (s2, w2) ->
  (live (c_main s) = false -> outgoing 7 w2 = outgoing 7 w)
  /\ (active (c_vars s) = false -> reading (c_main s) = false ->
      exists p, p `prefix_of` to_come s /\ outgoing 7 w2 = outgoing 7 w ++ p).
Proof.
  destruct bye_reaches as (s & w & Hr & Hm). exists s, w. split; [exact Hm|]. intros s2 w2.
  apply (output_ends 7 5 bye_tape s w s2 w2); [vm_compute; split; congruence|exact Hr].
Defined.

(** The stream of a connection.  As long as [wsRecvFrame] answers no control
    frame, the bytes a session has sent, under every interleaving of its
    threads, are whole frames, one per message, and at most a beginning of one
    more; whenever the mutex is free and the connection still accepts data they
    are whole frames only.  All of them are messages that the protocol sends
    from server to client. *)
Theorem session_stream {W} `{SysLaws W} sock now (w : W) s w' :
  is_i64 now -> rtc (plain sock) (start now, w) (s, w') ->
  exists ms p, Forall message_ok ms /\ Forall server_says ms
    /\ outgoing sock w' = outgoing sock w ++ concat (map message_wire ms) ++ p
    /\ (p = [] \/ exists m, message_ok m /\ server_says m /\ p `prefix_of` message_wire m)
    /\ (c_lock s = false -> 0 < room sock w' -> p = []).
Proof.
  intros Hn Hr. destruct (plains_stream sock _ _ Hr (start_local now Hn)) as (Hl & ms & Hms & Hs).
  { exists []. split; [constructor|apply stream_start]. }
  cbn [fst snd] in *. pose proof (loc_lock s Hl) as Hlen.
  destruct (stream_out _ _ _ _ _ _ _ Hs) as (fs & p & HF & Ho & Hp & Hfree); [destruct (c_lock s); lia|by apply holders_ok|].
  apply carries_messages in HF as [Hok ->]. exists ms, p. split_and!; try done.
  - destruct Hp as [?|(m & f & Hsay & Hc & Hpre)]; [by left|right]. exists m. rewrite <- (carries_message _ _ Hc). by split_and!; [apply Hc|..].
  - intros Hlock. apply Hfree. rewrite Hlock in Hlen. by apply nil_length_inv.
Qed.

Lemma run_plain {W} `{Sys W} sock ks (c c' : sess * W) : run sock (map Bg ks) c = Some c' -> rtc (plain sock) c c'.
Proof.
  revert c. induction ks as [|k ks IH]; intros [s w]; cbn [map run fst snd]; [intros [= ->]; apply rtc_refl|].
  destruct (exec sock (Bg k) s w) as [c1|] eqn:E; [|done]. intros Hr. eapply rtc_l; [by eapply plain_exec|]. by apply IH.
Qed.

(** The PING thread in the middle of its frame, three bytes out. *)
Definition mid_frame : list bg := replicate 7 Ping.

Lemma mid_frame_reaches : exists s w, rtc (plain 7) (start 5, tape_of [] 200) (s, w) /\ c_lock s = true /\ length (outgoing 7 w) = 3%nat.
Proof.
  assert (option_map (fun c => (c_lock c.1, length (outgoing 7 c.2))) (run 7 (map Bg mid_frame) (start 5, tape_of [] 200)) = Some (true, 3%nat)) as Hm
    by (vm_compute; reflexivity).
  destruct (run 7 (map Bg mid_frame) (start 5, tape_of [] 200)) as [[s w]|] eqn:E; [|done].
  exists s, w. split; [by apply (run_plain 7 mid_frame)|]. by injection Hm.
Qed.

Lemma session_stream_witness : exists s (w : tape silent), c_lock s = true /\ length (outgoing 7 w) = 3%nat
  /\ exists ms p, Forall message_ok ms /\ Forall server_says ms
    /\ outgoing 7 w = outgoing 7 (tape_of [] 200) ++ concat (map message_wire ms) ++ p
    /\ (p = [] \/ exists m, message_ok m /\ server_says m /\ p `prefix_of` message_wire m)
    /\ (c_lock s = false -> 0 < room 7 w -> p = []).
Proof.
  destruct mid_frame_reaches as (s & w & Hr & Hl & Ho). exists s, w. split; [exact Hl|]. split; [exact Ho|].
  apply (session_stream 7 5 (tape_of [] 200) s w); [vm_compute; split; congruence|exact Hr].
Defined.

(** C14: an inactive session ends.  Once the flag is false, on a connection whose
    peer does not answer output with new input, every schedule of the threads
    is finite, and a schedule can only end with [handleClient] returned. *)
Theorem session_winds_down {W} `{SysLaws W} sock now (w : W) s w' :
  quiet_peer W -> is_i64 now -> rtc (step sock) (start now, w) (s, w') -> active (c_vars s) = false ->
  sn (step sock) (s, w') /\ forall c, rtc (step sock) (s, w') c -> nf (step sock) c -> c_main c.1 = MDone.
Proof.
  intros Hq Hn Hr Ha. destruct (reachable sock now w s w' Hn Hr) as [Hl _]. clear Hr Hn. split.
  - by apply inactive_sn.
  - intros [s2 w2] Hr Hnf. pose proof (steps_local _ _ _ Hr Hl) as Hl2. cbn [fst] in *.
    destruct (c_main s2) eqn:Em; [..|done]; exfalso; apply Hnf; (destruct (progress sock s2 w2 Hl2) as [c Hc]; [by rewrite Em|by exists c]).
Qed.

(** The session of [bye_tape] just after the DISCONNECT: the flag is false, the
    receive thread is at the top of its loop, the PING thread is about to send
    and the other threads have not begun. *)
Lemma bye_inactive : exists s w, rtc (step 7) (start 5, bye_tape) (s, w)
  /\ active (c_vars s) = false /\ c_main s = MLoop /\ c_bg s Ping = TAct /\ c_bg s Time = TLoop.
Proof.
  set (acts := replicate 3 (Bg Ping) ++ replicate 4 Main).
  assert (option_map (fun c => (active (c_vars c.1), c_main c.1, c_bg c.1 Ping, c_bg c.1 Time)) (run 7 acts (start 5, bye_tape))
    = Some (false, MLoop, TAct, TLoop)) as Hm by (vm_compute; reflexivity).
  destruct (run 7 acts (start 5, bye_tape)) as [[s w]|] eqn:E; [|done]. cbn [option_map fst snd] in Hm.
  injection Hm as Ha Hm Hp Ht. exists s, w. split_and!; [by apply (run_steps 7 acts)|done..].
Qed.

Lemma session_winds_down_witness : exists s (w : tape silent), c_main s = MLoop /\ c_bg s Ping = TAct /\ c_bg s Time = TLoop
  /\ sn (step 7) (s, w) /\ forall c, rtc (step 7) (s, w) c -> nf (step 7) c -> c_main c.1 = MDone.
Proof.
  destruct bye_inactive as (s & w & Hr & Ha & Hm & Hp & Ht). exists s, w. split; [exact Hm|]. split; [exact Hp|]. split; [exact Ht|].
  apply (session_winds_down 7 5 bye_tape s w silent_quiet); [vm_compute; split; congruence|exact Hr|exact Ha].
Defined.

(** C13: no deadlock.  In every interleaving, as long as [handleClient] has not
    returned, some thread can take a step: the mutex is always released, and
    the joins wait only for threads that go on. *)
Theorem session_no_deadlock {W} `{SysLaws W} sock now (w : W) s w' :
  is_i64 now -> rtc (step sock) (start now, w) (s, w') -> c_main s <> MDone -> exists c, step sock (s, w') c.
Proof. intros Hn Hr. apply progress. by destruct (reachable sock now w s w' Hn Hr). Qed.

Lemma session_no_deadlock_witness : exists s (w : tape silent), c_lock s = true /\ exists c, step 7 (s, w) c.
Proof.
  destruct mid_frame_reaches as (s & w & Hr & Hl & _). exists s, w. split; [exact Hl|].
  assert (rtc (step 7) (start 5, tape_of [] 200) (s, w)) as Hr' by (eapply rtc_subrel; [apply plain_step|exact Hr]).
  apply (session_no_deadlock 7 5 (tape_of [] 200) s w); [vm_compute; split; congruence|exact Hr'|].
  intros E. destruct (reachable 7 5 (tape_of [] 200) s w) as [[_ _ Hd _ _ Hlen] _]; [vm_compute; split; congruence|exact Hr'|].
  unfold holders, bgs in Hlen. cbn [map concat] in Hlen. rewrite E, !(Hd E), Hl in Hlen. discriminate Hlen.
Defined.

(** A step of one thread leaves the others where they are. *)
Lemma exec_main_bg {W} `{Sys W} sock s (w : W) s' w' : exec_main sock s w = Some (s', w') -> c_bg s' = c_bg s.
Proof. destruct s as [st l m pcs]. cbn [exec_main c_bg]. intros Hx. repeat (case_match; try done); by injection Hx as <- <-. Qed.

Lemma exec_bg_other {W} `{Sys W} sock k k' s (w : W) s' w' : exec_bg sock k s w = Some (s', w') -> k' <> k -> c_bg s' k' = c_bg s k'.
Proof.
  destruct s as [st l m pcs]. cbn [exec_bg c_bg]. intros Hx Hne.
  repeat (case_match; try done); injection Hx as <- <-; cbn [c_bg]; unfold set_pc; by rewrite bool_decide_eq_false_2.
Qed.

(** One step of the timeout thread; it never sends. *)
Lemma timeout_step {W} `{SysLaws W} sock s (w : W) s' w' : (forall j, c_bg s Timeout <> TSend j) -> exec_bg sock Timeout s w = Some (s', w') ->
  c_bg s' Timeout = match c_bg s Timeout with
    | TLoop => if active (c_vars s) then TSleep else TExit
    | TSleep => TCheck
    | TCheck => if active (c_vars s) then TAct else TExit
    | TAct => if sys_order w then TNow (fst (sys_now w)) else TPong (lastPongTs (c_vars s))
    | TNow now => verdict now (lastPongTs (c_vars s))
    | TPong pong => verdict (fst (sys_now w)) pong
    | TFail => TShut
    | _ => TExit
    end.
Proof.
  destruct s as [st l m pcs]. cbn [c_bg c_vars exec_bg]. intros Hno Hx.
  destruct (pcs Timeout) as [| | | |now|pong|j| | |]; [..|by destruct (Hno j)| | |done]; try (injection Hx as <- <-; apply set_pc_same).
  - destruct (bg_act_run sock Timeout st w) as (pc & w1 & E & _ & _ & _ & _ & ->). rewrite E in Hx. injection Hx as <- <-. apply set_pc_same.
  - destruct (sys_now w) as [t w1]. injection Hx as <- <-. apply set_pc_same.
Qed.

(** Steps of the other threads. *)
Inductive others {W} `{Sys W} (sock : Z) : relation (sess * W) :=
  | others_exec a s w c : exec sock a s w = Some c -> a <> Bg Timeout -> others sock (s, w) c.

(** In a run from [c0], the timeout thread began its check in the state [c1],
    and since then only the other threads have run, up to [c]. *)
Definition began_check {W} `{Sys W} (sock : Z) (c0 c1 c : sess * W) : Prop :=
  rtc (step sock) c0 c1 /\ c_bg c1.1 Timeout = TAct
  /\ exists c2, exec sock (Bg Timeout) c1.1 c1.2 = Some c2 /\ rtc (others sock) c2 c.

(** Where the value in the hands of the timeout thread comes from. *)
Definition half_checked {W} `{Sys W} (sock : Z) (c0 c : sess * W) : Prop :=
  match c_bg c.1 Timeout with
  | TNow now => exists c1, began_check sock c0 c1 c /\ sys_order c1.2 = true /\ now = fst (sys_now c1.2)
  | TPong pong => exists c1, began_check sock c0 c1 c /\ sys_order c1.2 = false /\ pong = lastPongTs (c_vars c1.1)
  | TSend _ => False
  | _ => True
  end.

Lemma began_check_others {W} `{Sys W} sock c0 c1 c (c' : sess * W) : began_check sock c0 c1 c -> others sock c c' -> began_check sock c0 c1 c'.
Proof. intros (Hr & Ha & c2 & Hx & Ho) Hc. split_and!; [done..|]. exists c2. split; [done|]. by eapply rtc_r. Qed.

Lemma half_checks {W} `{SysLaws W} sock (c0 c : sess * W) : c_bg c0.1 Timeout = TLoop -> rtc (step sock) c0 c -> half_checked sock c0 c.
Proof.
  intros Hl0. revert c. apply rtc_ind_r; [unfold half_checked; by rewrite Hl0|]. intros c c' Hr Hst IH. destruct Hst as [a s w [s' w'] Hx].
  assert (c_bg s' Timeout = c_bg s Timeout -> a <> Bg Timeout -> half_checked sock c0 (s', w')) as Hkeep.
  { intros E Ha. assert (others sock (s, w) (s', w')) as Ho by (by eapply others_exec). revert IH. unfold half_checked. cbn [fst]. rewrite E.
    destruct (c_bg s Timeout); try done; intros (c1 & Hb & Hv); exists c1; (split; [by eapply began_check_others|done]). }
  destruct a as [|k]; cbn [exec] in Hx; [apply Hkeep; [by rewrite (exec_main_bg _ _ _ _ _ Hx)|done]|].
  destruct (decide (k = Timeout)) as [->|Hk]; [|apply Hkeep; [by rewrite (exec_bg_other _ _ _ _ _ _ _ Hx)|congruence]]. clear Hkeep.
  assert (forall j, c_bg s Timeout <> TSend j) as Hno by (intros j E; revert IH; unfold half_checked; cbn [fst]; by rewrite E).
  pose proof (timeout_step _ _ _ _ _ Hno Hx) as E. unfold half_checked. cbn [fst]. rewrite E.
  destruct (c_bg s Timeout) as [| | | |now|pong|j| | |] eqn:Epc; try done; try (by destruct (active (c_vars s)));
    try (by destruct (verdict_cases now (lastPongTs (c_vars s))) as [-> | ->]); try (by destruct (verdict_cases (fst (sys_now w)) pong) as [-> | ->]).
  destruct (sys_order w) eqn:Eo; exists (s, w); (split; [split_and!; [done|done|]; exists (s', w'); split; [exact Hx|apply rtc_refl]|done]).
Qed.

(** C31: the timeout.  In every interleaving, the timeout thread decides to end
    the session only in a step of its own, and only when the two values it has
    read in this check, the clock and the last PONG time, each in a step of its
    own with the other threads running in between and in the order the compiler
    chose, are more than 60000 ms apart.  And when the thread comes to its loop
    in an active session more than 60000 ms after the last PONG and is left to
    run, it does end the session, in seven steps: the flag is cleared, the
    socket is shut down, the thread has returned; otherwise it is back at its
    loop after five, with the session as it was. *)
Theorem timeout_exact {W} `{SysLaws W} sock now0 (w0 : W) s (w : W) :
  rtc (step sock) (start now0, w0) (s, w) ->
  (forall a c, exec sock a s w = Some c -> c_bg s Timeout <> TFail -> c_bg c.1 Timeout = TFail ->
     a = Bg Timeout /\ exists s1 w1, began_check sock (start now0, w0) (s1, w1) (s, w)
       /\ if sys_order w1 then 60000 < fst (sys_now w1) - lastPongTs (c_vars s)
          else 60000 < fst (sys_now w) - lastPongTs (c_vars s1))
  /\ (c_bg s Timeout = TLoop -> active (c_vars s) = true ->
      let expired := 60000 <? fst (sys_now w) - lastPongTs (c_vars s) in
      exists s', run sock (replicate (if expired then 7 else 5) (Bg Timeout)) (s, w)
          = Some (s', if expired then sys_shutdown sock (snd (sys_now w)) else snd (sys_now w))
        /\ c_vars s' = (if expired then (c_vars s) <| active := false |> else c_vars s)
        /\ c_bg s' Timeout = if expired then TExit else TLoop).
Proof.
  intros Hr. split.
  - pose proof (half_checks sock (start now0, w0) (s, w) eq_refl Hr) as Hh.
    intros a [s' w'] Hx Hne Hf. cbn [fst] in Hf. destruct a as [|k]; cbn [exec] in Hx; [by rewrite (exec_main_bg _ _ _ _ _ Hx) in Hf|].
    destruct (decide (k = Timeout)) as [->|Hk]; [|by rewrite (exec_bg_other _ _ _ _ _ _ _ Hx) in Hf by done].
    split; [done|]. unfold half_checked in Hh. cbn [fst] in Hh.
    rewrite (timeout_step _ _ _ _ _ ltac:(intros j E; by rewrite E in Hh) Hx) in Hf.
    destruct (c_bg s Timeout) as [| | | |now|pong|j| | |]; try done; try (by destruct (active (c_vars s))); try (by destruct (sys_order w)).
    + destruct Hh as ([s1 w1] & Hb & Ho & ->). exists s1, w1. split; [done|]. cbn [fst snd] in *. rewrite Ho.
      unfold verdict in Hf. case_match eqn:El; [|done]. apply Z.ltb_lt in El. exact El.
    + destruct Hh as ([s1 w1] & Hb & Ho & ->). exists s1, w1. split; [done|]. cbn [fst snd] in *. rewrite Ho.
      unfold verdict in Hf. case_match eqn:El; [|done]. apply Z.ltb_lt in El. exact El.
  - clear Hr. destruct s as [st l m pcs]. cbn [c_bg c_vars]. intros Hk Ha. cbv zeta.
    destruct (sys_now w) as [now w1] eqn:Enow. cbn [fst snd].
    assert (verdict now (lastPongTs st) = if 60000 <? now - lastPongTs st then TFail else TLoop) as Hv by done.
    destruct (60000 <? now - lastPongTs st) eqn:Ex, (sys_order w) eqn:Eo; cbn [replicate run fst snd exec exec_bg];
      rewrite Hk, Ha; repeat (cbn [exec_bg mbind option_bind fst snd]; rewrite ?set_pc_same, ?Ha);
      cbn [bg_act]; rewrite Eo; unfold ibind, nowMs; rewrite ?Enow; cbn [iret];
      repeat (cbn [exec_bg mbind option_bind fst snd]; rewrite ?set_pc_same, ?Enow, ?Hv); eexists; split_and!; try reflexivity; apply set_pc_same.
Qed.

Lemma timeout_exact_witness : exists s', run 7 (replicate 7 (Bg Timeout)) (start 0, bye_tape) = Some (s', sys_shutdown 7 (sys_now bye_tape).2)
  /\ c_vars s' = (c_vars (start 0)) <| active := false |> /\ c_bg s' Timeout = TExit.
Proof.
  assert ((60000 <? (sys_now bye_tape).1 - lastPongTs (c_vars (start 0))) = true) as Hexp by (vm_compute; reflexivity).
  pose proof (proj2 (timeout_exact 7 0 bye_tape (start 0) bye_tape (rtc_refl _ _)) eq_refl eq_refl) as HT.
  cbv zeta in HT. rewrite Hexp in HT. exact HT.
Defined.

(** ** Races *)

(** A reply of [wsRecvFrame] does not take the mutex: it can end up inside a
    frame of another thread.  A session whose PING frame has gone out up to its
    third byte answers a WebSocket ping in between; the connection then carries
    the first bytes of the one frame, the whole pong, and the rest. *)
Theorem pong_splits_frame : exists s w, rtc (step 7) (start 5, tape_of (wire (demo_frame true 9 [])) 200) (s, w)
  /\ let f := message_wire (ping_message 1700000000000) in
     outgoing 7 w = take 3 f ++ wire (control_frame 10 None []) ++ drop 3 f.
Proof.
  set (acts := replicate 7 (Bg Ping) ++ replicate 4 Main ++ replicate 7 (Bg Ping)).
  assert (option_map (fun c => outgoing 7 c.2) (run 7 acts (start 5, tape_of (wire (demo_frame true 9 [])) 200)) =
    Some (take 3 (message_wire (ping_message 1700000000000)) ++ wire (control_frame 10 None [])
          ++ drop 3 (message_wire (ping_message 1700000000000)))) as Ho by (vm_compute; reflexivity).
  destruct (run 7 acts _) as [[s w]|] eqn:E; [|done]. exists s, w. split; [by apply (run_steps 7 acts)|]. by injection Ho.
Qed.

(** The timeout thread can shut down a descriptor that is already closed: it
    clears the flag first, the receive thread then runs its cleanup to the join
    and closes the socket, and only then does the timeout thread call
    [hws_shutdown] on the number, which another connection may have by now. *)
Theorem shutdown_after_close : exists s w, rtc (step 7) (start 5, tape_of [] 200) (s, w)
  /\ c_main s = MJoin /\ c_bg s Timeout = TShut /\ 7 ∉ opened w.
Proof.
  set (acts := replicate 6 (Bg Timeout) ++ replicate 3 Main).
  assert (option_map (fun c => (c_main c.1, c_bg c.1 Timeout, bool_decide (7 ∈ t_fds c.2))) (run 7 acts (start 5, tape_of [] 200)) =
    Some (MJoin, TShut, false)) as Ho by (vm_compute; reflexivity).
  destruct (run 7 acts _) as [[s w]|] eqn:E; [|done]. exists s, w. cbn in Ho. injection Ho as Hm Ht Hf.
  split_and!; [by apply (run_steps 7 acts)|done|done|]. cbn [opened tape_sys]. rewrite elem_of_list_to_set. by apply bool_decide_eq_false in Hf.
Qed.

(** The two reads of the timeout check are separate.  With the last PONG time
    loaded first, a PONG that is stored before the clock is read comes too late:
    the session is ended although its last PONG is two milliseconds old. *)
Definition pong_tape : tape silent :=
  (tape_of (wire (demo_frame true 2 (frame_bytes MSG_PONG 0 (payload_wire (new_message MSG_PONG))))) 200)
  <| t_clock := 1700000000001 |>.

Theorem late_pong : exists s w, rtc (step 7) (start 5, pong_tape) (s, w)
  /\ c_bg s Timeout = TFail /\ active (c_vars s) = true /\ fst (sys_now w) - lastPongTs (c_vars s) = 2.
Proof.
  set (acts := replicate 4 (Bg Timeout) ++ replicate 4 Main ++ [Bg Timeout]).
  assert (option_map (fun c => (c_bg c.1 Timeout, active (c_vars c.1), fst (sys_now c.2) - lastPongTs (c_vars c.1))) (run 7 acts (start 5, pong_tape)) =
    Some (TFail, true, 2)) as Ho by (vm_compute; reflexivity).
  destruct (run 7 acts _) as [[s w]|] eqn:E; [|done]. exists s, w. cbn [option_map fst snd] in Ho. injection Ho as Ht Ha Hp.
  split_and!; [by apply (run_steps 7 acts)|done..].
Qed.
