(* ===== verification/ServerMain.v ===== *)
(** * The server program (server/ws_server.cpp: main)

    [main] listens, accepts connections one after the other and hands each to a
    detached thread that runs [handleClient].  The state of the program is the
    listening socket and the sessions so far; all of them share one world.  The
    theorem is about descriptors: they are exactly the ones the program still
    uses. *)

From stdpp Require Import gmap relations.
From S2P Require Import Prelude Socket Handshake Server Endpoint ServerThreads.

(** ** The code *)

(** A detached thread: its arguments, and the session once it has begun. *)
Record entry := Entry { e_sock : Z; e_user : bytes; e_state : option sess }.

(** [main] before [listen], in its loop, returned. *)
Inductive prog := PBoot | PServe (srv : WSServer) (es : list entry) | PExit (code : Z).

Inductive pactor := PMain | PSession (i : nat) (a : actor).

Section code.
Context {W : Type} `{Sys W} (garbage : bytes) (env_path portEnv : option bytes).

(** The variables at the beginning of [handleClient]: the session identifier
    and the time of the last PONG are both read from the clock. *)
Definition open_session : io W sess :=
  let! sessionId := nowMs in let! now := nowMs in iret (start now).

(** A step of a detached thread, or of a thread of its session. *)
Definition exec_entry (a : actor) (e : entry) (w : W) : option (entry * W) :=
  match e_state e with
  | None =>
      match open_session w with
      | (Ok s, w) => Some (Entry (e_sock e) (e_user e) (Some s), w)
      | _ => None
      end
  | Some s =>
      match exec (e_sock e) a s w with
      | Some (s, w) => Some (Entry (e_sock e) (e_user e) (Some s), w)
      | None => None
      end
  end.

(** A step of [main]: listen, or one round of the accept loop. *)
Definition exec_prog (p : prog) (w : W) : option (prog * W) :=
  match p with
  | PBoot =>
      match server_listen (main_port portEnv) w with
      | (Ok (ok, srv), w) => Some (if ok then PServe srv [] else PExit 1, w)
      | _ => None
      end
  | PServe srv es =>
      match server_accept garbage env_path srv [] w with
      | (Ok (clientSock, userId), w) =>
          Some (PServe srv (if clientSock =? HWS_INVALID_SOCKET then es
                            else es ++ [Entry clientSock userId None]), w)
      | _ => None
      end
  | PExit _ => None
  end.

Definition pexec (a : pactor) (p : prog) (w : W) : option (prog * W) :=
  match a, p with
  | PMain, _ => exec_prog p w
  | PSession i a, PServe srv es =>
      match es !! i with
      | Some e => match exec_entry a e w with
                  | Some (e, w) => Some (PServe srv (<[i := e]> es), w)
                  | None => None
                  end
      | None => None
      end
  | PSession _ _, _ => None
  end.

Inductive pstep : relation (prog * W) :=
  | pstep_exec a p w c : pexec a p w = Some c -> pstep (p, w) c.
End code.

(** ** Descriptors *)

(** The sessions that still have their socket. *)
Definition live_entry (e : entry) : bool := match e_state e with None => true | Some s => live (c_main s) end.
Definition live_socks (es : list entry) : list Z := map e_sock (List.filter live_entry es).

(** The descriptors a program has opened. *)
Definition prog_socks (p : prog) : list Z :=
  match p with PServe srv es => listenSock srv :: live_socks es | _ => [] end.
Definition prog_entries (p : prog) : list entry := match p with PServe _ es => es | _ => [] end.

Lemma live_socks_app a b : live_socks (a ++ b) = live_socks a ++ live_socks b.
Proof. unfold live_socks. by rewrite List.filter_app, map_app. Qed.
Lemma live_socks_cons e es : live_socks (e :: es) = (if live_entry e then [e_sock e] else []) ++ live_socks es.
Proof. unfold live_socks. cbn [List.filter]. by destruct (live_entry e). Qed.

Definition entry_ok (e : entry) : Prop := match e_state e with None => True | Some s => local s end.

Section laws.
Context {W : Type} `{SysLaws W} (garbage : bytes) (env_path portEnv : option bytes) (Hg : length garbage = 64%nat).

(** [base] is what was open before; the program's descriptors come on top. *)
Record pinv (base : gset Z) (p : prog) (w : W) : Prop := {
  pi_opened : opened w = base ∪ list_to_set (prog_socks p);
  pi_distinct : NoDup (prog_socks p);
  pi_fresh : Forall (fun s => s ∉ base) (prog_socks p);
  pi_local : Forall entry_ok (prog_entries p);
}.

Lemma exec_entry_effect a e (w : W) e' w' : entry_ok e -> exec_entry a e w = Some (e', w') ->
  entry_ok e' /\ e_sock e' = e_sock e /\ (live_entry e' = true -> live_entry e = true)
  /\ opened w' = (if live_entry e && negb (live_entry e') then opened w ∖ {[ e_sock e ]} else opened w).
Proof.
  destruct e as [s u [st|]]; unfold entry_ok, exec_entry, live_entry; cbn [e_state e_sock e_user]; intros Hok Hx.
  - destruct (exec s a st w) as [[st' w1]|] eqn:E; [|done]. injection Hx as <- <-. cbn [e_state e_sock].
    destruct (step_effect s _ _ _ _ Hok (step_exec s a _ _ _ E)) as [Hl Hop Hli _ _]. by split_and!.
  - unfold open_session in Hx. destruct (now_run 0 w) as (t & w1 & E1 & (_ & _ & Ho1) & _ & _).
    destruct (now_run 0 w1) as (t2 & w2 & E2 & (_ & _ & Ho2) & _ & Ht2).
    rewrite (ibind_run _ _ _ _ _ E1), (ibind_run _ _ _ _ _ E2) in Hx. injection Hx as <- <-. cbn [e_state e_sock].
    split_and!; [by apply start_local|done|done|]. cbn. congruence.
Qed.

Lemma main_inv base p (w : W) p' w' : exec_prog garbage env_path portEnv p w = Some (p', w') -> pinv base p w -> pinv base p' w'.
Proof.
  intros Hx [Hop Hnd Hfr Hlo]. destruct p as [|srv es|code]; cbn [exec_prog prog_socks prog_entries] in *; [| |done].
  - destruct (server_listen_spec (main_port portEnv) w) as (ok & srv & w1 & _ & _ & E & Hok & _). rewrite E in Hx.
    rewrite list_to_set_nil, (right_id_L ∅ (∪)) in Hop. destruct ok; injection Hx as <- <-.
    + destruct Hok as [Hs Ho]. split; cbn [prog_socks prog_entries live_socks List.filter map].
      * rewrite Ho, Hop. by rewrite list_to_set_cons, list_to_set_nil, (right_id_L ∅ (∪)), (union_comm_L base).
      * apply NoDup_singleton.
      * constructor; [by rewrite <- Hop|constructor].
      * constructor.
    + destruct Hok as [_ Ho]. split; cbn [prog_socks prog_entries]; [|constructor..]. rewrite list_to_set_nil, (right_id_L ∅ (∪)). congruence.
  - destruct (server_accept_spec garbage env_path srv [] w Hg) as (s & u & w1 & E & Hs). rewrite E in Hx.
    destruct (s =? HWS_INVALID_SOCKET); injection Hx as <- <-; [split; cbn [prog_socks prog_entries]; congruence|].
    destruct Hs as (Hs & Ho & _). split; cbn [prog_socks prog_entries]; rewrite ?live_socks_app.
    + rewrite Ho, Hop. apply leibniz_equiv. intros x. cbn [live_socks List.filter live_entry e_state map e_sock].
      rewrite !elem_of_union, !elem_of_list_to_set, !elem_of_cons, elem_of_app, elem_of_cons, elem_of_nil, elem_of_singleton. tauto.
    + cbn [live_socks List.filter live_entry e_state map e_sock]. rewrite app_comm_cons. apply NoDup_app. split_and!; [done| |apply NoDup_singleton].
      intros x Hx ->%list_elem_of_singleton. apply Hs. rewrite Hop. by apply elem_of_union_r, elem_of_list_to_set.
    + rewrite app_comm_cons. apply Forall_app; split; [done|]. constructor; [|constructor]. cbn [e_sock]. intros Hb. apply Hs. rewrite Hop. by apply elem_of_union_l.
    + apply Forall_app; split; [done|]. by constructor.
Qed.

Lemma entry_inv base srv es i a e (w : W) e' w' : es !! i = Some e -> exec_entry a e w = Some (e', w') ->
  pinv base (PServe srv es) w -> pinv base (PServe srv (<[i := e']> es)) w'.
Proof.
  intros Ei E [Hop Hnd Hfr Hlo]. cbn [prog_socks prog_entries] in *.
  pose proof (Forall_lookup_1 _ _ _ _ Hlo Ei) as He.
  destruct (exec_entry_effect a e w e' w' He E) as (He' & Hs & Hli & Ho).
  assert (Forall entry_ok (<[i:=e']> es)) as Hlo' by (by apply Forall_insert).
  pose proof (lookup_lt_Some _ _ _ Ei) as Hlt. rewrite (insert_take_drop _ _ _ Hlt) in *.
  rewrite <- (take_drop_middle _ _ _ Ei) in Hop, Hnd, Hfr. revert Hlo' Hop Hnd Hfr.
  generalize (take i es) as l1, (drop (S i) es) as l2. intros l1 l2 Hlo' Hop Hnd Hfr.
  split; cbn [prog_socks prog_entries]; try done; rewrite live_socks_app, live_socks_cons, Hs in *.
  1: { rewrite Ho, Hop. destruct (live_entry e) eqn:Hle, (live_entry e') eqn:Hle'; cbn [andb negb app]; try done; [|by specialize (Hli eq_refl)].
    cbn [app] in Hnd, Hfr. apply leibniz_equiv. intros x.
    rewrite elem_of_difference, !elem_of_union, !elem_of_list_to_set, !elem_of_cons, !elem_of_app, elem_of_cons, elem_of_singleton.
    assert (x = e_sock e -> (x ∉ base) /\ x <> listenSock srv /\ (x ∉ live_socks l1) /\ (x ∉ live_socks l2)) as Hx; [|tauto].
    intros ->. rewrite Forall_cons, Forall_app in Hfr. destruct Hfr as (_ & _ & Hfr). apply Forall_cons_1 in Hfr as [Hb _].
    apply NoDup_cons in Hnd as [Hl Hnd]. rewrite !elem_of_app, elem_of_cons in Hl. apply NoDup_app in Hnd as (_ & H1 & H2).
    apply NoDup_cons in H2 as [H2 _]. split_and!; [done|intros E1; rewrite <- E1 in Hl; tauto| |done].
    intros Hin. apply (H1 _ Hin). apply elem_of_cons. by left. }
  all: destruct (live_entry e) eqn:Hle, (live_entry e') eqn:Hle'; cbn [app] in *; try done; try by specialize (Hli eq_refl).
  - rewrite app_comm_cons in Hnd |- *. apply NoDup_app in Hnd as (H1 & H2 & H3). apply NoDup_cons in H3 as [_ H3]. apply NoDup_app.
    split_and!; [done| |done]. intros x Hx Hx'. apply (H2 x Hx). apply elem_of_cons. by right.
  - rewrite app_comm_cons in Hfr |- *. apply Forall_app in Hfr as [H1 H2]. apply Forall_cons_1 in H2 as [_ H2]. by apply Forall_app.
Qed.

Lemma pstep_inv base p (w : W) p' w' : pstep garbage env_path portEnv (p, w) (p', w') -> pinv base p w -> pinv base p' w'.
Proof.
  intros Hst Hi. inversion Hst as [a ? ? ? Hx]; subst. destruct a as [|i a]; [by eapply main_inv|].
  destruct p as [|srv es|code]; cbn [pexec] in Hx; [done| |done]. destruct (es !! i) as [e|] eqn:Ei; [|done].
  destruct (exec_entry a e w) as [[e' w1]|] eqn:E; [|done]. injection Hx as <- <-. by eapply entry_inv.
Qed.

Lemma boot_inv (w : W) p w' : rtc (pstep garbage env_path portEnv) (PBoot, w) (p, w') -> pinv (opened w) p w'.
Proof.
  intros Hr. assert (forall c c', rtc (pstep garbage env_path portEnv) c c' -> pinv (opened w) c.1 c.2 -> pinv (opened w) c'.1 c'.2) as Hinv.
  { induction 1 as [c|[p0 w0] [p1 w1] c' Hst _ IH]; [done|]. intros Hi. apply IH. by eapply pstep_inv. }
  apply (Hinv _ _ Hr). split; cbn [fst snd prog_socks prog_entries]; [|constructor..]. by rewrite list_to_set_nil, (right_id_L ∅ (∪)).
Qed.
End laws.

(** ** Property *)

(** C16: no descriptor leaks.  Under every interleaving of the accept loop with
    the threads of any number of sessions, the open descriptors are those from
    before the program, the listening socket, and one for each session that
    has not yet closed its own; these are all different.  When [main] returns
    because listening failed, the descriptors are as before. *)
Theorem server_descriptors {W} `{SysLaws W} garbage env_path portEnv (w : W) p w' :
  length garbage = 64%nat -> rtc (pstep garbage env_path portEnv) (PBoot, w) (p, w') ->
  opened w' = opened w ∪ list_to_set (prog_socks p) /\ NoDup (prog_socks p) /\ Forall (fun s => s ∉ opened w) (prog_socks p)
  /\ Forall entry_ok (prog_entries p).
Proof.
  intros Hg Hr. destruct (boot_inv garbage env_path portEnv Hg w p w' Hr) as [H1 H2 H3 H4]. by split_and!.
Qed.

Fixpoint prun {W} `{Sys W} garbage env_path portEnv (as_ : list pactor) (c : prog * W) : option (prog * W) :=
  match as_ with
  | [] => Some c
  | a :: as_ => c' ← pexec garbage env_path portEnv a c.1 c.2; prun garbage env_path portEnv as_ c'
  end.

Lemma prun_steps {W} `{Sys W} garbage env_path portEnv as_ (c c' : prog * W) :
  prun garbage env_path portEnv as_ c = Some c' -> rtc (pstep garbage env_path portEnv) c c'.
Proof.
  revert c. induction as_ as [|a as_ IH]; intros [p w]; cbn [prun fst snd]; [intros [= ->]; apply rtc_refl|].
  destruct (pexec _ _ _ a p w) as [c1|] eqn:E; [|done]. intros Hr. eapply rtc_l; [by eapply pstep_exec|]. by apply IH.
Qed.

(** A server that has accepted one connection and begun its session. *)
Definition knock : tape silent := tape_of (ws_request (str "/ws") (str "h") 1 (str "k") (str "u")) 200.

Lemma server_descriptors_witness : exists p (w : tape silent), prog_socks p = [8; 9] /\ opened w = opened knock ∪ list_to_set (prog_socks p).
Proof.
  assert (option_map (fun c => prog_socks c.1) (prun (replicate 64 0) None None [PMain; PMain; PSession 0 Main; PSession 0 Main] (PBoot, knock))
    = Some [8; 9]) as Hs by (vm_compute; reflexivity).
  destruct (prun _ _ _ _ (PBoot, knock)) as [[p w]|] eqn:E; [|discriminate Hs]. apply prun_steps in E.
  exists p, w. split; [by injection Hs|]. exact (proj1 (server_descriptors (replicate 64 0) None None knock p w eq_refl E)).
Defined.
