(* ===== verification/Hearing.v ===== *)
(** * What a receive loop hears

    The input side of the threads: which messages a thread that calls
    [wsRecvFrame] step by step (Endpoint.v) has been handed, as a function of
    the bytes that arrived.  [assembled] cuts the frames read so far into
    messages, [heard] relates them to the input of the connection. *)

From stdpp Require Import gmap relations.
From S2P Require Import Prelude ByteIO Message Codec Socket WsFrame WsReceive Endpoint.

(** The contents of the messages that the frames make up, one after the other. *)
Inductive assembled (em : bool) : list bytes -> list wsframe -> Prop :=
  | as_nil : assembled em [] []
  | as_snoc ps gs fs frag acc pings f p :
      assembled em ps gs -> collects em false [] fs frag acc pings -> completes em frag acc f p ->
      assembled em (ps ++ [p]) (gs ++ fs ++ [f]).

Lemma collects_app em a x fs b y p1 gs c z p2 : collects em a x fs b y p1 -> collects em b y gs c z p2 ->
  collects em a x (fs ++ gs) c z (p1 ++ p2).
Proof. induction 1; intros Hg; cbn [app]; [done|apply c_ping|apply c_pong|apply c_first|apply c_next]; auto. Qed.

Lemma wires_app fs gs : wires (fs ++ gs) = wires fs ++ wires gs.
Proof. unfold wires. by rewrite map_app, concat_app. Qed.
Lemma wires_one f : wires [f] = wire f.
Proof. apply app_nil_r. Qed.

(** ** The frames of a stream are determined *)

Lemma be_bytes_inj k v v' : 0 <= v < 2 ^ (8 * Z.of_nat k) -> 0 <= v' < 2 ^ (8 * Z.of_nat k) -> be_bytes k v = be_bytes k v' -> v = v'.
Proof. intros Hv Hv' E. apply (f_equal be_value) in E. rewrite !be_value_be_bytes in E. by rewrite !Z.mod_small in E by done. Qed.

Lemma body_wire_inj key key' p p' x y : has_key key = has_key key' -> key_ok key -> key_ok key' -> is_bytes p -> is_bytes p' -> length p = length p' ->
  body_wire key p ++ x = body_wire key' p' ++ y -> key = key' /\ p = p' /\ x = y.
Proof.
  intros Hk Hok Hok' Hp Hp' Hl. destruct key as [key|], key' as [key'|]; try done; cbn [body_wire].
  - destruct Hok as [Hl1 Hb1], Hok' as [Hl2 Hb2]. rewrite <- !app_assoc. intros [-> E]%app_inj_1; [|congruence].
    apply app_inj_1 in E as [Hm ->]; [|by rewrite !length_apply_mask]. apply (f_equal (apply_mask key')) in Hm. by rewrite !apply_mask_twice in Hm by done.
  - by intros [-> ->]%app_inj_1.
Qed.

Lemma wire_inj f g x y : frame_ok f -> frame_ok g -> wire f ++ x = wire g ++ y -> f = g /\ x = y.
Proof.
  intros [Hop Hfo Hk Hb] [Hop' Hfo' Hk' Hb'] E. destruct f as [fin op form key p], g as [fin' op' form' key' p'].
  cbn [w_fin w_op w_form w_key w_body] in *. unfold wire in E. cbn [w_fin w_op w_form w_key w_body app] in E. injection E as E0 E1 E2. rewrite <- !app_assoc in E2.
  assert (fin = fin' /\ op = op') as [-> ->] by (destruct fin, fin'; lia).
  assert (has_key key = has_key key' /\ form = form') as [Ekey <-].
  { destruct form, form', (has_key key), (has_key key'); cbn in *; try (split; (done || lia)); exfalso; lia. }
  assert (length p = length p' /\ body_wire key p ++ x = body_wire key' p' ++ y) as [El Eb].
  { rewrite Ekey in E1. destruct form; cbn [form_code form_ext form_fits app] in *; [split; [lia|done]|..].
    all: apply app_inj_1 in E2 as [Ee ->]; [|by rewrite !length_be_bytes]; apply be_bytes_inj in Ee; [split; [lia|done]|..]; split; (lia || (change (8 * Z.of_nat 2) with 16; change (8 * Z.of_nat 8) with 64; lia)). }
  by destruct (body_wire_inj _ _ _ _ _ _ Ekey Hk Hk' Hb Hb' El Eb) as (-> & -> & ->).
Qed.

Lemma wires_prefix gs ds : Forall frame_ok gs -> Forall frame_ok ds -> wires gs `prefix_of` wires ds -> gs `prefix_of` ds.
Proof.
  intros Hg. revert ds. induction Hg as [|g gs Hg _ IH]; intros ds Hd [x E]; [by eexists|].
  unfold wires in E. cbn [map concat] in E. rewrite <- app_assoc in E. destruct Hd as [|d ds Hd Hds]; [by unfold wire in E|]. cbn [map concat] in E.
  apply wire_inj in E as [-> E]; [|done..]. apply prefix_cons, IH; [done|]. by exists x.
Qed.

Lemma collects_ok em a x fs b y pings : collects em a x fs b y pings -> Forall frame_ok fs.
Proof. induction 1; constructor; try done; match goal with H : acceptable _ _ _ |- _ => apply H end. Qed.

Lemma assembled_ok em ps gs : assembled em ps gs -> Forall frame_ok gs.
Proof.
  induction 1 as [|ps gs fs frag acc pings f p _ IH Hc Hf]; [constructor|]. apply Forall_app. split; [done|]. apply Forall_app.
  split; [by eapply collects_ok|]. apply Forall_singleton. apply Hf.
Qed.

(** Messages in one frame each. *)
Definition whole_frame (f : wsframe) : Prop := w_fin f = true /\ w_op f = 2.

Lemma assembled_whole em ps gs : assembled em ps gs -> Forall whole_frame gs -> ps = map w_body gs.
Proof.
  induction 1 as [|ps gs fs frag acc pings f p _ IH Hc Hf]; [done|]. rewrite !Forall_app, Forall_singleton. intros (Hg & Hfs & Hw).
  assert (fs = [] /\ frag = false) as [-> ->].
  { inversion Hc as [| ? ? ? ? ? ? ? ? Ho| ? ? ? ? ? ? ? ? Ho|? ? ? ? ? ? ? ? Hfin|]; subst; [done|..]; apply Forall_cons_1 in Hfs as [[? ?] _]; congruence. }
  destruct Hf as (_ & _ & _ & ->). by rewrite map_app, IH.
Qed.

(** The content of a message's frame. *)
Definition content (m : Message) : bytes := frame_bytes (type m) 0 (payload_wire m).

(** Sent messages are a stream of such frames. *)
Lemma carried_frames em outs fs : Forall2 (carries em) outs fs ->
  exists ds, concat fs = wires ds /\ Forall frame_ok ds /\ Forall whole_frame ds /\ map w_body ds = map content outs.
Proof.
  induction 1 as [|m f outs fs (Hm & Hl & key & _ & Hk & ->) _ (ds & E & Hds & Hwh & Hb)]; [by exists []|].
  exists (data_frame key (content m) :: ds). cbn [map concat]. rewrite E, Hb.
  split_and!; [done| |by constructor|done]. constructor; [|done]. split; cbn [data_frame w_op w_form w_key w_body]; try done.
  - apply shortest_fits. unfold content. rewrite length_frame_bytes. lia.
  - by apply frame_bytes_bytes.
Qed.

(** The messages of a stream are determined by it. *)
Lemma carried_unique em ms fs ms' fs' : Forall2 (carries em) ms fs -> Forall2 (carries em) ms' fs' -> concat fs = concat fs' ->
  map content ms = map content ms'.
Proof.
  intros (ds & E & Hds & _ & <-)%carried_frames (ds' & E' & Hds' & _ & <-)%carried_frames Heq. f_equal.
  apply (anti_symm prefix); apply wires_prefix; try done; by rewrite <- E, <- E', Heq.
Qed.

(** What a receiver has heard of a stream of whole messages are the first of
    them. *)
Lemma assembled_sent em ps gs outs fs : assembled em ps gs -> Forall2 (carries em) outs fs -> wires gs `prefix_of` concat fs ->
  ps `prefix_of` map content outs.
Proof.
  intros Ha (ds & Efs & Hds & Hwh & <-)%carried_frames Hw. rewrite Efs in Hw. apply wires_prefix in Hw as [ds' ->]; [|by eapply assembled_ok|done]. apply Forall_app in Hwh as [Hwh _].
  rewrite (assembled_whole _ _ _ Ha Hwh), map_app. by eexists.
Qed.

(** Where the receive loop is between two messages: the frames of the message
    under way, if [wsRecvFrame] is reading one. *)
Definition under_assembly (em : bool) (r : option receiving) (fs : list wsframe) : Prop :=
  match r with
  | None => fs = []
  | Some (RFrame m frag) => exists pings, collects em false [] fs frag (payload m) pings
  | Some (RReply _ _ _) => True
  end.

Section hearing.
Context {W : Type} `{SysLaws W} (sock : Z) (em : bool).

(** [now] is [before] and what the peer sent on top in answer to output: nothing,
    if it does not answer output. *)
Definition grown (before now : bytes) : Prop := before `prefix_of` now /\ (quiet_peer W -> now = before).

#[global] Instance grown_preorder : PreOrder grown.
Proof. split; [done|]. intros x y z [? Hq] [? Hq']. split; [by etrans|]. intros Hp. by rewrite Hq', Hq. Qed.

(** All that has arrived since the input was [in0]: the messages [ps] and the
    frames [fs] at its front are read, the rest is what the connection still
    delivers. *)
Definition hears (in0 : bytes) (ps : list bytes) (fs : list wsframe) (w : W) : Prop :=
  exists gs, assembled em ps gs /\ grown in0 (wires gs ++ wires fs ++ incoming sock w).

(** The messages [ps] are at the front of what arrived. *)
Definition heard (in0 : bytes) (ps : list bytes) : Prop :=
  exists gs total, assembled em ps gs /\ grown in0 total /\ wires gs `prefix_of` total.

Lemma hears_heard in0 ps fs w : hears in0 ps fs w -> heard in0 ps.
Proof. intros (gs & Ha & Hp). eexists gs, _. split_and!; [done|exact Hp|]. by eexists. Qed.

Lemma heard_last in0 ps p : heard in0 (ps ++ [p]) -> heard in0 ps.
Proof.
  intros (gs & total & Ha & Hg & Hw). inversion Ha as [Hnil|ps' gs' fs frag acc pings f p' Ha' _ _ Eq]; [by destruct ps|].
  apply app_inj_tail in Eq as [-> _]. subst gs. exists gs', total. split_and!; [done|done|].
  etrans; [|exact Hw]. rewrite wires_app. by eexists.
Qed.

Lemma hears_more in0 ps fs w w' : hears in0 ps fs w -> grown (incoming sock w) (incoming sock w') -> hears in0 ps fs w'.
Proof.
  intros (gs & Ha & Hp) [Hin Hq]. exists gs. split; [done|]. etrans; [exact Hp|]. split; [by do 2 apply prefix_app|].
  intros Hp'. by rewrite Hq.
Qed.

(** A step of a call of [sendFrame] reads nothing. *)
Lemma job_step_grown (build : bytes -> io W bytes) masked `{!Builder build masked} says active j l w l' x w' : job_ok masked says j ->
  job_step sock build active l j w = (Ok (Some (l', x)), w') -> grown (incoming sock w) (incoming sock w').
Proof.
  intros Hj E. destruct (job_step_run sock build masked says active l j w Hj) as (o & w1 & E1 & Ho).
  rewrite E1 in E. injection E as -> ->. destruct Ho as [|? ? ? ? ? ? ? Hin| | |? t t' ? ? ? ? ? (_ & _ & _ & Hin)|? t ? ? ? ? (_ & _ & _ & Hin)|]; rewrite ?Hin; try done.
  all: split; [done|]; intros Hq; cbn [job_step] in E1; destruct (negb _); [by simplify_eq|]; pose proof (send_once_quiet sock buf t w Hq) as Hin';
    unfold ibind in E1; destruct (send_once sock buf t w) as [[[]|e|] w2]; try done; unfold iret in E1; by simplify_eq.
Qed.

(** What one step of [wsRecvFrame] that sends nothing reads. *)
Inductive recv_hears (m : WSFrame) (frag : bool) (w : W) : receiving + WSFrame -> W -> Prop :=
  | rh_more f m' frag' w' : incoming sock w = wire f ++ incoming sock w' ->
      collects em frag (payload m) [f] frag' (payload m') [] -> recv_hears m frag w (inl (RFrame m' frag')) w'
  | rh_reply buf k w' : recv_hears m frag w (inl (RReply buf 0 k)) w'
  | rh_done f r w' : incoming sock w = wire f ++ incoming sock w' -> isValid r = true -> isClose r = false ->
      completes em frag (payload m) f (payload r) -> recv_hears m frag w (inr r) w'
  | rh_fail r w' : isValid r = false -> recv_hears m frag w (inr r) w'.

Lemma begin_reply_hears op p k m frag (w w1 : W) : 0 <= op < 16 -> zlen p <= 125 ->
  exists x w', begin_reply em op p k w1 = (Ok x, w') /\ recv_hears m frag w x w'.
Proof.
  intros Ho Hp. unfold begin_reply. destruct (control_out_run sock op p (negb em) w1 Ho Hp) as (key & w2 & E & _).
  rewrite (ibind_run _ _ _ _ _ E). eexists _, w2. split; [done|constructor].
Qed.

Lemma recv_step_hears m frag (w : W) x w' : so_far m -> recv_step sock em (RFrame m frag) w = (Ok x, w') -> recv_hears m frag w x w'.
Proof.
  intros (Hv & Hc & Hb & Hl) E. cbn [recv_step] in E.
  destruct (recv_one_total sock em (zlen (payload m)) w) as (o & w1 & E1 & _ & HO); [lia|].
  rewrite (ibind_run _ _ _ _ _ E1) in E. destruct o as [[[fin op] p]|]; [|injection E as <- <-; by apply rh_fail].
  destruct HO as (f & Hacc & Hfin & Hop & Hp & Hin). pose proof Hacc as [[Hop16 _ _ _] _ _ _]. rewrite Hop in Hop16.
  destruct (Z.eqb_spec op 8) as [->|_]; [|destruct (Z.eqb_spec op 9) as [->|_]; [|destruct (Z.eqb_spec op 10) as [->|_]]].
  - destruct (acceptable_control _ _ _ Hacc ltac:(lia)) as [Hpl _]. rewrite Hp in Hpl.
    edestruct (begin_reply_hears 8 p) as (x' & w2 & E' & Hx); [lia|done|]. rewrite E' in E. by injection E as <- <-.
  - destruct (acceptable_control _ _ _ Hacc ltac:(lia)) as [Hpl _]. rewrite Hp in Hpl.
    edestruct (begin_reply_hears 10 p) as (x' & w2 & E' & Hx); [lia|done|]. rewrite E' in E. by injection E as <- <-.
  - injection E as <- <-. apply (rh_more _ _ _ f); [done|]. by apply c_pong; [|done|constructor].
  - destruct (Z.eqb_spec op 2) as [->|_]; [destruct frag|]; cbn [andb negb] in E.
    + injection E as <- <-. by apply rh_fail.
    + destruct fin; injection E as <- <-.
      * apply (rh_done _ _ _ f); [done|by ws_fields|by ws_fields|]. split_and!; [done|done|done|]. ws_fields. by rewrite Hp.
      * apply (rh_more _ _ _ f); [done|]. apply c_first; [done..|]. ws_fields. rewrite Hp. constructor.
    + destruct (Z.eqb_spec op 0) as [->|_]; [destruct frag|]; cbn [andb] in E; try (injection E as <- <-; by apply rh_fail).
      destruct fin; injection E as <- <-.
      * apply (rh_done _ _ _ f); [done|by ws_fields|by ws_fields|]. split_and!; [done|done|done|]. ws_fields. by rewrite Hp.
      * apply (rh_more _ _ _ f); [done|]. apply c_next; [done..|]. ws_fields. rewrite Hp. constructor.
Qed.

(** The messages heard grow by the one that [wsRecvFrame] returns. *)
Lemma hears_step in0 ps fs m frag w x w' pings : hears in0 ps fs w -> collects em false [] fs frag (payload m) pings ->
  recv_hears m frag w x w' ->
  match x with
  | inl r => exists fs', under_assembly em (Some r) fs' /\ (replying r = false -> hears in0 ps fs' w')
  | inr r => if isValid r then isClose r = false /\ hears in0 (ps ++ [payload r]) [] w' else True
  end.
Proof.
  intros (gs & Ha & Hp) Hc Hx. destruct Hx as [f m' frag' w' Hin Hf|buf k w'|f r w' Hin Hv Hcl Hf|r w' Hv].
  - exists (fs ++ [f]). split; [eexists; by eapply collects_app|]. intros _. exists gs. split; [done|].
    by rewrite wires_app, wires_one, <- app_assoc, <- Hin.
  - exists []. by split.
  - rewrite Hv. split; [done|]. exists (gs ++ fs ++ [f]). split; [by eapply as_snoc|].
    cbn [wires map concat app]. by rewrite !wires_app, wires_one, <- !app_assoc, <- Hin.
  - by rewrite Hv.
Qed.
End hearing.

(** ** The CLOSE frames of wsSendClose *)

Definition close_frame (reason : bytes) : wsframe :=
  {| w_fin := true; w_op := 8; w_form := if zlen reason <? 126 then Len7 else Len16; w_key := None; w_body := reason |}.

(** [wsSendClose] puts an RFC 6455 frame on the connection as long as the reason
    is shorter than 65536 bytes; but only up to 125 bytes is it a frame a
    receiver accepts, beyond that no acceptable frame is at the front of what
    arrives. *)
Theorem wsSendClose_limit {W} `{SysLaws W} s reason (w : W) :
  is_bytes reason -> zlen reason < 2 ^ 16 -> zlen reason + 4 <= room s w ->
  exists w', wsSendClose s reason w = (Ok true, w') /\ sent s (wire (close_frame reason)) w w'
    /\ (acceptable false 0 (close_frame reason) <-> zlen reason <= 125)
    /\ (125 < zlen reason -> forall f rest, acceptable false 0 f -> wire f `prefix_of` wire (close_frame reason) ++ rest -> False).
Proof.
  intros Hb Hl Hroom. assert (frame_ok (close_frame reason)) as Hok.
  { split; cbn [close_frame w_op w_form w_key w_body]; try done. destruct (Z.ltb_spec (zlen reason) 126); cbn; lia. }
  assert (acceptable false 0 (close_frame reason) <-> zlen reason <= 125) as Hacc.
  { split; [intros [_ _ Hc _]; by apply Hc|]. intros Hs. split; [done|done|by intros _|]. cbn [close_frame w_body]. unfold MAX_MESSAGE_SIZE. lia. }
  assert ([0x88] ++ (if bool_decide (reason = []) then [0]
     else (if zlen reason <? 126 then [u8 (zlen reason)] else [126; u8 ((zlen reason .>> 8) .& 0xFF); u8 (zlen reason .& 0xFF)]) ++ reason) = wire (close_frame reason)) as Hw.
  { unfold wire, close_frame. cbn [w_fin w_op w_form w_key w_body has_key body_wire]. case_bool_decide as Hr; [by rewrite Hr|].
    destruct (Z.ltb_spec (zlen reason) 126); cbn [form_code form_ext app]; [by rewrite u8_small by solve_width|].
    cbn [be_bytes]. rewrite !land_255. change (8 * Z.of_nat 1) with 8. change (8 * Z.of_nat 0) with 0. rewrite Z.shiftr_0_r. by rewrite !(u8_small (u8 _)) by apply u8_range. }
  assert (zlen (wire (close_frame reason)) <= zlen reason + 4) as Hwl.
  { rewrite length_wire by done. cbn [close_frame w_form w_key w_body has_key]. destruct (_ <? _); cbn [form_ext length]; rewrite ?length_be_bytes; lia. }
  destruct (sendAll_ok s (wire (close_frame reason)) w) as (w' & E & Hsent); [lia..|].
  exists w'. unfold wsSendClose. rewrite Hw. split_and!; [done|done|done|].
  intros Hlong f rest Hf [x E']. rewrite <- app_nil_r in E'. rewrite <- !app_assoc in E'. symmetry in E'. apply wire_inj in E' as [-> _]; [|apply Hf|done].
  apply Hacc in Hf. lia.
Qed.
