(* ===== verification/Dialogue.v ===== *)
(** * The dialogue of a receive loop

    What the server's [handleClient] and the client's [tryConnect] have in
    common: a loop that receives a message, answers it through [sendFrame] and
    goes on, while other threads send messages of their own on the same
    connection.  The state of the dialogue is a [phase] of the loop, and
    [conversing] relates the messages heard, the answers due and the messages
    sent.  The threads of both programs keep it (ServerTalk.v, ClientTalk.v). *)

From stdpp Require Import gmap relations.
From S2P Require Import Prelude ByteIO Message Codec Socket WsFrame WsReceive Endpoint Hearing.

(** Where the loop is: at its top, in [wsRecvFrame], with a frame in hand, in
    [sendFrame] with an answer, about to clear the flag, past the loop. *)
Inductive phase :=
  | Top | Receiving (r : receiving) | Holding (f : WSFrame) | Answering (j : job) (stop : bool) | Stopping | Over.

(** A frame that carries a message, as opposed to a failure or a CLOSE. *)
Definition carrying (f : WSFrame) : bool := isValid f && negb (isClose f).

(** What a plan says, whether it ends the loop, and where it leads. *)
Definition plan_says (p : plan) : list Message := match p with Reply m _ => [m] | _ => [] end.
Definition plan_stop (p : plan) : bool := match p with Leave => false | Quiet stop | Reply _ stop => stop end.
Definition turn (stop : bool) : phase := if stop then Stopping else Top.
Definition plan_phase (p : plan) : phase :=
  match p with
  | Leave => Over
  | Quiet stop => turn stop
  | Reply m stop => Answering (JLock (frame_bytes (type m) 0 (payload_wire m))) stop
  end.

(** The messages that are answers, as opposed to those of the other threads. *)
Definition answers_in (aside : Message -> Prop) `{!forall m, Decision (aside m)} (ms : list Message) : list Message :=
  List.filter (fun m => negb (bool_decide (aside m))) ms.

Lemma cleared (a b : bool) : (b = true -> a = true) -> a = false -> b = false.
Proof. destruct a, b; naive_solver. Qed.

Section dialogue.
Context {W : Type} `{SysLaws W} (sock : Z) (em masked : bool).
Context (allowed aside : Message -> Prop) `{!forall m, Decision (aside m)} (ends : bytes -> bool).

Lemma answers_aside ms m : aside m -> answers_in aside (ms ++ [m]) = answers_in aside ms.
Proof. intros Hm. unfold answers_in. rewrite List.filter_app. cbn [List.filter]. rewrite bool_decide_eq_true_2 by done. apply app_nil_r. Qed.
Lemma answers_snoc ms m : ~ aside m -> answers_in aside (ms ++ [m]) = answers_in aside ms ++ [m].
Proof. intros Hm. unfold answers_in. rewrite List.filter_app. cbn [List.filter]. by rewrite bool_decide_eq_false_2. Qed.

(** The connection takes nothing more, and no frame is under way. *)
Definition jammed (hs : list job) (w : W) : Prop := room sock w = 0 /\ concat (map job_part hs) = [].

(** The requests [ps] served so far are the messages heard, up to the one in
    hand. *)
Definition listens (in0 : bytes) (ps : list bytes) (ph : phase) (w : W) : Prop :=
  match ph with
  | Top | Answering _ _ | Stopping => hears sock em in0 ps [] w
  | Receiving (RFrame m frag) => exists fs pings, collects em false [] fs frag (payload m) pings /\ hears sock em in0 ps fs w
  | Receiving (RReply _ _ _) | Over => heard (W := W) em in0 ps
  | Holding f => if carrying f then hears sock em in0 (ps ++ [payload f]) [] w else heard (W := W) em in0 ps
  end.

(** The answers [rs] due so far are out, except the one under way, and except
    what an ended session drops. *)
Definition answers (outs rs : list Message) (ph : phase) (act : bool) (hs : list job) (w : W) : Prop :=
  let out := answers_in aside outs in
  match ph with
  | Answering (JUnlock true) _ => out = rs
  | Answering (JUnlock false) _ => out `prefix_of` rs /\ (jammed hs w \/ act = false)
  | Answering j _ => exists r, job_ok masked (eq r) j /\ ~ aside r /\ allowed r
      /\ (rs = out ++ [r] \/ out `prefix_of` rs /\ jammed hs w)
  | Receiving _ | Holding _ => out = rs \/ out `prefix_of` rs /\ jammed hs w
  | _ => out = rs \/ out `prefix_of` rs /\ (jammed hs w \/ act = false)
  end.

(** A request that ends the session is the last one. *)
Definition goes_on (ps : list bytes) (ph : phase) (act : bool) : Prop :=
  Forall (fun p => ends p = false) ps
  \/ exists qs p, ps = qs ++ [p] /\ Forall (fun p => ends p = false) qs
     /\ match ph with
        | Answering _ stop => stop = true
        | Stopping => True
        | Receiving _ | Holding _ => False
        | _ => act = false
        end.

Record conversing (in0 out0 : bytes) (ps : list bytes) (rs outs : list Message) (ph : phase) (act : bool) (hs : list job) (w : W) : Prop := {
  cv_hears : listens in0 ps ph w;
  cv_answers : answers outs rs ph act hs w;
  cv_goes_on : goes_on ps ph act;
  cv_stream : stream sock masked allowed outs out0 hs w;
}.

Context (in0 out0 : bytes).

Lemma conversing_start (w : W) act : conversing (incoming sock w) (outgoing sock w) [] [] [] Top act [] w.
Proof. split; [|by left|by left|apply stream_start]. exists []. split; [constructor|done]. Qed.

(** ** The other threads *)

Lemma listens_more ps ph w w' : grown (incoming sock w) (incoming sock w') -> listens in0 ps ph w -> listens in0 ps ph w'.
Proof.
  intros Hg. destruct ph as [|[]|f| | |]; cbn [listens]; try done; try (intros Hh; by eapply hears_more).
  - intros (fs & pings & Hc & Hh). exists fs, pings. split; [done|]. by eapply hears_more.
  - destruct (carrying f); [|done]. intros Hh. by eapply hears_more.
Qed.

Lemma answers_keep outs outs' rs ph (act act' : bool) hs hs' w w' : (act' = true -> act = true) -> (jammed hs w -> jammed hs' w') ->
  answers_in aside outs' = answers_in aside outs -> answers outs rs ph act hs w -> answers outs' rs ph act' hs' w'.
Proof.
  intros Ha Hj Ho. pose proof (cleared _ _ Ha) as Hf.
  unfold answers. cbv zeta. rewrite Ho. repeat case_match; try tauto; intros (r & ? & ? & ? & ?); exists r; tauto.
Qed.

Lemma goes_on_keep ps ph (act act' : bool) : (act' = true -> act = true) -> goes_on ps ph act -> goes_on ps ph act'.
Proof.
  intros Ha [Hg|(qs & p & -> & Hq & Hpc)]; [by left|right]. exists qs, p. split_and!; [done|done|].
  pose proof (cleared _ _ Ha) as Hf. by destruct ph; auto.
Qed.

(** A step that sends nothing. *)
Lemma conversing_quiet ps rs outs ph (act act' : bool) hs hs' w w' : conversing in0 out0 ps rs outs ph act hs w ->
  (act' = true -> act = true) -> outgoing sock w' = outgoing sock w -> room sock w' <= room sock w ->
  grown (incoming sock w) (incoming sock w') -> concat (map job_part hs') = concat (map job_part hs) ->
  conversing in0 out0 ps rs outs ph act' hs' w'.
Proof.
  intros [Hh Han Hgo Hst] Ha Ho Hr Hin Hp. split.
  - by eapply listens_more.
  - eapply answers_keep; [..|exact Han]; try done. pose proof (room_nonneg sock w'). intros [? ?]. split; [lia|congruence].
  - by eapply goes_on_keep.
  - by eapply stream_quiet.
Qed.

Section builder.
Context (build : bytes -> io W bytes) `{!Builder build masked}.

(** A step of [sendFrame] with a message that is no answer. *)
Lemma conversing_aside (says : Message -> Prop) ps rs outs ph act b l j w l' x w' : (forall m, says m -> aside m /\ allowed m) -> job_ok masked says j ->
  job_step sock build b l j w = (Ok (Some (l', x)), w') -> conversing in0 out0 ps rs outs ph act (held j) w ->
  exists outs', conversing in0 out0 ps rs outs' ph act (held_after x) w'.
Proof.
  intros Hsub Hj E [Hh Han Hgo Hst]. pose proof (job_step_grown sock _ _ _ _ _ _ _ _ _ _ Hj E) as Hin.
  destruct (job_step_run sock build masked says b l j w Hj) as (o & w1 & E1 & Ho). rewrite E in E1. injection E1 as <- <-.
  pose proof (stream_job sock masked allowed says _ _ _ _ _ _ _ _ _ (fun m h => proj2 (Hsub m h)) Hj Hst Ho) as Hs'.
  destruct (job_moves_room _ _ _ _ _ _ _ _ _ Ho) as [Hr Hpart]. pose proof (room_nonneg sock w') as Hr0.
  assert (exists outs', stream sock masked allowed outs' out0 (held_after x) w' /\ answers_in aside outs' = answers_in aside outs) as (outs' & Hs & Hao).
  { destruct (completed x); [|by exists outs]. destruct Hs' as (_ & m & Hm & Hs'). exists (outs ++ [m]). split; [done|]. by apply answers_aside, Hsub. }
  exists outs'. split; [by eapply listens_more| |done|done].
  eapply answers_keep; [..|exact Han]; try done. intros [? ?]. split; [lia|auto].
Qed.

(** ** The loop itself *)

(** A step of the answer under way. *)
Lemma conversing_send says ps rs outs act b l j stop w l' x w' : job_ok masked says j ->
  job_step sock build b l j w = (Ok (Some (l', x)), w') -> act = b -> conversing in0 out0 ps rs outs (Answering j stop) act (held j) w ->
  exists outs', conversing in0 out0 ps rs outs' (match x with inl j' => Answering j' stop | inr _ => turn stop end) act (held_after x) w'.
Proof.
  intros Hok E -> [Hh Han Hgo Hst]. pose proof (job_step_grown sock _ _ _ _ _ _ _ _ _ _ Hok E) as Hin.
  destruct (job_step_run sock build masked says b l j w Hok) as (o & w1 & E1 & Ho). rewrite E in E1. injection E1 as <- <-. clear E.
  destruct (job_moves_room _ _ _ _ _ _ _ _ _ Ho) as [Hr Hpart]. pose proof (room_nonneg sock w') as Hr0.
  apply (listens_more _ _ _ _ Hin) in Hh. destruct x as [j'|ok]; cbn [held_after] in *.
  - assert (exists r, job_ok masked (eq r) j /\ ~ aside r /\ allowed r
      /\ (rs = answers_in aside outs ++ [r] \/ answers_in aside outs `prefix_of` rs /\ jammed (held j) w)) as (r & Hj & Hnt & Hss & Hrs).
    { destruct j as [| | |ok]; [done..|]. inversion Ho. }
    pose proof (stream_job sock masked allowed _ _ _ _ _ _ _ _ _ _ (fun m (h : r = m) => eq_ind r allowed Hss m h) Hj Hst Ho) as Hs'.
    destruct (job_moves_ok _ _ _ _ _ _ _ _ _ _ Ho Hj) as [_ Hj'].
    assert (answers_in aside outs `prefix_of` rs) as Hpre by (destruct Hrs as [->|[? _]]; [by eexists|done]).
    destruct (completed (inl j')) eqn:Hcp.
    + destruct j' as [| | |[]]; try done. destruct Hs' as (Hne & m & <- & Hs'). exists (outs ++ [r]).
      split; [done| |done|done]. cbn [answers]. rewrite answers_snoc by done.
      destruct Hrs as [->|(_ & _ & Hp)]; [done|]. exfalso. destruct j; try done. cbn in Hp. by rewrite app_nil_r in Hp.
    + exists outs. split; [done| |done|done].
      assert (jammed (held j) w -> jammed (held j') w') as Hjam by (intros [Hz Hp]; split; [lia|auto]).
      assert (exists r, job_ok masked (eq r) j' /\ ~ aside r /\ allowed r
        /\ (rs = answers_in aside outs ++ [r] \/ answers_in aside outs `prefix_of` rs /\ jammed (held j') w')) as Hkeep.
      { exists r. split_and!; [done..|]. destruct Hrs as [?|[? ?]]; auto. }
      destruct j' as [| | |ok]; [by apply Hkeep..|]. destruct ok; [done|]. split; [done|].
      inversion Ho; subst; [by right|left]. split; [lia|done].
  - assert (j = JUnlock ok /\ w' = w) as [-> ->] by (by inversion Ho). exists outs. split.
    + by destruct stop.
    + assert (answers_in aside outs = rs \/ answers_in aside outs `prefix_of` rs /\ (jammed [] w \/ b = false)) as Ha'.
      { cbn [answers] in Han. destruct ok; [by left|right]. destruct Han as [? [[? _]|?]]; (split; [done|]); [left|by right]. by split. }
      by destruct stop.
    + destruct Hgo as [?|(qs & p & -> & Hq & Hs)]; [by left|right]. cbn in Hs. subst stop. by exists qs, p.
    + by eapply stream_quiet; [exact Hst|done|lia|].
Qed.
End builder.

(** A step of [wsRecvFrame] that sends nothing: the message it completes is the
    one in hand. *)
Lemma conversing_recv ps rs outs act hs m frag w x w' : so_far m -> recv_step sock em (RFrame m frag) w = (Ok x, w') ->
  conversing in0 out0 ps rs outs (Receiving (RFrame m frag)) act hs w ->
  conversing in0 out0 ps rs outs (match x with inl r => Receiving r | inr f => Holding f end) act hs w'.
Proof.
  intros Hm E [(fs & pings & Hc & Hh) Han Hgo Hst].
  destruct (recv_step_run sock em (RFrame m frag) w Hm) as (x' & w1 & E' & [_ Hr _ Ho _]). specialize (Ho eq_refl). rewrite E in E'. injection E' as <- <-.
  pose proof (hears_step sock em _ _ _ _ _ _ _ _ _ Hh Hc (recv_step_hears sock em m frag w x w' Hm E)) as Hstep. apply hears_heard in Hh.
  split; [| | |by eapply stream_quiet].
  - destruct x as [r|f]; cbn [listens].
    + destruct r as [m1 frag1|]; [|done]. destruct Hstep as (fs' & [pings' Ha] & Hh'). exists fs', pings'. split; [done|]. by apply Hh'.
    + unfold carrying. destruct (isValid f); cbn [andb]; [|done]. by destruct Hstep as [-> Hh'].
  - pose proof (room_nonneg sock w'). assert (jammed hs w -> jammed hs w') as Hj by (intros [? ?]; split; [lia|done]).
    destruct x; cbn [answers] in *; tauto.
  - left. by destruct Hgo as [?|(? & ? & ? & ? & [])].
Qed.

(** A frame that carries no message ends the loop. *)
Lemma conversing_leave ps rs outs act hs f w : carrying f = false -> conversing in0 out0 ps rs outs (Holding f) act hs w ->
  conversing in0 out0 ps rs outs Over act hs w.
Proof.
  intros Hf [Hh Han Hgo Hst]. cbn [listens] in Hh. rewrite Hf in Hh. split; [done| |left; by destruct Hgo as [?|(? & ? & ? & ? & [])]|done].
  cbn [answers] in *. tauto.
Qed.

(** A message is served: its content is the next request, what the plan says
    is the next answer due. *)
Lemma conversing_serve ps rs outs act hs f w p w' : carrying f = true -> p <> Leave -> plan_stop p = ends (payload f) ->
  (forall r, r ∈ plan_says p -> ~ aside r /\ allowed r /\ message_ok r /\ zlen (payload_wire r) < 2 ^ 30) ->
  untouched sock w w' -> incoming sock w' = incoming sock w ->
  conversing in0 out0 ps rs outs (Holding f) act hs w -> conversing in0 out0 (ps ++ [payload f]) (rs ++ plan_says p) outs (plan_phase p) act hs w'.
Proof.
  intros Hf Hne Hstop Hsays (Ho & Hr & _) Hin [Hh Han Hgo Hst]. cbn [listens answers] in Hh, Han. rewrite Hf in Hh.
  apply (hears_more _ _ _ _ _ _ w') in Hh; [|by rewrite Hin]. destruct Hgo as [Hgo|(? & ? & ? & ? & [])].
  assert (jammed hs w -> jammed hs w') as Hj by (intros [? ?]; split; [lia|done]).
  split; [by destruct p as [|[]|]| | |eapply stream_quiet; [exact Hst|done|lia|done]].
  - destruct p as [|stop|r stop]; [done| |]; cbn [plan_says plan_phase] in *.
    + rewrite app_nil_r. assert (answers_in aside outs = rs \/ answers_in aside outs `prefix_of` rs /\ (jammed hs w' \/ act = false)) as Ha' by tauto.
      by destruct stop.
    + destruct (Hsays r) as (Hr1 & Hr2 & Hr3 & Hr4); [by apply list_elem_of_singleton|]. exists r. split_and!; [exists r; split_and!; (done || lia)|done|done|].
      destruct Han as [->|[Hpre Hjam]]; [by left|right]. split; [by apply prefix_app_r|auto].
  - destruct (ends (payload f)) eqn:Hend.
    + right. exists ps, (payload f). split_and!; [done|done|]. by destruct p as [|[]|? []].
    + left. apply Forall_app. split; [done|]. by apply Forall_singleton.
Qed.

(** The top of the loop. *)
Lemma conversing_top ps rs outs (act : bool) hs w : conversing in0 out0 ps rs outs Top act hs w ->
  conversing in0 out0 ps rs outs (if act then Receiving (RFrame new_WSFrame false) else Over) act hs w.
Proof.
  intros [Hh Han Hgo Hst]. cbn [listens answers] in *. destruct act; (split; [| | |done]); cbn [listens answers].
  - exists [], []. split; [constructor|done].
  - destruct Han as [?|[? [?|?]]]; (done || tauto).
  - left. by destruct Hgo as [?|(? & ? & ? & ? & ?)].
  - by eapply hears_heard.
  - tauto.
  - destruct Hgo as [?|(qs & p & ? & ? & ?)]; [by left|right]. by exists qs, p.
Qed.

(** The flag is cleared. *)
Lemma conversing_stop ps rs outs act hs w : conversing in0 out0 ps rs outs Stopping act hs w -> conversing in0 out0 ps rs outs Top false hs w.
Proof.
  intros [Hh Han Hgo Hst]. cbn [listens answers] in *. split; [done| | |done]; cbn [answers].
  - tauto.
  - destruct Hgo as [?|(qs & p & ? & ? & ?)]; [by left|right]. by exists qs, p.
Qed.

(** Past the loop only the flag matters. *)
Lemma conversing_over ps rs outs act hs hs' w w' : outgoing sock w' = outgoing sock w -> room sock w' <= room sock w ->
  concat (map job_part hs') = concat (map job_part hs) ->
  conversing in0 out0 ps rs outs Over act hs w -> conversing in0 out0 ps rs outs Over false hs' w'.
Proof.
  intros Ho Hr Hp [Hh Han Hgo Hst]. cbn [listens answers] in *. split; [done| | |by eapply stream_quiet]; cbn [answers].
  - tauto.
  - destruct Hgo as [?|(qs & p & ? & ? & ?)]; [by left|right]. by exists qs, p.
Qed.

(** ** What it says *)

Lemma conversing_heard ps rs outs ph act hs w : conversing in0 out0 ps rs outs ph act hs w -> heard (W := W) em in0 ps.
Proof.
  intros [Hh _ _ _]. destruct ph as [|[]|f| | |]; cbn [listens] in Hh; try done; try by eapply hears_heard.
  - destruct Hh as (fs & pings & _ & Hh). by eapply hears_heard.
  - destruct (carrying f); [|done]. by eapply heard_last, hears_heard.
Qed.

Lemma conversing_prefix ps rs outs ph act hs w : conversing in0 out0 ps rs outs ph act hs w -> answers_in aside outs `prefix_of` rs.
Proof.
  intros [_ Ha _ _]. destruct ph as [| | |[| | |[]] ?| |]; cbn [answers] in Ha; try (by destruct Ha as [->|[? _]]); try (by rewrite Ha); try by destruct Ha.
  all: destruct Ha as (r & _ & _ & _ & [->|[? _]]); [by eexists|done].
Qed.

Lemma conversing_before ps rs outs ph act hs w : conversing in0 out0 ps rs outs ph act hs w -> Forall (fun p => ends p = false) (removelast ps).
Proof.
  intros [_ _ [Hg|(qs & p & -> & Hq & _)] _]; [|by rewrite removelast_last]. destruct ps as [|p ps _] using rev_ind; [constructor|].
  rewrite removelast_last. by apply Forall_app in Hg as [? _].
Qed.

Lemma conversing_at_top ps rs outs hs w : conversing in0 out0 ps rs outs Top true hs w ->
  hears sock em in0 ps [] w /\ Forall (fun p => ends p = false) ps /\ (0 < room sock w -> answers_in aside outs = rs).
Proof.
  intros [Hh Han Hgo _]. cbn [listens answers] in *. split_and!; [done| |].
  - by destruct Hgo as [?|(? & ? & _ & _ & ?)].
  - intros Hr. destruct Han as [?|[_ [[? _]|?]]]; [done|lia|done].
Qed.
End dialogue.
