(* ===== verification/ServerTalk.v ===== *)
(** * The conversation of a session (server/ws_server.cpp: handleClient)

    What a session says as a function of what it hears, for every interleaving
    of its five threads: the requests it serves are the messages at the front of
    its input, the answers it sends are the ones of the contract (Server.v), in
    the order of the requests, with only timer messages in between. *)

From stdpp Require Import gmap relations.
From S2P Require Import Prelude ByteIO Message Codec HashBlocks Sha256 Socket WsFrame WsReceive Server Endpoint ServerThreads ServerRuns Hearing Dialogue.

(** ** The contract for a sequence of requests *)

(** The answer to the content [p] of a message, by a session that knows the
    language [lang], at time [now]. *)
Definition answer_to (now : Z) (lang p : bytes) : list Message :=
  match decodeMessage p (zlen p) with
  | Ok m => match reply_to now lang m with Some r => [r] | None => [] end
  | Throw e => [decode_report e]
  | Stuck => []
  end.

Definition lang_after (lang p : bytes) : bytes :=
  match decodeMessage p (zlen p) with
  | Ok m => if type m =? MSG_HELLO then clientLanguage m else lang
  | _ => lang
  end.

(** DISCONNECT, and what does not decode, unless the type is just unknown. *)
Definition ends_session (p : bytes) : bool :=
  match decodeMessage p (zlen p) with
  | Ok m => type m =? MSG_DISCONNECT
  | Throw e => negb (starts_with (str "unknown message type") e)
  | Stuck => false
  end.

(** The answers to a sequence of requests, and the language afterwards. *)
Inductive serves (lang0 : bytes) : list bytes -> list Message -> bytes -> Prop :=
  | sv_nil : serves lang0 [] [] lang0
  | sv_snoc ps rs lang p now : serves lang0 ps rs lang ->
      serves lang0 (ps ++ [p]) (rs ++ answer_to now lang p) (lang_after lang p).

(** ** A plan is the contract *)

(** In the dialogue, storing the PONG time is a quiet turn. *)
Definition plan_of (d : deed) : plan := match d with Do p => p | Renew _ => Quiet false end.

Section contract.
Context {W : Type} `{SysLaws W} (sock : Z).

Lemma plan_message_contract st m (w : W) : exists now d st' w', plan_message m (st, w) = (Ok d, (st', w'))
  /\ plan_of d <> Leave /\ plan_says (plan_of d) = match reply_to now (clientLang st) m with Some r => [r] | None => [] end
  /\ clientLang st' = (if type m =? MSG_HELLO then clientLanguage m else clientLang st)
  /\ plan_stop (plan_of d) = (type m =? MSG_DISCONNECT).
Proof.
  destruct (now_run sock w) as (t & w1 & Et & _). exists t. rewrite reply_to_code. unfold plan_message.
  destruct (Z.eqb_spec (type m) MSG_HELLO) as [->|N1]; [by eexists _, _, w|].
  destruct (Z.eqb_spec (type m) MSG_ECHO_REQUEST) as [E|N2].
  { rewrite (now_bind _ _ _ _ _ Et), get_run. eexists _, _, w1. by rewrite E. }
  destruct (Z.eqb_spec (type m) MSG_RANDOM_NUMBER) as [E|N3].
  { rewrite E. cbn [Z.eqb Pos.eqb MSG_RANDOM_NUMBER MSG_KISS_RESPONSE MSG_PONG MSG_DISCONNECT].
    rewrite hashNumber_spec, ibind_lift. by eexists _, _, w. }
  destruct (Z.eqb_spec (type m) MSG_KISS_RESPONSE) as [->|N4]; [by eexists _, _, w|].
  destruct (Z.eqb_spec (type m) MSG_PONG) as [->|N5].
  { rewrite (now_bind _ _ _ _ _ Et). by eexists _, _, w1. }
  destruct (Z.eqb_spec (type m) MSG_DISCONNECT) as [->|N6]; [by eexists _, _, w|].
  destruct (Z.eqb_spec (type m) MSG_ERROR) as [->|N7]; [by eexists _, _, w|].
  rewrite bool_decide_eq_false_2 by (by rewrite !elem_of_cons, elem_of_nil; tauto). by eexists _, _, w.
Qed.

Lemma plan_frame_contract st f (w : W) d st' w' : frame_in_hand f -> plan_frame f (st, w) = (Ok d, (st', w')) ->
  if carrying f then
    plan_of d <> Leave /\ plan_stop (plan_of d) = ends_session (payload f) /\ clientLang st' = lang_after (clientLang st) (payload f)
    /\ exists now, plan_says (plan_of d) = answer_to now (clientLang st) (payload f)
  else d = Do Leave /\ st' = st.
Proof.
  intros Hf E. unfold plan_frame, carrying in *. destruct (isValid f) eqn:Hv; cbn [negb orb andb] in *; [|by injection E as <- <- <-].
  destruct (isClose f); cbn [negb]; [by injection E as <- <- <-|]. destruct (Hf Hv) as [Hb Hl]. unfold ends_session, lang_after, answer_to.
  destruct (decodeMessage _ _) as [m|e|] eqn:Hd; [| |by destruct (decode_never_stuck _ Hb Hl)].
  - destruct (plan_message_contract st m w) as (now & p' & st1 & w1 & E1 & Hne & Hsay & Hlang & Hstop). rewrite E1 in E. injection E as <- <- <-.
    split_and!; try done. by exists now.
  - injection E as <- <- <-. split_and!; try done.
Qed.
End contract.

(** ** The threads *)

Lemma not_timer_check m : bool_decide (timer_says m) = false -> ~ timer_says m.
Proof. apply bool_decide_eq_false_1. Qed.

Lemma answer_to_answers now lang p m : m ∈ answer_to now lang p -> ~ timer_says m.
Proof.
  unfold answer_to. destruct (decodeMessage _ _) as [msg|e|]; [|intros ->%list_elem_of_singleton; by apply not_timer_check|by intros ?%elem_of_nil].
  destruct (reply_to now lang msg) as [r|] eqn:Hr; [|by intros ?%elem_of_nil]. intros ->%list_elem_of_singleton.
  unfold reply_to in Hr. repeat (case_match; try done); injection Hr as <-; by apply not_timer_check.
Qed.

(** Where the receive thread is in its loop. *)
Definition phase_of (m : mpc) : phase :=
  match m with
  | MLoop | MStore _ => Top | MRecv r => Receiving r | MServe f => Holding f | MSend j stop => Answering j stop | MStop => Stopping | _ => Over
  end.

Section talk.
Context {W : Type} `{SysLaws W} (sock : Z).

(** Steps in which [wsRecvFrame] sends no reply and the socket is not shut down. *)
Inductive talk : relation (sess * W) :=
  | talk_exec a s w c : exec sock a s w = Some c -> (a = Main -> answering (c_main s) = false) ->
      (forall k, a = Bg k -> c_bg s k <> TShut) -> talk (s, w) c.

(** The dialogue of a session: binary frames out, masked frames in. *)
Definition talking (in0 out0 : bytes) (ps : list bytes) (rs outs : list Message) (s : sess) (w : W) : Prop :=
  serves (str "unknown") ps rs (clientLang (c_vars s))
  /\ conversing sock true false server_says timer_says ends_session in0 out0 ps rs outs (phase_of (c_main s)) (active (c_vars s)) (holders s) w.

Lemma talk_bg in0 out0 ps rs outs k s w s' w' : local s -> exec_bg sock k s w = Some (s', w') -> c_bg s k <> TShut ->
  talking in0 out0 ps rs outs s w -> exists outs', talking in0 out0 ps rs outs' s' w'.
Proof.
  intros Hl Hx Hns [Hsv Hcv]. pose proof (loc_bg s Hl k) as Hb. pose proof (loc_lock s Hl) as Hlen. destruct s as [st l m pcs]. cbn [c_bg c_lock c_main c_vars] in *.
  destruct (holders_bg st l m pcs k) as (pre & post & Hp & Hp'). rewrite Hp in Hlen, Hcv.
  assert (forall (st' : session) l' pc w1, (s', w') = (Sess st' l' m (set_pc k pc pcs), w1) -> clientLang st' = clientLang st ->
    (active st' = true -> active st = true) -> held_bg pc = held_bg (pcs k) ->
    outgoing sock w1 = outgoing sock w -> room sock w1 <= room sock w -> grown (incoming sock w) (incoming sock w1) ->
    exists outs', talking in0 out0 ps rs outs' s' w') as Hq.
  { intros st' l' pc w1 [= -> ->] Hla Ha Hpc Ho Hr Hin. exists outs. split; cbn [c_vars c_main]; [by rewrite Hla|].
    eapply conversing_quiet; [exact Hcv|done..|]. by rewrite Hp', Hpc. }
  cbn [exec_bg] in Hx. destruct (pcs k) as [| | | |now|pong|j| | |] eqn:Hpc; cbn [bg_ok held_bg] in *.
  - injection Hx as <- <-. by eapply Hq; try done; destruct (active st).
  - injection Hx as <- <-. by eapply Hq.
  - injection Hx as <- <-. by eapply Hq; try done; destruct (active st).
  - destruct (bg_act_run sock k st w) as (pc & w1 & E & _ & Hheld & (Ho & Hr & _) & Hin & _). rewrite E in Hx. injection Hx as <- <-.
    eapply Hq; try done; [lia|by rewrite Hin].
  - injection Hx as <- <-. eapply Hq; try done. apply held_verdict.
  - pose proof (now_law sock w) as L. destruct (sys_now w) as [t w1]. destruct L as ((Ho & Hr & _) & Hin & _). injection Hx as <- <-.
    eapply Hq; try done; [apply held_verdict|lia|by rewrite Hin].
  - destruct (job_step_run sock binary_frame false _ (active st) l j w Hb) as (o & w1 & E & Ho). rewrite E in Hx.
    destruct o as [[l1 x]|]; [|done]. destruct (holders_move _ _ _ _ _ _ _ _ _ _ _ Ho Hlen) as (-> & -> & _). cbn [app] in *. rewrite app_nil_r in Hcv.
    destruct (conversing_aside sock true false server_says timer_says ends_session _ _ binary_frame timer_says _ _ _ _ _ _ _ _ _ _ _ _
      (fun m h => conj h (timer_server m h)) Hb E Hcv) as (outs' & Hcv').
    assert (exists pc, (s', w') = (Sess st l1 m (set_pc k pc pcs), w1) /\ held_bg pc = held_after x) as (pc & [= -> ->] & Hpc').
    { destruct x as [j'|ok]; injection Hx as <- <-; eexists; (split; [done|]); [done|by destruct ok]. }
    exists outs'. split; [done|]. by rewrite Hp', Hpc', app_nil_r.
  - injection Hx as <- <-. by eapply Hq; try done; destruct k.
  - done.
  - done.
Qed.

(** A frame is served: its content is the next request, its answer the next one
    due. *)
Lemma talk_serve in0 out0 ps rs outs st l f pcs w s' w' : local (Sess st l (MServe f) pcs) ->
  exec_main sock (Sess st l (MServe f) pcs) w = Some (s', w') -> talking in0 out0 ps rs outs (Sess st l (MServe f) pcs) w ->
  exists ps' rs', talking in0 out0 ps' rs' outs s' w'.
Proof.
  intros Hl Hx [Hsv Hcv]. pose proof (loc_main _ Hl) as Hm. pose proof (loc_vars _ Hl) as Hv. cbn [c_main c_vars main_ok exec_main phase_of] in *.
  destruct (plan_frame_run sock st f w Hv Hm) as (d & st1 & w1 & E & _ & Ha & Hu & Hin & Hp). rewrite E in Hx.
  pose proof (plan_frame_contract sock st f w d st1 w1 Hm E) as Hc. clear E. destruct (carrying f) eqn:Hf; cycle 1.
  { destruct Hc as [-> ->]. injection Hx as <- <-. exists ps, rs. split; [done|]. apply conversing_leave in Hcv; [|done].
    destruct Hu as (Ho & Hr & _). eapply conversing_quiet; [exact Hcv|done|done|lia|by rewrite Hin|done]. }
  destruct Hc as (Hne & Hstop & Hlang & now & Hsay). exists (ps ++ [payload f]), (rs ++ plan_says (plan_of d)).
  assert (forall r, r ∈ plan_says (plan_of d) -> ~ timer_says r /\ server_says r /\ message_ok r /\ zlen (payload_wire r) < 2 ^ 30) as Hr.
  { intros r Hr. split; [rewrite Hsay in Hr; by eapply answer_to_answers|].
    destruct d as [[| |m stop]|]; cbn [plan_of plan_says] in Hr; try by apply elem_of_nil in Hr. apply list_elem_of_singleton in Hr as ->. done. }
  pose proof (conversing_serve sock true false server_says timer_says ends_session _ _ _ _ _ _ _ _ _ _ _ Hf Hne Hstop Hr Hu Hin Hcv) as Hcv'.
  assert (serves (str "unknown") (ps ++ [payload f]) (rs ++ plan_says (plan_of d)) (clientLang st1)) as Hsv' by (rewrite Hlang, Hsay; by apply sv_snoc).
  assert (exists m', (s', w') = (Sess st1 l m' pcs, w1) /\ phase_of m' = plan_phase (plan_of d) /\ held_main m' = []) as (m' & [= -> ->] & Hph & Hheld).
  { destruct d as [[|stop|r stop]|t]; [done|injection Hx as <- <-; eexists; split; [done|]; by destruct stop| |injection Hx as <- <-; by eexists].
    destruct (Hr r) as (_ & _ & Hok & _); [by apply list_elem_of_singleton|]. rewrite encode_frame in Hx by done. injection Hx as <- <-. by eexists. }
  split; [done|]. cbn [c_main c_vars]. rewrite Hph. eapply conversing_quiet; [exact Hcv'|by rewrite Ha|done|done|done|].
  unfold holders. cbn [c_main c_bg]. by rewrite Hheld.
Qed.

(** A step of the receive thread. *)
Lemma talk_main in0 out0 ps rs outs s w s' w' : local s -> exec_main sock s w = Some (s', w') -> answering (c_main s) = false ->
  talking in0 out0 ps rs outs s w -> exists ps' rs' outs', talking in0 out0 ps' rs' outs' s' w'.
Proof.
  intros Hl Hx Han Htk. pose proof (loc_main _ Hl) as Hm. pose proof (loc_lock _ Hl) as Hlen. pose proof (loc_cleanup _ Hl) as Hcl.
  destruct s as [st l m pcs]. pose proof Htk as [Hsv Hcv]. unfold holders in Hlen, Hcv. cbn [c_main c_vars c_lock c_bg main_ok closing] in *.
  destruct m as [|[m frag|buf t k]|f|t|j stop| | | | |]; cbn [exec_main phase_of held_main app] in *; try done.
  - injection Hx as <- <-. exists ps, rs, outs. split; [done|]. apply conversing_top in Hcv. cbn [c_main c_vars]. by destruct (active st).
  - destruct (recv_step_run sock true (RFrame m frag) w Hm) as (x & w1 & E & _). rewrite E in Hx.
    eapply (conversing_recv sock true false) in Hcv; [|done|exact E]. exists ps, rs, outs. by destruct x; injection Hx as <- <-.
  - destruct (talk_serve _ _ _ _ _ _ _ _ _ _ _ _ Hl Hx Htk) as (ps' & rs' & Htk'). eauto.
  - injection Hx as <- <-. by exists ps, rs, outs.
  - destruct (job_step_run sock binary_frame false _ (active st) l j w Hm) as (o & w1 & E & Ho). rewrite E in Hx.
    destruct o as [[l1 x]|]; [|done]. destruct (holders_move _ _ [] _ _ _ _ _ _ _ _ Ho Hlen) as (_ & Hpost & _). rewrite Hpost, app_nil_r in Hcv.
    destruct (conversing_send sock true false server_says timer_says ends_session _ _ binary_frame server_says _ _ _ _ _ _ _ _ _ _ _ _ Hm E eq_refl Hcv) as (outs' & Hcv').
    exists ps, rs, outs'. destruct x as [j'|ok]; injection Hx as <- <-; (split; [done|]); unfold holders; cbn [c_main c_vars c_bg held_main]; rewrite Hpost, app_nil_r; [done|].
    by destruct stop.
  - injection Hx as <- <-. exists ps, rs, outs. split; [done|]. by eapply conversing_stop.
  - injection Hx as <- <-. exists ps, rs, outs. split; [done|]. by eapply conversing_over.
  - injection Hx as <- <-. exists ps, rs, outs. split; [done|]. rewrite (Hcl I) in Hcv. cbn [c_vars c_main]. rewrite (Hcl I). eapply conversing_over; [..|exact Hcv]; [apply close_silent| |done].
    rewrite (room_closed sock (sys_close sock w)); [apply room_nonneg|].
    rewrite close_law. intros [_ Hn]%elem_of_difference. by apply Hn, elem_of_singleton.
  - destruct (forallb _ _); [|done]. injection Hx as <- <-. by exists ps, rs, outs.
Qed.

Lemma talk_step c c' : talk c c' -> step sock c c'.
Proof. intros [a s w c0 Hx _ _]. by eapply step_exec. Qed.

Lemma talk_talking in0 out0 s w s' w' : local s -> talk (s, w) (s', w') -> (exists ps rs outs, talking in0 out0 ps rs outs s w) ->
  exists ps rs outs, talking in0 out0 ps rs outs s' w'.
Proof.
  intros Hl Hst (ps & rs & outs & Htk). inversion Hst as [a ? ? ? Hx Hm Hb]; subst. destruct a as [|k].
  - eapply talk_main; [exact Hl|exact Hx|by apply Hm|exact Htk].
  - destruct (talk_bg _ _ _ _ _ _ _ _ _ _ Hl Hx (Hb k eq_refl) Htk) as (outs' & Htk'). eauto.
Qed.

Lemma talks in0 out0 c c' : rtc talk c c' -> local c.1 -> (exists ps rs outs, talking in0 out0 ps rs outs c.1 c.2) ->
  local c'.1 /\ exists ps rs outs, talking in0 out0 ps rs outs c'.1 c'.2.
Proof.
  induction 1 as [|[s0 w0] [s1 w1] c' Hst _ IH]; [done|]. intros Hl Htk. apply IH.
  - by destruct (step_effect _ _ _ _ _ Hl (talk_step _ _ Hst)).
  - by eapply talk_talking.
Qed.

(** A run from the start. *)
Lemma talk_reachable now w s w' : is_i64 now -> rtc talk (start now, w) (s, w') ->
  local s /\ exists ps rs outs, talking (incoming sock w) (outgoing sock w) ps rs outs s w'.
Proof.
  intros Hn Hr. apply (talks (incoming sock w) (outgoing sock w) _ _ Hr (start_local now Hn)).
  exists [], [], []. split; [constructor|apply conversing_start].
Qed.

(** The output of a session. *)
Lemma talking_out in0 out0 ps rs outs s w : local s -> talking in0 out0 ps rs outs s w ->
  exists p, Forall message_ok outs /\ Forall2 (carries false) outs (map message_wire outs)
    /\ outgoing sock w = out0 ++ concat (map message_wire outs) ++ p /\ partial false server_says p
    /\ (c_lock s = false -> 0 < room sock w -> p = []).
Proof.
  intros Hl [_ Hcv]. pose proof (loc_lock s Hl) as Hlen.
  destruct (stream_out _ _ _ _ _ _ _ (cv_stream _ _ _ _ _ _ _ _ _ _ _ _ _ _ _ Hcv)) as (fs & p & HF & Ho & Hp & Hfree); [destruct (c_lock s); lia|by apply holders_ok|].
  destruct (carries_messages _ _ HF) as [Hok ->]. exists p. split_and!; try done. intros Hlock. apply Hfree. rewrite Hlock in Hlen. by apply nil_length_inv.
Qed.
(** The conversation of a session in the state [s], whose connection had the
    input [in0] and the output [out0] when it began. *)
Definition conversation (in0 out0 : bytes) (s : sess) (w : W) : Prop :=
  exists ps rs outs p,
    heard (W := W) true in0 ps
    /\ serves (str "unknown") ps rs (clientLang (c_vars s))
    /\ outgoing sock w = out0 ++ concat (map message_wire outs) ++ p
    /\ partial false server_says p
    /\ answers_in timer_says outs `prefix_of` rs
    /\ Forall (fun q => ends_session q = false) (removelast ps)
    /\ (c_main s = MLoop -> active (c_vars s) = true ->
        hears sock true in0 ps [] w /\ Forall (fun q => ends_session q = false) ps
        /\ (0 < room sock w -> answers_in timer_says outs = rs)).

Lemma talking_conversation in0 out0 ps rs outs s w : local s -> talking in0 out0 ps rs outs s w -> conversation in0 out0 s w.
Proof.
  intros Hl Htk. destruct (talking_out _ _ _ _ _ _ _ Hl Htk) as (p & _ & _ & Ho & Hp & _). destruct Htk as [Hsv Hcv].
  exists ps, rs, outs, p. split_and!; try done.
  - by eapply conversing_heard.
  - by eapply conversing_prefix.
  - by eapply conversing_before.
  - intros Hm Ha. rewrite Hm, Ha in Hcv. by eapply conversing_at_top.
Qed.
End talk.

(** ** The property *)

(** C5: the conversation of a session.  Under every interleaving of the five
    threads in which [wsRecvFrame] answers no control frame and the session does
    not time out: the requests served are the messages at the front of the
    input, each a sequence of acceptable frames, in order; what the session has
    sent are whole frames and at most a beginning of one more; leaving the
    messages of the timers aside, the messages sent are the answers that the
    contract gives to those requests, in the order of the requests, none twice
    and none left out before another; only the last request can be one that
    ends the session.  And whenever an active session is back at the top of its
    loop, the input it has not served is all still there, and if the connection
    takes output, every request has been answered. *)
Theorem session_conversation {W} `{SysLaws W} sock now (w : W) s w' :
  is_i64 now -> rtc (talk sock) (start now, w) (s, w') ->
  conversation sock (incoming sock w) (outgoing sock w) s w'.
Proof.
  intros Hn Hr. destruct (talk_reachable sock now w s w' Hn Hr) as (Hl & ps & rs & outs & Htk). by eapply talking_conversation.
Qed.

(** Runs of the executable scheduler that stay within [talk]. *)
Fixpoint talk_run {W} `{Sys W} (sock : Z) (as_ : list actor) (c : sess * W) : option (sess * W) :=
  match as_ with
  | [] => Some c
  | a :: as_ =>
      if match a with Main => answering (c_main c.1) | Bg k => match c_bg c.1 k with TShut => true | _ => false end end then None
      else c' ← exec sock a c.1 c.2; talk_run sock as_ c'
  end.

Lemma talk_run_talks {W} `{Sys W} sock as_ (c c' : sess * W) : talk_run sock as_ c = Some c' -> rtc (talk sock) c c'.
Proof.
  revert c. induction as_ as [|a as_ IH]; intros [s w]; cbn [talk_run fst snd]; [intros [= ->]; apply rtc_refl|].
  destruct (match a with Main => _ | Bg _ => _ end) eqn:Hside; [done|]. destruct (exec sock a s w) as [c1|] eqn:E; [|done].
  intros Hr. eapply rtc_l; [|by apply IH]. eapply talk_exec; [exact E|by intros ->|]. intros k -> Hk. by rewrite Hk in Hside.
Qed.

(** A client that says HELLO, in two fragments, and then asks for a hash; the
    PING timer fires in between. *)
Definition talk_hello : bytes := frame_bytes MSG_HELLO 0 (payload_wire ((new_message MSG_HELLO) <| clientLanguage := str "Go" |>)).
Definition talk_random : bytes := frame_bytes MSG_RANDOM_NUMBER 0 (payload_wire ((new_message MSG_RANDOM_NUMBER) <| randomNumber := 7 |>)).
Definition talk_tape : tape silent :=
  tape_of (wires [demo_frame false 2 (take 5 talk_hello); demo_frame true 0 (drop 5 talk_hello); demo_frame true 2 talk_random]) 300.
Definition talk_schedule : list actor := replicate 14 Main ++ replicate 17 (Bg Ping) ++ replicate 18 Main.

Lemma session_conversation_witness : exists s (w : tape silent), c_main s = MLoop /\ active (c_vars s) = true
  /\ clientLang (c_vars s) = str "Go" /\ length (outgoing 7 w) = 67%nat
  /\ conversation 7 (incoming 7 talk_tape) (outgoing 7 talk_tape) s w.
Proof.
  assert (option_map (fun c => (c_main c.1, active (c_vars c.1), clientLang (c_vars c.1), length (outgoing 7 c.2)))
    (talk_run 7 talk_schedule (start 5, talk_tape)) = Some (MLoop, true, str "Go", 67%nat)) as Hv by (vm_compute; reflexivity).
  destruct (talk_run 7 talk_schedule (start 5, talk_tape)) as [[s w]|] eqn:E; [|discriminate Hv]. cbn [option_map fst snd] in Hv.
  injection Hv as Hm Ha Hla Ho. exists s, w. split; [exact Hm|]. split; [exact Ha|]. split; [exact Hla|]. split; [exact Ho|].
  apply (session_conversation 7 5 talk_tape s w); [vm_compute; split; congruence|by apply (talk_run_talks 7 talk_schedule)].
Defined.
