(* ===== verification/Net.v ===== *)
(** * Many connections (the operating system, continued)

    [SysLaws] says what a call does to its own connection.  [SysLocal] adds what
    it does to the others: nothing.  [net] is a concrete world with any number
    of connections that satisfies both; like POSIX it hands out the lowest
    free descriptor, so a number is used again once it is closed. *)

From stdpp Require Import gmap.
From S2P Require Import Prelude Random Socket.

(** The connection [t] is as it was. *)
Definition same `{Sys W} (t : Z) (w w' : W) : Prop :=
  incoming t w' = incoming t w /\ outgoing t w' = outgoing t w /\ room t w' = room t w.

Class SysLocal (W : Type) `{Sys W} : Prop := {
  recv_local s n t (w : W) : t <> s -> same t w (sys_recv s n w).2;
  send_local s bs t (w : W) : t <> s -> same t w (sys_send s bs w).2;
  close_local s t (w : W) : t <> s -> same t w (sys_close s w);
  shutdown_local s t (w : W) : t <> s -> same t w (sys_shutdown s w);
  (* a new connection gets a descriptor that is not in use *)
  accept_local l t (w : W) : t ∈ opened w -> same t w (sys_accept l w).2;
}.

#[export] Instance same_preorder {W} `{Sys W} t : PreOrder (same (W := W) t).
Proof. split; [done|]. intros x y z (? & ? & ?) (? & ? & ?). split_and!; congruence. Qed.

(** ** Computations that leave a connection alone *)

Section keeps.
Context {W : Type} `{SysLaws W} `{!SysLocal W} (t : Z).

Definition keeps {A} (m : io W A) : Prop := forall w, same t w (m w).2.

Lemma keeps_ret {A} (a : A) : keeps (iret a).
Proof. done. Qed.
Lemma keeps_lift {A} (r : result A) : keeps (ilift r).
Proof. done. Qed.
Lemma keeps_bind {A B} (m : io W A) (f : A -> io W B) : keeps m -> (forall a, keeps (f a)) -> keeps (ibind m f).
Proof.
  intros Hm Hf w. unfold ibind. specialize (Hm w). destruct (m w) as [[a|e|] w1]; cbn [snd] in *; [|done..]. etrans; [exact Hm|apply Hf].
Qed.

Lemma keeps_recv s n : t <> s -> keeps (recv s n).
Proof. intros Hs w. unfold recv. pose proof (recv_local s n t w Hs) as Hl. by destruct (sys_recv s n w) as [[r bs] w']. Qed.
Lemma keeps_send s bs : t <> s -> keeps (send s bs).
Proof. intros Hs w. unfold send. pose proof (send_local s bs t w Hs) as Hl. by destruct (sys_send s bs w) as [r w']. Qed.
Lemma keeps_close s : t <> s -> keeps (hws_close s).
Proof. intros Hs w. by apply close_local. Qed.
Lemma keeps_random : keeps random.
Proof. intros w. unfold random. pose proof (random_law t w) as Hl. destruct (sys_random w) as [v w']. destruct Hl as ((? & ? & _) & ? & _). by split_and!. Qed.
Lemma keeps_now : keeps nowMs.
Proof. intros w. unfold nowMs. pose proof (now_law t w) as Hl. destruct (sys_now w) as [v w']. destruct Hl as ((? & ? & _) & ? & _). by split_and!. Qed.
End keeps.

Create HintDb keeps.
#[export] Hint Resolve keeps_ret keeps_lift keeps_recv keeps_send keeps_close keeps_random keeps_now : keeps.
Ltac keeps := repeat first [solve [auto with keeps] | simple apply keeps_bind; [|intros] | case_match].

Section helpers.
Context {W : Type} `{SysLaws W} `{!SysLocal W} (t s : Z) (Hs : t <> s).

Lemma keeps_recvAll len : keeps t (recvAll s len).
Proof.
  unfold recvAll. generalize (Z.to_nat len) as fuel, (@nil Z) as acc. intros fuel. induction fuel as [|f IH]; intros acc; cbn [recv_loop]; keeps.
Qed.
Lemma keeps_sendAll buf len : keeps t (sendAll s buf len).
Proof.
  unfold sendAll. generalize (length buf) as fuel, 0 as total. intros fuel. induction fuel as [|f IH]; intros total; cbn [send_loop]; keeps.
Qed.
Lemma keeps_recvHttpHeaders : keeps t (recvHttpHeaders s).
Proof.
  unfold recvHttpHeaders. generalize (Z.to_nat 8193) as fuel, (@nil Z) as buf. intros fuel. induction fuel as [|f IH]; intros buf; cbn [http_loop]; keeps.
Qed.
End helpers.
#[export] Hint Resolve keeps_recvAll keeps_sendAll keeps_recvHttpHeaders : keeps.

(** ** A world with many connections *)

(** A descriptor: what it still delivers, what was sent, how much it accepts,
    whether it is open. *)
Record conn := Conn { x_in : bytes; x_out : bytes; x_room : nat; x_open : bool }.
Definition no_conn : conn := Conn [] [] 0 false.

(** The descriptors, the input of the connections to come, the bytes a call
    moves at most, and the sources of numbers. *)
Record net := Net { n_conns : gmap Z conn; n_pending : list bytes; n_mtu : nat; n_seed : Z; n_clock : Z }.

#[export] Instance net_eta : Eta net := fun w => Net (n_conns w) (n_pending w) (n_mtu w) (n_seed w) (n_clock w).
#[export] Instance set_n_conns : Settable n_conns := ltac:(derive_setter).
#[export] Instance set_n_pending : Settable n_pending := ltac:(derive_setter).
#[export] Instance set_n_seed : Settable n_seed := ltac:(derive_setter).
#[export] Instance set_n_clock : Settable n_clock := ltac:(derive_setter).

Definition conn_of (s : Z) (w : net) : conn := default no_conn (n_conns w !! s).
Definition put (s : Z) (c : conn) (w : net) : net := w <| n_conns := <[s := c]> (n_conns w) |>.
Definition is_open (w : net) (s : Z) : bool := x_open (conn_of s w).

Definition net_recv (s n : Z) (w : net) : Z * bytes * net :=
  let '(Conn i o r b) := conn_of s w in
  let k := Nat.min (Z.to_nat n) (S (n_mtu w)) in
  let bs := map u8 (take k i) in
  (zlen bs, bs, put s (Conn (drop k i) o r b) w).

Definition net_send (s : Z) (bs : bytes) (w : net) : Z * net :=
  let '(Conn i o r b) := conn_of s w in
  let k := Nat.min (length bs) (Nat.min r (S (n_mtu w))) in
  if b then match k with O => (-1, w) | _ => (Z.of_nat k, put s (Conn i (o ++ take k bs) (r - k)%nat b) w) end else (-1, w).

Definition net_close (s : Z) (w : net) : net := put s (Conn [] (x_out (conn_of s w)) 0 false) w.
Definition net_shutdown (s : Z) (w : net) : net :=
  let '(Conn i o r b) := conn_of s w in put s (Conn [] o 0 b) w.

(** The lowest free descriptor from 3 on, or -1 when 100 are in use. *)
Definition net_fresh (w : net) : Z := default HWS_INVALID_SOCKET (head (List.filter (fun s => negb (is_open w s)) (seqZ 3 100))).
Definition net_new (bs : bytes) (w : net) : Z * net :=
  let s := net_fresh w in (s, if s =? HWS_INVALID_SOCKET then w else put s (Conn bs [] 500 true) w).
Definition net_accept (w : net) : Z * net :=
  match n_pending w with [] => (HWS_INVALID_SOCKET, w) | bs :: rest => net_new bs (w <| n_pending := rest |>) end.

#[export] Instance net_sys : Sys net := {|
  sys_recv := net_recv;
  sys_send := net_send;
  sys_close := net_close;
  sys_shutdown := net_shutdown;
  sys_socket := net_new [];
  sys_bind _ _ w := (0, w);
  sys_listen _ _ w := (0, w);
  sys_accept _ := net_accept;
  sys_resolve _ w := (true, w);
  sys_connect _ _ _ w := (0, w);
  sys_random w := let v := u32 (n_seed w * 1664525 + 1013904223) in (v, w <| n_seed := v |>);
  sys_now w := (n_clock w mod 2 ^ 62, w <| n_clock := n_clock w + 1 |>);
  sys_order w := Z.even (n_clock w);
  std_dis g := let '(v, g) := mt_next mt19937 g in (v / 2 ^ 24 mod 2 ^ 8, g);
  incoming s w := map u8 (x_in (conn_of s w));
  outgoing s w := x_out (conn_of s w);
  room s w := if is_open w s then Z.of_nat (x_room (conn_of s w)) else 0;
  opened w := dom (filter (fun kv => x_open kv.2 = true) (n_conns w));
|}.

Lemma conn_put s c t w : conn_of t (put s c w) = if bool_decide (t = s) then c else conn_of t w.
Proof.
  unfold conn_of, put, set_field, set_n_conns. cbn [n_conns]. case_bool_decide as Hts; [subst; by rewrite lookup_insert_eq|by rewrite lookup_insert_ne].
Qed.

Lemma elem_opened s (w : net) : s ∈ opened w <-> is_open w s = true.
Proof.
  cbn [opened net_sys]. rewrite elem_of_dom. unfold is_open, conn_of. split.
  - intros [c Hc]. apply map_lookup_filter_Some in Hc as [-> Hc]. done.
  - destruct (n_conns w !! s) as [c|] eqn:E; cbn [default]; [|done]. intros Hc. exists c. by apply map_lookup_filter_Some.
Qed.

Lemma opened_put s c w : opened (put s c w) = if x_open c then {[ s ]} ∪ opened w else opened w ∖ {[ s ]}.
Proof.
  apply leibniz_equiv. intros t. rewrite elem_opened. unfold is_open. rewrite conn_put.
  destruct (x_open c) eqn:Hc; rewrite ?elem_of_union, ?elem_of_difference, elem_of_singleton, elem_opened; case_bool_decide; subst; unfold is_open;
    rewrite ?Hc; naive_solver.
Qed.

(** A descriptor that is as open as before. *)
Lemma opened_same s c w : x_open c = is_open w s -> opened (put s c w) = opened w.
Proof.
  intros Hc. rewrite opened_put, Hc. pose proof (elem_opened s w) as Hs. destruct (is_open w s) eqn:E; apply leibniz_equiv; set_solver.
Qed.

Lemma net_fresh_closed w : net_fresh w = HWS_INVALID_SOCKET \/ is_open w (net_fresh w) = false.
Proof.
  unfold net_fresh. destruct (List.filter _ _) as [|s l] eqn:E; [by left|right]. cbn.
  assert (In s (s :: l)) as Hin by (by left). rewrite <- E in Hin. apply filter_In in Hin as [_ Hn]. by apply negb_true_iff.
Qed.

Lemma net_new_law bs w : let '(s, w') := net_new bs w in
  if s =? HWS_INVALID_SOCKET then opened w' = opened w else (s ∉ opened w) /\ opened w' = {[ s ]} ∪ opened w.
Proof.
  unfold net_new. destruct (Z.eqb_spec (net_fresh w) HWS_INVALID_SOCKET) as [_|Hs]; [done|].
  destruct (net_fresh_closed w) as [?|Ho]; [done|]. rewrite elem_opened, Ho. split; [done|]. by rewrite opened_put.
Qed.

Lemma same_put s c t w : t <> s -> same t w (put s c w).
Proof. intros Ht. unfold same. cbn [incoming outgoing room net_sys]. unfold is_open. rewrite conn_put, bool_decide_eq_false_2 by done. done. Qed.

#[export] Instance net_local : SysLocal net.
Proof.
  split; intros; cbn [sys_recv sys_send sys_close sys_shutdown sys_accept net_sys].
  - unfold net_recv. destruct (conn_of s w). by apply same_put.
  - unfold net_send. destruct (conn_of s w) as [i o r []]; [|done]. case_match; [done|]. by apply same_put.
  - by apply same_put.
  - unfold net_shutdown. destruct (conn_of s w). by apply same_put.
  - unfold net_accept. destruct (n_pending w) as [|bs rest]; [done|]. unfold net_new.
    set (w1 := w <| n_pending := rest |>). assert (same t w w1) as Hw by done. etrans; [exact Hw|].
    destruct (Z.eqb_spec (net_fresh w1) HWS_INVALID_SOCKET) as [_|Hs]; [done|]. apply same_put. intros ->.
    destruct (net_fresh_closed w1) as [?|Ho]; [done|]. apply elem_opened in H. change (is_open w1 (net_fresh w1) = true) in H. congruence.
Qed.

#[export] Instance net_laws : SysLaws net.
Proof.
  split; intros.
  - cbn [incoming net_sys]. apply Forall_map, Forall_true. intros x. apply u8_range.
  - cbn [room net_sys]. case_match; lia.
  - cbn [sys_recv incoming outgoing room opened net_sys]. unfold net_recv. destruct (conn_of s w) as [i o r b] eqn:E.
    assert (is_open w s = b) as Hb by (unfold is_open; by rewrite E). cbn [x_in]. split.
    + split_and!; cbn [outgoing room net_sys]; unfold is_open; rewrite ?conn_put, ?bool_decide_eq_true_2 by done; [by rewrite E..|]. by apply opened_same.
    + rewrite conn_put, (bool_decide_eq_true_2 (s = s)) by done. cbn [x_in]. destruct i as [|x i]; [by rewrite take_nil, drop_nil; cbn|].
      rewrite bool_decide_eq_false_2 by done. rewrite length_map, length_take. cbn [length]. split_and!; try lia. by rewrite <- map_app, take_drop.
  - assert (length bs <> 0)%nat as Hbs by (by destruct bs). cbn [sys_send room net_sys]. unfold net_send, is_open. destruct (conn_of s w) as [i o r b] eqn:E. cbn [x_open x_room].
    destruct b; [|split; [lia|apply sent_nil]]. destruct (Nat.min (length bs) (Nat.min r (S (n_mtu w)))) as [|k] eqn:Ek.
    + rewrite (proj2 (Z.ltb_ge _ _)) by lia. split; [lia|apply sent_nil].
    + rewrite (proj2 (Z.ltb_lt _ _)) by lia. split; [lia|]. rewrite Nat2Z.id.
      split_and!; cbn [outgoing room incoming net_sys]; unfold is_open; rewrite ?conn_put, ?bool_decide_eq_true_2, ?E by done; cbn [x_open x_out x_room x_in];
        [done|rewrite length_take; lia| |done]. apply opened_same. unfold is_open. by rewrite E.
  - cbn [sys_random net_sys]. split; [done|]. split; [done|]. apply u32_range.
  - cbn [sys_now net_sys]. split; [done|]. split; [done|]. apply Z.mod_pos_bound. lia.
  - apply net_new_law.
  - cbn [sys_accept net_sys]. unfold net_accept. destruct (n_pending w) as [|bs rest]; [done|].
    change (opened w) with (opened (w <| n_pending := rest |>)). apply (net_new_law bs (w <| n_pending := rest |>)).
  - cbn [sys_close net_sys]. unfold net_close. by rewrite opened_put.
  - cbn [sys_close outgoing net_sys]. unfold net_close. rewrite conn_put. by case_bool_decide; subst.
  - cbn [room net_sys]. rewrite elem_opened in H. by destruct (is_open w s).
  - cbn [sys_shutdown net_sys]. unfold net_shutdown. destruct (conn_of s w) as [i o r b] eqn:E. assert (is_open w s = b) as Hb by (unfold is_open; by rewrite E).
    split; [by apply opened_same|]. cbn [outgoing room incoming net_sys]. unfold is_open. rewrite conn_put. case_bool_decide; [subst t; rewrite E; cbn|done].
    split_and!; [done|destruct b; lia|lia].
  - done.
  - done.
  - done.
  - done.
Qed.
