(* ===== verification/Sessions.v ===== *)
(** * Many sessions (server/ws_server.cpp: main with handleClient)

    The sessions of a server share a process and a table of descriptors.  On a
    world whose calls leave other connections alone (Net.v), a session holds
    its conversation (ServerTalk.v) whatever the accept loop and the other
    sessions do, under one condition on descriptor numbers; without it, a
    thread of an ended session can write into the connection of another. *)

From stdpp Require Import gmap relations.
From S2P Require Import Prelude Random ByteIO Message Codec Socket WsFrame WsReceive Handshake Server Endpoint ServerThreads ServerRuns ServerMain Hearing Dialogue ServerTalk Net.

(** ** Steps leave other connections alone *)

Section keeps.
Context {W : Type} `{SysLaws W} `{!SysLocal W} (t s : Z) (Hs : t <> s).

Lemma keeps_random_bytes n : keeps (W := W) t (random_bytes n).
Proof. induction n as [|n IH]; cbn [random_bytes]; keeps. Qed.
Hint Resolve keeps_random_bytes : keeps.

Lemma keeps_control_out op data masked : keeps (W := W) t (control_out op data masked).
Proof. unfold control_out. cbv zeta. keeps. Qed.
Hint Resolve keeps_control_out : keeps.

Lemma keeps_recv_one em size : keeps (W := W) t (recv_one s em size).
Proof. unfold recv_one, recv_length, recv_body. cbv zeta. keeps. Qed.
Hint Resolve keeps_recv_one : keeps.

Lemma keeps_send_once buf total : keeps (W := W) t (send_once s buf total).
Proof. unfold send_once. keeps. Qed.
Hint Resolve keeps_send_once : keeps.

Lemma keeps_recv_step em r : keeps (W := W) t (recv_step s em r).
Proof. unfold recv_step, begin_reply. keeps. Qed.

Lemma keeps_job_step active locked j : keeps (W := W) t (job_step s binary_frame active locked j).
Proof. unfold job_step, binary_frame. keeps. Qed.

(** A step of a thread of the session on [s]. *)
Lemma exec_same a st (w : W) st' w' : local st -> exec s a st w = Some (st', w') -> same t w w'.
Proof.
  intros Hl Hx. pose proof (loc_main _ Hl) as Hm. pose proof (loc_vars _ Hl) as Hv. destruct st as [vs l m pcs]. cbn [c_main c_vars] in *. destruct a as [|k].
  - destruct m as [|r|f|now|j stop| | | | |]; cbn [exec exec_main main_ok] in *; try (by injection Hx as <- <-); try done.
    + pose proof (keeps_recv_step true r w) as Hk. destruct (recv_step s true r w) as [[[r'|f]|e|] w1]; [..|done]; by injection Hx as <- <-.
    + destruct (plan_frame_run t vs f w Hv Hm) as (p & vs1 & w1 & E & _ & _ & (? & ? & _) & ? & _). rewrite E in Hx.
      assert (same t w w1) as Hk by (by split_and!). destruct p as [[|stop|r stop]|now]; [| |destruct (encode r); [| |done]|]; by injection Hx as <- <-.
    + pose proof (keeps_job_step (active vs) l j w) as Hk. destruct (job_step s binary_frame (active vs) l j w) as [[[[l1 [j'|ok]]|]|e|] w1]; try done; by injection Hx as <- <-.
    + injection Hx as <- <-. by apply close_local.
    + destruct (forallb _ _); [|done]. by injection Hx as <- <-.
  - cbn [exec exec_bg] in Hx. destruct (pcs k) as [| | | |now|pong|j| | |]; try (by injection Hx as <- <-); try done.
    + destruct (bg_act_run t k vs w) as (pc & w1 & E & _ & _ & (? & ? & _) & ? & _). rewrite E in Hx. injection Hx as <- <-. by split_and!.
    + pose proof (now_law t w) as L. destruct (sys_now w) as [v w1]. destruct L as ((? & ? & _) & ? & _). injection Hx as <- <-. by split_and!.
    + pose proof (keeps_job_step (active vs) l j w) as Hk. destruct (job_step s binary_frame (active vs) l j w) as [[[[l1 [j'|[]]]|]|e|] w1]; try done; by injection Hx as <- <-.
    + injection Hx as <- <-. by apply shutdown_local.
Qed.

Lemma keeps_reject u : keeps (W := W) t (reject s u).
Proof. unfold reject. keeps. Qed.
Hint Resolve keeps_reject : keeps.

Lemma keeps_accept_upgrade garbage env u : keeps (W := W) t (accept_upgrade garbage env s u).
Proof. unfold accept_upgrade. cbv zeta. keeps. Qed.
End keeps.

(** [accept] of the server touches none of the connections there are. *)
Lemma accept_same {W} `{SysLaws W} `{!SysLocal W} garbage env srv u t (w : W) : t ∈ opened w -> same t w (server_accept garbage env srv u w).2.
Proof.
  intros Ht. unfold server_accept. pose proof (accept_local (listenSock srv) t w Ht) as Hk. pose proof (accept_law (listenSock srv) w) as Hl.
  destruct (sys_accept (listenSock srv) w) as [s w1]. cbn [snd] in Hk. destruct (s =? HWS_INVALID_SOCKET); [done|]. destruct Hl as [Hs _].
  etrans; [exact Hk|]. apply keeps_accept_upgrade. by intros ->.
Qed.

Lemma open_same {W} `{SysLaws W} t (w : W) r w' : open_session w = (r, w') -> same t w w' /\ exists now, r = Ok (start now) /\ is_i64 now.
Proof.
  unfold open_session. destruct (now_run t w) as (t1 & w1 & E1 & (? & ? & _) & ? & _). destruct (now_run t w1) as (t2 & w2 & E2 & (? & ? & _) & ? & Ht2).
  rewrite (ibind_run _ _ _ _ _ E1), (ibind_run _ _ _ _ _ E2). intros [= <- <-]. split; [split_and!; congruence|]. exists t2. split; [done|solve_width].
Qed.

(** ** A session among others *)

(** A session that may still take steps. *)
Definition unfinished (e : entry) : bool :=
  match e_state e with Some s => match c_main s with MDone => false | _ => true end | None => true end.

Section among.
Context {W : Type} `{SysLaws W} `{!SysLocal W} (garbage : bytes) (env_path portEnv : option bytes) (Hg : length garbage = 64%nat).
Context (i : nat) (sock : Z).

(** Steps of the whole server in which the session [i] keeps to its
    conversation: [wsRecvFrame] sends no reply there and it does not time out. *)
Inductive ptalk : relation (prog * W) :=
  | ptalk_exec a p w c : pexec garbage env_path portEnv a p w = Some c ->
      (forall b srv es e s, a = PSession i b -> p = PServe srv es -> es !! i = Some e -> e_state e = Some s ->
        (b = Main -> answering (c_main s) = false) /\ (forall k, b = Bg k -> c_bg s k <> TShut)) -> ptalk (p, w) c.

(** No other session that may still take steps has the descriptor. *)
Definition alone (es : list entry) : Prop := forall j e, j <> i -> es !! j = Some e -> e_sock e = sock -> unfinished e = false.

(** The session [i] in its conversation, as long as its socket is open. *)
Definition placed (in0 out0 : bytes) (es : list entry) (w : W) : Prop :=
  exists e, es !! i = Some e /\ e_sock e = sock /\ (live_entry e = true -> alone es /\
    match e_state e with
    | None => incoming sock w = in0 /\ outgoing sock w = out0
    | Some s => exists ps rs outs, talking sock in0 out0 ps rs outs s w
    end).

Lemma talking_same in0 out0 ps rs outs s (w w' : W) : same sock w w' -> talking sock in0 out0 ps rs outs s w -> talking sock in0 out0 ps rs outs s w'.
Proof. intros (Hin & Ho & Hr) [Hsv Hcv]. split; [done|]. eapply conversing_quiet; [exact Hcv|done|done|by rewrite Hr|by rewrite Hin|done]. Qed.

(** What the others do. *)
Lemma placed_same in0 out0 es es' (w w' : W) : placed in0 out0 es w -> es' !! i = es !! i ->
  (forall e, es !! i = Some e -> live_entry e = true -> same sock w w' /\ (alone es -> alone es')) -> placed in0 out0 es' w'.
Proof.
  intros (e & Hi & Hs & Hp) He Hw. exists e. rewrite He. split_and!; [done..|]. intros Hl. destruct (Hp Hl) as [Ha Hst]. destruct (Hw e Hi Hl) as [Hsame Halone].
  split; [auto|]. destruct (e_state e) as [s|].
  - destruct Hst as (ps & rs & outs & Htk). exists ps, rs, outs. by eapply talking_same.
  - destruct Hsame as (Hin & Ho & _). destruct Hst. split; congruence.
Qed.

Lemma live_opened base srv es e (w : W) : pinv base (PServe srv es) w -> es !! i = Some e -> live_entry e = true -> e_sock e ∈ opened w.
Proof.
  intros [Hop _ _ _] Hi Hl. rewrite Hop. apply elem_of_union_r, elem_of_list_to_set, elem_of_cons. right.
  unfold live_socks. apply list_elem_of_In, in_map, filter_In. split; [|done]. apply list_elem_of_In. by eapply list_elem_of_lookup_2.
Qed.

(** A step of the accept loop. *)
Lemma main_placed base in0 out0 srv es (w : W) p' w' : pinv base (PServe srv es) w ->
  exec_prog garbage env_path portEnv (PServe srv es) w = Some (p', w') -> placed in0 out0 es w -> exists es', p' = PServe srv es' /\ placed in0 out0 es' w'.
Proof.
  intros Hinv Hx Hp. cbn [exec_prog] in Hx. destruct (server_accept_spec garbage env_path srv [] w Hg) as (s & u & w1 & E & Hs).
  pose proof (accept_same garbage env_path srv [] sock w) as Hk. rewrite E in Hx, Hk. cbn [snd] in Hk. injection Hx as <- <-. eexists. split; [done|].
  destruct Hp as (e & Hi & Hes & Hp). assert (placed in0 out0 es w) as Hpl by (by exists e).
  eapply placed_same; [exact Hpl| |].
  - destruct (s =? HWS_INVALID_SOCKET); [done|]. apply lookup_app_l. by eapply lookup_lt_Some.
  - intros e' Hi' Hl. assert (sock ∈ opened w) as Hop by (rewrite <- Hes; simplify_eq; by eapply live_opened). split; [by apply Hk|].
    destruct (s =? HWS_INVALID_SOCKET); [done|]. intros Ha j ej Hj Hej Hsock. destruct Hs as (Hs & _).
    apply lookup_app_Some in Hej as [Hej|[_ Hej]]; [by eapply Ha|]. apply list_lookup_singleton_Some in Hej as [_ <-]. cbn [e_sock] in Hsock. by subst.
Qed.

(** A step of another session. *)
Lemma other_placed base in0 out0 srv es j e a (w : W) e' w' : pinv base (PServe srv es) w -> j <> i -> es !! j = Some e ->
  exec_entry a e w = Some (e', w') -> placed in0 out0 es w -> placed in0 out0 (<[j := e']> es) w'.
Proof.
  intros Hinv Hj Hej Hx Hp. destruct Hp as (ei & Hi & Hes & Hp). assert (placed in0 out0 es w) as Hpl by (by exists ei).
  pose proof (pi_local _ _ _ Hinv) as Hlo. cbn [prog_entries] in Hlo. pose proof (Forall_lookup_1 _ _ _ _ Hlo Hej) as He.
  destruct (exec_entry_effect a e w e' w' He Hx) as (_ & Hsock & _). eapply placed_same; [exact Hpl|by apply list_lookup_insert_ne|].
  intros e0 Hi0 Hl. assert (e0 = ei) as -> by congruence. destruct (Hp Hl) as [Ha _]. assert (e_sock e <> sock) as Hne.
  { intros Heq. specialize (Ha j e Hj Hej Heq). unfold unfinished, exec_entry, entry_ok in *. destruct (e_state e) as [s|]; [|done].
    destruct (c_main s) eqn:Hm; try done. pose proof (loc_done s He Hm) as Hd. destruct s as [vs l m pcs]. cbn [c_main c_bg] in *. subst m.
    destruct a as [|k]; cbn [exec exec_main exec_bg] in Hx; [done|]. by rewrite Hd in Hx. }
  split.
  - unfold exec_entry, entry_ok in *. destruct (e_state e) as [s|].
    + destruct (exec (e_sock e) a s w) as [[s1 w1]|] eqn:E; [|done]. injection Hx as <- <-. eapply exec_same; [by apply not_eq_sym|exact He|exact E].
    + destruct (open_session w) as [r w1] eqn:E. destruct (open_same sock w r w1 E) as [Hk (now & -> & _)]. by injection Hx as <- <-.
  - intros _ j' e2 Hj' Hej' Hs2. destruct (decide (j' = j)) as [->|Hjj].
    + rewrite list_lookup_insert_eq in Hej' by (by eapply lookup_lt_Some). injection Hej' as <-. congruence.
    + rewrite list_lookup_insert_ne in Hej' by done. by eapply Ha.
Qed.

(** A step of the session itself. *)
Lemma own_placed base in0 out0 srv es e a (w : W) e' w' : pinv base (PServe srv es) w -> es !! i = Some e ->
  exec_entry a e w = Some (e', w') ->
  (forall s, e_state e = Some s -> (a = Main -> answering (c_main s) = false) /\ (forall k, a = Bg k -> c_bg s k <> TShut)) ->
  placed in0 out0 es w -> placed in0 out0 (<[i := e']> es) w'.
Proof.
  intros Hinv Hei Hx Hside (e0 & Hi & Hes & Hp). assert (e = e0) as -> by congruence.
  pose proof (pi_local _ _ _ Hinv) as Hlo. cbn [prog_entries] in Hlo. pose proof (Forall_lookup_1 _ _ _ _ Hlo Hei) as He.
  destruct (exec_entry_effect a e0 w e' w' He Hx) as (_ & Hsock & Hli & _). exists e'.
  split; [apply list_lookup_insert_eq; by eapply lookup_lt_Some|]. split; [congruence|]. intros Hl. rewrite Hes in *. destruct (Hp (Hli Hl)) as [Ha Hst]. split.
  - intros j e2 Hj Hej Hs2. rewrite list_lookup_insert_ne in Hej by done. by eapply Ha.
  - unfold exec_entry, entry_ok in *. destruct (e_state e0) as [s|].
    + rewrite Hes in *. destruct (exec sock a s w) as [[s1 w1]|] eqn:E; [|done]. injection Hx as <- <-. cbn [e_state e_sock] in *.
      destruct (Hside s eq_refl) as [H1 H2]. eapply talk_talking; [exact He| |exact Hst]. by eapply talk_exec.
    + destruct (open_session w) as [r w1] eqn:E. destruct (open_same sock w r w1 E) as [(Hin & Ho & _) (now & -> & _)]. injection Hx as <- <-.
      cbn [e_state e_sock] in *. destruct Hst as [Hst1 Hst2]. exists [], [], []. rewrite <- Hst1, <- Hin, <- Hst2, <- Ho. split; [constructor|]. apply conversing_start.
Qed.

Lemma ptalk_step c c' : ptalk c c' -> pstep garbage env_path portEnv c c'.
Proof. intros [a p w c0 Hx _]. by eapply pstep_exec. Qed.

Lemma ptalk_placed base in0 out0 srv es (w : W) p' w' : pinv base (PServe srv es) w -> ptalk (PServe srv es, w) (p', w') ->
  placed in0 out0 es w -> exists es', p' = PServe srv es' /\ placed in0 out0 es' w'.
Proof.
  intros Hinv Hst Hp. inversion Hst as [a ? ? ? Hx Hside]; subst. destruct a as [|j a]; cbn [pexec] in Hx; [by eapply main_placed|].
  destruct (es !! j) as [e|] eqn:Ej; [|done]. destruct (exec_entry a e w) as [[e' w1]|] eqn:E; [|done]. injection Hx as <- <-. eexists. split; [done|].
  destruct (decide (j = i)) as [->|Hj]; [|by eapply other_placed]. eapply own_placed; [exact Hinv|exact Ej|exact E| |exact Hp].
  intros s Hs. by eapply Hside.
Qed.

Lemma ptalks_placed base in0 out0 srv es (w : W) c' : rtc ptalk (PServe srv es, w) c' -> pinv base (PServe srv es) w -> placed in0 out0 es w ->
  exists es', c'.1 = PServe srv es' /\ pinv base (PServe srv es') c'.2 /\ placed in0 out0 es' c'.2.
Proof.
  intros Hr. remember (PServe srv es, w) as c eqn:Ec. revert es w Ec. induction Hr as [c|c [p1 w1] c' Hst _ IH]; intros es w -> Hinv Hp; [by exists es|].
  pose proof (pstep_inv _ _ _ Hg _ _ _ _ _ (ptalk_step _ _ Hst) Hinv) as Hinv1. destruct (ptalk_placed _ _ _ _ _ _ _ _ Hinv Hst Hp) as (es1 & -> & Hp1).
  by apply (IH es1 w1).
Qed.
End among.

(** ** The properties *)

(** C6: sessions are isolated.  Take any run of the server up to the moment where
    a connection has been accepted and its session has not begun, while no
    other session that may still take steps has the same descriptor number;
    and go on with any steps of the accept loop and of all other sessions,
    control frames, timeouts and failures included, and with steps of this
    session that belong to a conversation.  As long as its socket is open, the
    session holds its conversation, with the input and output the connection
    had at that moment, as if it were alone. *)
Theorem sessions_isolated {W} `{SysLaws W} `{!SysLocal W} garbage env_path portEnv i sock u (w0 w1 w2 : W) srv es1 p2 :
  length garbage = 64%nat -> rtc (pstep garbage env_path portEnv) (PBoot, w0) (PServe srv es1, w1) ->
  es1 !! i = Some (Entry sock u None) -> alone i sock es1 ->
  rtc (ptalk garbage env_path portEnv i) (PServe srv es1, w1) (p2, w2) ->
  exists es2 e, p2 = PServe srv es2 /\ es2 !! i = Some e /\ e_sock e = sock
    /\ forall s, e_state e = Some s -> live (c_main s) = true -> conversation sock (incoming sock w1) (outgoing sock w1) s w2.
Proof.
  intros Hg Hr Hi Ha Ht. assert (pinv (opened w0) (PServe srv es1) w1) as Hinv by (by eapply (boot_inv garbage env_path portEnv Hg)).
  destruct (ptalks_placed garbage env_path portEnv Hg i sock _ (incoming sock w1) (outgoing sock w1) _ _ _ _ Ht Hinv) as (es2 & E2 & Hinv2 & e & Hei & Hs & Hp).
  { exists (Entry sock u None). by split_and!. }
  cbn [fst snd] in *. exists es2, e. split_and!; [done..|]. intros s Hst Hl. unfold live_entry in Hp. rewrite Hst in Hp.
  destruct (Hp Hl) as [_ (ps & rs & outs & Htk)]. pose proof (pi_local _ _ _ Hinv2) as Hlo. pose proof (Forall_lookup_1 _ _ _ _ Hlo Hei) as He.
  unfold entry_ok in He. rewrite Hst in He. by eapply talking_conversation.
Qed.

(** Runs of the executable scheduler in which session [i] stays within its
    conversation. *)
Definition off_talk (i : nat) (a : pactor) (p : prog) : bool :=
  match a, p with
  | PSession j b, PServe _ es =>
      bool_decide (j = i) && match es !! i with
        | Some (Entry _ _ (Some s)) => match b with Main => answering (c_main s) | Bg k => match c_bg s k with TShut => true | _ => false end end
        | _ => false
        end
  | _, _ => false
  end.
Fixpoint ptalk_run {W} `{Sys W} garbage env_path portEnv (i : nat) (as_ : list pactor) (c : prog * W) : option (prog * W) :=
  match as_ with
  | [] => Some c
  | a :: as_ => if off_talk i a c.1 then None
                else c' ← pexec garbage env_path portEnv a c.1 c.2; ptalk_run garbage env_path portEnv i as_ c'
  end.

Lemma ptalk_run_talks {W} `{Sys W} garbage env_path portEnv i as_ (c c' : prog * W) :
  ptalk_run garbage env_path portEnv i as_ c = Some c' -> rtc (ptalk garbage env_path portEnv i) c c'.
Proof.
  revert c. induction as_ as [|a as_ IH]; intros [p w]; cbn [ptalk_run fst snd]; [intros [= ->]; apply rtc_refl|].
  destruct (off_talk i a p) eqn:Hoff; [done|]. destruct (pexec _ _ _ a p w) as [c1|] eqn:E; [|done]. intros Hr.
  eapply rtc_l; [|by apply IH]. eapply ptalk_exec; [exact E|]. intros b srv es [s0 u o] s -> -> Hi Hs. cbn [off_talk e_state] in *. subst o.
  rewrite bool_decide_eq_true_2, Hi in Hoff by done. cbn [andb] in Hoff. split; [by intros ->|]. intros k -> Hk. by rewrite Hk in Hoff.
Qed.

(** A server with two connections, the second of which says HELLO. *)
Definition demo_request : bytes := ws_request (str "/ws") (str "h") 1 (str "k") (str "u").
Definition demo_net (ins : list bytes) : net := Net ∅ ins 2 1 1700000000000.
Definition two_clients : net := demo_net [demo_request; demo_request ++ wire (demo_frame true 2 talk_hello)].
Definition both_in : list pactor := [PMain; PMain; PSession 0 Main; PMain].
Definition mixed : list pactor :=
  [PSession 1 Main] ++ replicate 7 (PSession 0 (Bg Ping)) ++ replicate 6 (PSession 1 Main) ++ replicate 5 (PSession 0 (Bg Ping)) ++ replicate 7 (PSession 1 Main).

Lemma sessions_isolated_witness : exists (es2 : list entry) e (w1 w2 : net) s, es2 !! 1%nat = Some e /\ e_sock e = 5 /\ e_state e = Some s
  /\ c_main s = MLoop /\ clientLang (c_vars s) = str "Go" /\ conversation 5 (incoming 5 w1) (outgoing 5 w1) s w2.
Proof.
  assert (option_map (fun c => match c.1 with PServe _ [Entry a _ _; Entry b _ None] => Some (a, b) | _ => None end)
    (prun (replicate 64 0) None None both_in (PBoot, two_clients)) = Some (Some (4, 5))) as H1 by (vm_compute; reflexivity).
  assert (option_map (fun c => match c.1 with PServe _ [_; Entry _ _ (Some s)] => Some (c_main s, clientLang (c_vars s)) | _ => None end)
    (c ← prun (replicate 64 0) None None both_in (PBoot, two_clients); ptalk_run (replicate 64 0) None None 1 mixed c)
    = Some (Some (MLoop, str "Go"))) as H2 by (vm_compute; reflexivity).
  destruct (prun (replicate 64 0) None None both_in (PBoot, two_clients)) as [[p1 w1]|] eqn:E1; [|discriminate H1]. cbn [option_map fst mbind option_bind] in H1, H2.
  destruct p1 as [|srv es1|]; try discriminate H1. destruct es1 as [|[a ua oa] [|[b ub [?|]] [|? ?]]]; try discriminate H1. injection H1 as -> ->.
  destruct (ptalk_run (replicate 64 0) None None 1 mixed _) as [[p2 w2]|] eqn:E2; [|discriminate H2]. cbn [option_map fst] in H2.
  apply prun_steps in E1. apply ptalk_run_talks in E2.
  destruct (sessions_isolated (replicate 64 0) None None 1 5 ub two_clients w1 w2 srv _ p2 eq_refl E1 eq_refl) as (es2 & e & -> & Hi & Hs & Hc); [|exact E2|].
  { intros [|[|j]] e Hj He Hs; try done. by injection He as <-. }
  destruct es2 as [|e0 [|[b' u' [s|]] [|? ?]]]; try discriminate H2. injection H2 as Hm Hlang. injection Hi as <-.
  exists [e0; Entry b' u' (Some s)], (Entry b' u' (Some s)), w1, w2, s. split; [reflexivity|]. split; [exact Hs|]. split; [reflexivity|]. split; [exact Hm|]. split; [exact Hlang|].
  apply Hc; [reflexivity|by rewrite Hm].
Defined.

(** Without the condition on descriptor numbers a session can be hit by a thread
    of another one.  The PING thread of the first session is in the middle of a
    frame; the receive thread finds the connection ended and closes it before
    it joins the threads; the accept loop accepts a second connection, which
    gets the same number; the PING thread goes on with [::send] on that number,
    and the rest of its frame goes to the second client, behind the response
    of the handshake. *)
Theorem stale_send_hits_other : exists p w, rtc (pstep (replicate 64 0) None None) (PBoot, demo_net [demo_request; demo_request]) (p, w)
  /\ map (fun e => (e_sock e, unfinished e, live_entry e)) (prog_entries p) = [(4, true, false); (4, true, true)]
  /\ outgoing 4 w = ws_response (str "cai0HFWL7DEHZkyHxdyv1Pn3R6M=") ++ take 9 (drop 3 (message_wire (ping_message 1700000000002))).
Proof.
  set (acts := [PMain; PMain; PSession 0 Main] ++ replicate 7 (PSession 0 (Bg Ping)) ++ replicate 5 (PSession 0 Main) ++ [PMain] ++ replicate 3 (PSession 0 (Bg Ping))).
  assert (option_map (fun c => (map (fun e => (e_sock e, unfinished e, live_entry e)) (prog_entries c.1), outgoing 4 c.2))
    (prun (replicate 64 0) None None acts (PBoot, demo_net [demo_request; demo_request]))
    = Some ([(4, true, false); (4, true, true)], ws_response (str "cai0HFWL7DEHZkyHxdyv1Pn3R6M=") ++ take 9 (drop 3 (message_wire (ping_message 1700000000002))))) as Ho
    by (vm_compute; reflexivity).
  destruct (prun (replicate 64 0) None None acts _) as [[p w]|] eqn:E; [|done]. exists p, w. split; [by eapply prun_steps|].
  cbn [option_map fst snd] in Ho. apply (inj Some) in Ho. split; [exact (f_equal fst Ho)|exact (f_equal snd Ho)].
Qed.
