(* ===== verification/Client.v ===== *)
(** * The client (client/ws_client.cpp: tryConnect)

    The messages the client builds and the handler of the messages it receives,
    with its contract.  Logging only writes to the console and is left out. *)

From S2P Require Import Prelude ByteIO Message Codec Socket WsFrame WsReceive Handshake Server.

(** ** The code *)

Definition CLIENT_LANG : bytes := str "CPP".

(** The messages the client builds. *)
Definition hello_message : Message := (new_message MSG_HELLO) <| clientLanguage := CLIENT_LANG |>.
Definition pong_message (m : Message) : Message := (new_message MSG_PONG) <| timestampMs := timestampMs m |>.
Definition kiss_response : Message :=
  (new_message MSG_KISS_RESPONSE) <| kissLanguage := str "en_US" |> <| kissEncoding := str "UTF-8" |>
    <| kissTimeZone := str "UTC" |>.
Definition random_message (id num : Z) : Message :=
  (new_message MSG_RANDOM_NUMBER) <| randomId := id |> <| randomNumber := num |>.
Definition disconnect_message : Message :=
  (new_message MSG_DISCONNECT) <| disconnectReason := str "client shutdown" |>.

Section code.
Context {W : Type} `{Sys W} (sock : Z).

(** The code runs over the flag [active] and the world. *)
Abbreviation cio := (io (bool * W)).

Definition on_wire {A} (m : io W A) : cio A := fun c => let '(r, w) := m (snd c) in (r, (fst c, w)).
Definition set_flag (b : bool) : cio unit := fun c => (Ok tt, (b, snd c)).

(** [sendFrame]: under the mutex, masked, and only while active. *)
Definition client_sendFrame (data : bytes) : cio bool := fun c =>
  if fst c then on_wire (wsSendBinaryMasked sock data) c else (Ok false, c).

Definition client_send (m : Message) : cio bool :=
  let! data := ilift (encode m) in client_sendFrame data.

(** The [switch (msg.type)] of the receive loop. *)
Definition client_handle (msg : Message) : cio unit :=
  if type msg =? MSG_PING then let! _ := client_send (pong_message msg) in iret tt
  else if type msg =? MSG_KISS_REQUEST then let! _ := client_send kiss_response in iret tt
  else if type msg =? MSG_DISCONNECT then set_flag false
  else iret tt.

(** What the loop does with one frame; false leaves the loop. *)
Definition client_frame (frame : WSFrame) : cio bool :=
  if negb (isValid frame) || isClose frame then iret false
  else
    match decodeMessage (WsFrame.payload frame) (zlen (WsFrame.payload frame)) with
    | Ok msg => let! _ := client_handle msg in iret true
    | Throw _ => iret true
    | Stuck => ilift Stuck
    end.
End code.

(** ** The contract of the handler *)

Definition client_reply (m : Message) : option Message :=
  if type m =? MSG_PING then Some ((new_message MSG_PONG) <| timestampMs := timestampMs m |>)
  else if type m =? MSG_KISS_REQUEST then
    Some ((new_message MSG_KISS_RESPONSE) <| kissLanguage := str "en_US" |> <| kissEncoding := str "UTF-8" |>
            <| kissTimeZone := str "UTC" |>)
  else None.

Lemma client_reply_code m : client_reply m =
  if type m =? MSG_PING then Some (pong_message m)
  else if type m =? MSG_KISS_REQUEST then Some kiss_response
  else None.
Proof. reflexivity. Qed.

(** The bytes of a message in a WebSocket frame of the client. *)
Definition masked_wire (key : bytes) (m : Message) : bytes :=
  wire (data_frame (Some key) (frame_bytes (type m) 0 (payload_wire m))).

Lemma length_masked_wire key m : length key = 4%nat -> is_bytes key ->
  zlen (masked_wire key m) <= zlen (payload_wire m) + 22.
Proof.
  intros Hk Hb. unfold masked_wire. rewrite length_wire by done. cbn [data_frame w_form w_key w_body has_key].
  rewrite length_frame_bytes.
  pose proof (length_form_ext (shortest (8 + zlen (payload_wire m))) (8 + zlen (payload_wire m))). lia.
Qed.

Lemma client_reply_ok m r : message_ok m -> client_reply m = Some r ->
  message_ok r /\ relevant r = r /\ zlen (payload_wire r) <= 30.
Proof.
  rewrite client_reply_code. intros Hm. destruct (Z.eqb_spec (type m) MSG_PING) as [E|_].
  - intros [= <-]. unfold message_ok in *. rewrite E in Hm. cbn in Hm. split_and!; [done|done|].
    unfold payload_wire. cbn -[be_bytes]. rewrite length_be_bytes. lia.
  - case_match; [|done]. intros [= <-]. split_and!; [|done|vm_compute; discriminate].
    unfold message_ok. cbn -[string_ok str]. split_and!; by apply string_check_ok.
Qed.

Lemma literal_messages_ok : message_ok hello_message /\ message_ok disconnect_message
  /\ zlen (payload_wire hello_message) <= 30 /\ zlen (payload_wire disconnect_message) <= 30.
Proof.
  split_and!; [| |vm_compute; discriminate|vm_compute; discriminate];
    unfold message_ok; cbn -[string_ok str]; by apply string_check_ok.
Qed.

Lemma random_message_ok id num : is_i64 id -> is_i64 num ->
  message_ok (random_message id num) /\ relevant (random_message id num) = random_message id num
  /\ zlen (payload_wire (random_message id num)) = 16.
Proof.
  intros Hi Hn. split_and!; [|done|].
  - unfold message_ok. by cbn.
  - unfold payload_wire. cbn -[be_bytes]. by rewrite length_app, !length_be_bytes.
Qed.

Section laws.
Context {W : Type} `{SysLaws W} (sock : Z).

Lemma on_wire_run {A} (m : io W A) b w a w' : m w = (Ok a, w') -> on_wire m (b, w) = (Ok a, (b, w')).
Proof. intros E. unfold on_wire. cbn [fst snd]. by rewrite E. Qed.

Lemma client_send_run b m (w : W) : message_ok m -> zlen (payload_wire m) < 2 ^ 30 ->
  exists ok w', client_send sock m (b, w) = (Ok ok, (b, w'))
    /\ if b then exists key, key_ok (Some key) /\
           tried sock (data_frame (Some key) (frame_bytes (type m) 0 (payload_wire m))) ok w w'
       else ok = false /\ w' = w.
Proof.
  intros Hm Hl. unfold client_send. rewrite encode_frame, ibind_lift by done. unfold client_sendFrame. cbn [fst].
  destruct b; [|by exists false, w].
  destruct (wsSendBinaryMasked_tried sock (frame_bytes (type m) 0 (payload_wire m)) w) as (key & ok & w' & E & Hk & Ht).
  { rewrite length_frame_bytes. lia. }
  exists ok, w'. split; [by apply on_wire_run|]. by exists key.
Qed.

Lemma client_send_ok m (w : W) : message_ok m -> zlen (payload_wire m) < 2 ^ 30 ->
  zlen (payload_wire m) + 22 <= room sock w ->
  exists key w', client_send sock m (true, w) = (Ok true, (true, w')) /\ key_ok (Some key)
    /\ sent sock (masked_wire key m) w w'.
Proof.
  intros Hm Hl Hroom. destruct (client_send_run true m w Hm Hl) as (ok & w' & E & key & Hk & Ht).
  pose proof Ht as [Hok _]. destruct Hk as [Hk Hb]. pose proof (length_masked_wire key m Hk Hb). unfold masked_wire in *.
  rewrite (proj2 (Z.leb_le _ _)) in Hok by lia. subst ok. exists key, w'. split_and!; [done|done|]. by apply tried_ok.
Qed.

Lemma client_handle_refines m (w : W) : message_ok m -> 60 <= room sock w ->
  exists w', client_handle sock m (true, w) = (Ok tt, (negb (type m =? MSG_DISCONNECT), w'))
    /\ match client_reply m with
       | None => w' = w
       | Some r => exists key, key_ok (Some key) /\ sent sock (masked_wire key r) w w'
       end.
Proof.
  intros Hm Hroom. pose proof (fun r => client_reply_ok m r Hm) as Hr. rewrite client_reply_code in *. unfold client_handle.
  destruct (Z.eqb_spec (type m) MSG_PING) as [E|_]; [|destruct (Z.eqb_spec (type m) MSG_KISS_REQUEST) as [E|_]].
  1,2: destruct (Hr _ eq_refl) as (Hok & _ & Hl); destruct (client_send_ok _ w Hok) as (key & w' & Es & Hk & Hs); [lia|lia|];
    rewrite (ibind_run _ _ _ _ _ Es), E; exists w'; split; [done|by exists key].
  destruct (type m =? MSG_DISCONNECT); by exists w.
Qed.
End laws.

(** ** Properties *)

(** C19: the client's contract.  For every frame content of at most 1 MiB the
    active client goes on, answers a PING with a PONG of the same timestamp and
    a KISS_REQUEST with its KISS_RESPONSE, each in one masked frame, answers
    nothing else, ignores what does not decode, and stops being active exactly
    on DISCONNECT. *)
Theorem client_contract {W} `{SysLaws W} sock f (w : W) :
  isValid f = true -> isClose f = false ->
  is_bytes (WsFrame.payload f) -> zlen (WsFrame.payload f) <= MAX_MESSAGE_SIZE -> 60 <= room sock w ->
  exists b w', client_frame sock f (true, w) = (Ok true, (b, w'))
    /\ match decodeMessage (WsFrame.payload f) (zlen (WsFrame.payload f)) with
       | Ok m => b = negb (type m =? MSG_DISCONNECT)
           /\ match client_reply m with
              | None => w' = w
              | Some r => exists key, key_ok (Some key) /\ sent sock (masked_wire key r) w w'
              end
       | Throw _ => b = true /\ w' = w
       | Stuck => False
       end.
Proof.
  intros Hv Hc Hb Hl Hroom. unfold client_frame. rewrite Hv, Hc. cbn [negb orb].
  destruct (decodeMessage _ _) as [m|e|] eqn:Hd; [|by exists true, w|by destruct (decode_never_stuck _ Hb Hl)].
  destruct (decoded_small _ m Hb Hl Hd) as (Hm & _ & _).
  destruct (client_handle_refines sock m w Hm Hroom) as (w' & E & Hr).
  rewrite (ibind_run _ _ _ _ _ E). by eexists _, w'.
Qed.

Lemma client_contract_witness :
  exists b w', client_frame 7 demo_message (true, tape_of [] 60) = (Ok true, (b, w'))
    /\ match decodeMessage demo_request (zlen demo_request) with
       | Ok m => b = negb (type m =? MSG_DISCONNECT)
           /\ match client_reply m with
              | None => w' = tape_of [] 60
              | Some r => exists key, key_ok (Some key) /\ sent 7 (masked_wire key r) (tape_of [] 60) w'
              end
       | Throw _ => b = true /\ w' = tape_of [] 60
       | Stuck => False
       end.
Proof.
  apply (client_contract 7 demo_message (tape_of [] 60));
    [reflexivity|reflexivity|apply demo_request_bytes|vm_compute; discriminate|vm_compute; discriminate].
Defined.

(** Keep-alive, end to end.  When the PING that the server sends at time [t]
    arrives at an active client, the client receives it and sends one masked
    PONG; when those bytes arrive at the server, the session there receives
    them, renews its last-PONG time to the present, stays active, and sends
    nothing. *)
Theorem ping_pong_renews {Wc Ws} `{SysLaws Wc} `{SysLaws Ws} t c s st (wc : Wc) rest :
  is_i64 t -> active st = true -> session_ok st -> 60 <= room c wc ->
  incoming c wc = message_wire (ping_message t) ++ rest ->
  exists f wc1 wc2 out, wsRecvFrame 1 c false wc = (Ok f, wc1)
    /\ client_frame c f (true, wc1) = (Ok true, (true, wc2))
    /\ outgoing c wc2 = outgoing c wc ++ out
    /\ forall (ws : Ws) rest', incoming s ws = out ++ rest' -> 2 * MAX_MESSAGE_SIZE + 200 <= room s ws ->
       exists g ws1 ws2, wsRecvFrame 1 s true ws = (Ok g, ws1)
         /\ serve_frame s g (st, ws1) = (Ok true, (st <| lastPongTs := fst (sys_now ws1) |>, ws2))
         /\ outgoing s ws2 = outgoing s ws /\ incoming s ws2 = rest'.
Proof.
  intros Ht Ha Hst Hroom Hin.
  assert (message_ok (ping_message t) /\ zlen (payload_wire (ping_message t)) = 8) as [Hping Hpl].
  { split; [by unfold message_ok; cbn|]. unfold payload_wire. cbn -[be_bytes]. by rewrite length_be_bytes. }
  destruct (frame_content_ok (ping_message t) Hping eq_refl ltac:(unfold MAX_MESSAGE_SIZE; lia)) as (Hb & Hl & Hdec).
  destruct (recv_data_frame c None _ rest wc I Hb Hl Hin) as (f & wc1 & E1 & Hv & Hc & Hp & Hin1 & (Ho1 & Hr1 & _)).
  set (pong := pong_message (ping_message t)). rewrite <- Hr1 in Hroom.
  destruct (client_handle_refines c (ping_message t) wc1 Hping Hroom) as (wc2 & E2 & key & Hk & (Ho2 & _)).
  exists f, wc1, wc2, (masked_wire key pong). split_and!; [done| |by rewrite Ho2, Ho1|].
  { unfold client_frame. rewrite Hv, Hc, Hp, Hdec. cbn [negb orb]. by rewrite (ibind_run _ _ _ _ _ E2). }
  intros ws rest' Hins Hrs.
  assert (message_ok pong /\ zlen (payload_wire pong) = 8) as [Hpong Hpl2].
  { split; [by unfold message_ok; cbn|]. unfold payload_wire. cbn -[be_bytes]. by rewrite length_be_bytes. }
  destruct (frame_content_ok pong Hpong eq_refl ltac:(unfold MAX_MESSAGE_SIZE; lia)) as (Hb2 & Hl2 & Hdec2).
  destruct (recv_data_frame s (Some key) _ rest' ws Hk Hb2 Hl2 Hins)
    as (g & ws1 & E3 & Hv2 & Hc2 & Hp2 & Hin3 & (Ho3 & Hr3 & _)).
  destruct (handle_message_refines s st pong ws1 Ha Hst Hpong) as (ws2 & E4 & Hn & Hans);
    [right; rewrite Hpl2; unfold MAX_MESSAGE_SIZE; lia|lia|].
  change (reply_to _ (clientLang st) pong) with (@None Message) in Hans. destruct Hans as [(Ho4 & _) Hin4].
  exists g, ws1, ws2. split_and!; [done| |congruence|congruence].
  unfold serve_frame. rewrite Hv2, Hc2, Hp2, Hdec2. cbn [negb orb]. by rewrite (ibind_run _ _ _ _ _ E4).
Qed.

Lemma ping_pong_renews_witness :
  let wc := tape_of (message_wire (ping_message 1700000000000) ++ []) 100 in
  exists f wc1 wc2 out, wsRecvFrame 1 7 false wc = (Ok f, wc1)
    /\ client_frame 7 f (true, wc1) = (Ok true, (true, wc2))
    /\ outgoing 7 wc2 = outgoing 7 wc ++ out
    /\ forall (ws : tape silent) rest', incoming 7 ws = out ++ rest' -> 2 * MAX_MESSAGE_SIZE + 200 <= room 7 ws ->
       exists g ws1 ws2, wsRecvFrame 1 7 true ws = (Ok g, ws1)
         /\ serve_frame 7 g (demo_session, ws1) = (Ok true, (demo_session <| lastPongTs := fst (sys_now ws1) |>, ws2))
         /\ outgoing 7 ws2 = outgoing 7 ws /\ incoming 7 ws2 = rest'.
Proof.
  intros wc. apply (ping_pong_renews 1700000000000 7 7 demo_session wc []);
    [vm_compute; split; congruence|reflexivity|apply demo_session_ok|vm_compute; discriminate|vm_compute; reflexivity].
Defined.
