(* ===== verification/ClientThreads.v ===== *)
(** * The threads of the client (client/ws_client.cpp: main, tryConnect)

    [tryConnect] runs two threads on one connection: the main thread with the
    receive loop, and the thread that sends a random number every five seconds.
    As on the server, every access to the flag and every [::send] is a step of
    its own.  [cpstep] adds the connection attempts of [main] in front. *)

From stdpp Require Import gmap relations.
From S2P Require Import Prelude Random ByteIO Message Codec Socket WsFrame WsReceive Handshake Server Endpoint Client.

(** ** The code *)

(** Where the random thread is: not started, at the seeding of [rng], at
    [while (active)], in [sleep_for], at [if (!active) break;], at its message,
    in [sendFrame], at [active = false], returned. *)
Inductive rpc := RIdle | RSeed | RLoop | RSleep | RCheck | RAct | RSend (j : job) | RFail | RExit.

(** Where the main thread is: sending HELLO, at [while (active)], in
    [wsRecvFrame], with a frame, in [sendFrame], at [active = false] on
    DISCONNECT, at [active = false] of the cleanup, at the join, sending
    DISCONNECT, at the CLOSE frame, sending it, at [ws.close()], returned. *)
Inductive cpc :=
  | CHello (j : job) | CLoop | CRecv (r : receiving) | CServe (f : WSFrame) | CSend (j : job) | CStop
  | CClean | CJoin | CBye (j : job) | CCtl | CCtlSend (buf : bytes) (total : Z) | CClose | CDone.

Inductive cactor := CMain | CRandom.

(** The flag, the mutex, both threads, and [randomId] and [rng]. *)
Record client := Client {
  k_active : bool; k_lock : bool; k_main : cpc; k_random : rpc; k_id : Z; k_rng : engine;
}.

(** What the receive loop does with a frame. *)
Definition client_plan (frame : WSFrame) : result plan :=
  if negb (isValid frame) || isClose frame then Ok Leave
  else
    match decodeMessage (WsFrame.payload frame) (zlen (WsFrame.payload frame)) with
    | Ok msg =>
        if type msg =? MSG_PING then Ok (Reply (pong_message msg) false)
        else if type msg =? MSG_KISS_REQUEST then Ok (Reply kiss_response false)
        else if type msg =? MSG_DISCONNECT then Ok (Quiet true)
        else Ok (Quiet false)
    | Throw _ => Ok (Quiet false)
    | Stuck => Stuck
    end.

Section code.
Context {W : Type} `{Sys W} (sock : Z).

(** One step of the random thread.  [randomId++] at the maximum is undefined
    behaviour: there is no step then. *)
Definition exec_random (s : client) (w : W) : option (client * W) :=
  let '(Client b l m r id g) := s in
  let goto r := Client b l m r id g in
  match r with
  | RIdle => None
  | RSeed =>
      match random w with
      | (Ok seed, w) => Some (Client b l m RLoop 1 (mt_seed mt19937_64 seed), w)
      | _ => None
      end
  | RLoop => Some (goto (if b then RSleep else RExit), w)
  | RSleep => Some (goto RCheck, w)
  | RCheck => Some (goto (if b then RAct else RExit), w)
  | RAct =>
      let '(num, g) := mt_next mt19937_64 g in
      match encode (random_message id (i64 num)) with
      | Ok data => Some (Client b l m (RSend (JLock data)) id g, w)
      | _ => None
      end
  | RSend j =>
      match job_step sock masked_frame b l j w with
      | (Ok (Some (l, inl j)), w) => Some (Client b l m (RSend j) id g, w)
      | (Ok (Some (l, inr true)), w) => if id <? 2 ^ 63 - 1 then Some (Client b l m RLoop (id + 1) g, w) else None
      | (Ok (Some (l, inr false)), w) => Some (Client b l m RFail id g, w)
      | _ => None
      end
  | RFail => Some (Client false l m RExit id g, w)
  | RExit => None
  end.

(** One step of the main thread; an exception of the loop goes to the cleanup. *)
Definition exec_client (s : client) (w : W) : option (client * W) :=
  let '(Client b l m r id g) := s in
  let goto m := Client b l m r id g in
  match m with
  | CHello j =>
      match job_step sock masked_frame b l j w with
      | (Ok (Some (l, inl j)), w) => Some (Client b l (CHello j) r id g, w)
      | (Ok (Some (l, inr _)), w) => Some (Client b l CLoop RSeed id g, w)
      | _ => None
      end
  | CLoop => Some (goto (if b then CRecv (RFrame new_WSFrame false) else CClean), w)
  | CRecv x =>
      match recv_step sock false x w with
      | (Ok (inl x), w) => Some (goto (CRecv x), w)
      | (Ok (inr f), w) => Some (goto (CServe f), w)
      | (Throw _, w) => Some (goto CClean, w)
      | (Stuck, _) => None
      end
  | CServe f =>
      match client_plan f with
      | Ok Leave => Some (goto CClean, w)
      | Ok (Quiet stop) => Some (goto (if stop then CStop else CLoop), w)
      | Ok (Reply a _) =>
          match encode a with
          | Ok data => Some (goto (CSend (JLock data)), w)
          | Throw _ => Some (goto CClean, w)
          | Stuck => None
          end
      | Throw _ => Some (goto CClean, w)
      | Stuck => None
      end
  | CSend j =>
      match job_step sock masked_frame b l j w with
      | (Ok (Some (l, inl j)), w) => Some (Client b l (CSend j) r id g, w)
      | (Ok (Some (l, inr _)), w) => Some (Client b l CLoop r id g, w)
      | _ => None
      end
  | CStop => Some (Client false l CLoop r id g, w)
  | CClean => Some (Client false l CJoin r id g, w)
  | CJoin =>
      match r, encode disconnect_message with
      | RExit, Ok data => Some (goto (CBye (JLock data)), w)
      | _, _ => None
      end
  | CBye j =>
      match job_step sock masked_frame b l j w with
      | (Ok (Some (l, inl j)), w) => Some (Client b l (CBye j) r id g, w)
      | (Ok (Some (l, inr _)), w) => Some (Client b l CCtl r id g, w)
      | _ => None
      end
  | CCtl =>
      match control_out 0x08 [] true w with
      | (Ok (Some out), w) => Some (goto (CCtlSend out 0), w)
      | (Ok None, w) => Some (goto CClose, w)
      | _ => None
      end
  | CCtlSend buf total =>
      if negb (total <? zlen buf) then Some (goto CClose, w)
      else
        match send_once sock buf total w with
        | (Ok (Some t), w) => Some (goto (CCtlSend buf t), w)
        | (Ok None, w) => Some (goto CClose, w)
        | _ => None
        end
  | CClose => Some (goto CDone, sys_close sock w)
  | CDone => None
  end.

Definition cexec (a : cactor) (s : client) (w : W) : option (client * W) :=
  match a with CMain => exec_client s w | CRandom => exec_random s w end.

Inductive cstep : relation (client * W) :=
  | cstep_exec a s w c : cexec a s w = Some c -> cstep (s, w) c.

(** After [connect]: the flag is set and HELLO is to be sent. *)
Definition client_begin : result client :=
  let* data := encode hello_message in
  Ok (Client true false (CHello (JLock data)) RIdle 1 []).
End code.

(** [main]: before an attempt, in a session on a socket, returned. *)
Inductive cprog := QTry (attempt : Z) | QRun (sock : Z) (s : client) | QExit (code : Z).

Section main.
Context {W : Type} `{Sys W} (garbage : bytes) (env_path hostEnv portEnv : option bytes).

(** The connection part of [tryConnect]. *)
Definition try_connect (host : bytes) (port : Z) : io W (option (Z * client)) :=
  let! t := nowMs in
  let userId := str "cpp-client-" ++ to_string t in
  let! (ok, ws) := client_connect garbage env_path host port userId in
  if negb ok then iret None
  else let! s := ilift client_begin in iret (Some (cl_sock ws, s)).

Definition main_host : bytes := match hostEnv with Some h => h | None => str "127.0.0.1" end.

(** A step of the program: an attempt, or a step of the session. *)
Definition exec_cprog (a : cactor) (p : cprog) (w : W) : option (cprog * W) :=
  match p with
  | QTry attempt =>
      match try_connect main_host (main_port portEnv) w with
      | (Ok (Some (sock, s)), w) => Some (QRun sock s, w)
      | (Ok None, w) => Some (if attempt + 1 <=? 3 then QTry (attempt + 1) else QExit 1, w)
      | _ => None
      end
  | QRun sock s =>
      match k_main s, a with
      | CDone, CMain => Some (QExit 0, w)
      | _, _ => match cexec sock a s w with Some (s, w) => Some (QRun sock s, w) | None => None end
      end
  | QExit _ => None
  end.

Inductive cpstep : relation (cprog * W) :=
  | cpstep_exec a p w c : exec_cprog a p w = Some c -> cpstep (p, w) c.
End main.

(** ** What the steps do *)

Definition held_cpc (m : cpc) : list job := match m with CHello j | CSend j | CBye j => held j | _ => [] end.
Definition held_rpc (r : rpc) : list job := match r with RSend j => held j | _ => [] end.
Definition cholders (s : client) : list job := held_cpc (k_main s) ++ held_rpc (k_random s).

(** The goodbye is not in the middle of a frame. *)
Definition job_dry (j : job) : Prop := match j with JWrite _ _ => False | _ => True end.

(** [buf] is a CLOSE frame of the client. *)
Definition close_wire (buf : bytes) : Prop := exists key, key_ok (Some key) /\ buf = wire (control_frame 8 (Some key) []).

(** The answers of the receive loop, and the message of the random thread. *)
Definition answer (m : Message) : Prop := type m = MSG_PONG \/ type m = MSG_KISS_RESPONSE.
Definition numbered (id : Z) (m : Message) : Prop := exists num, m = random_message id num.

Definition cpc_ok (m : cpc) : Prop :=
  match m with
  | CHello j => job_ok true (eq hello_message) j
  | CSend j => job_ok true answer j
  | CBye j => job_ok true (eq disconnect_message) j /\ job_dry j
  | CRecv r => recv_ok r
  | CServe f => frame_in_hand f
  | CCtlSend buf t => close_wire buf /\ 0 <= t <= zlen buf
  | _ => True
  end.
Definition rpc_ok (id : Z) (r : rpc) : Prop := match r with RSend j => job_ok true (numbered id) j | _ => True end.

Definition leaving (m : cpc) : Prop := match m with CJoin | CBye _ | CCtl | CCtlSend _ _ | CClose | CDone => True | _ => False end.
Definition joined (m : cpc) : Prop := match m with CBye _ | CCtl | CCtlSend _ _ | CClose | CDone => True | _ => False end.
Definition greeting (m : cpc) : Prop := match m with CHello _ => True | _ => False end.
Definition clive (m : cpc) : bool := match m with CDone => false | _ => true end.

Record clocal (s : client) : Prop := {
  cl_flag : leaving (k_main s) -> k_active s = false;
  cl_join : joined (k_main s) -> k_random s = RExit;
  cl_greet : greeting (k_main s) <-> k_random s = RIdle;
  cl_main : cpc_ok (k_main s);
  cl_random : rpc_ok (k_id s) (k_random s);
  cl_id : 1 <= k_id s < 2 ^ 63;
  cl_lock : length (cholders s) = (if k_lock s then 1 else 0)%nat;
}.

Section steps.
Context {W : Type} `{SysLaws W} (sock : Z).

(** Every step keeps the client in order; the socket is closed by the last
    step of the main thread only. *)
Record cexec_effect (s : client) (w : W) (s' : client) (w' : W) : Prop := {
  ce_local : clocal s';
  ce_opened : opened w' = (if clive (k_main s) && negb (clive (k_main s')) then opened w ∖ {[ sock ]} else opened w);
  ce_live : clive (k_main s') = true -> clive (k_main s) = true;
  ce_active : k_active s' = true -> k_active s = true;
}.

Lemma exec_random_effect s w s' w' : clocal s -> exec_random sock s w = Some (s', w') -> cexec_effect s w s' w'.
Proof.
  intros [Hfl Hj Hgr Hm Hr Hid Hlen] Hx. destruct s as [b l m r id g]. unfold cholders in Hlen. cbn [k_active k_lock k_main k_random k_id k_rng] in *.
  assert (forall (b' l' : bool) r' id' g' w1, (b' = true -> b = true) -> rpc_ok id' r' -> opened w1 = opened w -> 1 <= id' < 2 ^ 63 -> r <> RExit -> r <> RIdle -> r' <> RIdle ->
    length (held_cpc m ++ held_rpc r') = (if l' then 1 else 0)%nat ->
    cexec_effect (Client b l m r id g) w (Client b' l' m r' id' g') w1) as Hgo.
  { intros b' l' r' id' g' w1 Hb Hok Hop Hid' Hne1 Hne2 Hne3 Hl'. split; cbn [k_active k_main]; try done; [|by destruct (clive m)].
    split; cbn [k_active k_lock k_main k_random k_id]; try done.
    - intros Hle. specialize (Hfl Hle). destruct b'; [|done]. specialize (Hb eq_refl). congruence.
    - intros Hjo. by specialize (Hj Hjo).
    - split; [intros Hgreet; by apply Hgr in Hgreet|done]. }
  unfold exec_random in Hx. destruct r as [| | | | | |j| |]; cbn [held_rpc rpc_ok] in *.
  - done.
  - destruct (random w) as [[seed|e|] w1] eqn:Es; [|done..]. injection Hx as <- <-. apply Hgo; try done.
    unfold random in Es. pose proof (random_law sock w) as L. destruct (sys_random w) as [v w2]. injection Es as <- <-. apply L.
  - injection Hx as <- <-. apply Hgo; try done; by destruct b.
  - injection Hx as <- <-. by apply Hgo.
  - injection Hx as <- <-. apply Hgo; try done; by destruct b.
  - destruct (mt_next _ g) as [num g']. destruct (random_message_ok id (i64 num)) as (Hmsg & _ & Hpl); [solve_width|apply i64_range|].
    rewrite encode_frame in Hx by done. injection Hx as <- <-. apply Hgo; try done. exists (random_message id (i64 num)). split_and!; [by eexists|done|lia|done].
  - destruct (job_step_run sock masked_frame true _ b l j w Hr) as (o & w1 & E & Ho). rewrite E in Hx.
    destruct o as [[l1 x]|]; [|done]. destruct (job_moves_ok _ _ _ _ _ _ _ _ _ _ Ho Hr) as [Hop Hx'].
    rewrite <- (app_nil_r (held j)) in Hlen. destruct (holders_move _ _ _ [] _ _ _ _ _ _ _ Ho Hlen) as (_ & _ & Hl'). rewrite app_nil_r in Hl'.
    destruct x as [j'|[]]; [|destruct (Z.ltb_spec id (2 ^ 63 - 1)); [|done]|]; injection Hx as <- <-; apply Hgo; (done || lia).
  - injection Hx as <- <-. by apply Hgo.
  - done.
Qed.

Lemma client_plan_run f : frame_in_hand f -> exists p, client_plan f = Ok p
  /\ match p with Reply m stop => answer m /\ message_ok m /\ zlen (payload_wire m) < 2 ^ 30 /\ stop = false | _ => True end.
Proof.
  intros Hf. unfold client_plan. destruct (isValid f) eqn:Hv; cbn [negb orb]; [|by eexists]. destruct (Hf Hv) as [Hb Hl].
  case_match; [by eexists|]. destruct (decodeMessage _ _) as [m|e|] eqn:Hd; [|by eexists|by destruct (decode_never_stuck _ Hb Hl)].
  destruct (decoded_small _ m Hb Hl Hd) as (Hm & _ & _). pose proof (fun r => client_reply_ok m r Hm) as Hr. rewrite client_reply_code in Hr.
  destruct (type m =? MSG_PING); [|destruct (type m =? MSG_KISS_REQUEST)].
  1,2: destruct (Hr _ eq_refl) as (Hok & _ & Hlen); eexists; split; [reflexivity|]; split_and!; [by (left + right)|done|lia|done].
  case_match; by eexists.
Qed.

(** A step of a call of [sendFrame] of the main thread. *)
Lemma main_job_effect says (b l : bool) j r (w : W) : job_ok true says j -> length (held j ++ held_rpc r) = (if l then 1 else 0)%nat ->
  forall (o : bool * (job + bool)) w1, job_step sock masked_frame b l j w = (Ok (Some o), w1) ->
  opened w1 = opened w /\ match o.2 with inl j' => job_ok true says j' /\ (b = false -> job_dry j -> job_dry j') | inr _ => True end
  /\ length (held_after o.2 ++ held_rpc r) = (if o.1 then 1 else 0)%nat.
Proof.
  intros Hok Hl [l1 x] w1 E. destruct (job_step_run sock masked_frame true says b l j w Hok) as (o & w2 & E2 & Ho). rewrite E in E2. injection E2 as <- <-.
  destruct (job_moves_ok _ _ _ _ _ _ _ _ _ _ Ho Hok) as [Hop Hx']. destruct (holders_move _ _ [] _ _ _ _ _ _ _ _ Ho Hl) as (_ & _ & Hl').
  cbn [fst snd app] in *. split_and!; [done| |done]. destruct x as [j'|]; [|done]. split; [done|]. intros -> Hdry.
  by inversion Ho; subst.
Qed.

Lemma exec_client_effect s w s' w' : clocal s -> exec_client sock s w = Some (s', w') -> cexec_effect s w s' w'.
Proof.
  intros [Hfl Hj Hgr Hm Hr Hid Hlen] Hx. destruct s as [b l m r id g]. unfold cholders in Hlen. cbn [k_active k_lock k_main k_random k_id k_rng] in *.
  assert (forall (b' l' : bool) m' r' w1, (b' = true -> b = true) -> cpc_ok m' ->
    (leaving m' -> b' = false) -> (joined m' -> r' = RExit) -> (greeting m' <-> r' = RIdle) -> rpc_ok id r' ->
    opened w1 = (if clive m && negb (clive m') then opened w ∖ {[ sock ]} else opened w) ->
    (clive m' = true -> clive m = true) ->
    length (held_cpc m' ++ held_rpc r') = (if l' then 1 else 0)%nat ->
    cexec_effect (Client b l m r id g) w (Client b' l' m' r' id g) w1) as Hgo.
  { intros b' l' m' r' w1 Hb Hm' Hle Hjo Hgre Hr' Hop Hli Hl'. by split; cbn [k_active k_lock k_main k_random k_id k_rng]; [split|..]. }
  pose proof (fun says j => main_job_effect says b l j r w) as Hjob.
  destruct m as [j| |x|f|j| | | |j| |buf t| |]; cbn [exec_client held_cpc cpc_ok leaving joined greeting clive andb] in *.
  - destruct (job_step sock masked_frame b l j w) as [[[[l1 x]|]|e|] w1] eqn:E; [|done..].
    destruct (Hjob _ j Hm Hlen _ _ E) as (Hop & Hx' & Hl'). cbn [fst snd] in *. rewrite (proj1 Hgr I) in *.
    destruct x as [j'|ok]; injection Hx as <- <-; apply Hgo; try done. by destruct Hx'.
  - injection Hx as <- <-. by apply Hgo; destruct b.
  - destruct (recv_step_run sock false x w Hm) as (y & w1 & E & [Hop _ Hout _ _]). rewrite E in Hx.
    by destruct y as [r'|f]; injection Hx as <- <-; apply Hgo.
  - destruct (client_plan_run f Hm) as (p & E & Hp). rewrite E in Hx. destruct p as [|stop|a stop].
    + by injection Hx as <- <-; apply Hgo.
    + by injection Hx as <- <-; apply Hgo; destruct stop.
    + destruct Hp as (Hans & Ha & Hal & _). rewrite encode_frame in Hx by done. injection Hx as <- <-. apply Hgo; try done. by exists a.
  - destruct (job_step sock masked_frame b l j w) as [[[[l1 x]|]|e|] w1] eqn:E; [|done..].
    destruct (Hjob _ j Hm Hlen _ _ E) as (Hop & Hx' & Hl'). cbn [fst snd] in *.
    destruct x as [j'|ok]; injection Hx as <- <-; apply Hgo; try done. by destruct Hx'.
  - by injection Hx as <- <-; apply Hgo.
  - by injection Hx as <- <-; apply Hgo.
  - destruct literal_messages_ok as (_ & Hd & _ & Hdl). rewrite encode_frame in Hx by done. destruct r; try done.
    injection Hx as <- <-. apply Hgo; try done. split; [|done]. exists disconnect_message. split_and!; [done|done|lia|done].
  - destruct Hm as [Hm Hdry]. destruct (job_step sock masked_frame b l j w) as [[[[l1 x]|]|e|] w1] eqn:E; [|done..].
    destruct (Hjob _ j Hm Hlen _ _ E) as (Hop & Hx' & Hl'). cbn [fst snd] in *.
    destruct x as [j'|ok]; injection Hx as <- <-; apply Hgo; try done; auto. destruct Hx' as [Ho Hd]. split; [done|]. auto.
  - destruct (control_out_run sock 8 [] true w) as (key & w1 & E & Hk & Hko & (_ & _ & Hop) & _); [lia|cbn; lia|]. rewrite E in Hx.
    injection Hx as <- <-. destruct key as [key|]; [|done]. apply Hgo; try done; auto. cbn [cpc_ok]. split; [by exists key|lia].
  - destruct Hm as [(key & Hk & ->) Ht]. pose proof (length_control_wire 8 (Some key) [] Hk) as Hwl. cbn [length] in Hwl.
    destruct (Z.ltb_spec t (zlen (wire (control_frame 8 (Some key) [])))); cbn [negb] in Hx; [|by injection Hx as <- <-; apply Hgo; auto].
    destruct (send_once_run sock (wire (control_frame 8 (Some key) [])) t w) as (o & w1 & E & Ho); [lia|lia|]. rewrite E in Hx.
    destruct o as [t'|]; injection Hx as <- <-; apply Hgo; try done; auto; try (by destruct_and? Ho; match goal with S : sent _ _ _ _ |- _ => apply S end).
    split; [by exists key|]. lia.
  - injection Hx as <- <-. apply Hgo; try done; auto. apply close_law.
  - done.
Qed.
End steps.
