(* ===== verification/ClientRuns.v ===== *)
(** * Runs of the client (client/ws_client.cpp: main, tryConnect)

    What holds in every interleaving of the two threads of [tryConnect]: the
    life of the socket, mutual exclusion, the stream of whole masked frames, the
    goodbye, the end of an inactive client; and what [main] does with its three
    attempts. *)

From stdpp Require Import gmap relations.
From S2P Require Import Prelude Random ByteIO Message Codec Socket WsFrame WsReceive Handshake Server Endpoint Client ClientThreads.

Section runs.
Context {W : Type} `{SysLaws W} (sock : Z).

Lemma cstep_effect s w s' w' : clocal s -> cstep sock (s, w) (s', w') -> cexec_effect sock s w s' w'.
Proof.
  intros Hl Hst. inversion Hst as [a ? ? ? Hx]; subst. destruct a; [by apply exec_client_effect|by apply exec_random_effect].
Qed.

Lemma begin_local s : client_begin = Ok s -> clocal s.
Proof.
  destruct literal_messages_ok as (Hm & _ & Hl & _). unfold client_begin. rewrite encode_frame by done. intros [= <-].
  split; cbn; try done. exists hello_message. split_and!; [done|done|lia|done].
Qed.

Lemma csteps_local c c' : rtc (cstep sock) c c' -> clocal c.1 -> clocal c'.1 /\
  opened c'.2 = (if clive (k_main c.1) && negb (clive (k_main c'.1)) then opened c.2 ∖ {[ sock ]} else opened c.2)
  /\ (clive (k_main c'.1) = true -> clive (k_main c.1) = true).
Proof.
  induction 1 as [c|c [s1 w1] c' Hst _ IH]; intros Hl; [by destruct (clive (k_main c.1))|]. destruct c as [s0 w0].
  destruct (cstep_effect _ _ _ _ Hl Hst) as [Hl1 Hop Hli _]. destruct (IH Hl1) as (Hl' & Hop' & Hli'). cbn [fst snd] in *.
  split; [done|]. split; [|auto]. rewrite Hop', Hop.
  destruct (clive (k_main c'.1)) eqn:E'; [rewrite (Hli' eq_refl), andb_false_r in *; by rewrite andb_false_r|].
  destruct (clive (k_main s1)) eqn:E1; [rewrite (Hli eq_refl); done|]. by destruct (clive (k_main s0)).
Qed.

Lemma creachable s0 (w : W) s w' : client_begin = Ok s0 -> rtc (cstep sock) (s0, w) (s, w') ->
  clocal s /\ opened w' = (if clive (k_main s) then opened w else opened w ∖ {[ sock ]}).
Proof.
  intros Hb Hr. pose proof (begin_local s0 Hb) as Hl. destruct (csteps_local _ _ Hr Hl) as (Hl' & Hop & Hli). cbn [fst snd] in *.
  split; [done|]. rewrite Hop. unfold client_begin in Hb. destruct (encode _); try done. injection Hb as <-. cbn.
  by destruct (clive (k_main s)).
Qed.

(** ** No deadlock *)

Lemma cjob_can says b l j (w : W) : job_ok true says j -> l = false \/ job_held j = true ->
  exists l' x w', job_step sock masked_frame b l j w = (Ok (Some (l', x)), w').
Proof.
  intros Hj Hcase. destruct (job_step_run sock masked_frame true says b l j w Hj) as (o & w' & E & Ho).
  destruct o as [[l' x]|]; [by exists l', x, w'|]. destruct Ho as [-> Hn]. destruct Hcase as [?|Hh]; [done|congruence].
Qed.

(** The mutex is free, or the one thread in [sendFrame] has it. *)
Lemma cholder_cases s : clocal s -> k_lock s = false
  \/ (exists j, held_cpc (k_main s) = [j] /\ held_rpc (k_random s) = []) \/ (exists j, held_cpc (k_main s) = [] /\ held_rpc (k_random s) = [j]).
Proof.
  intros Hl. pose proof (cl_lock s Hl) as Hlen. destruct (k_lock s); [right|by left]. unfold cholders in Hlen.
  rewrite length_app in Hlen. destruct (held_cpc (k_main s)) as [|j [|]], (held_rpc (k_random s)) as [|j' [|]]; cbn in Hlen; try lia; eauto.
Qed.

Lemma held_is j x : held j = [x] -> job_held j = true.
Proof. unfold held. by destruct (job_held j). Qed.

Lemma random_can s (w : W) : clocal s -> k_random s <> RExit -> k_random s <> RIdle -> k_id s < 2 ^ 63 - 1 ->
  k_lock s = false \/ held_rpc (k_random s) <> [] -> is_Some (exec_random sock s w).
Proof.
  intros [_ _ _ _ Hr Hid _] Hne Hni Hmax Hcase. destruct s as [b l m r id g]. cbn [k_random k_lock k_id] in *. unfold exec_random.
  destruct r as [| | | | | |j| |]; [done| |by eexists..| | |by eexists|done].
  - unfold random. destruct (sys_random w) as [v w1]. by eexists.
  - destruct (mt_next _ g) as [num g']. destruct (random_message_ok id (i64 num)) as (Hmsg & _ & _); [solve_width|apply i64_range|].
    rewrite encode_frame by done. by eexists.
  - destruct (cjob_can _ b l j w Hr) as (l' & x & w1 & E).
    { destruct Hcase as [?|Hh]; [by left|right]. cbn [held_rpc] in Hh. unfold held in Hh. by destruct (job_held j). }
    rewrite E. destruct x as [j'|[]]; [by eexists| |by eexists]. rewrite (proj2 (Z.ltb_lt _ _)) by done. by eexists.
Qed.

Lemma main_can s (w : W) : clocal s -> k_main s <> CDone -> k_lock s = false \/ held_cpc (k_main s) <> [] ->
  k_main s <> CJoin \/ k_random s = RExit -> is_Some (exec_client sock s w).
Proof.
  intros [_ _ _ Hm _ _ _] Hnd Hcase Hjoin. destruct s as [b l m r id g]. cbn [k_main k_lock k_random] in *.
  assert (forall says j, job_ok true says j -> l = false \/ held j <> [] -> exists l' x w', job_step sock masked_frame b l j w = (Ok (Some (l', x)), w')) as Hjob.
  { intros says j Hj Hc. apply (cjob_can says); [done|]. destruct Hc as [?|Hh]; [by left|right]. unfold held in Hh. by destruct (job_held j). }
  destruct m as [j| |x|f|j| | | |j| |buf t| |]; cbn [exec_client cpc_ok held_cpc] in *; try done; try by eexists.
  - destruct (Hjob _ j Hm Hcase) as (l' & x & w1 & E). rewrite E. destruct x; by eexists.
  - destruct (recv_step_run sock false x w Hm) as (y & w1 & E & _). rewrite E. destruct y; by eexists.
  - destruct (client_plan_run f Hm) as (p & E & Hp). rewrite E. destruct p; [by eexists..|]. destruct Hp as (_ & Ha & _). rewrite encode_frame by done. by eexists.
  - destruct (Hjob _ j Hm Hcase) as (l' & x & w1 & E). rewrite E. destruct x; by eexists.
  - destruct Hjoin as [?| ->]; [done|]. destruct literal_messages_ok as (_ & Hd & _). rewrite encode_frame by done. by eexists.
  - destruct Hm as [Hm _]. destruct (Hjob _ j Hm Hcase) as (l' & x & w1 & E). rewrite E. destruct x; by eexists.
  - destruct (control_out_run sock 8 [] true w) as (key & w1 & E & _); [lia|cbn; lia|]. rewrite E. by eexists.
  - destruct (negb _) eqn:Ht; [by eexists|]. destruct Hm as [(key & Hk & ->) Hr].
    pose proof (length_control_wire 8 (Some key) [] Hk) as Hwl. cbn [length] in Hwl. apply negb_false_iff, Z.ltb_lt in Ht.
    destruct (send_once_run sock (wire (control_frame 8 (Some key) [])) t w) as (o & w1 & E & _); [lia|lia|]. rewrite E. destruct o; by eexists.
Qed.

Lemma cprogress s (w : W) : clocal s -> k_main s <> CDone -> k_id s < 2 ^ 63 - 1 -> exists c, cstep sock (s, w) c.
Proof.
  intros Hl Hnd Hid. assert (is_Some (exec_client sock s w) \/ is_Some (exec_random sock s w)) as [[c Hc]|[c Hc]];
    [|exists c; by apply (cstep_exec sock CMain)|exists c; by apply (cstep_exec sock CRandom)].
  destruct (cholder_cases s Hl) as [Hfree|[(j & Hm & _)|(j & Hm & Hr)]].
  - assert (k_main s = CJoin \/ k_main s <> CJoin) as [Em|Hnj] by (destruct (k_main s); auto); [|left; apply main_can; auto].
    assert (k_random s = RExit \/ k_random s <> RExit) as [Hex|Hne] by (destruct (k_random s); auto); [left; apply main_can; auto|].
    right. apply random_can; auto. intros E. apply (cl_greet s Hl) in E. by rewrite Em in E.
  - left. apply main_can; auto; [right; by rewrite Hm|left; by intros E; rewrite E in Hm].
  - right. apply random_can; auto; try (intros E; by rewrite E in Hr). right. by rewrite Hr.
Qed.

(** ** The end of an inactive client *)

Definition weight_random (r : rpc) : nat :=
  match r with
  | RExit => 0 | RLoop | RCheck | RFail => 1 | RIdle | RSeed | RSleep => 2 | RSend j => 1 + job_weight j | RAct => 5
  end.
Definition weight_client (m : cpc) (w : W) : nat :=
  match m with
  | CDone => 0 | CClose => 1 | CCtlSend buf t => 2 + (length buf - Z.to_nat t) | CCtl => 9 | CBye j => 9 + job_weight j
  | CJoin => 13 | CClean => 14 | CLoop => 15 | CStop => 16 | CSend j | CHello j => 15 + job_weight j
  | CServe _ => 19 | CRecv r => 19 + recv_measure sock r w
  end.
Definition cweight (c : client * W) : nat := weight_client (k_main c.1) c.2 + weight_random (k_random c.1).

Lemma weight_client_mono m (w w' : W) : (length (incoming sock w') <= length (incoming sock w))%nat ->
  (weight_client m w' <= weight_client m w)%nat.
Proof. intros Hi. destruct m; cbn [weight_client]; try lia. unfold recv_measure. lia. Qed.

Lemma random_weight s w s' w' : quiet_peer W -> clocal s -> k_active s = false -> exec_random sock s w = Some (s', w') ->
  (cweight (s', w') < cweight (s, w))%nat.
Proof.
  intros Hq Hl Ha Hx. pose proof (cl_random s Hl) as Hr. pose proof (cl_id s Hl) as Hid. clear Hl.
  destruct s as [b l m r id g]. cbn [k_active k_random k_id] in *. subst b. unfold cweight. cbn [fst snd k_main k_random].
  assert (forall (b' l' : bool) r' id' g' w1, (s', w') = (Client b' l' m r' id' g', w1) -> (weight_random r' < weight_random r)%nat ->
    (length (incoming sock w1) <= length (incoming sock w))%nat ->
    (weight_client (k_main s') w' + weight_random (k_random s') < weight_client m w + weight_random r)%nat) as Hgo.
  { intros b' l' r' id' g' w1 [= -> ->] Hlt Hin. cbn [k_main k_random]. pose proof (weight_client_mono m w w1 Hin). lia. }
  unfold exec_random in Hx. destruct r as [| | | | | |j| |]; [done|..|done].
  - unfold random in Hx. pose proof (random_law sock w) as L. destruct (sys_random w) as [v w1]. injection Hx as <- <-.
    destruct L as (_ & Hin & _). eapply Hgo; [done|cbn; lia|by rewrite Hin].
  - injection Hx as <- <-. eapply Hgo; [done|cbn; lia|done].
  - injection Hx as <- <-. eapply Hgo; [done|cbn; lia|done].
  - injection Hx as <- <-. eapply Hgo; [done|cbn; lia|done].
  - destruct (mt_next _ g) as [num g']. destruct (encode _) as [data|e|]; [|done..]. injection Hx as <- <-.
    eapply Hgo; [done|cbn; lia|done].
  - destruct (job_step sock masked_frame false l j w) as [[[[l1 x]|]|e|] w1] eqn:E; [|done..].
    apply (job_step_weight sock masked_frame true (numbered id)) in E as [Hw Hin]; [|done..].
    destruct x as [j'|[]]; [|destruct (id <? _); [|done]|]; injection Hx as <- <-; (eapply Hgo; [done| |by rewrite Hin]); cbn [weight_random]; lia.
  - injection Hx as <- <-. eapply Hgo; [done|cbn; lia|done].
Qed.

Lemma client_weight s w s' w' : quiet_peer W -> clocal s -> k_active s = false -> exec_client sock s w = Some (s', w') ->
  (cweight (s', w') < cweight (s, w))%nat.
Proof.
  intros Hq Hl Ha Hx. pose proof (cl_main s Hl) as Hm. pose proof (cl_greet s Hl) as Hgr. clear Hl.
  destruct s as [b l m r id g]. cbn [k_active k_main k_random] in *. subst b. unfold cweight. cbn [fst snd k_main k_random].
  assert (forall (b' l' : bool) m' r' w1, (s', w') = (Client b' l' m' r' id g, w1) -> (weight_random r' <= weight_random r)%nat ->
    (weight_client m' w1 < weight_client m w)%nat ->
    (weight_client (k_main s') w' + weight_random (k_random s') < weight_client m w + weight_random r)%nat) as Hgo.
  { intros b' l' m' r' w1 [= -> ->] Hr Hlt. cbn [k_main k_random]. lia. }
  pose proof (fun says j => job_step_weight sock masked_frame true says false j l w) as Hjob.
  destruct m as [j| |x|f|j| | | |j| |buf t| |]; cbn [exec_client cpc_ok weight_client greeting] in *.
  - destruct (job_step sock masked_frame false l j w) as [[[[l1 x]|]|e|] w1] eqn:E; [|done..]. eapply Hjob in E as [Hw _]; [|done|done|exact Hm].
    rewrite (proj1 Hgr I) in *. destruct x as [j'|ok]; injection Hx as <- <-; (eapply Hgo; [done| |]); cbn [weight_client weight_random]; lia.
  - injection Hx as <- <-. eapply Hgo; [done|done|cbn; lia].
  - destruct (recv_step_run sock false x w Hm) as (y & w1 & E & [_ _ _ _ Hme]). rewrite E in Hx. specialize (Hme Hq).
    destruct y as [x'|f]; injection Hx as <- <-; (eapply Hgo; [done|done|]); cbn [weight_client]; [lia|]. unfold recv_measure. destruct x; lia.
  - destruct (client_plan f) as [[|stop|a stop]|e|]; [| |destruct (encode a); [| |done]| |done]; injection Hx as <- <-;
      (eapply Hgo; [done|done|]); cbn; try lia. destruct stop; cbn; lia.
  - destruct (job_step sock masked_frame false l j w) as [[[[l1 x]|]|e|] w1] eqn:E; [|done..]. eapply Hjob in E as [Hw _]; [|done|done|exact Hm].
    destruct x as [j'|ok]; injection Hx as <- <-; (eapply Hgo; [done|done|]); cbn [weight_client]; lia.
  - injection Hx as <- <-. eapply Hgo; [done|done|cbn; lia].
  - injection Hx as <- <-. eapply Hgo; [done|done|cbn; lia].
  - destruct r; try done. destruct (encode _) as [data|e|]; [|done..]. injection Hx as <- <-. eapply Hgo; [done|done|cbn; lia].
  - destruct Hm as [Hm _]. destruct (job_step sock masked_frame false l j w) as [[[[l1 x]|]|e|] w1] eqn:E; [|done..]. eapply Hjob in E as [Hw _]; [|done|done|exact Hm].
    destruct x as [j'|ok]; injection Hx as <- <-; (eapply Hgo; [done|done|]); cbn [weight_client]; lia.
  - destruct (control_out_run sock 8 [] true w) as (key & w1 & E & _ & Hk & _); [lia|cbn; lia|]. rewrite E in Hx. injection Hx as <- <-.
    pose proof (length_control_wire 8 key [] Hk) as Hwl. cbn [length] in Hwl. eapply Hgo; [done|done|]. cbn [weight_client]. lia.
  - destruct (negb _) eqn:Ht; [injection Hx as <- <-; eapply Hgo; [done|done|cbn; lia]|]. destruct Hm as [(key & Hk & ->) Hr].
    pose proof (length_control_wire 8 (Some key) [] Hk) as Hwl. cbn [length] in Hwl. apply negb_false_iff, Z.ltb_lt in Ht.
    destruct (send_once_run sock (wire (control_frame 8 (Some key) [])) t w) as (o & w1 & E & Ho); [lia|lia|]. rewrite E in Hx.
    destruct o as [t'|]; injection Hx as <- <-; (eapply Hgo; [done|done|]); cbn [weight_client]; lia.
  - injection Hx as <- <-. eapply Hgo; [done|done|cbn; lia].
  - done.
Qed.

Lemma inactive_csn (c : client * W) : quiet_peer W -> clocal c.1 -> k_active c.1 = false -> sn (cstep sock) c.
Proof.
  intros Hq. assert (forall n c, (cweight c < n)%nat -> clocal c.1 -> k_active c.1 = false -> sn (cstep sock) c) as Hn.
  { clear c. induction n as [|n IH]; intros [s0 w0] Hw Hl Ha; [lia|]. constructor. intros [s1 w1] Hc'. unfold flip in Hc'.
    assert (cweight (s1, w1) < cweight (s0, w0))%nat as Hlt.
    { inversion Hc' as [a ? ? ? Hx]; subst. destruct a; [by apply client_weight|by apply random_weight]. }
    destruct (cstep_effect _ _ _ _ Hl Hc') as [Hl1 _ _ Hact]. cbn [fst] in *. apply IH; [lia|done|]. cbn [fst].
    destruct (k_active s1); [by rewrite Hact in Ha|done]. }
  apply (Hn (S (cweight c))). lia.
Qed.

(** ** The stream *)

(** The main thread is sending a control frame. *)
Definition controlling (m : cpc) : bool :=
  match m with CRecv r => replying r | CCtlSend _ _ => true | _ => false end.

Inductive cplain : relation (client * W) :=
  | cplain_exec a s w c : cexec sock a s w = Some c -> (a = CMain -> controlling (k_main s) = false) -> cplain (s, w) c.

(** The messages from client to server (PROTOCOL.md, section 4) that the client
    sends, and the ones after its HELLO. *)
Definition client_says (m : Message) : Prop := type m ∈ [MSG_HELLO; MSG_KISS_RESPONSE; MSG_PONG; MSG_RANDOM_NUMBER].
Definition later (m : Message) : Prop := answer m \/ type m = MSG_RANDOM_NUMBER.

(** The identifiers of the random numbers among the messages, in order. *)
Definition random_ids (ms : list Message) : list Z :=
  omap (fun m => if type m =? MSG_RANDOM_NUMBER then Some (randomId m) else None) ms.

(** HELLO comes first. *)
Definition opens (ms : list Message) : Prop := exists rest, ms = hello_message :: rest /\ Forall later rest.

Lemma later_says m : later m -> client_says m.
Proof. unfold later, answer, client_says. rewrite !elem_of_cons. tauto. Qed.
Lemma opens_snoc ms m : opens ms -> later m -> opens (ms ++ [m]).
Proof. intros (rest & -> & Hr) Hm. exists (rest ++ [m]). split; [done|]. apply Forall_app. split; [done|]. by apply Forall_singleton. Qed.

Lemma answer_ids ms m : answer m -> random_ids (ms ++ [m]) = random_ids ms.
Proof. intros Hm. unfold random_ids. rewrite omap_app. cbn. destruct Hm as [-> | ->]; apply app_nil_r. Qed.
Lemma numbered_ids ms id m : numbered id m -> random_ids (ms ++ [m]) = random_ids ms ++ [id].
Proof. intros [num ->]. unfold random_ids. by rewrite omap_app. Qed.

(** HELLO is out; or its send has failed, and nothing goes out any more. *)
Definition greeted (ms : list Message) (hs : list job) (w : W) : Prop :=
  opens ms \/ ms = [] /\ room sock w = 0 /\ concat (map job_part hs) = [].

Lemma greeted_quiet ms hs hs' w w' : greeted ms hs w -> room sock w' <= room sock w ->
  concat (map job_part hs') = concat (map job_part hs) -> greeted ms hs' w'.
Proof.
  intros [Ho|(-> & Hz & Hp)] Hr Hp'; [by left|right]. split_and!; [done| |by rewrite Hp']. pose proof (room_nonneg sock w'). lia.
Qed.

(** A step of a call of [sendFrame] after HELLO. *)
Lemma greeted_job (says : Message -> Prop) ms out0 b l j w l1 x w1 : (forall m, says m -> later m) -> job_ok true says j ->
  stream sock true client_says ms out0 (held j) w -> greeted ms (held j) w -> job_moves sock true b l j w l1 x w1 ->
  exists ms', stream sock true client_says ms' out0 (held_after x) w1 /\ greeted ms' (held_after x) w1
    /\ if completed x then exists m, says m /\ ms' = ms ++ [m] else ms' = ms.
Proof.
  intros Hlat Hj Hs Hg Hm. destruct (job_moves_room _ _ _ _ _ _ _ _ _ Hm) as [Hr Hpart].
  pose proof (stream_job _ _ client_says says _ _ _ _ _ _ _ _ _ (fun m h => later_says m (Hlat m h)) Hj Hs Hm) as Hx.
  destruct (completed x) eqn:Hc.
  - destruct Hx as (Hne & m & Hsay & Hs'). exists (ms ++ [m]). split; [done|]. split; [|by exists m]. left.
    destruct Hg as [Ho|(_ & _ & Hp)]; [apply opens_snoc; auto|]. exfalso. destruct Hm; try done. cbn in Hp. by rewrite app_nil_r in Hp.
  - exists ms. split_and!; [done| |done]. destruct Hg as [Ho|(-> & Hz & Hp)]; [by left|right].
    pose proof (room_nonneg sock w1). split_and!; [done|lia|auto].
Qed.

(** How many random numbers are out. *)
Definition numbers_sent (s : client) : Z := k_id s - 1 + match k_random s with RSend (JUnlock true) => 1 | _ => 0 end.

(** What the messages sent so far have to do with the state. *)
Record chat (ms : list Message) (s : client) (w : W) : Prop := {
  ch_ids : random_ids ms = seqZ 1 (numbers_sent s);
  ch_fresh : k_random s = RIdle \/ k_random s = RSeed -> k_id s = 1;
  ch_flag : greeting (k_main s) -> k_active s = true;
  ch_hello : match k_main s with
             | CHello (JUnlock true) => ms = [hello_message]
             | CHello (JUnlock false) => ms = [] /\ room sock w = 0
             | CHello _ => ms = []
             | _ => greeted ms (cholders s) w
             end;
}.

Lemma chat_greeted ms s w : chat ms s w -> ~ greeting (k_main s) -> greeted ms (cholders s) w.
Proof. intros [_ _ _ Hh] Hn. by destruct (k_main s). Qed.

Lemma chat_later ms s w : random_ids ms = seqZ 1 (numbers_sent s) -> (k_random s = RIdle \/ k_random s = RSeed -> k_id s = 1) ->
  ~ greeting (k_main s) -> greeted ms (cholders s) w -> chat ms s w.
Proof. intros Hi Hf Hn Hg. split; [done|done|by intros ?|]. by destruct (k_main s). Qed.

(** A state with the messages it has sent, in order. *)
Definition tells (out0 : bytes) (s : client) (w : W) : Prop :=
  exists ms, chat ms s w /\ stream sock true client_says ms out0 (cholders s) w.

(** A step that sends nothing. *)
Lemma tells_quiet out0 s w s' w' : tells out0 s w -> ~ greeting (k_main s) -> ~ greeting (k_main s') ->
  cholders s' = cholders s -> outgoing sock w' = outgoing sock w -> room sock w' <= room sock w ->
  numbers_sent s' = numbers_sent s -> (k_random s' = RIdle \/ k_random s' = RSeed -> k_id s' = 1) -> tells out0 s' w'.
Proof.
  intros (ms & Hc & Hs) Hg Hg' Hh Ho Hr Hn Hf. exists ms. split.
  - apply chat_later; [rewrite Hn; apply Hc|done|done|]. eapply greeted_quiet; [by apply chat_greeted|done|by rewrite Hh].
  - eapply stream_quiet; [exact Hs|done|done|by rewrite Hh].
Qed.

(** The steps of HELLO: the other thread has not started, the flag is set. *)
Lemma hello_tells out0 s w s' w' : clocal s -> greeting (k_main s) -> exec_client sock s w = Some (s', w') -> tells out0 s w -> tells out0 s' w'.
Proof.
  intros [_ _ Hgr Hm _ _ _] Hg Hx (ms & [Hi Hf Hfl Hh] & Hs). destruct s as [b l m r id g]. cbn [k_active k_main k_random k_id] in *.
  destruct m as [j| | | | | | | | | | | |]; try done. rewrite (Hfl I), (proj1 Hgr I) in *. rewrite (Hf (or_introl eq_refl)) in *.
  unfold cholders, tells in *. cbn [k_main k_random held_cpc held_rpc app cpc_ok exec_client] in *. rewrite app_nil_r in Hs.
  destruct (job_step_run sock masked_frame true _ true l j w Hm) as (o & w1 & E & Ho). rewrite E in Hx. destruct o as [[l1 x]|]; [|done].
  assert (forall m, hello_message = m -> client_says m) as Hsay by (intros ? <-; unfold client_says; rewrite !elem_of_cons; by left).
  pose proof (stream_job _ _ client_says _ _ _ _ _ _ _ _ _ _ Hsay Hm Hs Ho) as Hx'.
  assert (random_ids [] = seqZ 1 (1 - 1 + 0)) as Hnil by done.
  destruct Ho as [| | | |? ? ? ? ? ? ? ? (? & ? & ?)|? ? ? ? ? ? (? & ? & ?)|ok]; cbn [completed held_after held job_held] in *; try done.
  - injection Hx as <- <-. exists []. subst ms. by split; [split|].
  - injection Hx as <- <-. exists []. subst ms. by split; [split|].
  - injection Hx as <- <-. destruct Hx' as (_ & m & <- & Hs'). subst ms. exists [hello_message]. by split; [split|].
  - injection Hx as <- <-. exists []. subst ms. by split; [split|].
  - injection Hx as <- <-. exists []. subst ms. split; [|done]. split; try done. cbn [k_main length] in *. split; [done|lia].
  - injection Hx as <- <-. exists ms. split; [|done]. apply chat_later; [by destruct ok; [subst ms|destruct Hh as [-> _]]|done|by intros []|].
    destruct ok; [left; subst ms; by exists []|right]. by destruct Hh as [-> ->].
Qed.

(** The steps of the random thread. *)
Lemma random_tells out0 s w s' w' : clocal s -> exec_random sock s w = Some (s', w') -> tells out0 s w -> tells out0 s' w'.
Proof.
  intros [_ _ Hgr _ Hr Hid Hlen] Hx Ht. destruct s as [b l m r id g]. cbn [k_main k_random k_lock k_id] in *.
  assert (~ greeting m) as Hng by (intros Hg; rewrite (proj1 Hgr Hg) in Hx; done).
  assert (forall (b' l' : bool) r' id' g' w1, (s', w') = (Client b' l' m r' id' g', w1) -> held_rpc r' = held_rpc r ->
    outgoing sock w1 = outgoing sock w -> room sock w1 <= room sock w -> (r' = RIdle \/ r' = RSeed -> id' = 1) ->
    numbers_sent (Client b' l' m r' id' g') = numbers_sent (Client b l m r id g) -> tells out0 s' w') as Hgo.
  { intros b' l' r' id' g' w1 [= -> ->] Hh Ho Hro Hf Hn. eapply tells_quiet; [exact Ht|done|done| |done..]. unfold cholders. cbn [k_main k_random]. by rewrite Hh. }
  unfold exec_random in Hx. destruct r as [| | | | | |j| |]; cbn [rpc_ok held_rpc] in *.
  - done.
  - unfold random in Hx. pose proof (random_law sock w) as L. destruct (sys_random w) as [v w1]. injection Hx as <- <-.
    destruct L as ((Ho & Hro & _) & _). destruct Ht as (ms & [_ Hf _ _] & _). specialize (Hf (or_intror eq_refl)). cbn [k_id] in Hf.
    eapply Hgo; try done; [lia|]. by rewrite Hf.
  - injection Hx as <- <-. by destruct b; eapply Hgo; try done; intros [?|?].
  - injection Hx as <- <-. by eapply Hgo; try done; intros [?|?].
  - injection Hx as <- <-. by destruct b; eapply Hgo; try done; intros [?|?].
  - destruct (mt_next _ g) as [num g']. destruct (encode _); [|done..]. injection Hx as <- <-. by eapply Hgo; try done; intros [?|?].
  - destruct (job_step_run sock masked_frame true _ b l j w Hr) as (o & w1 & E & Ho). rewrite E in Hx. destruct o as [[l1 x]|]; [|done].
    unfold cholders in *. cbn [k_main k_random] in Hlen. cbn [held_rpc] in Hlen. rewrite <- (app_nil_r (held j)) in Hlen.
    destruct (holders_move _ _ _ [] _ _ _ _ _ _ _ Ho Hlen) as (Hpre & _ & _).
    destruct Ht as (ms & Hc & Hs). pose proof (chat_greeted _ _ _ Hc Hng) as Hg. unfold cholders in Hs, Hg. cbn [k_main k_random held_rpc] in Hs, Hg.
    rewrite Hpre in Hs, Hg. cbn [app] in Hs, Hg.
    destruct (greeted_job (numbered id) _ _ _ _ _ _ _ _ _ ltac:(intros m' [num ->]; by right) Hr Hs Hg Ho) as (ms' & Hs' & Hg' & Hms).
    pose proof (ch_ids _ _ _ Hc) as Hi. unfold numbers_sent in Hi. cbn [k_id k_random] in Hi.
    assert (match x with inl _ => match j with JUnlock _ => False | _ => True end | inr ok => j = JUnlock ok end) as Hjx by (by destruct Ho).
    exists ms'. destruct x as [j'|ok].
    + injection Hx as <- <-. unfold cholders. cbn [k_main k_random held_rpc]. rewrite Hpre. split; [|done]. apply chat_later; [|by intros [?|?]|done|].
      * unfold numbers_sent. cbn [k_id k_random]. replace (id - 1 + _) with (id - 1) in Hi by (destruct j; (done || lia)).
        destruct (completed (inl j')) eqn:Hcp; [|subst ms'; rewrite Hi; f_equal; destruct j' as [| | |[]]; (done || lia)].
        destruct j' as [| | |[]]; try done. destruct Hms as (m' & Hm' & ->). rewrite (numbered_ids _ id) by done. rewrite Hi.
        rewrite (seqZ_app 1 (id - 1) 1) by lia. by replace (1 + (id - 1)) with id by lia.
      * unfold cholders. cbn [k_main k_random held_rpc]. by rewrite Hpre.
    + cbn [completed] in Hms. subst j ms'. destruct ok; [destruct (id <? _); [|done]|]; injection Hx as <- <-; (split; [|unfold cholders; cbn [k_main k_random held_rpc]; by rewrite Hpre]);
        (apply chat_later; [|by intros [?|?]|done|unfold cholders; cbn [k_main k_random held_rpc]; by rewrite Hpre]);
        rewrite Hi; unfold numbers_sent; cbn [k_id k_random]; f_equal; lia.
  - injection Hx as <- <-. by eapply Hgo; try done; intros [?|?].
  - done.
Qed.
(** A call of [sendFrame] of the main thread after HELLO: an answer, or the
    goodbye that sends nothing. *)
Lemma main_job_tells says out0 b l m r id g j o w w1 : clocal (Client b l m r id g) -> ~ greeting m -> tells out0 (Client b l m r id g) w ->
  held_cpc m = held j -> job_ok true says j -> job_step sock masked_frame b l j w = (Ok (Some o), w1) ->
  ((forall m, says m -> answer m) \/ b = false /\ job_dry j) ->
  forall m', held_cpc m' = held_after o.2 -> ~ greeting m' -> tells out0 (Client b o.1 m' r id g) w1.
Proof.
  intros Hl Hng (ms & Hc & Hs) Hh Hj E Hcase m' Hh' Hg'. pose proof (cl_lock _ Hl) as Hlen. destruct o as [l1 x]. cbn [fst snd k_lock] in *.
  destruct (job_step_run sock masked_frame true says b l j w Hj) as (o & w2 & E2 & Ho). rewrite E in E2. injection E2 as <- <-.
  unfold cholders in Hlen. cbn [k_main k_random] in Hlen. rewrite Hh in Hlen. destruct (holders_move _ _ [] _ _ _ _ _ _ _ _ Ho Hlen) as (_ & Hpost & _).
  pose proof (chat_greeted _ _ _ Hc Hng) as Hg. pose proof (ch_ids _ _ _ Hc) as Hi. pose proof (ch_fresh _ _ _ Hc) as Hf.
  unfold cholders in Hs, Hg. cbn [k_main k_random] in Hs, Hg. rewrite Hh, Hpost, app_nil_r in Hs, Hg.
  assert (exists ms', stream sock true client_says ms' out0 (held_after x) w1 /\ greeted ms' (held_after x) w1 /\ random_ids ms' = random_ids ms)
    as (ms' & Hs' & Hg2 & Hids).
  { destruct Hcase as [Hans|[-> Hdry]].
    - destruct (greeted_job says _ _ _ _ _ _ _ _ _ ltac:(intros m0 Hm0; left; by apply Hans) Hj Hs Hg Ho) as (ms' & Hs' & Hg2 & Hms).
      exists ms'. split_and!; [done|done|]. destruct (completed x); [|by subst]. destruct Hms as (m0 & Hm0 & ->). apply answer_ids; auto.
    - exists ms. split_and!; [by eapply stream_dry| |done]. destruct (job_moves_room _ _ _ _ _ _ _ _ _ Ho) as [Hr Hpart].
      destruct Hg as [?|(-> & Hz & Hp)]; [by left|right]. pose proof (room_nonneg sock w1). split_and!; [done|lia|auto]. }
  exists ms'. unfold cholders. cbn [k_main k_random]. rewrite Hh', Hpost, app_nil_r. split; [|done].
  apply chat_later; [by rewrite Hids, Hi|done|done|]. unfold cholders. cbn [k_main k_random]. by rewrite Hh', Hpost, app_nil_r.
Qed.

(** The steps of the main thread after HELLO. *)
Lemma main_tells out0 s w s' w' : clocal s -> ~ greeting (k_main s) -> controlling (k_main s) = false ->
  exec_client sock s w = Some (s', w') -> tells out0 s w -> tells out0 s' w'.
Proof.
  intros Hl Hng Hco Hx Ht. pose proof (cl_flag s Hl) as Hfl. pose proof (cl_main s Hl) as Hm.
  destruct s as [b l m r id g]. cbn [k_active k_main] in *.
  assert (r = RIdle \/ r = RSeed -> id = 1) as Hf by (destruct Ht as (ms & [_ Hf _ _] & _); exact Hf).
  assert (forall (b' l' : bool) m' w1, (s', w') = (Client b' l' m' r id g, w1) -> ~ greeting m' -> held_cpc m' = held_cpc m ->
    outgoing sock w1 = outgoing sock w -> room sock w1 <= room sock w -> tells out0 s' w') as Hgo.
  { intros b' l' m' w1 [= -> ->] Hg' Hh Ho Hro. eapply tells_quiet; [exact Ht|done|done| |done..]. unfold cholders. cbn [k_main k_random]. by rewrite Hh. }
  pose proof (fun says j o w1 => main_job_tells says out0 b l m r id g j o w w1 Hl Hng Ht) as Hjob.
  destruct m as [j| |x|f|j| | | |j| |buf t| |]; cbn [exec_client cpc_ok held_cpc controlling leaving] in *.
  - by destruct Hng.
  - injection Hx as <- <-. by destruct b; eapply Hgo; try done; intros [].
  - destruct (recv_step_run sock false x w Hm) as (y & w1 & E & [_ Hro _ Ho _]). rewrite E in Hx. specialize (Ho Hco).
    by destruct y; injection Hx as <- <-; eapply Hgo; try done; intros [].
  - destruct (client_plan f) as [[|stop|a stop]|e|]; [| |destruct (encode a); [| |done]| |done]; injection Hx as <- <-; (eapply Hgo; [done|..|done|done]);
      try done; try (by intros []); by destruct stop; try intros [].
  - destruct (job_step sock masked_frame b l j w) as [[[[l1 x]|]|e|] w1] eqn:E; [|done..].
    destruct x; injection Hx as <- <-; (eapply (Hjob answer j (l1, _)); [done|done|done|by left|done|by intros []]).
  - injection Hx as <- <-. by eapply Hgo; try done; intros [].
  - injection Hx as <- <-. by eapply Hgo; try done; intros [].
  - destruct r; try done. destruct (encode _); [|done..]. injection Hx as <- <-. by eapply Hgo; try done; intros [].
  - destruct Hm as [Hm Hdry]. destruct (job_step sock masked_frame b l j w) as [[[[l1 x]|]|e|] w1] eqn:E; [|done..]. specialize (Hfl I).
    destruct x; injection Hx as <- <-; (eapply (Hjob _ j (l1, _)); [done|exact Hm|done|by right|done|by intros []]).
  - destruct (control_out_run sock 8 [] true w) as (key & w1 & E & _ & Hk & (Ho & Hro & _) & _); [lia|cbn; lia|]. rewrite E in Hx. injection Hx as <- <-.
    eapply Hgo; [done|by intros []|done|done|lia].
  - done.
  - injection Hx as <- <-. eapply Hgo; [done|by intros []|done|apply close_silent|]. rewrite (room_closed sock (sys_close sock w)); [apply room_nonneg|].
    rewrite close_law. intros [_ Hn]%elem_of_difference. by apply Hn, elem_of_singleton.
  - done.
Qed.

Lemma cplain_step c c' : cplain c c' -> cstep sock c c'.
Proof. intros [a s w c0 Hx _]. by eapply cstep_exec. Qed.

Lemma cplain_tells out0 s w s' w' : clocal s -> cplain (s, w) (s', w') -> tells out0 s w -> tells out0 s' w'.
Proof.
  intros Hl Hp Ht. inversion Hp as [a ? ? ? Hx Hco]; subst. destruct a; [|by eapply random_tells].
  assert (greeting (k_main s) \/ ~ greeting (k_main s)) as [Hg|Hg] by (destruct (k_main s); cbn; tauto).
  - by eapply hello_tells.
  - eapply main_tells; [done|done|by apply Hco|done|done].
Qed.

Lemma cplains_tell c c' out0 : rtc cplain c c' -> clocal c.1 -> tells out0 c.1 c.2 -> clocal c'.1 /\ tells out0 c'.1 c'.2.
Proof.
  induction 1 as [c|c [s1 w1] c' Hst _ IH]; [done|]. intros Hl Ht. destruct c as [s0 w0]. apply IH.
  - by destruct (cstep_effect _ _ _ _ Hl (cplain_step _ _ Hst)).
  - by eapply cplain_tells.
Qed.

Lemma begin_tells s (w : W) : client_begin = Ok s -> tells (outgoing sock w) s w.
Proof.
  intros Hb. unfold client_begin in Hb. destruct (encode _); try done. injection Hb as <-. exists []. split; [by split|]. apply stream_start.
Qed.

Lemma chat_opens ms s w : chat ms s w -> ms = [] \/ opens ms.
Proof.
  assert (opens [hello_message]) as H1 by (by exists []). assert (forall hs, greeted ms hs w -> ms = [] \/ opens ms) as Hg by (unfold greeted; tauto).
  intros [_ _ _ Hh]. destruct (k_main s) as [[| | |[]]| | | | | | | | | | | |]; try (by eapply Hg); try (by left); [subst; by right|left; tauto].
Qed.

(** The calls of [sendFrame] that hold the mutex are in order; the goodbye never
    has a frame under way. *)
Lemma cholders_ok s : clocal s -> Forall (under_way true client_says) (cholders s).
Proof.
  intros Hl. assert (forall says j, (forall m, says m -> client_says m) -> job_ok true says j -> Forall (under_way true client_says) (held j)) as Hj.
  { intros says j Hs Hj. unfold held. case_match; [|done]. apply Forall_singleton. by eapply job_under_way. }
  unfold cholders. apply Forall_app. split.
  - pose proof (cl_main s Hl) as Hm. destruct (k_main s); cbn [held_cpc cpc_ok] in *; try constructor.
    + apply (Hj (eq hello_message)); [intros ? <-; unfold client_says; rewrite !elem_of_cons; by left|done].
    + apply (Hj answer); [intros; apply later_says; by left|done].
    + destruct Hm as [_ Hdry]. unfold held. case_match; [|done]. apply Forall_singleton. by destruct j.
  - pose proof (cl_random s Hl) as Hm. destruct (k_random s); cbn [held_rpc rpc_ok] in *; try constructor.
    apply (Hj (numbered (k_id s))); [intros ? [num ->]; unfold client_says; rewrite !elem_of_cons; auto|done].
Qed.

(** ** The goodbye *)

(** What the cleanup has sent, when the output was [out0] before it. *)
Definition farewell (out0 : bytes) (c : client * W) : Prop :=
  match k_main c.1 with
  | CBye _ | CCtl => outgoing sock c.2 = out0
  | CCtlSend buf t => outgoing sock c.2 = out0 ++ take (Z.to_nat t) buf
  | CClose | CDone => exists buf p, close_wire buf /\ p `prefix_of` buf /\ outgoing sock c.2 = out0 ++ p
  | _ => False
  end.

Lemma cstep_farewell out0 c c' : clocal c.1 -> farewell out0 c -> cstep sock c c' -> farewell out0 c'.
Proof.
  intros [Hfl Hj _ Hm _ _ _] Hf Hst. destruct Hst as [a s w [s' w'] Hx]. destruct s as [b l m r id g]. unfold farewell in *.
  cbn [fst snd k_main k_active k_random] in *.
  assert (joined m /\ leaving m) as [Hjo Hle] by (by destruct m). specialize (Hfl Hle). specialize (Hj Hjo). subst b r.
  destruct a; cbn [cexec] in Hx; [|done].
  destruct m as [j| |x|f|j| | | |j| |buf t| |]; cbn [exec_client cpc_ok] in *; try done.
  - destruct Hm as [Hm Hdry]. destruct (job_step_run sock masked_frame true _ false l j w Hm) as (o & w1 & E & Ho). rewrite E in Hx.
    destruct o as [[l1 x]|]; [|done]. assert (outgoing sock w1 = outgoing sock w) as Hout by (destruct j; [..|]; inversion Ho; subst; done).
    destruct x; injection Hx as <- <-; cbn [k_main]; congruence.
  - destruct (control_out_run sock 8 [] true w) as (key & w1 & E & _ & Hk & (Ho & _) & _); [lia|cbn; lia|]. rewrite E in Hx. injection Hx as <- <-.
    cbn [k_main]. cbn. by rewrite app_nil_r, Ho.
  - destruct Hm as [Hcw Ht]. pose proof Hcw as (key & Hk & Hbuf). pose proof (length_control_wire 8 (Some key) [] Hk) as Hwl. rewrite <- Hbuf in Hwl. cbn [length] in Hwl.
    destruct (Z.ltb_spec t (zlen buf)); cbn [negb] in Hx.
    + destruct (send_once_run sock buf t w) as (o & w1 & E & Ho); [lia|lia|]. rewrite E in Hx. destruct o as [t'|]; injection Hx as <- <-; cbn [k_main].
      * destruct Ho as (Ht' & _ & (Ho & _)). rewrite Ho, Hf, <- app_assoc. f_equal.
        replace (Z.to_nat t') with (Z.to_nat t + Z.to_nat (t' - t))%nat by lia. apply take_take_drop.
      * destruct Ho as (_ & (Ho & _)). exists buf, (take (Z.to_nat t) buf). split_and!; [done|by apply prefix_take|]. by rewrite Ho, app_nil_r.
    + injection Hx as <- <-. cbn [k_main]. exists buf, (take (Z.to_nat t) buf). split_and!; [done|by apply prefix_take|done].
  - injection Hx as <- <-. cbn [k_main]. by rewrite close_silent.
Qed.
End runs.

(** ** The main thread alone *)

Section alone.
Context {W : Type} `{Sys W} (sock : Z).

Lemma client_sends b r id g data (w : W) ok w' : client_sendFrame sock data (b, w) = (Ok ok, (b, w')) ->
  rtc (cstep sock) (Client b false (CSend (JLock data)) r id g, w) (Client b false CLoop r id g, w').
Proof.
  intros E. assert (rtc (job_goes sock masked_frame b) (false, inl (JLock data), w) (false, inr ok, w')) as Hj.
  { apply job_alone. unfold client_sendFrame, on_wire, wsSendBinaryMasked in E. cbn [fst snd] in E. destruct b; [|by injection E as <- <-].
    destruct (ibind _ _ w) as [x w1]. congruence. }
  apply (rtc_congruence (fun x : bool * (job + bool) * W =>
    (Client b x.1.1 (match x.1.2 with inl j => CSend j | inr _ => CLoop end) r id g, x.2)) (cstep sock)) in Hj; [done|].
  intros x y [l j [l' o] w0 w1 Hx]. apply (cstep_exec sock CMain). cbn [fst snd cexec exec_client]. rewrite Hx. by destruct o.
Qed.

(** The plan of a frame and what [client_frame] does with it. *)
Lemma client_frame_plan f (c : bool * W) :
  client_frame sock f c =
    match client_plan f with
    | Ok Leave => (Ok false, c)
    | Ok (Quiet stop) => (Ok true, (if stop then false else fst c, snd c))
    | Ok (Reply m _) => (let! _ := client_send sock m in iret true) c
    | Throw e => (Throw e, c)
    | Stuck => (Stuck, c)
    end.
Proof.
  destruct c as [b w]. unfold client_frame, client_plan. case_match; [done|]. destruct (decodeMessage _ _) as [m|e|]; [|done|done].
  unfold client_handle. repeat case_match; try done; unfold ibind, iret; by destruct (client_send _ _ _) as [[?|?|] ?].
Qed.

Lemma client_send_flag b m (w : W) r b' w' : client_send sock m (b, w) = (Ok r, (b', w')) ->
  b' = b /\ exists data, encode m = Ok data /\ client_sendFrame sock data (b, w) = (Ok r, (b, w')).
Proof.
  unfold client_send, ibind, ilift. destruct (encode m) as [data|e|]; [|done..]. intros E. assert (b' = b) as ->.
  { unfold client_sendFrame, on_wire in E. cbn [fst snd] in E. destruct b; [|by injection E]. destruct (wsSendBinaryMasked _ _ w). congruence. }
  split; [done|]. by exists data.
Qed.
End alone.

(** ** Properties *)

(** The main thread serves a frame as [client_frame] does: uninterrupted,
    its steps from the frame in hand lead to the top of the loop (or to the
    cleanup, when the loop is left) with the flag and the world of
    [client_frame] and the mutex free. *)
Theorem client_thread_refines {W} `{Sys W} sock f b r id g (w : W) go b' w' :
  client_frame sock f (b, w) = (Ok go, (b', w')) ->
  rtc (cstep sock) (Client b false (CServe f) r id g, w) (Client b' false (if go then CLoop else CClean) r id g, w').
Proof.
  rewrite client_frame_plan. intros E. assert (forall c, exec_client sock (Client b false (CServe f) r id g) w = Some c ->
    cstep sock (Client b false (CServe f) r id g, w) c) as Hone by (intros c Hc; by apply (cstep_exec sock CMain)).
  cbn [exec_client] in Hone. destruct (client_plan f) as [[|stop|m stop]|e|]; [..|done|done].
  - injection E as <- <- <-. by apply rtc_once, Hone.
  - cbn [fst snd] in E. injection E as <- <- <-. eapply rtc_l; [by apply Hone|].
    destruct stop; [|apply rtc_refl]. apply rtc_once. by apply (cstep_exec sock CMain).
  - unfold ibind, iret in E. destruct (client_send sock m (b, w)) as [[ok|e|] [b1 w1]] eqn:Es; [|done..]. injection E as <- <- <-.
    destruct (client_send_flag sock _ _ _ _ _ _ Es) as (-> & data & Hd & Hsf). rewrite Hd in Hone.
    eapply rtc_l; [by apply Hone|]. by eapply client_sends.
Qed.

(** C18: the life of the client's socket and threads.  In every interleaving: the
    descriptors are those at the start until [ws.close()], and those less the
    socket afterwards; from the cleanup on the flag is false; the goodbye, the
    close and the return come only after the random thread has returned; at
    most one thread is inside [sendFrame], exactly when the mutex is locked;
    and the identifier of the next random number stays in range. *)
Theorem client_socket_safe {W} `{SysLaws W} sock s0 (w : W) s w' :
  client_begin = Ok s0 -> rtc (cstep sock) (s0, w) (s, w') ->
  opened w' = (if clive (k_main s) then opened w else opened w ∖ {[ sock ]})
  /\ (leaving (k_main s) -> k_active s = false)
  /\ (joined (k_main s) -> k_random s = RExit)
  /\ length (cholders s) = (if k_lock s then 1 else 0)%nat
  /\ 1 <= k_id s < 2 ^ 63.
Proof. intros Hb Hr. destruct (creachable sock s0 w s w' Hb Hr) as [[H1 H2 _ _ _ [H3 H4] H5] Hop]. by split_and!. Qed.

Fixpoint crun {W} `{Sys W} (sock : Z) (as_ : list cactor) (c : client * W) : option (client * W) :=
  match as_ with
  | [] => Some c
  | a :: as_ => c' ← cexec sock a c.1 c.2; crun sock as_ c'
  end.

Lemma crun_steps {W} `{Sys W} sock as_ (c c' : client * W) : crun sock as_ c = Some c' -> rtc (cstep sock) c c'.
Proof.
  revert c. induction as_ as [|a as_ IH]; intros [s w]; cbn [crun fst snd]; [intros [= ->]; apply rtc_refl|].
  destruct (cexec sock a s w) as [c1|] eqn:E; [|done]. intros Hr. eapply rtc_l; [by eapply cstep_exec|]. by apply IH.
Qed.

(** A client whose server says nothing: HELLO, an empty stream, the goodbye. *)
Definition hello_state : client := Client true false (CHello (JLock (frame_bytes MSG_HELLO 0 (payload_wire hello_message)))) RIdle 1 [].
Definition lonely : tape silent := tape_of [] 200.

Lemma hello_begins : client_begin = Ok hello_state.
Proof. unfold client_begin. rewrite encode_frame by apply literal_messages_ok. done. Qed.

(** HELLO goes out in eleven steps; then the stream ends. *)
Definition lonely_schedule : list cactor := replicate 11 CMain ++ [CMain; CMain; CMain; CMain; CRandom; CRandom; CMain].

Lemma lonely_bye : exists s w j, rtc (cstep 7) (hello_state, lonely) (s, w) /\ k_main s = CBye j.
Proof.
  assert (option_map (fun c => match k_main c.1 with CBye _ => true | _ => false end) (crun 7 lonely_schedule (hello_state, lonely)) = Some true) as Hm
    by (vm_compute; reflexivity).
  destruct (crun 7 lonely_schedule (hello_state, lonely)) as [[s w]|] eqn:E; [|done]. apply crun_steps in E. cbn in Hm.
  destruct (k_main s) as [| | | | | | | |j| | | |] eqn:Em; try done. exists s, w, j. by split.
Qed.

Lemma client_socket_safe_witness : exists s (w : tape silent) j, k_main s = CBye j
  /\ opened w = (if clive (k_main s) then opened lonely else opened lonely ∖ {[ 7 ]})
  /\ (leaving (k_main s) -> k_active s = false)
  /\ (joined (k_main s) -> k_random s = RExit)
  /\ length (cholders s) = (if k_lock s then 1 else 0)%nat
  /\ 1 <= k_id s < 2 ^ 63.
Proof.
  destruct lonely_bye as (s & w & j & Hr & Hm). exists s, w, j. split; [exact Hm|].
  exact (client_socket_safe 7 hello_state lonely s w hello_begins Hr).
Defined.

(** C32: the goodbye.  From the moment the main thread is about to send
    DISCONNECT, under every interleaving and until [tryConnect] returns, the
    client sends nothing but (a prefix of) one masked CLOSE frame: the flag is
    already false then, so [sendFrame] drops the DISCONNECT message. *)
Theorem goodbye_is_close {W} `{SysLaws W} sock s0 (w : W) s1 w1 j s2 w2 :
  client_begin = Ok s0 -> rtc (cstep sock) (s0, w) (s1, w1) -> k_main s1 = CBye j ->
  rtc (cstep sock) (s1, w1) (s2, w2) ->
  exists buf p, close_wire buf /\ p `prefix_of` buf /\ outgoing sock w2 = outgoing sock w1 ++ p.
Proof.
  intros Hb Hr Hm Hr'. destruct (creachable sock s0 w s1 w1 Hb Hr) as [Hl _].
  assert (forall c c', rtc (cstep sock) c c' -> clocal c.1 -> farewell sock (outgoing sock w1) c -> clocal c'.1 /\ farewell sock (outgoing sock w1) c') as Hall.
  { induction 1 as [c|[s w0] [s3 w3] c' Hst _ IH]; [done|]. intros Hlc Hf. apply IH; [by destruct (cstep_effect _ _ _ _ _ Hlc Hst)|].
    by eapply cstep_farewell. }
  destruct (Hall _ _ Hr' Hl) as [Hl2 Hf]; [unfold farewell; cbn [fst snd]; by rewrite Hm|]. unfold farewell in Hf. cbn [fst snd] in *.
  pose proof (cl_main s2 Hl2) as Hok. assert (exists buf, close_wire buf) as [buf0 Hbuf0] by (exists (wire (control_frame 8 (Some [0; 0; 0; 0]) [])); exists [0; 0; 0; 0]; split; [split; [done|by repeat constructor]|done]).
  destruct (k_main s2) as [| | | | | | | | | |buf t| |]; try done.
  1,2: exists buf0, []; rewrite app_nil_r; (split_and!; [done|apply prefix_nil|done]).
  exists buf, (take (Z.to_nat t) buf). destruct Hok as [Hcw _]. split_and!; [done|by apply prefix_take|done].
Qed.

Lemma goodbye_is_close_witness : exists s (w : tape silent) j, k_main s = CBye j /\ forall s2 w2, rtc (cstep 7) (s, w) (s2, w2) ->
  exists buf p, close_wire buf /\ p `prefix_of` buf /\ outgoing 7 w2 = outgoing 7 w ++ p.
Proof.
  destruct lonely_bye as (s & w & j & Hr & Hm). exists s, w, j. split; [exact Hm|]. intros s2 w2.
  exact (goodbye_is_close 7 hello_state lonely s w j s2 w2 hello_begins Hr Hm).
Defined.

(** C20: the client's stream.  As long as the main thread sends no control frame,
    the bytes the client has sent, under every interleaving of its threads, are
    whole masked frames, one per well-formed message, and at most a beginning of
    one more; whenever the mutex is free and the connection still accepts data
    they are whole frames only.  The messages are a HELLO first, then PONGs,
    KISS_RESPONSEs and RANDOM_NUMBERs, and the random numbers carry the
    identifiers 1, 2, 3, ... in this order, none left out or used twice. *)
Theorem client_stream {W} `{SysLaws W} sock s0 (w : W) s w' :
  client_begin = Ok s0 -> rtc (cplain sock) (s0, w) (s, w') ->
  exists ms fs p, Forall2 (carries true) ms fs /\ outgoing sock w' = outgoing sock w ++ concat fs ++ p
    /\ partial true client_says p /\ (k_lock s = false -> 0 < room sock w' -> p = [])
    /\ (ms = [] \/ opens ms) /\ random_ids ms = seqZ 1 (numbers_sent s).
Proof.
  intros Hb Hr. destruct (cplains_tell sock _ _ _ Hr (begin_local s0 Hb) (begin_tells sock s0 w Hb)) as (Hl & ms & Hc & Hs).
  cbn [fst snd] in *. pose proof (cl_lock s Hl) as Hlen.
  destruct (stream_out _ _ _ _ _ _ _ Hs) as (fs & p & HF & Ho & Hp & Hfree); [destruct (k_lock s); lia|by apply cholders_ok|].
  exists ms, fs, p. split_and!; try done.
  - intros Hlock. apply Hfree. rewrite Hlock in Hlen. by apply nil_length_inv.
  - destruct (chat_opens _ _ _ _ Hc); auto.
  - apply Hc.
Qed.

(** Runs of the executable scheduler that send no control frame. *)
Fixpoint cplain_run {W} `{Sys W} (sock : Z) (as_ : list cactor) (c : client * W) : option (client * W) :=
  match as_ with
  | [] => Some c
  | a :: as_ =>
      if match a with CMain => controlling (k_main c.1) | CRandom => false end then None
      else c' ← cexec sock a c.1 c.2; cplain_run sock as_ c'
  end.

Lemma cplain_run_plain {W} `{Sys W} sock as_ (c c' : client * W) : cplain_run sock as_ c = Some c' -> rtc (cplain sock) c c'.
Proof.
  revert c. induction as_ as [|a as_ IH]; intros [s w]; cbn [cplain_run fst snd]; [intros [= ->]; apply rtc_refl|].
  destruct (match a with CMain => _ | CRandom => _ end) eqn:Hside; [done|]. destruct (cexec sock a s w) as [c1|] eqn:E; [|done].
  intros Hr. eapply rtc_l; [|by apply IH]. eapply cplain_exec; [exact E|]. by intros ->.
Qed.

Lemma hello_out : exists s w, rtc (cplain 7) (hello_state, lonely) (s, w) /\ k_main s = CLoop.
Proof.
  assert (option_map (fun c => match k_main c.1 with CLoop => true | _ => false end) (cplain_run 7 (replicate 11 CMain) (hello_state, lonely)) = Some true) as Hm
    by (vm_compute; reflexivity).
  destruct (cplain_run 7 (replicate 11 CMain) (hello_state, lonely)) as [[s w]|] eqn:E; [|done]. apply cplain_run_plain in E.
  exists s, w. split; [done|]. cbn in Hm. by destruct (k_main s).
Qed.

Lemma client_stream_witness : exists s (w : tape silent), k_main s = CLoop /\ exists ms fs p, Forall2 (carries true) ms fs
  /\ outgoing 7 w = outgoing 7 lonely ++ concat fs ++ p /\ partial true client_says p /\ (k_lock s = false -> 0 < room 7 w -> p = [])
  /\ (ms = [] \/ opens ms) /\ random_ids ms = seqZ 1 (numbers_sent s).
Proof.
  destruct hello_out as (s & w & Hr & Hm). exists s, w. split; [exact Hm|]. exact (client_stream 7 hello_state lonely s w hello_begins Hr).
Defined.

(** C33: an inactive client ends.  Once the flag is false, on a connection whose
    peer does not answer output with new input, every schedule of the two
    threads is finite, and it can only end with [tryConnect] returned (or at
    the overflow of [randomId], after 2^63 - 2 messages). *)
Theorem client_winds_down {W} `{SysLaws W} sock s0 (w : W) s w' :
  quiet_peer W -> client_begin = Ok s0 -> rtc (cstep sock) (s0, w) (s, w') -> k_active s = false ->
  sn (cstep sock) (s, w') /\ forall c, rtc (cstep sock) (s, w') c -> nf (cstep sock) c -> k_main c.1 = CDone \/ k_id c.1 = 2 ^ 63 - 1.
Proof.
  intros Hq Hb Hr Ha. destruct (creachable sock s0 w s w' Hb Hr) as [Hl _]. split; [by apply inactive_csn|].
  intros [s2 w2] Hr2 Hnf. destruct (csteps_local sock _ _ Hr2 Hl) as [Hl2 _]. cbn [fst] in *.
  pose proof (cl_id s2 Hl2) as Hid. destruct (Z.eq_dec (k_id s2) (2 ^ 63 - 1)) as [E|Hne]; [by right|left].
  assert (k_main s2 = CDone \/ k_main s2 <> CDone) as [Hd|Hnd] by (destruct (k_main s2); auto); [done|].
  exfalso. apply Hnf. destruct (cprogress sock s2 w2 Hl2 Hnd) as [c Hc]; [lia|]. by exists c.
Qed.

Lemma client_winds_down_witness : exists s (w : tape silent) j, k_main s = CBye j
  /\ sn (cstep 7) (s, w) /\ forall c, rtc (cstep 7) (s, w) c -> nf (cstep 7) c -> k_main c.1 = CDone \/ k_id c.1 = 2 ^ 63 - 1.
Proof.
  destruct lonely_bye as (s & w & j & Hr & Hm). exists s, w, j. split; [exact Hm|].
  apply (client_winds_down 7 hello_state lonely s w silent_quiet hello_begins Hr).
  destruct (creachable 7 hello_state lonely s w hello_begins Hr) as [[Hc _ _ _ _ _ _] _]. apply Hc. by rewrite Hm.
Defined.

(** ** The program *)

Lemma main_port_u16 e : is_u16 (main_port e).
Proof. unfold main_port, PORT. destruct e as [s|]; [|solve_width]. case_match; [unfold u16; solve_width|solve_width]. Qed.

Lemma try_connect_run {W} `{SysLaws W} garbage env host port (w : W) :
  length garbage = 64%nat -> zlen (ws_path env) + zlen host < 2 ^ 29 -> is_u16 port ->
  exists o w', try_connect garbage env host port w = (Ok o, w')
    /\ match o with
       | None => opened w' = opened w
       | Some (sock, s) => client_begin = Ok s /\ (sock ∉ opened w) /\ opened w' = {[ sock ]} ∪ opened w
       end.
Proof.
  intros Hg Hsz Hp. unfold try_connect. destruct (now_run 0 w) as (t & w1 & E1 & (_ & _ & Ho1) & _ & Ht). rewrite (ibind_run _ _ _ _ _ E1).
  destruct (to_string_ascii t Ht) as [_ Hl].
  destruct (client_connect_spec garbage env host port (str "cpp-client-" ++ to_string t) w1 Hg) as (ok & cl & w2 & E2 & Hok); [|done|].
  { rewrite length_app. cbn [length str]. lia. }
  rewrite (ibind_run _ _ _ _ _ E2). destruct ok; cbn [negb]; [|exists None, w2; split; [done|]; destruct Hok; congruence].
  rewrite hello_begins, ibind_lift. eexists (Some _), w2. split; [done|]. rewrite Ho1 in Hok. by destruct Hok.
Qed.

Section program.
Context {W : Type} `{SysLaws W} (garbage : bytes) (env hostEnv portEnv : option bytes).

(** [n] attempts in a row, each beginning where the one before has failed. *)
Inductive failed : nat -> W -> W -> Prop :=
  | failed_none w : failed 0 w w
  | failed_again n w w1 w2 : failed n w w1 ->
      try_connect garbage env (main_host hostEnv) (main_port portEnv) w1 = (Ok None, w2) -> failed (S n) w w2.

(** After at most two failed attempts one has succeeded, and its session on
    [sock] has run to the state [s]. *)
Definition in_session (w : W) (sock : Z) (s : client) (w' : W) : Prop :=
  exists n w1 w2 s0, (n <= 2)%nat /\ failed n w w1
    /\ try_connect garbage env (main_host hostEnv) (main_port portEnv) w1 = (Ok (Some (sock, s0)), w2)
    /\ client_begin = Ok s0 /\ rtc (cstep sock) (s0, w2) (s, w').

(** What [main] has done when it has come from [w] to [c]. *)
Definition program_at (w : W) (c : cprog * W) : Prop :=
  match c.1 with
  | QTry attempt => exists n, (n <= 2)%nat /\ attempt = Z.of_nat n + 1 /\ failed n w c.2 /\ opened c.2 = opened w
  | QRun sock s => in_session w sock s c.2
      /\ (sock ∉ opened w) /\ opened c.2 = (if clive (k_main s) then {[ sock ]} ∪ opened w else opened w)
  | QExit code => opened c.2 = opened w
      /\ (code = 1 /\ failed 3 w c.2
          \/ code = 0 /\ exists sock s, in_session w sock s c.2 /\ k_main s = CDone)
  end.

Lemma failed_opened n w w' : length garbage = 64%nat -> zlen (ws_path env) + zlen (main_host hostEnv) < 2 ^ 29 ->
  failed n w w' -> opened w' = opened w.
Proof.
  intros Hg Hsz. induction 1 as [|n w w1 w2 _ IH E]; [done|].
  destruct (try_connect_run garbage env (main_host hostEnv) (main_port portEnv) w1 Hg Hsz (main_port_u16 portEnv)) as (o & w3 & E' & Ho).
  rewrite E in E'. injection E' as <- <-. congruence.
Qed.

Lemma session_opened w sock s w' : length garbage = 64%nat -> zlen (ws_path env) + zlen (main_host hostEnv) < 2 ^ 29 ->
  in_session w sock s w' ->
  (sock ∉ opened w) /\ opened w' = (if clive (k_main s) then {[ sock ]} ∪ opened w else opened w).
Proof.
  intros Hg Hsz (n & w1 & w2 & s0 & _ & Hf & E & Hb & Hr). pose proof (failed_opened n w w1 Hg Hsz Hf) as Hop.
  destruct (try_connect_run garbage env (main_host hostEnv) (main_port portEnv) w1 Hg Hsz (main_port_u16 portEnv)) as (o & w3 & E' & Ho).
  rewrite E in E'. injection E' as <- <-. destruct Ho as (_ & Hfr & Ho). rewrite Hop in *.
  destruct (creachable sock s0 w2 s w' Hb Hr) as [_ Hc]. split; [done|]. rewrite Hc, Ho. destruct (clive (k_main s)); [done|by apply fresh_closed].
Qed.

(** An attempt: the next one, the last failure, or a session. *)
Lemma program_try w n w1 a c : length garbage = 64%nat -> zlen (ws_path env) + zlen (main_host hostEnv) < 2 ^ 29 ->
  (n <= 2)%nat -> failed n w w1 -> exec_cprog garbage env hostEnv portEnv a (QTry (Z.of_nat n + 1)) w1 = Some c -> program_at w c.
Proof.
  intros Hg Hsz Hn Hf Hx. cbn [exec_cprog] in Hx.
  destruct (try_connect_run garbage env (main_host hostEnv) (main_port portEnv) w1 Hg Hsz (main_port_u16 portEnv)) as (o & w2 & E & Ho).
  rewrite E in Hx. destruct o as [[sock s]|].
  - injection Hx as <-. assert (in_session w sock s w2) as Hs by (exists n, w1, w2, s; destruct Ho; by split_and!).
    split; [done|]. by apply session_opened.
  - pose proof (failed_again n w w1 w2 Hf E) as Hf'. pose proof (failed_opened _ _ _ Hg Hsz Hf') as Hop. injection Hx as <-.
    destruct (Z.leb_spec (Z.of_nat n + 1 + 1) 3); cbn; [exists (S n); split_and!; (done || lia)|].
    split; [done|]. left. split; [done|]. by replace 3%nat with (S n) by lia.
Qed.

(** A step of the session, or the return of [main] after it. *)
Lemma program_run w sock s w1 a c : length garbage = 64%nat -> zlen (ws_path env) + zlen (main_host hostEnv) < 2 ^ 29 ->
  in_session w sock s w1 -> exec_cprog garbage env hostEnv portEnv a (QRun sock s) w1 = Some c -> program_at w c.
Proof.
  intros Hg Hsz Hs Hx. cbn [exec_cprog] in Hx.
  assert (k_main s = CDone /\ c = (QExit 0, w1) \/ exists s' w2, cexec sock a s w1 = Some (s', w2) /\ c = (QRun sock s', w2))
    as [(Hd & ->)|(s' & w2 & E & ->)].
  { destruct (k_main s) eqn:Em; [..|destruct a; [left; by injection Hx as <-|]];
      (right; destruct (cexec sock a s w1) as [[s' w2]|] || destruct (cexec sock CRandom s w1) as [[s' w2]|]; [|done]; injection Hx as <-; by exists s', w2). }
  - destruct (session_opened _ _ _ _ Hg Hsz Hs) as [_ Hop]. rewrite Hd in Hop. split; [done|]. right. split; [done|]. by exists sock, s.
  - assert (in_session w sock s' w2) as Hs'.
    { destruct Hs as (n & w0 & w3 & s0 & Hn & Hf & Et & Hb & Hr). exists n, w0, w3, s0. split_and!; try done.
      eapply rtc_r; [exact Hr|]. by eapply cstep_exec. }
    split; [done|]. by apply session_opened.
Qed.
End program.

(** C34: the client program.  For every interleaving of [main] with the threads
    of its session: [main] is in its [n]-th attempt only after [n - 1] attempts
    that have failed one after the other, and [n] is at most 3; it is in a
    session only after at most two failures and one attempt that succeeded, and
    the session is then a run of its two threads; it returns 1 exactly after
    three failures, and 0 exactly after a session that has come to its end; no
    failed attempt leaves a descriptor behind, a session holds one, and at the
    return the descriptors are those from before.  An attempt always ends. *)
Theorem client_program {W} `{SysLaws W} garbage env hostEnv portEnv (w : W) c :
  length garbage = 64%nat -> zlen (ws_path env) + zlen (main_host hostEnv) < 2 ^ 29 ->
  rtc (cpstep garbage env hostEnv portEnv) (QTry 1, w) c ->
  program_at garbage env hostEnv portEnv w c
  /\ forall attempt, c.1 = QTry attempt -> exists c', cpstep garbage env hostEnv portEnv c c'.
Proof.
  intros Hg Hsz Hr. split.
  - revert c Hr. apply rtc_ind_r; [exists 0%nat; split_and!; [lia|done|constructor|done]|].
    intros c c' _ [a p w1 c1 Hx] IH. destruct p as [attempt|sock s|code]; [| |done].
    + destruct IH as (n & Hn & -> & Hf & _). by eapply program_try.
    + destruct IH as [Hs _]. by eapply program_run.
  - intros attempt Hc. destruct c as [p w1]. cbn [fst] in Hc. subst p.
    destruct (try_connect_run garbage env (main_host hostEnv) (main_port portEnv) w1 Hg Hsz (main_port_u16 portEnv)) as (o & w2 & E & _).
    destruct o as [[sock s]|]; (eexists; apply (cpstep_exec _ _ _ _ CMain); cbn [exec_cprog]; by rewrite E).
Qed.

Lemma client_program_witness : exists c, rtc (cpstep (replicate 64 0) None None None) (QTry 1, tape_of [] 0) c
  /\ c.1 = QExit 1 /\ failed (replicate 64 0) None None None 3 (tape_of [] 0) c.2.
Proof.
  assert (forall c1 c2 : cprog * tape silent, exec_cprog (replicate 64 0) None None None CMain c1.1 c1.2 = Some c2 ->
    rtc (cpstep (replicate 64 0) None None None) c1 c2) as Hone by (intros [p w] c2 E; apply rtc_once; by eapply cpstep_exec).
  set (go := fun c : option (cprog * tape silent) => match c with Some c => exec_cprog (replicate 64 0) None None None CMain c.1 c.2 | None => None end).
  assert (option_map fst (go (go (go (Some (QTry 1, tape_of [] 0))))) = Some (QExit 1)) as Hc by (vm_compute; reflexivity).
  destruct (go (Some (QTry 1, tape_of [] 0))) as [c1|] eqn:E1; [|discriminate Hc].
  destruct (go (Some c1)) as [c2|] eqn:E2; [|discriminate Hc]. destruct (go (Some c2)) as [c3|] eqn:E3; [|discriminate Hc].
  assert (rtc (cpstep (replicate 64 0) None None None) (QTry 1, tape_of [] 0) c3) as Hr.
  { etrans; [exact (Hone _ _ E1)|]. etrans; [exact (Hone _ _ E2)|exact (Hone _ _ E3)]. }
  assert (c3.1 = QExit 1) as Hx by (by injection Hc).
  exists c3. split; [exact Hr|]. split; [exact Hx|].
  destruct (client_program (replicate 64 0) None None None (tape_of [] 0) c3) as [Hp _]; [reflexivity|vm_compute; reflexivity|exact Hr|].
  unfold program_at in Hp. rewrite Hx in Hp. destruct Hp as [_ [[_ Hf]|[Hz _]]]; [exact Hf|discriminate Hz].
Defined.
