(* ===== verification/ClientTalk.v ===== *)
(** * The conversation of the client (client/ws_client.cpp: tryConnect)

    What the client answers as a function of what it hears, for every
    interleaving of its two threads: a PONG with the same timestamp for every
    PING, a KISS_RESPONSE for every KISS_REQUEST, in the order of the requests,
    and nothing for other messages and for what does not decode. *)

From stdpp Require Import gmap relations.
From S2P Require Import Prelude Random ByteIO Message Codec Socket WsFrame WsReceive Handshake Server Endpoint Hearing Dialogue Client ClientThreads ClientRuns.

(** ** The contract for a sequence of messages *)

(** The answer to the content of a message. *)
Definition client_answer (p : bytes) : list Message :=
  match decodeMessage p (zlen p) with
  | Ok m => match client_reply m with Some r => [r] | None => [] end
  | _ => []
  end.

(** DISCONNECT ends the loop; what does not decode is skipped. *)
Definition client_ends (p : bytes) : bool :=
  match decodeMessage p (zlen p) with Ok m => type m =? MSG_DISCONNECT | _ => false end.

(** The messages of the client that are no answers. *)
Definition unasked (m : Message) : Prop := type m ∈ [MSG_HELLO; MSG_RANDOM_NUMBER].

Lemma answer_asked m : answer m -> ~ unasked m.
Proof. unfold unasked. rewrite !elem_of_cons, elem_of_nil. intros [-> | ->]; by intros [?|[?|[]]]. Qed.

Lemma hello_unasked m : hello_message = m -> unasked m /\ client_says m.
Proof. intros <-. unfold unasked, client_says. rewrite !elem_of_cons. split; by left. Qed.

Lemma numbered_unasked id m : numbered id m -> unasked m /\ client_says m.
Proof. intros [num ->]. unfold unasked, client_says. rewrite !elem_of_cons. split; [by right; left|by do 3 right; left]. Qed.

Lemma client_plan_contract f p : client_plan f = Ok p ->
  if carrying f then p <> Leave /\ plan_stop p = client_ends (payload f) /\ plan_says p = client_answer (payload f) else p = Leave.
Proof.
  unfold client_plan, carrying, client_ends, client_answer. destruct (isValid f); cbn [negb orb andb]; [|by intros [= <-]].
  destruct (isClose f); cbn [negb]; [by intros [= <-]|]. destruct (decodeMessage _ _) as [m|e|]; [|by intros [= <-]|done]. rewrite client_reply_code.
  destruct (Z.eqb_spec (type m) MSG_PING) as [->|_]; [by intros [= <-]|]. destruct (Z.eqb_spec (type m) MSG_KISS_REQUEST) as [->|_]; [by intros [= <-]|].
  by destruct (type m =? MSG_DISCONNECT); intros [= <-].
Qed.

(** ** The threads *)

(** Where the main thread is in its loop; HELLO comes before it. *)
Definition cphase (m : cpc) : phase :=
  match m with
  | CHello _ | CLoop => Top | CRecv r => Receiving r | CServe f => Holding f | CSend j => Answering j false | CStop => Stopping | _ => Over
  end.

Section talk.
Context {W : Type} `{SysLaws W} (sock : Z).

(** The dialogue of the client: masked frames out, binary frames in. *)
Definition chatting (in0 out0 : bytes) (ps : list bytes) (outs : list Message) (s : client) (w : W) : Prop :=
  conversing sock false true client_says unasked client_ends in0 out0 ps (concat (map client_answer ps)) outs
    (cphase (k_main s)) (k_active s) (cholders s) w.

Lemma chat_random in0 out0 ps outs s w s' w' : clocal s -> exec_random sock s w = Some (s', w') ->
  chatting in0 out0 ps outs s w -> exists outs', chatting in0 out0 ps outs' s' w'.
Proof.
  intros Hl Hx Hcv. pose proof (cl_random s Hl) as Hok. pose proof (cl_lock s Hl) as Hlen.
  destruct s as [b l m r id g]. unfold chatting, cholders in *. cbn [k_active k_lock k_main k_random k_id k_rng] in *.
  assert (forall (b' l' : bool) r' id' g' w1, (s', w') = (Client b' l' m r' id' g', w1) -> (b' = true -> b = true) -> held_rpc r' = held_rpc r ->
    untouched sock w w1 -> incoming sock w1 = incoming sock w ->
    exists outs', conversing sock false true client_says unasked client_ends in0 out0 ps (concat (map client_answer ps)) outs'
      (cphase (k_main s')) (k_active s') (held_cpc (k_main s') ++ held_rpc (k_random s')) w') as Hq.
  { intros b' l' r' id' g' w1 [= -> ->] Hb Hr' (Ho & Hro & _) Hin. exists outs. cbn [k_main k_active k_random]. rewrite Hr'.
    eapply conversing_quiet; [exact Hcv|done|done|lia|by rewrite Hin|done]. }
  unfold exec_random in Hx. destruct r as [| | | | | |j| |]; cbn [held_rpc rpc_ok] in *.
  - done.
  - destruct (random w) as [[seed|e|] w1] eqn:Es; [|done..]. injection Hx as <- <-.
    unfold random in Es. pose proof (random_law sock w) as L. destruct (sys_random w) as [v w2]. injection Es as <- <-. eapply Hq; try done; apply L.
  - injection Hx as <- <-. eapply Hq; try done; by destruct b.
  - injection Hx as <- <-. by eapply Hq.
  - injection Hx as <- <-. eapply Hq; try done; by destruct b.
  - destruct (mt_next _ g) as [num g']. destruct (encode _); [|done..]. injection Hx as <- <-. by eapply Hq.
  - destruct (job_step_run sock masked_frame true _ b l j w Hok) as (o & w1 & E & Ho). rewrite E in Hx.
    destruct o as [[l1 x]|]; [|done]. rewrite <- (app_nil_r (held j)) in Hlen. destruct (holders_move _ _ _ [] _ _ _ _ _ _ _ Ho Hlen) as (Hm & _ & _).
    rewrite Hm in Hcv. cbn [app] in Hcv. destruct (conversing_aside sock false true client_says unasked client_ends _ _ masked_frame _ _ _ _ _ _ _ _ _ _ _ _ _
      (numbered_unasked id) Hok E Hcv) as (outs' & Hcv'). exists outs'.
    assert (k_main s' = m /\ k_active s' = b /\ held_rpc (k_random s') = held_after x /\ w' = w1) as (-> & -> & -> & ->).
    { destruct x as [j'|[]]; [|destruct (id <? 2 ^ 63 - 1); [|done]|]; by injection Hx as <- <-. }
    by rewrite Hm.
  - injection Hx as <- <-. by eapply Hq.
  - done.
Qed.

(** A message is served. *)
Lemma chat_serve in0 out0 ps outs b l f r id g w s' w' : clocal (Client b l (CServe f) r id g) ->
  exec_client sock (Client b l (CServe f) r id g) w = Some (s', w') -> chatting in0 out0 ps outs (Client b l (CServe f) r id g) w ->
  exists ps', chatting in0 out0 ps' outs s' w'.
Proof.
  intros Hl Hx Hcv. pose proof (cl_main _ Hl) as Hm. unfold chatting, cholders in *. cbn [k_main k_active k_random cpc_ok exec_client cphase held_cpc app] in *.
  destruct (client_plan_run f Hm) as (p & E & Hp). rewrite E in Hx. pose proof (client_plan_contract f p E) as Hc.
  destruct (carrying f) eqn:Hf; cycle 1.
  { subst p. injection Hx as <- <-. exists ps. by eapply conversing_leave. }
  destruct Hc as (Hne & Hstop & Hsay). exists (ps ++ [payload f]). rewrite map_app, concat_app. cbn [map concat]. rewrite app_nil_r, <- Hsay.
  assert (forall a, a ∈ plan_says p -> ~ unasked a /\ client_says a /\ message_ok a /\ zlen (payload_wire a) < 2 ^ 30) as Hr.
  { destruct p as [| |a stop]; intros a' Ha'; cbn [plan_says] in Ha'; [by apply elem_of_nil in Ha'..|]. apply list_elem_of_singleton in Ha' as ->.
    destruct Hp as (Hans & Hok & Hlen & _). split_and!; [by apply answer_asked|apply later_says; by left|done|done]. }
  pose proof (conversing_serve sock false true client_says unasked client_ends _ _ _ _ _ _ _ _ _ _ _ Hf Hne Hstop Hr
    (conj eq_refl (conj eq_refl eq_refl)) eq_refl Hcv) as Hcv'.
  destruct p as [|stop|a stop]; [done|injection Hx as <- <-; by destruct stop|].
  destruct Hp as (_ & Hok & _ & ->). rewrite encode_frame in Hx by done. by injection Hx as <- <-.
Qed.

(** A step of the main thread that sends no control frame. *)
Lemma chat_main in0 out0 ps outs s w s' w' : clocal s -> exec_client sock s w = Some (s', w') -> controlling (k_main s) = false ->
  chatting in0 out0 ps outs s w -> exists ps' outs', chatting in0 out0 ps' outs' s' w'.
Proof.
  intros Hl Hx Hco Htk. pose proof (cl_main _ Hl) as Hm. pose proof (cl_lock _ Hl) as Hlen. pose proof (cl_flag _ Hl) as Hfl.
  destruct s as [b l m r id g]. pose proof Htk as Hcv. unfold chatting, cholders in Hlen, Hcv. cbn [k_active k_lock k_main k_random] in *.
  assert (forall says j, job_ok true says j -> length (held j ++ held_rpc r) = (if l then 1 else 0)%nat -> forall o w1,
    job_step sock masked_frame b l j w = (Ok (Some o), w1) -> held_rpc r = [] /\ job_moves sock true b l j w o.1 o.2 w1) as Hjob.
  { intros says j Hj Hlj [l1 x] w1 E. destruct (job_step_run sock masked_frame true _ b l j w Hj) as (o & w2 & E2 & Ho). rewrite E in E2. injection E2 as <- <-.
    by destruct (holders_move _ _ [] _ _ _ _ _ _ _ _ Ho Hlj) as (_ & Hpost & _). }
  unfold chatting, cholders. destruct m as [j| |[x frag|buf t k]|f|j| | | |j| |buf t| |]; cbn [exec_client cphase held_cpc cpc_ok app leaving] in *; try done.
  - destruct (job_step sock masked_frame b l j w) as [[[[l1 x]|]|e|] w1] eqn:E; [|done..]. destruct (Hjob _ _ Hm Hlen _ _ E) as [Hpost _]. rewrite Hpost, app_nil_r in Hcv.
    destruct (conversing_aside sock false true client_says unasked client_ends _ _ masked_frame _ _ _ _ _ _ _ _ _ _ _ _ _ hello_unasked Hm E Hcv) as (outs' & Hcv').
    exists ps, outs'. destruct x; injection Hx as <- <-; cbn [k_main k_active k_random held_cpc held_rpc]; rewrite ?Hpost, ?app_nil_r; done.
  - injection Hx as <- <-. exists ps, outs. apply conversing_top in Hcv. cbn [k_main k_active k_random]. by destruct b.
  - destruct (recv_step_run sock false (RFrame x frag) w Hm) as (y & w1 & E & _). rewrite E in Hx.
    eapply (conversing_recv sock false true) in Hcv; [|done|exact E]. exists ps, outs. by destruct y; injection Hx as <- <-.
  - destruct (chat_serve _ _ _ _ _ _ _ _ _ _ _ _ _ Hl Hx Htk) as (ps' & Htk'). by exists ps', outs.
  - destruct (job_step sock masked_frame b l j w) as [[[[l1 x]|]|e|] w1] eqn:E; [|done..]. destruct (Hjob _ _ Hm Hlen _ _ E) as [Hpost _]. rewrite Hpost, app_nil_r in Hcv.
    destruct (conversing_send sock false true client_says unasked client_ends _ _ masked_frame _ _ _ _ _ _ _ _ _ _ _ _ _ Hm E eq_refl Hcv) as (outs' & Hcv').
    exists ps, outs'. destruct x; injection Hx as <- <-; cbn [k_main k_active k_random held_cpc]; by rewrite Hpost, ?app_nil_r.
  - injection Hx as <- <-. exists ps, outs. by eapply conversing_stop.
  - injection Hx as <- <-. exists ps, outs. by eapply conversing_over.
  - destruct r; try done. destruct (encode _); [|done..]. injection Hx as <- <-. by exists ps, outs.
  - destruct Hm as [Hm Hdry]. destruct (job_step sock masked_frame b l j w) as [[[[l1 x]|]|e|] w1] eqn:E; [|done..].
    destruct (Hjob _ _ Hm Hlen _ _ E) as [Hpost Ho]. rewrite Hpost, app_nil_r in Hcv. rewrite (Hfl I) in *. exists ps, outs. cbn [fst snd] in Ho.
    destruct Ho; try done; injection Hx as <- <-; cbn [k_main k_active k_random held_cpc]; rewrite Hpost, ?app_nil_r; by eapply conversing_over; [..|exact Hcv].
  - destruct (control_out_run sock 8 [] true w) as (key & w1 & E & _ & Hk & (Ho & Hro & _) & Hin); [lia|cbn; lia|]. rewrite E in Hx. injection Hx as <- <-.
    exists ps, outs. eapply conversing_quiet; [exact Hcv|done|done|lia|by rewrite Hin|done].
  - injection Hx as <- <-. exists ps, outs. rewrite (Hfl I) in *. eapply conversing_over; [..|exact Hcv]; [apply close_silent| |done].
    rewrite (room_closed sock (sys_close sock w)); [apply room_nonneg|].
    rewrite close_law. intros [_ Hn]%elem_of_difference. by apply Hn, elem_of_singleton.
Qed.

Lemma chats in0 out0 c c' : rtc (cplain sock) c c' -> clocal c.1 -> (exists ps outs, chatting in0 out0 ps outs c.1 c.2) ->
  clocal c'.1 /\ exists ps outs, chatting in0 out0 ps outs c'.1 c'.2.
Proof.
  induction 1 as [|[s0 w0] [s1 w1] c' Hst _ IH]; [done|]. intros Hl (ps & outs & Htk). apply IH.
  - by destruct (cstep_effect _ _ _ _ _ Hl (cplain_step _ _ _ Hst)).
  - inversion Hst as [a ? ? ? Hx Hm]; subst. destruct a.
    + eapply chat_main; [exact Hl|exact Hx|by apply Hm|exact Htk].
    + destruct (chat_random _ _ _ _ _ _ _ _ Hl Hx Htk) as (outs' & Htk'). eauto.
Qed.
(** A run from the start. *)
Lemma chat_reachable s0 w s w' : client_begin = Ok s0 -> rtc (cplain sock) (s0, w) (s, w') ->
  clocal s /\ exists ps outs, chatting (incoming sock w) (outgoing sock w) ps outs s w'.
Proof.
  intros Hb Hr. apply (chats (incoming sock w) (outgoing sock w) _ _ Hr (begin_local s0 Hb)).
  exists [], []. unfold client_begin in Hb. destruct (encode _); try done. injection Hb as <-. apply conversing_start.
Qed.

(** The output of the client. *)
Lemma chatting_out in0 out0 ps outs s w : clocal s -> chatting in0 out0 ps outs s w ->
  exists fs p, Forall2 (carries true) outs fs /\ outgoing sock w = out0 ++ concat fs ++ p /\ partial true client_says p
    /\ (k_lock s = false -> 0 < room sock w -> p = []).
Proof.
  intros Hl Hcv. pose proof (cl_lock s Hl) as Hlen.
  destruct (stream_out _ _ _ _ _ _ _ (cv_stream _ _ _ _ _ _ _ _ _ _ _ _ _ _ _ Hcv)) as (fs & p & HF & Ho & Hp & Hfree); [destruct (k_lock s); lia|by apply cholders_ok|].
  exists fs, p. split_and!; try done. intros Hlock. apply Hfree. rewrite Hlock in Hlen. by apply nil_length_inv.
Qed.
End talk.

(** ** The property *)

(** C17: the conversation of the client.  Under every interleaving of its two
    threads in which the main thread sends no control frame: the messages
    served are the ones at the front of the input, each a sequence of acceptable
    frames, in order; what the client has sent are whole masked frames and at
    most a beginning of one more; leaving HELLO and the random numbers aside,
    the messages sent are the answers to those served, in their order: a PONG
    with the timestamp of its PING, a KISS_RESPONSE for a KISS_REQUEST, nothing
    for the others and for what does not decode; only the last message served
    can be a DISCONNECT.  And whenever an active client is back at the top of
    its loop, the input it has not served is all still there, and if the
    connection takes output, every request has been answered. *)
Theorem client_conversation {W} `{SysLaws W} sock s0 (w : W) s w' :
  client_begin = Ok s0 -> rtc (cplain sock) (s0, w) (s, w') ->
  exists ps outs fs p,
    heard (W := W) false (incoming sock w) ps
    /\ Forall2 (carries true) outs fs /\ outgoing sock w' = outgoing sock w ++ concat fs ++ p
    /\ partial true client_says p
    /\ answers_in unasked outs `prefix_of` concat (map client_answer ps)
    /\ Forall (fun q => client_ends q = false) (removelast ps)
    /\ (k_main s = CLoop -> k_active s = true ->
        hears sock false (incoming sock w) ps [] w' /\ Forall (fun q => client_ends q = false) ps
        /\ (0 < room sock w' -> answers_in unasked outs = concat (map client_answer ps))).
Proof.
  intros Hb Hr. destruct (chat_reachable sock s0 w s w' Hb Hr) as (Hl & ps & outs & Hcv).
  destruct (chatting_out sock _ _ _ _ _ _ Hl Hcv) as (fs & p & HF & Ho & Hp & _). unfold chatting in Hcv.
  exists ps, outs, fs, p. split_and!; try done.
  - by eapply conversing_heard.
  - by eapply conversing_prefix.
  - by eapply conversing_before.
  - intros Hm Ha. rewrite Hm, Ha in Hcv. by eapply conversing_at_top.
Qed.

(** A server that sends a PING, something that does not decode, and a
    KISS_REQUEST; the random thread sends a number in between. *)
Definition server_frame (body : bytes) : wsframe := {| w_fin := true; w_op := 2; w_form := Len7; w_key := None; w_body := body |}.
Definition chat_tape : tape silent :=
  tape_of (wires (map server_frame [frame_bytes MSG_PING 0 (payload_wire (ping_message 42)); str "?"; frame_bytes MSG_KISS_REQUEST 0 (payload_wire kiss_message)])) 500.
Definition chat_schedule : list cactor := replicate 14 CMain ++ replicate 19 CRandom ++ replicate 35 CMain.

Lemma client_conversation_witness : exists s (w : tape silent), k_main s = CLoop /\ k_active s = true /\ length (outgoing 7 w) = 112%nat
  /\ exists ps outs fs p,
    heard (W := tape silent) false (incoming 7 chat_tape) ps
    /\ Forall2 (carries true) outs fs /\ outgoing 7 w = outgoing 7 chat_tape ++ concat fs ++ p
    /\ partial true client_says p
    /\ answers_in unasked outs `prefix_of` concat (map client_answer ps)
    /\ Forall (fun q => client_ends q = false) (removelast ps)
    /\ (k_main s = CLoop -> k_active s = true ->
        hears 7 false (incoming 7 chat_tape) ps [] w /\ Forall (fun q => client_ends q = false) ps
        /\ (0 < room 7 w -> answers_in unasked outs = concat (map client_answer ps))).
Proof.
  assert (option_map (fun c => (match k_main c.1 with CLoop => true | _ => false end, k_active c.1, length (outgoing 7 c.2)))
    (cplain_run 7 chat_schedule (hello_state, chat_tape)) = Some (true, true, 112%nat)) as Hv by (vm_compute; reflexivity).
  destruct (cplain_run 7 chat_schedule (hello_state, chat_tape)) as [[s w]|] eqn:E; [|discriminate Hv]. cbn [option_map fst snd] in Hv.
  assert (k_main s = CLoop /\ k_active s = true /\ length (outgoing 7 w) = 112%nat) as (Hm & Ha & Ho)
    by (injection Hv as Hm Ha Ho; destruct (k_main s); try discriminate Hm; auto).
  exists s, w. split; [exact Hm|]. split; [exact Ha|]. split; [exact Ho|].
  apply (client_conversation 7 hello_state chat_tape s w hello_begins). by apply (cplain_run_plain 7 chat_schedule).
Defined.
