(* ===== verification/System.v ===== *)
(** * Client and server together

    A request of the client, its way through both WebSocket layers and codecs,
    the server's handler, and the answer's way back, as one theorem over two
    worlds that are connected only by the bytes one of them sends and the other
    receives. *)

From stdpp Require Import gmap relations.
From S2P Require Import Prelude Random ByteIO Message Codec Socket WsFrame WsReceive Server Endpoint ServerThreads ServerRuns Hearing Dialogue ServerTalk Client ClientThreads ClientRuns ClientTalk.

(** A message whose frame fits the receiver's limit. *)
Definition fits (m : Message) : Prop := zlen (payload_wire m) <= MAX_MESSAGE_SIZE - 8.

(** The answer reaches the client: whenever the bytes [back] arrive on its
    connection, it receives and decodes exactly [r]. *)
Definition arrives {W} `{Sys W} (c : Z) (back : bytes) (r : Message) : Prop :=
  forall (w : W) rest, incoming c w = back ++ rest ->
    exists g w', wsRecvFrame 1 c false w = (Ok g, w') /\ isValid g = true /\ isClose g = false
      /\ decodeMessage (WsFrame.payload g) (zlen (WsFrame.payload g)) = Ok r /\ incoming c w' = rest.

Lemma message_arrives {W} `{SysLaws W} c r : message_ok r -> relevant r = r -> fits r -> arrives (W := W) c (message_wire r) r.
Proof.
  intros Hr Hrel Hf w rest Hin. destruct (frame_content_ok r Hr Hrel Hf) as (Hb & Hl & Hd).
  destruct (recv_data_frame c None _ rest w I Hb Hl Hin) as (g & w' & E & Hv & Hc & Hp & Hin' & _).
  exists g, w'. by rewrite Hp.
Qed.

(** C7: request and response, end to end.  An active client that sends a
    well-formed message puts one frame on its connection; when those bytes
    arrive at the server, its receive loop reads exactly them, moves to the
    session of the contract and answers exactly as the contract says; and when
    the answer fits the receiver's limit and its bytes arrive back at the
    client, it is decoded there to exactly that answer. *)
Theorem request_response {Wc Ws} `{SysLaws Wc} `{SysLaws Ws} m c s st (wc : Wc) :
  message_ok m -> relevant m = m -> fits m -> active st = true -> session_ok st ->
  zlen (payload_wire m) + 22 <= room c wc ->
  exists wc1 out, client_send c m (true, wc) = (Ok true, (true, wc1)) /\ outgoing c wc1 = outgoing c wc ++ out
    /\ forall (ws : Ws) rest, incoming s ws = out ++ rest -> 2 * MAX_MESSAGE_SIZE + 200 <= room s ws ->
       exists f ws1 ws2, wsRecvFrame 1 s true ws = (Ok f, ws1) /\ incoming s ws1 = rest
         /\ let now := fst (sys_now ws1) in
            serve_frame s f (st, ws1) = (Ok true, (next_session now st m, ws2))
         /\ match reply_to now (clientLang st) m with
            | None => outgoing s ws2 = outgoing s ws
            | Some r => outgoing s ws2 = outgoing s ws ++ message_wire r /\ (fits r -> arrives (W := Wc) c (message_wire r) r)
            end.
Proof.
  intros Hm Hrel Hf Ha Hst Hroom. pose proof Hf as Hf'. unfold fits, MAX_MESSAGE_SIZE in Hf'.
  destruct (client_send_ok c m wc Hm ltac:(lia) Hroom) as (key & wc1 & E1 & Hk & (Ho1 & _)).
  exists wc1, (masked_wire key m). split_and!; [done|done|]. intros ws rest Hin Hrs.
  destruct (frame_content_ok m Hm Hrel Hf) as (Hb & Hl & Hd).
  destruct (recv_data_frame s (Some key) _ rest ws Hk Hb Hl Hin) as (f & ws1 & E2 & Hv & Hc & Hp & Hin1 & (Ho2 & Hr2 & _)).
  destruct (handle_message_refines s st m ws1 Ha Hst Hm) as (ws2 & E3 & Hn & Hans);
    [right; unfold MAX_MESSAGE_SIZE; lia|by rewrite Hr2|].
  set (now := fst (sys_now ws1)) in *. exists f, ws1, ws2. split; [done|]. split; [done|]. cbv zeta. fold now. split.
  { unfold serve_frame. rewrite Hv, Hc, Hp, Hd. cbn [negb orb]. by rewrite (ibind_run _ _ _ _ _ E3). }
  destruct (reply_to now (clientLang st) m) as [r|] eqn:Er; cbn [answered] in Hans.
  - destruct Hans as (Ho3 & _). split; [congruence|]. intros Hfr. destruct Hst as (Hsl & Hsz & _).
    destruct (reply_ok now (clientLang st) m r Er Hm Hn Hsl Hsz) as (Hr & Hrr & _); [right; unfold MAX_MESSAGE_SIZE; lia|].
    by apply message_arrives.
  - destruct Hans as [(Ho3 & _) _]. congruence.
Qed.

Lemma request_response_witness :
  exists wc1 out, client_send 7 hello_message (true, tape_of [] 100) = (Ok true, (true, wc1))
    /\ outgoing 7 wc1 = outgoing 7 (tape_of [] 100) ++ out
    /\ forall (ws : tape silent) rest, incoming 7 ws = out ++ rest -> 2 * MAX_MESSAGE_SIZE + 200 <= room 7 ws ->
       exists f ws1 ws2, wsRecvFrame 1 7 true ws = (Ok f, ws1) /\ incoming 7 ws1 = rest
         /\ let now := fst (sys_now ws1) in
            serve_frame 7 f (demo_session, ws1) = (Ok true, (next_session now demo_session hello_message, ws2))
         /\ match reply_to now (clientLang demo_session) hello_message with
            | None => outgoing 7 ws2 = outgoing 7 ws
            | Some r => outgoing 7 ws2 = outgoing 7 ws ++ message_wire r /\ (fits r -> arrives (W := tape silent) 7 (message_wire r) r)
            end.
Proof.
  apply (request_response hello_message 7 7 demo_session (tape_of [] 100));
    [apply literal_messages_ok|reflexivity|vm_compute; discriminate|reflexivity|apply demo_session_ok|vm_compute; discriminate].
Defined.

(** ** Two conversations *)

(** The contract of the server for a sequence of messages: the answers to [ms]
    by a session that knew the language [lang0], and the language afterwards. *)
Inductive replied (lang0 : bytes) : list Message -> list Message -> bytes -> Prop :=
  | rp_nil : replied lang0 [] [] lang0
  | rp_snoc ms rs lang m now : replied lang0 ms rs lang ->
      replied lang0 (ms ++ [m]) (rs ++ option_list (reply_to now lang m)) (if type m =? MSG_HELLO then clientLanguage m else lang).

Lemma decode_content m : message_ok m -> zlen (payload_wire m) < 2 ^ 30 -> decodeMessage (content m) (zlen (content m)) = Ok (relevant m).
Proof.
  intros Hm Hl. unfold content. pose proof (decodeMessage_frame m 0 [] Hm) as HD. rewrite app_nil_r in HD. apply HD; [constructor|lia].
Qed.

(** Messages whose frames can be sent. *)
Definition sendable_all (ms : list Message) : Prop := Forall (fun m => message_ok m /\ zlen (payload_wire m) < 2 ^ 30) ms.

Lemma carried_sendable masked ms fs : Forall2 (carries masked) ms fs -> sendable_all ms.
Proof. induction 1 as [|m f ms fs (? & ? & _) _ IH]; constructor; auto. Qed.

Lemma serves_replied lang0 ms rs lang : sendable_all ms -> serves lang0 (map content ms) rs lang -> replied lang0 (map relevant ms) rs lang.
Proof.
  intros Hms Hsv. remember (map content ms) as ps eqn:Eps. revert ms Hms Eps.
  induction Hsv as [|ps rs lang p now _ IH]; intros ms Hms Eps; [by destruct ms; [constructor|]|].
  destruct ms as [|m ms _] using rev_ind; [by destruct ps|]. rewrite map_app in *. apply app_inj_tail in Eps as [-> ->].
  apply Forall_app in Hms as [Hms [[Hm Hl] _]%Forall_cons_1]. unfold answer_to, lang_after. rewrite decode_content by done.
  replace (match reply_to now lang (relevant m) with Some r => [r] | None => [] end) with (option_list (reply_to now lang (relevant m)))
    by (by destruct (reply_to _ _ _)). by apply rp_snoc, IH.
Qed.

Lemma client_answers ms : sendable_all ms -> concat (map client_answer (map content ms)) = omap client_reply (map relevant ms).
Proof.
  induction 1 as [|m ms [Hm Hl] _ IH]; [done|]. cbn [map concat omap list_omap]. rewrite IH. unfold client_answer. rewrite decode_content by done.
  by destruct (client_reply (relevant m)).
Qed.

(** What one side has served of what the other has sent. *)
Lemma heard_sent {W} `{Sys W} em in0 ps outs fs : quiet_peer W -> heard (W := W) em in0 ps -> Forall2 (carries em) outs fs -> in0 `prefix_of` concat fs ->
  exists n, ps = map content (take n outs).
Proof.
  intros Hq (gs & total & Ha & [_ Ht] & Hw) HF Hin. rewrite (Ht Hq) in Hw.
  destruct (assembled_sent em ps gs outs fs Ha HF) as [rest E]; [by etrans|]. exists (length ps).
  rewrite <- firstn_map, E. by rewrite take_app_length.
Qed.

(** The language after a HELLO that no other HELLO follows. *)
Lemma replied_lang lang0 hello ms rs lang : replied lang0 (hello :: ms) rs lang -> type hello = MSG_HELLO -> Forall (fun m => type m <> MSG_HELLO) ms ->
  lang = clientLanguage hello.
Proof.
  intros Hr Hh. remember (hello :: ms) as all eqn:Eall. revert ms Eall. induction Hr as [|ms' rs lang m now _ IH]; intros ms Eall Hms; [done|].
  destruct ms as [|x ms _] using rev_ind.
  - assert (ms' = [] /\ m = hello) as [-> ->] by (apply (app_inj_tail ms' [] m hello Eall)). by rewrite Hh.
  - rewrite app_comm_cons in Eall. apply app_inj_tail in Eall as [-> ->]. apply Forall_app in Hms as [Hms [Hx _]%Forall_cons_1].
    rewrite (proj2 (Z.eqb_neq _ _)) by done. by apply IH with ms.
Qed.

(** What the client sends after its HELLO, as it arrives, is no HELLO. *)
Lemma later_no_hello m : later m -> type (relevant m) <> MSG_HELLO.
Proof. unfold later, answer. intros [[E|E]|E]; unfold relevant; rewrite E; cbn; rewrite ?E; done. Qed.

Lemma content_relevant ms ms' : sendable_all ms -> sendable_all ms' -> map content ms = map content ms' -> map relevant ms = map relevant ms'.
Proof.
  intros Hs Hs' E. assert (forall l, sendable_all l -> map (fun p => decodeMessage p (zlen p)) (map content l) = map Ok (map relevant l)) as Hd.
  { induction 1 as [|m l [Hm Hl] _ IH]; [done|]. cbn [map]. by rewrite IH, decode_content. }
  pose proof (Hd ms Hs) as H1. rewrite E, (Hd ms' Hs') in H1. apply (f_equal (map (fun r => match r with Ok m => m | _ => new_message 0 end))) in H1.
  by rewrite !(map_map Ok), !map_id in H1.
Qed.

(** The messages of the client, as they arrive: HELLO first, and once. *)
Lemma client_hello_first {W} `{SysLaws W} c k0 (w : W) k w' up ups : client_begin = Ok k0 -> rtc (cplain c) (k0, w) (k, w') ->
  k_lock k = false -> 0 < room c w' -> Forall2 (carries true) up ups -> outgoing c w' = outgoing c w ++ concat ups ->
  up = [] \/ exists rest, map relevant up = hello_message :: rest /\ Forall (fun m => type m <> MSG_HELLO) rest.
Proof.
  intros Hb Hr Hlock Hroom HF Ho. destruct (cplains_tell c _ _ _ Hr (begin_local k0 Hb) (begin_tells c k0 w Hb)) as (Hl & ms & Hc & Hs).
  cbn [fst snd] in *. pose proof (cl_lock k Hl) as Hlen. rewrite Hlock in Hlen. apply nil_length_inv in Hlen.
  destruct (stream_out _ _ _ _ _ _ _ Hs) as (fs & p & HF' & Ho' & _ & Hfree); [rewrite Hlen; cbn; lia|by apply cholders_ok|].
  rewrite (Hfree Hlen Hroom), app_nil_r, Ho in Ho'. apply app_inv_head in Ho'.
  pose proof (carried_unique _ _ _ _ _ HF HF' Ho') as Ec. apply content_relevant in Ec; [|by eapply carried_sendable..].
  destruct (chat_opens _ _ _ _ Hc) as [->|(rest & -> & Hrest)]; [left; by destruct up|right].
  exists (map relevant rest). rewrite Ec. split; [done|]. apply Forall_map. eapply Forall_impl; [exact Hrest|]. apply later_no_hello.
Qed.

Section agreement.
Context {Wc Ws : Type} `{SysLaws Wc} `{SysLaws Ws} (c sock : Z).

(** A run of the client and a run of a session on two ends of a connection:
    neither end is in the middle of a frame or cut off, and what each end has
    to read is what the other end has written, or the first part of it. *)
Record connected (wc wc' : Wc) (k : client) (ws ws' : Ws) (s : sess) : Prop := {
  cn_client : k_lock k = false /\ 0 < room c wc';
  cn_server : c_lock s = false /\ 0 < room sock ws';
  cn_up : outgoing c wc ++ incoming sock ws `prefix_of` outgoing c wc';
  cn_down : outgoing sock ws ++ incoming c wc `prefix_of` outgoing sock ws';
}.
End agreement.


(** HELLO and BONJOUR, both ends back at the top of their loops; the client's
    mask is the one its generator draws. *)
Definition down_bytes : bytes := message_wire bonjour.
Definition up_bytes : bytes :=
  wire (data_frame (Some [250; 255; 182; 92]) (content hello_message)).

